(** * Verification of the image engine of attack-breaker (raylib's rtextures)

    A shallow embedding of the pixel codec, the image buffer operations
    (crop, format conversion, canvas resize), the compositor and the drawing
    primitives of [rtextures.c], followed by the properties established
    about them.

    Conventions of the embedding.
    - A C [int] is a [Z] kept in the signed 32-bit range: every arithmetic
      operation of the source is followed by [int], the two's complement
      wrap-around.  [unsigned char], [unsigned short] and [unsigned int]
      values are reduced with [uchar], [ushort] and [uint].
    - A C [float] is an IEEE-754 binary32 number, modelled exactly with the
      Standard Library's [SpecFloat] at precision 24 and maximal exponent 128
      (every operation rounds to nearest even, no extended precision, no
      fused multiply-add).
    - A heap block is a list of [memval]; [RL_MALLOC] returns undefined
      bytes, [RL_CALLOC] zero bytes.  Every access outside a block, through
      a null pointer, or reading an undefined byte through the codec is a
      fault, and a faulting function returns [None]. *)

From Stdlib Require Import ZArith Lia Bool.
From Stdlib Require Import Floats.SpecFloat.
From stdpp Require Import base list option.

Local Open Scope Z_scope.

(** ** Machine integers *)

Definition int (z : Z) : Z := (z + 2147483648) mod 4294967296 - 2147483648.
Definition uint (z : Z) : Z := z mod 4294967296.
Definition ushort (z : Z) : Z := z mod 65536.
Definition uchar (z : Z) : Z := z mod 256.
Definition size_t (z : Z) : Z := z mod 18446744073709551616.

Definition INT_MIN : Z := -2147483648.
Definition INT_MAX : Z := 2147483647.

(** ** The error monad of memory faults *)

Definition bind {A B : Type} (m : option A) (k : A -> option B) : option B :=
  match m with
  | Some a => k a
  | None => None
  end.

Notation "'do' x <- m ; k" := (bind m (fun x => k))
  (at level 10, x name, m at level 100, k at level 200).
Notation "'do' ' p <- m ; k" := (bind m (fun x => match x with p => k end))
  (at level 10, p pattern, m at level 100, k at level 200).

(** [for (i = lo; i < hi; i++) body], threading the loop state [s]. *)
Fixpoint for_loop {S : Type} (n : nat) (i : Z) (body : Z -> S -> option S) (s : S)
  : option S :=
  match n with
  | O => Some s
  | Datatypes.S n' => do s' <- body i s; for_loop n' (i + 1) body s'
  end.

Definition for_range {S : Type} (lo hi : Z) (body : Z -> S -> option S) (s : S)
  : option S :=
  for_loop (Z.to_nat (hi - lo)) lo body s.

(** ** binary32 floating point *)

Module F32.

Definition float : Type := spec_float.

Definition prec : Z := 24.
Definition emax : Z := 128.

Definition add : float -> float -> float := SFadd prec emax.
Definition sub : float -> float -> float := SFsub prec emax.
Definition mul : float -> float -> float := SFmul prec emax.
Definition div : float -> float -> float := SFdiv prec emax.
Definition neg : float -> float := SFopp.
Definition ltb : float -> float -> bool := SFltb.
Definition gtb (x y : float) : bool := SFltb y x.

(** [(float)z] of an integer [z]. *)
Definition of_int (z : Z) : float := binary_normalize prec emax z 0 false.

(** The integer part of a finite float (truncation towards zero). *)
Definition trunc (x : float) : option Z :=
  match x with
  | S754_zero _ => Some 0
  | S754_finite s m e =>
      let a := match e with
               | Zneg p => Z.shiftr (Zpos m) (Zpos p)
               | _ => Z.shiftl (Zpos m) e
               end in
      Some (if s then - a else a)
  | _ => None
  end.

(** [(int)x]: truncation; a value that does not fit (or a NaN) converts to
    [INT_MIN], as the conversion instruction of x86 does. *)
Definition to_int (x : float) : Z :=
  match trunc x with
  | Some z => if (INT_MIN <=? z) && (z <=? INT_MAX) then z else INT_MIN
  | None => INT_MIN
  end.

(** [(unsigned char)x]: conversion to [int], then the low eight bits. *)
Definition to_uchar (x : float) : Z := uchar (to_int x).

(** [round(x)] of math.h (halfway cases away from zero), converted to
    [int]; the promotion of [x] to double is exact. *)
Definition round (x : float) : Z :=
  match x with
  | S754_zero _ => 0
  | S754_finite s m e =>
      let a := match e with
               | Zneg p =>
                   Z.shiftr (Zpos m + Z.shiftl 1 (Zpos p - 1)) (Zpos p)
               | _ => Z.shiftl (Zpos m) e
               end in
      let z := if s then - a else a in
      if (INT_MIN <=? z) && (z <=? INT_MAX) then z else INT_MIN
  | _ => INT_MIN
  end.

(** The bit pattern of a float, and back (NaN payloads are not kept). *)
Definition to_bits (x : float) : Z :=
  let sign (s : bool) := if s then 2147483648 else 0 in
  match x with
  | S754_zero s => sign s
  | S754_infinity s => sign s + 2139095040
  | S754_nan => 2143289344
  | S754_finite s m e =>
      if Zpos m <? 8388608 then sign s + Zpos m
      else sign s + Z.shiftl (e + 150) 23 + (Zpos m - 8388608)
  end.

Definition of_bits (b : Z) : float :=
  let s := Z.testbit b 31 in
  let e := Z.land (Z.shiftr b 23) 255 in
  let m := Z.land b 8388607 in
  if e =? 0 then
    match m with
    | Zpos p => S754_finite s p (-149)
    | _ => S754_zero s
    end
  else if e =? 255 then
    (if m =? 0 then S754_infinity s else S754_nan)
  else
    match m + 8388608 with
    | Zpos p => S754_finite s p (e - 150)
    | _ => S754_nan
    end.

(** Decimal literals: the float nearest to [n/d]. *)
Definition lit (n d : Z) : float := div (of_int n) (of_int d).

End F32.

Abbreviation float := F32.float.

(** ** Memory blocks *)

Inductive memval : Type :=
  | Undef
  | Byte (b : Z).

Abbreviation buffer := (list memval).

Definition RL_MALLOC (size : Z) : option buffer :=
  if size <? 9223372036854775808 then Some (replicate (Z.to_nat size) Undef)
  else None.

Definition RL_CALLOC (size : Z) : option buffer :=
  if size <? 9223372036854775808 then Some (replicate (Z.to_nat size) (Byte 0))
  else None.

(** [memcpy(dst + doff, src + soff, n)]; [n] has been converted to [size_t],
    so a negative [int] length is a huge one and faults. *)
Definition memcpy (dst : buffer) (doff : Z) (src : buffer) (soff : Z) (n : Z)
  : option buffer :=
  if (0 <=? doff) && (0 <=? soff) && (0 <=? n)
     && (doff + n <=? Z.of_nat (length dst))
     && (soff + n <=? Z.of_nat (length src))
  then Some (list_inserts (Z.to_nat doff)
               (take (Z.to_nat n) (drop (Z.to_nat soff) src)) dst)
  else None.

Definition load_uchar (m : buffer) (off : Z) : option Z :=
  if off <? 0 then None
  else match m !! Z.to_nat off with
       | Some (Byte b) => Some b
       | _ => None
       end.

Definition store_uchar (m : buffer) (off : Z) (v : Z) : option buffer :=
  if (0 <=? off) && (off <? Z.of_nat (length m))
  then Some (<[Z.to_nat off := Byte (uchar v)]> m)
  else None.

(** Little-endian 16-bit and 32-bit accesses. *)
Definition load_ushort (m : buffer) (off : Z) : option Z :=
  do b0 <- load_uchar m off;
  do b1 <- load_uchar m (off + 1);
  Some (b0 + 256 * b1).

Definition store_ushort (m : buffer) (off : Z) (v : Z) : option buffer :=
  do m <- store_uchar m off v;
  store_uchar m (off + 1) (Z.shiftr v 8).

Definition load_uint (m : buffer) (off : Z) : option Z :=
  do b0 <- load_uchar m off;
  do b1 <- load_uchar m (off + 1);
  do b2 <- load_uchar m (off + 2);
  do b3 <- load_uchar m (off + 3);
  Some (b0 + 256 * b1 + 65536 * b2 + 16777216 * b3).

Definition store_uint (m : buffer) (off : Z) (v : Z) : option buffer :=
  do m <- store_uchar m off v;
  do m <- store_uchar m (off + 1) (Z.shiftr v 8);
  do m <- store_uchar m (off + 2) (Z.shiftr v 16);
  store_uchar m (off + 3) (Z.shiftr v 24).

Definition load_float (m : buffer) (off : Z) : option float :=
  do b <- load_uint m off; Some (F32.of_bits b).

Definition store_float (m : buffer) (off : Z) (x : float) : option buffer :=
  store_uint m off (F32.to_bits x).

(** ** Data model *)

(** Modelled from the spec: the [PixelFormat] enumeration.  It is declared in
    raylib.h, which is not part of the sources at hand; section 3 of the
    specification lists ten uncompressed encodings followed by the tag range
    of the compressed block formats (DXT1/3/5, ETC1/2, PVRT, ASTC 4x4/8x8).
    The tags are numbered from 1 in the order of raylib's declaration; the
    code depends on them only through equality tests and through the
    comparisons with [PIXELFORMAT_COMPRESSED_DXT1_RGB],
    [PIXELFORMAT_COMPRESSED_DXT3_RGBA] and
    [PIXELFORMAT_COMPRESSED_ASTC_8x8_RGBA]. *)
Definition PIXELFORMAT_UNCOMPRESSED_GRAYSCALE : Z := 1.
Definition PIXELFORMAT_UNCOMPRESSED_GRAY_ALPHA : Z := 2.
Definition PIXELFORMAT_UNCOMPRESSED_R5G6B5 : Z := 3.
Definition PIXELFORMAT_UNCOMPRESSED_R8G8B8 : Z := 4.
Definition PIXELFORMAT_UNCOMPRESSED_R5G5B5A1 : Z := 5.
Definition PIXELFORMAT_UNCOMPRESSED_R4G4B4A4 : Z := 6.
Definition PIXELFORMAT_UNCOMPRESSED_R8G8B8A8 : Z := 7.
Definition PIXELFORMAT_UNCOMPRESSED_R32 : Z := 8.
Definition PIXELFORMAT_UNCOMPRESSED_R32G32B32 : Z := 9.
Definition PIXELFORMAT_UNCOMPRESSED_R32G32B32A32 : Z := 10.
Definition PIXELFORMAT_COMPRESSED_DXT1_RGB : Z := 11.
Definition PIXELFORMAT_COMPRESSED_DXT1_RGBA : Z := 12.
Definition PIXELFORMAT_COMPRESSED_DXT3_RGBA : Z := 13.
Definition PIXELFORMAT_COMPRESSED_DXT5_RGBA : Z := 14.
Definition PIXELFORMAT_COMPRESSED_ETC1_RGB : Z := 15.
Definition PIXELFORMAT_COMPRESSED_ETC2_RGB : Z := 16.
Definition PIXELFORMAT_COMPRESSED_ETC2_EAC_RGBA : Z := 17.
Definition PIXELFORMAT_COMPRESSED_PVRT_RGB : Z := 18.
Definition PIXELFORMAT_COMPRESSED_PVRT_RGBA : Z := 19.
Definition PIXELFORMAT_COMPRESSED_ASTC_4x4_RGBA : Z := 20.
Definition PIXELFORMAT_COMPRESSED_ASTC_8x8_RGBA : Z := 21.

Definition PIXELFORMAT_UNCOMPRESSED_R5G5B5A1_ALPHA_THRESHOLD : Z := 50.

(** [Color]: four [unsigned char] channels. *)
Record Color : Type := mkColor { r : Z; g : Z; b : Z; a : Z }.

(** [Vector4]: four floats. *)
Record Vector4 : Type := mkVector4 { v_x : float; v_y : float; v_z : float; v_w : float }.

(** [Rectangle]: four floats. *)
Record Rectangle : Type :=
  mkRectangle { rec_x : float; rec_y : float; rec_width : float; rec_height : float }.

(** [Image]: the pixel block ([None] is the null pointer) and its metadata. *)
Record Image : Type :=
  mkImage { data : option buffer; width : Z; height : Z; mipmaps : Z; format : Z }.

(** Modelled from the spec: the colour constant [WHITE] of raylib.h, opaque
    white. *)
Definition WHITE : Color := mkColor 255 255 255 255.

(** ** Pixel codec *)

Definition bits_per_pixel (format : Z) : Z :=
  if format =? PIXELFORMAT_UNCOMPRESSED_GRAYSCALE then 8
  else if (format =? PIXELFORMAT_UNCOMPRESSED_GRAY_ALPHA)
          || (format =? PIXELFORMAT_UNCOMPRESSED_R5G6B5)
          || (format =? PIXELFORMAT_UNCOMPRESSED_R5G5B5A1)
          || (format =? PIXELFORMAT_UNCOMPRESSED_R4G4B4A4) then 16
  else if format =? PIXELFORMAT_UNCOMPRESSED_R8G8B8A8 then 32
  else if format =? PIXELFORMAT_UNCOMPRESSED_R8G8B8 then 24
  else if format =? PIXELFORMAT_UNCOMPRESSED_R32 then 32
  else if format =? PIXELFORMAT_UNCOMPRESSED_R32G32B32 then int (32 * 3)
  else if format =? PIXELFORMAT_UNCOMPRESSED_R32G32B32A32 then int (32 * 4)
  else if (format =? PIXELFORMAT_COMPRESSED_DXT1_RGB)
          || (format =? PIXELFORMAT_COMPRESSED_DXT1_RGBA)
          || (format =? PIXELFORMAT_COMPRESSED_ETC1_RGB)
          || (format =? PIXELFORMAT_COMPRESSED_ETC2_RGB)
          || (format =? PIXELFORMAT_COMPRESSED_PVRT_RGB)
          || (format =? PIXELFORMAT_COMPRESSED_PVRT_RGBA) then 4
  else if (format =? PIXELFORMAT_COMPRESSED_DXT3_RGBA)
          || (format =? PIXELFORMAT_COMPRESSED_DXT5_RGBA)
          || (format =? PIXELFORMAT_COMPRESSED_ETC2_EAC_RGBA)
          || (format =? PIXELFORMAT_COMPRESSED_ASTC_4x4_RGBA) then 8
  else if format =? PIXELFORMAT_COMPRESSED_ASTC_8x8_RGBA then 2
  else 0.

Definition GetPixelDataSize (width height format : Z) : Z :=
  let bpp := bits_per_pixel format in
  let dataSize := int (int (width * height) * bpp) ÷ 8 in
  if (width <? 4) && (height <? 4) then
    if (PIXELFORMAT_COMPRESSED_DXT1_RGB <=? format)
       && (format <? PIXELFORMAT_COMPRESSED_DXT3_RGBA) then 8
    else if (PIXELFORMAT_COMPRESSED_DXT3_RGBA <=? format)
            && (format <? PIXELFORMAT_COMPRESSED_ASTC_8x8_RGBA) then 16
    else dataSize
  else dataSize.

(** The tint of a source channel: [(unsigned char)((c*(t + 1)) >> 8)]. *)
Definition tint_channel (c t : Z) : Z :=
  uchar (Z.shiftr (uint (uint c * uint (uint t + 1))) 8).

(** The blended channel before its conversion to [unsigned char]. *)
Definition blend_channel (srcC dstC dstA alpha outA : Z) : Z :=
  Z.shiftr
    (uint (uint (uint (uint (uint srcC * alpha) * 256)
                 + uint (uint (uint dstC * uint dstA) * uint (256 - alpha)))
           ÷ uint outA)) 8.

Definition ColorAlphaBlend (dst src tint : Color) : Color :=
  let out := WHITE in
  let src := mkColor (tint_channel (r src) (r tint)) (tint_channel (g src) (g tint))
                     (tint_channel (b src) (b tint)) (tint_channel (a src) (a tint)) in
  if a src =? 0 then dst
  else if a src =? 255 then src
  else
    let alpha := uint (uint (a src) + 1) in
    let out_a :=
      uchar (Z.shiftr (uint (uint (alpha * 256) + uint (uint (a dst) * uint (256 - alpha)))) 8) in
    if 0 <? out_a then
      mkColor (uchar (blend_channel (r src) (r dst) (a dst) alpha out_a))
              (uchar (blend_channel (g src) (g dst) (a dst) alpha out_a))
              (uchar (blend_channel (b src) (b dst) (a dst) alpha out_a))
              out_a
    else mkColor (r out) (g out) (b out) out_a.

(** The grey level written for a colour:
    [(unsigned char)((coln.x*0.299f + coln.y*0.587f + coln.z*0.114f)*255.0f)]. *)
Definition normalized (c : Z) : float := F32.div (F32.of_int c) (F32.of_int 255).

Definition luma (x y z : float) : float :=
  F32.add (F32.add (F32.mul x (F32.lit 299 1000)) (F32.mul y (F32.lit 587 1000)))
          (F32.mul z (F32.lit 114 1000)).

Definition gray_of (color : Color) : Z :=
  F32.to_uchar
    (F32.mul (luma (normalized (r color)) (normalized (g color)) (normalized (b color)))
             (F32.of_int 255)).

(** [(unsigned char)(round(coln*max))]. *)
Definition quantize (c : Z) (max : Z) : Z :=
  uchar (F32.round (F32.mul (normalized c) (F32.of_int max))).

Definition alpha_bit (c : Z) : Z :=
  if F32.gtb (normalized c)
       (F32.div (F32.of_int PIXELFORMAT_UNCOMPRESSED_R5G5B5A1_ALPHA_THRESHOLD)
                (F32.of_int 255))
  then 1 else 0.

Definition pack_r5g6b5 (r g b : Z) : Z :=
  ushort (Z.lor (Z.lor (Z.shiftl r 11) (Z.shiftl g 5)) b).
Definition pack_r5g5b5a1 (r g b a : Z) : Z :=
  ushort (Z.lor (Z.lor (Z.lor (Z.shiftl r 11) (Z.shiftl g 6)) (Z.shiftl b 1)) a).
Definition pack_r4g4b4a4 (r g b a : Z) : Z :=
  ushort (Z.lor (Z.lor (Z.lor (Z.shiftl r 12) (Z.shiftl g 8)) (Z.shiftl b 4)) a).

Definition GetPixelColor (srcPtr : buffer) (off : Z) (format : Z) : option Color :=
  let color := mkColor 0 0 0 0 in
  if format =? PIXELFORMAT_UNCOMPRESSED_GRAYSCALE then
    do v <- load_uchar srcPtr off; Some (mkColor v v v 255)
  else if format =? PIXELFORMAT_UNCOMPRESSED_GRAY_ALPHA then
    do v <- load_uchar srcPtr off;
    do v1 <- load_uchar srcPtr (off + 1);
    Some (mkColor v v v v1)
  else if format =? PIXELFORMAT_UNCOMPRESSED_R5G6B5 then
    do p <- load_ushort srcPtr off;
    Some (mkColor (uchar (int (Z.shiftr p 11 * 255) ÷ 31))
                  (uchar (int (Z.land (Z.shiftr p 5) 63 * 255) ÷ 63))
                  (uchar (int (Z.land p 31 * 255) ÷ 31))
                  255)
  else if format =? PIXELFORMAT_UNCOMPRESSED_R5G5B5A1 then
    do p <- load_ushort srcPtr off;
    Some (mkColor (uchar (int (Z.shiftr p 11 * 255) ÷ 31))
                  (uchar (int (Z.land (Z.shiftr p 6) 31 * 255) ÷ 31))
                  (uchar (int (Z.land p 31 * 255) ÷ 31))
                  (if Z.land p 1 =? 0 then 0 else 255))
  else if format =? PIXELFORMAT_UNCOMPRESSED_R4G4B4A4 then
    do p <- load_ushort srcPtr off;
    Some (mkColor (uchar (int (Z.shiftr p 12 * 255) ÷ 15))
                  (uchar (int (Z.land (Z.shiftr p 8) 15 * 255) ÷ 15))
                  (uchar (int (Z.land (Z.shiftr p 4) 15 * 255) ÷ 15))
                  (uchar (int (Z.land p 15 * 255) ÷ 15)))
  else if format =? PIXELFORMAT_UNCOMPRESSED_R8G8B8A8 then
    do v0 <- load_uchar srcPtr off;
    do v1 <- load_uchar srcPtr (off + 1);
    do v2 <- load_uchar srcPtr (off + 2);
    do v3 <- load_uchar srcPtr (off + 3);
    Some (mkColor v0 v1 v2 v3)
  else if format =? PIXELFORMAT_UNCOMPRESSED_R8G8B8 then
    do v0 <- load_uchar srcPtr off;
    do v1 <- load_uchar srcPtr (off + 1);
    do v2 <- load_uchar srcPtr (off + 2);
    Some (mkColor v0 v1 v2 255)
  else if format =? PIXELFORMAT_UNCOMPRESSED_R32 then
    do f0 <- load_float srcPtr off;
    let v := F32.to_uchar (F32.mul f0 (F32.of_int 255)) in
    Some (mkColor v v v 255)
  else if format =? PIXELFORMAT_UNCOMPRESSED_R32G32B32 then
    do f0 <- load_float srcPtr off;
    do f1 <- load_float srcPtr (off + 4);
    do f2 <- load_float srcPtr (off + 8);
    Some (mkColor (F32.to_uchar (F32.mul f0 (F32.of_int 255)))
                  (F32.to_uchar (F32.mul f1 (F32.of_int 255)))
                  (F32.to_uchar (F32.mul f2 (F32.of_int 255)))
                  255)
  else if format =? PIXELFORMAT_UNCOMPRESSED_R32G32B32A32 then
    do f0 <- load_float srcPtr off;
    do f1 <- load_float srcPtr (off + 4);
    do f2 <- load_float srcPtr (off + 8);
    do f3 <- load_float srcPtr (off + 12);
    Some (mkColor (F32.to_uchar (F32.mul f0 (F32.of_int 255)))
                  (F32.to_uchar (F32.mul f1 (F32.of_int 255)))
                  (F32.to_uchar (F32.mul f2 (F32.of_int 255)))
                  (F32.to_uchar (F32.mul f3 (F32.of_int 255))))
  else Some color.

Definition SetPixelColor (dstPtr : buffer) (off : Z) (color : Color) (format : Z)
  : option buffer :=
  if format =? PIXELFORMAT_UNCOMPRESSED_GRAYSCALE then
    store_uchar dstPtr off (gray_of color)
  else if format =? PIXELFORMAT_UNCOMPRESSED_GRAY_ALPHA then
    do m <- store_uchar dstPtr off (gray_of color);
    store_uchar m (off + 1) (a color)
  else if format =? PIXELFORMAT_UNCOMPRESSED_R5G6B5 then
    store_ushort dstPtr off
      (pack_r5g6b5 (quantize (r color) 31) (quantize (g color) 63) (quantize (b color) 31))
  else if format =? PIXELFORMAT_UNCOMPRESSED_R5G5B5A1 then
    store_ushort dstPtr off
      (pack_r5g5b5a1 (quantize (r color) 31) (quantize (g color) 31) (quantize (b color) 31)
         (alpha_bit (a color)))
  else if format =? PIXELFORMAT_UNCOMPRESSED_R4G4B4A4 then
    store_ushort dstPtr off
      (pack_r4g4b4a4 (quantize (r color) 15) (quantize (g color) 15) (quantize (b color) 15)
         (quantize (a color) 15))
  else if format =? PIXELFORMAT_UNCOMPRESSED_R8G8B8 then
    do m <- store_uchar dstPtr off (r color);
    do m <- store_uchar m (off + 1) (g color);
    store_uchar m (off + 2) (b color)
  else if format =? PIXELFORMAT_UNCOMPRESSED_R8G8B8A8 then
    do m <- store_uchar dstPtr off (r color);
    do m <- store_uchar m (off + 1) (g color);
    do m <- store_uchar m (off + 2) (b color);
    store_uchar m (off + 3) (a color)
  else Some dstPtr.

(** ** Image buffers *)

Definition is_null (p : option buffer) : bool :=
  match p with
  | None => true
  | Some _ => false
  end.

Definition set_data (image : Image) (p : option buffer) : Image :=
  mkImage p (width image) (height image) (mipmaps image) (format image).

(** [for (i = 0; i < hi; i += step)], with the index [k] of the iteration. *)
Definition for_step {S : Type} (hi step : Z) (body : Z -> Z -> S -> option S) (s : S)
  : option S :=
  for_range 0 ((hi + step - 1) / step) (fun k => body (k * step) k) s.

Definition unpack5 (pixel : Z) (shift : Z) : float :=
  F32.mul (F32.of_int (Z.shiftr (Z.land pixel (Z.shiftl 31 shift)) shift))
          (F32.div (F32.of_int 1) (F32.of_int 31)).
Definition unpack6 (pixel : Z) (shift : Z) : float :=
  F32.mul (F32.of_int (Z.shiftr (Z.land pixel (Z.shiftl 63 shift)) shift))
          (F32.div (F32.of_int 1) (F32.of_int 63)).
Definition unpack4 (pixel : Z) (shift : Z) : float :=
  F32.mul (F32.of_int (Z.shiftr (Z.land pixel (Z.shiftl 15 shift)) shift))
          (F32.div (F32.of_int 1) (F32.of_int 15)).

Definition store_Vector4 (pixels : buffer) (i : Z) (v : Vector4) : option buffer :=
  do m <- store_float pixels (16 * i) (v_x v);
  do m <- store_float m (16 * i + 4) (v_y v);
  do m <- store_float m (16 * i + 8) (v_z v);
  store_float m (16 * i + 12) (v_w v).

Definition load_Vector4 (pixels : buffer) (i : Z) : option Vector4 :=
  do x <- load_float pixels (16 * i);
  do y <- load_float pixels (16 * i + 4);
  do z <- load_float pixels (16 * i + 8);
  do w <- load_float pixels (16 * i + 12);
  Some (mkVector4 x y z w).

Definition f_zero : float := F32.of_int 0.
Definition f_one : float := F32.of_int 1.

(** One iteration of the loop of [LoadImageDataNormalized]: the pixel [i]
    read from [src] and the next value of the byte cursor [k]. *)
Definition normalized_pixel (src : buffer) (format i k : Z) : option (option Vector4 * Z) :=
  let byte (off : Z) := do v <- load_uchar src off; Some (normalized v) in
  if format =? PIXELFORMAT_UNCOMPRESSED_GRAYSCALE then
    do x <- byte i; Some (Some (mkVector4 x x x f_one), k)
  else if format =? PIXELFORMAT_UNCOMPRESSED_GRAY_ALPHA then
    do x <- byte k; do w <- byte (int (k + 1));
    Some (Some (mkVector4 x x x w), int (k + 2))
  else if format =? PIXELFORMAT_UNCOMPRESSED_R5G5B5A1 then
    do pixel <- load_ushort src (2 * i);
    Some (Some (mkVector4 (unpack5 pixel 11) (unpack5 pixel 6) (unpack5 pixel 1)
                  (if Z.land pixel 1 =? 0 then f_zero else f_one)), k)
  else if format =? PIXELFORMAT_UNCOMPRESSED_R5G6B5 then
    do pixel <- load_ushort src (2 * i);
    Some (Some (mkVector4 (unpack5 pixel 11) (unpack6 pixel 5) (unpack5 pixel 0) f_one), k)
  else if format =? PIXELFORMAT_UNCOMPRESSED_R4G4B4A4 then
    do pixel <- load_ushort src (2 * i);
    Some (Some (mkVector4 (unpack4 pixel 12) (unpack4 pixel 8) (unpack4 pixel 4)
                  (unpack4 pixel 0)), k)
  else if format =? PIXELFORMAT_UNCOMPRESSED_R8G8B8A8 then
    do x <- byte k; do y <- byte (int (k + 1)); do z <- byte (int (k + 2));
    do w <- byte (int (k + 3));
    Some (Some (mkVector4 x y z w), int (k + 4))
  else if format =? PIXELFORMAT_UNCOMPRESSED_R8G8B8 then
    do x <- byte k; do y <- byte (int (k + 1)); do z <- byte (int (k + 2));
    Some (Some (mkVector4 x y z f_one), int (k + 3))
  else if format =? PIXELFORMAT_UNCOMPRESSED_R32 then
    do x <- load_float src (4 * k);
    Some (Some (mkVector4 x f_zero f_zero f_one), k)
  else if format =? PIXELFORMAT_UNCOMPRESSED_R32G32B32 then
    do x <- load_float src (4 * k); do y <- load_float src (4 * int (k + 1));
    do z <- load_float src (4 * int (k + 2));
    Some (Some (mkVector4 x y z f_one), int (k + 3))
  else if format =? PIXELFORMAT_UNCOMPRESSED_R32G32B32A32 then
    do x <- load_float src (4 * k); do y <- load_float src (4 * int (k + 1));
    do z <- load_float src (4 * int (k + 2)); do w <- load_float src (4 * int (k + 3));
    Some (Some (mkVector4 x y z w), int (k + 4))
  else Some (None, k).

Definition LoadImageDataNormalized (image : Image) : option (option buffer) :=
  let count := int (width image * height image) in
  let pixels := RL_MALLOC (size_t (size_t count * 16)) in
  if PIXELFORMAT_COMPRESSED_DXT1_RGB <=? format image then Some pixels
  else
    do '(pixels, _) <-
      for_range 0 count
        (fun i '(pixels, k) =>
           do src <- data image;
           do '(v, k') <- normalized_pixel src (format image) i k;
           match v with
           | Some v =>
               do m <- pixels; do m <- store_Vector4 m i v; Some (Some m, k')
           | None => Some (pixels, k')
           end)
        (pixels, 0);
    Some pixels.

(** One iteration of the loop of [LoadImageColors]. *)
Definition color_pixel (src : buffer) (format i k : Z) : option (option Color * Z) :=
  let scaled (v : Z) (ratio : Z) := F32.to_uchar (F32.mul (F32.of_int v) (F32.of_int ratio)) in
  let scaled_float (off : Z) :=
    do x <- load_float src off; Some (F32.to_uchar (F32.mul x (F32.of_int 255))) in
  if format =? PIXELFORMAT_UNCOMPRESSED_GRAYSCALE then
    do v <- load_uchar src i; Some (Some (mkColor v v v 255), k)
  else if format =? PIXELFORMAT_UNCOMPRESSED_GRAY_ALPHA then
    do v <- load_uchar src k; do v1 <- load_uchar src (int (k + 1));
    Some (Some (mkColor v v v v1), int (k + 2))
  else if format =? PIXELFORMAT_UNCOMPRESSED_R5G5B5A1 then
    do pixel <- load_ushort src (2 * i);
    Some (Some (mkColor (scaled (Z.shiftr (Z.land pixel 63488) 11) (255 ÷ 31))
                        (scaled (Z.shiftr (Z.land pixel 1984) 6) (255 ÷ 31))
                        (scaled (Z.shiftr (Z.land pixel 62) 1) (255 ÷ 31))
                        (uchar (int (Z.land pixel 1 * 255)))), k)
  else if format =? PIXELFORMAT_UNCOMPRESSED_R5G6B5 then
    do pixel <- load_ushort src (2 * i);
    Some (Some (mkColor (scaled (Z.shiftr (Z.land pixel 63488) 11) (255 ÷ 31))
                        (scaled (Z.shiftr (Z.land pixel 2016) 5) (255 ÷ 63))
                        (scaled (Z.land pixel 31) (255 ÷ 31))
                        255), k)
  else if format =? PIXELFORMAT_UNCOMPRESSED_R4G4B4A4 then
    do pixel <- load_ushort src (2 * i);
    Some (Some (mkColor (scaled (Z.shiftr (Z.land pixel 61440) 12) (255 ÷ 15))
                        (scaled (Z.shiftr (Z.land pixel 3840) 8) (255 ÷ 15))
                        (scaled (Z.shiftr (Z.land pixel 240) 4) (255 ÷ 15))
                        (scaled (Z.land pixel 15) (255 ÷ 15))), k)
  else if format =? PIXELFORMAT_UNCOMPRESSED_R8G8B8A8 then
    do v0 <- load_uchar src k; do v1 <- load_uchar src (int (k + 1));
    do v2 <- load_uchar src (int (k + 2)); do v3 <- load_uchar src (int (k + 3));
    Some (Some (mkColor v0 v1 v2 v3), int (k + 4))
  else if format =? PIXELFORMAT_UNCOMPRESSED_R8G8B8 then
    do v0 <- load_uchar src k; do v1 <- load_uchar src (int (k + 1));
    do v2 <- load_uchar src (int (k + 2));
    Some (Some (mkColor v0 v1 v2 255), int (k + 3))
  else if format =? PIXELFORMAT_UNCOMPRESSED_R32 then
    do v <- scaled_float (4 * k); Some (Some (mkColor v 0 0 255), k)
  else if format =? PIXELFORMAT_UNCOMPRESSED_R32G32B32 then
    do v0 <- scaled_float (4 * k); do v1 <- scaled_float (4 * int (k + 1));
    do v2 <- scaled_float (4 * int (k + 2));
    Some (Some (mkColor v0 v1 v2 255), int (k + 3))
  else if format =? PIXELFORMAT_UNCOMPRESSED_R32G32B32A32 then
    do v <- scaled_float (4 * k);
    Some (Some (mkColor v v v v), int (k + 4))
  else Some (None, k).

Definition store_Color (pixels : buffer) (i : Z) (c : Color) : option buffer :=
  do m <- store_uchar pixels (4 * i) (r c);
  do m <- store_uchar m (4 * i + 1) (g c);
  do m <- store_uchar m (4 * i + 2) (b c);
  store_uchar m (4 * i + 3) (a c).

Definition LoadImageColors (image : Image) : option (option buffer) :=
  if (width image =? 0) || (height image =? 0) then Some None
  else
    let count := int (width image * height image) in
    let pixels := RL_MALLOC (size_t (size_t count * 4)) in
    if PIXELFORMAT_COMPRESSED_DXT1_RGB <=? format image then Some pixels
    else
      do '(pixels, _) <-
        for_range 0 count
          (fun i '(pixels, k) =>
             do src <- data image;
             do '(c, k') <- color_pixel src (format image) i k;
             match c with
             | Some c =>
                 do m <- pixels; do m <- store_Color m i c; Some (Some m, k')
             | None => Some (pixels, k')
             end)
          (pixels, 0);
      Some pixels.

(** The bytes written at index [i] of the target array by the loop of
    [ImageFormat] that re-encodes the normalized pixel [p] into [newFormat]. *)
Definition ImageFormat_store (newFormat : Z) (out : buffer) (i : Z) (p : Vector4)
  : option buffer :=
  let scale255 (x : float) := F32.to_uchar (F32.mul x (F32.of_int 255)) in
  let rounded (x : float) (max : Z) := uchar (F32.round (F32.mul x (F32.of_int max))) in
  let gray := F32.to_uchar (F32.mul (luma (v_x p) (v_y p) (v_z p)) (F32.of_int 255)) in
  if newFormat =? PIXELFORMAT_UNCOMPRESSED_GRAYSCALE then
    store_uchar out i gray
  else if newFormat =? PIXELFORMAT_UNCOMPRESSED_GRAY_ALPHA then
    do m <- store_uchar out i gray;
    store_uchar m (int (i + 1)) (scale255 (v_w p))
  else if newFormat =? PIXELFORMAT_UNCOMPRESSED_R5G6B5 then
    store_ushort out (2 * i)
      (pack_r5g6b5 (rounded (v_x p) 31) (rounded (v_y p) 63) (rounded (v_z p) 31))
  else if newFormat =? PIXELFORMAT_UNCOMPRESSED_R8G8B8 then
    do m <- store_uchar out i (scale255 (v_x p));
    do m <- store_uchar m (int (i + 1)) (scale255 (v_y p));
    store_uchar m (int (i + 2)) (scale255 (v_z p))
  else if newFormat =? PIXELFORMAT_UNCOMPRESSED_R5G5B5A1 then
    store_ushort out (2 * i)
      (pack_r5g5b5a1 (rounded (v_x p) 31) (rounded (v_y p) 31) (rounded (v_z p) 31)
         (if F32.gtb (v_w p)
               (F32.div (F32.of_int PIXELFORMAT_UNCOMPRESSED_R5G5B5A1_ALPHA_THRESHOLD)
                        (F32.of_int 255))
          then 1 else 0))
  else if newFormat =? PIXELFORMAT_UNCOMPRESSED_R4G4B4A4 then
    store_ushort out (2 * i)
      (pack_r4g4b4a4 (rounded (v_x p) 15) (rounded (v_y p) 15) (rounded (v_z p) 15)
         (rounded (v_w p) 15))
  else if newFormat =? PIXELFORMAT_UNCOMPRESSED_R8G8B8A8 then
    do m <- store_uchar out i (scale255 (v_x p));
    do m <- store_uchar m (int (i + 1)) (scale255 (v_y p));
    do m <- store_uchar m (int (i + 2)) (scale255 (v_z p));
    store_uchar m (int (i + 3)) (scale255 (v_w p))
  else if newFormat =? PIXELFORMAT_UNCOMPRESSED_R32 then
    store_float out (4 * i) (luma (v_x p) (v_y p) (v_z p))
  else if newFormat =? PIXELFORMAT_UNCOMPRESSED_R32G32B32 then
    do m <- store_float out (4 * i) (v_x p);
    do m <- store_float m (4 * int (i + 1)) (v_y p);
    store_float m (4 * int (i + 2)) (v_z p)
  else if newFormat =? PIXELFORMAT_UNCOMPRESSED_R32G32B32A32 then
    do m <- store_float out (4 * i) (v_x p);
    do m <- store_float m (4 * int (i + 1)) (v_y p);
    do m <- store_float m (4 * int (i + 2)) (v_z p);
    store_float m (4 * int (i + 3)) (v_w p)
  else Some out.

(** Channels per pixel stepped over by the loop of each target format, and
    the size of one element of the target array. *)
Definition ImageFormat_step (newFormat : Z) : Z :=
  if newFormat =? PIXELFORMAT_UNCOMPRESSED_GRAY_ALPHA then 2
  else if (newFormat =? PIXELFORMAT_UNCOMPRESSED_R8G8B8)
          || (newFormat =? PIXELFORMAT_UNCOMPRESSED_R32G32B32) then 3
  else if (newFormat =? PIXELFORMAT_UNCOMPRESSED_R8G8B8A8)
          || (newFormat =? PIXELFORMAT_UNCOMPRESSED_R32G32B32A32) then 4
  else 1.

Definition ImageFormat_sizeof (newFormat : Z) : Z :=
  if (newFormat =? PIXELFORMAT_UNCOMPRESSED_R5G6B5)
     || (newFormat =? PIXELFORMAT_UNCOMPRESSED_R5G5B5A1)
     || (newFormat =? PIXELFORMAT_UNCOMPRESSED_R4G4B4A4) then 2
  else if (newFormat =? PIXELFORMAT_UNCOMPRESSED_R32)
          || (newFormat =? PIXELFORMAT_UNCOMPRESSED_R32G32B32)
          || (newFormat =? PIXELFORMAT_UNCOMPRESSED_R32G32B32A32) then 4
  else 1.

Definition ImageFormat (image : Image) (newFormat : Z) : option Image :=
  if is_null (data image) || (width image =? 0) || (height image =? 0) then Some image
  else if negb (newFormat =? 0) && negb (format image =? newFormat) then
    if (format image <? PIXELFORMAT_COMPRESSED_DXT1_RGB)
       && (newFormat <? PIXELFORMAT_COMPRESSED_DXT1_RGB)
    then
      do pixels <- LoadImageDataNormalized image;
      let mipmaps' := if 1 <? mipmaps image then 1 else mipmaps image in
      if (PIXELFORMAT_UNCOMPRESSED_GRAYSCALE <=? newFormat)
         && (newFormat <=? PIXELFORMAT_UNCOMPRESSED_R32G32B32A32)
      then
        let step := ImageFormat_step newFormat in
        let count := int (int (width image * height image) * step) in
        let out := RL_MALLOC (size_t (size_t count * ImageFormat_sizeof newFormat)) in
        do out <-
          for_step count step
            (fun i k out =>
               do px <- pixels; do p <- load_Vector4 px k;
               do m <- out; do m <- ImageFormat_store newFormat m i p; Some (Some m))
            out;
        Some (mkImage out (width image) (height image) mipmaps' newFormat)
      else Some (mkImage None (width image) (height image) mipmaps' newFormat)
    else Some image
  else Some image.

(** [ImageFromImage]: the piece [rec] of [image], not clamped. *)
Definition ImageFromImage (image : Image) (rec : Rectangle) : option Image :=
  let bytesPerPixel := GetPixelDataSize 1 1 (format image) in
  let w := F32.to_int (rec_width rec) in
  let h := F32.to_int (rec_height rec) in
  let result := RL_CALLOC (size_t (size_t (int (int (w * h) * bytesPerPixel)) * 1)) in
  do result <-
    for_range 0 h
      (fun y result =>
         do dstbuf <- result; do srcbuf <- data image;
         do m <- memcpy dstbuf (int (int (y * w) * bytesPerPixel)) srcbuf
                   (int (int (int (int (y + F32.to_int (rec_y rec)) * width image)
                              + F32.to_int (rec_x rec)) * bytesPerPixel))
                   (size_t (int (w * bytesPerPixel)));
         Some (Some m))
      result;
  Some (mkImage result w h 1 (format image)).

(** The security checks of [ImageCrop] on the crop rectangle. *)
Definition ImageCrop_clamp (image : Image) (crop : Rectangle) : Rectangle :=
  let crop :=
    if F32.ltb (rec_x crop) (F32.of_int 0)
    then mkRectangle (F32.of_int 0) (rec_y crop)
           (F32.add (rec_width crop) (rec_x crop)) (rec_height crop)
    else crop in
  let crop :=
    if F32.ltb (rec_y crop) (F32.of_int 0)
    then mkRectangle (rec_x crop) (F32.of_int 0) (rec_width crop)
           (F32.add (rec_height crop) (rec_y crop))
    else crop in
  let crop :=
    if F32.gtb (F32.add (rec_x crop) (rec_width crop)) (F32.of_int (width image))
    then mkRectangle (rec_x crop) (rec_y crop)
           (F32.sub (F32.of_int (width image)) (rec_x crop)) (rec_height crop)
    else crop in
  if F32.gtb (F32.add (rec_y crop) (rec_height crop)) (F32.of_int (height image))
  then mkRectangle (rec_x crop) (rec_y crop) (rec_width crop)
         (F32.sub (F32.of_int (height image)) (rec_y crop))
  else crop.

Definition ImageCrop (image : Image) (crop : Rectangle) : option Image :=
  if is_null (data image) || (width image =? 0) || (height image =? 0) then Some image
  else
    let crop := ImageCrop_clamp image crop in
    if F32.gtb (rec_x crop) (F32.of_int (width image))
       || F32.gtb (rec_y crop) (F32.of_int (height image))
    then Some image
    else if PIXELFORMAT_COMPRESSED_DXT1_RGB <=? format image then Some image
    else
      let bytesPerPixel := GetPixelDataSize 1 1 (format image) in
      let croppedData :=
        RL_MALLOC (size_t (int (F32.to_int (F32.mul (rec_width crop) (rec_height crop))
                                * bytesPerPixel))) in
      do '(croppedData, _) <-
        for_range (F32.to_int (rec_y crop))
          (F32.to_int (F32.add (rec_y crop) (rec_height crop)))
          (fun y '(croppedData, offsetSize) =>
             do dstbuf <- croppedData; do srcbuf <- data image;
             do m <- memcpy dstbuf offsetSize srcbuf
                       (int (int (int (y * width image) + F32.to_int (rec_x crop))
                             * bytesPerPixel))
                       (size_t (int (F32.to_int (rec_width crop) * bytesPerPixel)));
             Some (Some m, int (offsetSize + int (F32.to_int (rec_width crop) * bytesPerPixel))))
          (croppedData, 0);
      Some (mkImage croppedData (F32.to_int (rec_width crop)) (F32.to_int (rec_height crop))
              (mipmaps image) (format image)).

(** [ImageResize] delegates the resampling to stb_image_resize, an external
    collaborator: [stbir_resize_uint8 input w h stride output w' h' stride'
    channels] returns the contents of the output block. *)
Section Resampler.

Variable stbir_resize_uint8 :
  option buffer -> Z -> Z -> Z -> option buffer -> Z -> Z -> Z -> Z -> option (option buffer).

Definition ImageResize (image : Image) (newWidth newHeight : Z) : option Image :=
  if is_null (data image) || (width image =? 0) || (height image =? 0) then Some image
  else if (format image =? PIXELFORMAT_UNCOMPRESSED_GRAYSCALE)
          || (format image =? PIXELFORMAT_UNCOMPRESSED_GRAY_ALPHA)
          || (format image =? PIXELFORMAT_UNCOMPRESSED_R8G8B8)
          || (format image =? PIXELFORMAT_UNCOMPRESSED_R8G8B8A8)
  then
    let bytesPerPixel := GetPixelDataSize 1 1 (format image) in
    let output := RL_MALLOC (size_t (int (int (newWidth * newHeight) * bytesPerPixel))) in
    let channels :=
      if format image =? PIXELFORMAT_UNCOMPRESSED_GRAYSCALE then 1
      else if format image =? PIXELFORMAT_UNCOMPRESSED_GRAY_ALPHA then 2
      else if format image =? PIXELFORMAT_UNCOMPRESSED_R8G8B8 then 3
      else 4 in
    do output <- stbir_resize_uint8 (data image) (width image) (height image) 0
                   output newWidth newHeight 0 channels;
    Some (mkImage output newWidth newHeight (mipmaps image) (format image))
  else
    do pixels <- LoadImageColors image;
    let output := RL_MALLOC (size_t (size_t (int (newWidth * newHeight)) * 4)) in
    do output <- stbir_resize_uint8 pixels (width image) (height image) 0
                   output newWidth newHeight 0 4;
    ImageFormat
      (mkImage output newWidth newHeight (mipmaps image) PIXELFORMAT_UNCOMPRESSED_R8G8B8A8)
      (format image).

End Resampler.

(** The source rectangle and destination position computed by
    [ImageResizeCanvas] before it copies. *)
Definition ImageResizeCanvas_rects (image : Image) (newWidth newHeight offsetX offsetY : Z)
  : Rectangle * float * float :=
  let srcRec := mkRectangle (F32.of_int 0) (F32.of_int 0)
                  (F32.of_int (width image)) (F32.of_int (height image)) in
  let dstPos_x := F32.of_int offsetX in
  let dstPos_y := F32.of_int offsetY in
  let '(srcRec, dstPos_x) :=
    if offsetX <? 0
    then (mkRectangle (F32.of_int (int (- offsetX))) (rec_y srcRec)
            (F32.add (rec_width srcRec) (F32.of_int offsetX)) (rec_height srcRec),
          F32.of_int 0)
    else if newWidth <? int (offsetX + width image)
    then (mkRectangle (rec_x srcRec) (rec_y srcRec)
            (F32.of_int (int (newWidth - offsetX))) (rec_height srcRec), dstPos_x)
    else (srcRec, dstPos_x) in
  let '(srcRec, dstPos_y) :=
    if offsetY <? 0
    then (mkRectangle (rec_x srcRec) (F32.of_int (int (- offsetY)))
            (rec_width srcRec) (F32.add (rec_height srcRec) (F32.of_int offsetY)),
          F32.of_int 0)
    else if newHeight <? int (offsetY + height image)
    then (mkRectangle (rec_x srcRec) (rec_y srcRec) (rec_width srcRec)
            (F32.of_int (int (newHeight - offsetY))), dstPos_y)
    else (srcRec, dstPos_y) in
  let srcRec :=
    if F32.ltb (F32.of_int newWidth) (rec_width srcRec)
    then mkRectangle (rec_x srcRec) (rec_y srcRec) (F32.of_int newWidth) (rec_height srcRec)
    else srcRec in
  let srcRec :=
    if F32.ltb (F32.of_int newHeight) (rec_height srcRec)
    then mkRectangle (rec_x srcRec) (rec_y srcRec) (rec_width srcRec) (F32.of_int newHeight)
    else srcRec in
  (srcRec, dstPos_x, dstPos_y).

Definition ImageResizeCanvas (image : Image) (newWidth newHeight offsetX offsetY : Z)
    (fill : Color) : option Image :=
  if is_null (data image) || (width image =? 0) || (height image =? 0) then Some image
  else if PIXELFORMAT_COMPRESSED_DXT1_RGB <=? format image then Some image
  else if negb (newWidth =? width image) || negb (newHeight =? height image) then
    let '(srcRec, dstPos_x, dstPos_y) :=
      ImageResizeCanvas_rects image newWidth newHeight offsetX offsetY in
    let bytesPerPixel := GetPixelDataSize 1 1 (format image) in
    let resizedData :=
      RL_CALLOC (size_t (size_t (int (int (newWidth * newHeight) * bytesPerPixel)) * 1)) in
    let dstOffsetSize :=
      int (int (int (F32.to_int dstPos_y * newWidth) + F32.to_int dstPos_x) * bytesPerPixel) in
    do '(resizedData, _) <-
      for_range 0 (F32.to_int (rec_height srcRec))
        (fun y '(resizedData, dstOffsetSize) =>
           do dstbuf <- resizedData; do srcbuf <- data image;
           do m <- memcpy dstbuf dstOffsetSize srcbuf
                     (int (int (int (int (y + F32.to_int (rec_y srcRec)) * width image)
                                + F32.to_int (rec_x srcRec)) * bytesPerPixel))
                     (size_t (int (F32.to_int (rec_width srcRec) * bytesPerPixel)));
           Some (Some m, int (dstOffsetSize + int (newWidth * bytesPerPixel))))
        (resizedData, dstOffsetSize);
    Some (mkImage resizedData newWidth newHeight (mipmaps image) (format image))
  else Some image.

(** ** Drawing primitives *)

Definition ImageDrawPixel (dst : Image) (x y : Z) (color : Color) : option Image :=
  if is_null (data dst) || (x <? 0) || (width dst <=? x) || (y <? 0) || (height dst <=? y)
  then Some dst
  else
    do m <- data dst;
    let idx := int (int (y * width dst) + x) in
    let fmt := format dst in
    do m <-
      (if fmt =? PIXELFORMAT_UNCOMPRESSED_GRAYSCALE then
         store_uchar m idx (gray_of color)
       else if fmt =? PIXELFORMAT_UNCOMPRESSED_GRAY_ALPHA then
         do m <- store_uchar m (int (idx * 2)) (gray_of color);
         store_uchar m (int (int (idx * 2) + 1)) (a color)
       else if fmt =? PIXELFORMAT_UNCOMPRESSED_R5G6B5 then
         store_ushort m (2 * idx)
           (pack_r5g6b5 (quantize (r color) 31) (quantize (g color) 63)
              (quantize (b color) 31))
       else if fmt =? PIXELFORMAT_UNCOMPRESSED_R5G5B5A1 then
         store_ushort m (2 * idx)
           (pack_r5g5b5a1 (quantize (r color) 31) (quantize (g color) 31)
              (quantize (b color) 31) (alpha_bit (a color)))
       else if fmt =? PIXELFORMAT_UNCOMPRESSED_R4G4B4A4 then
         store_ushort m (2 * idx)
           (pack_r4g4b4a4 (quantize (r color) 15) (quantize (g color) 15)
              (quantize (b color) 15) (quantize (a color) 15))
       else if fmt =? PIXELFORMAT_UNCOMPRESSED_R8G8B8 then
         do m <- store_uchar m (int (idx * 3)) (r color);
         do m <- store_uchar m (int (int (idx * 3) + 1)) (g color);
         store_uchar m (int (int (idx * 3) + 2)) (b color)
       else if fmt =? PIXELFORMAT_UNCOMPRESSED_R8G8B8A8 then
         do m <- store_uchar m (int (idx * 4)) (r color);
         do m <- store_uchar m (int (int (idx * 4) + 1)) (g color);
         do m <- store_uchar m (int (int (idx * 4) + 2)) (b color);
         store_uchar m (int (int (idx * 4) + 3)) (a color)
       else if fmt =? PIXELFORMAT_UNCOMPRESSED_R32 then
         store_float m (4 * idx)
           (luma (normalized (r color)) (normalized (g color)) (normalized (b color)))
       else if fmt =? PIXELFORMAT_UNCOMPRESSED_R32G32B32 then
         do m <- store_float m (4 * int (idx * 3)) (normalized (r color));
         do m <- store_float m (4 * int (int (idx * 3) + 1)) (normalized (g color));
         store_float m (4 * int (int (idx * 3) + 2)) (normalized (b color))
       else if fmt =? PIXELFORMAT_UNCOMPRESSED_R32G32B32A32 then
         do m <- store_float m (4 * int (idx * 4)) (normalized (r color));
         do m <- store_float m (4 * int (int (idx * 4) + 1)) (normalized (g color));
         do m <- store_float m (4 * int (int (idx * 4) + 2)) (normalized (b color));
         store_float m (4 * int (int (idx * 4) + 3)) (normalized (a color))
       else Some m);
    Some (set_data dst (Some m)).

(** The security checks of [ImageDrawRectangleRec] on its rectangle. *)
Definition ImageDrawRectangleRec_clamp (rec : Rectangle) : Rectangle :=
  let rec :=
    if F32.ltb (rec_x rec) (F32.of_int 0)
    then mkRectangle (F32.of_int 0) (rec_y rec)
           (F32.sub (rec_width rec) (rec_x rec)) (rec_height rec)
    else rec in
  let rec :=
    if F32.ltb (rec_y rec) (F32.of_int 0)
    then mkRectangle (rec_x rec) (F32.of_int 0) (rec_width rec)
           (F32.sub (rec_height rec) (rec_y rec))
    else rec in
  let rec :=
    if F32.ltb (rec_width rec) (F32.of_int 0)
    then mkRectangle (rec_x rec) (rec_y rec) (F32.of_int 0) (rec_height rec)
    else rec in
  if F32.ltb (rec_height rec) (F32.of_int 0)
  then mkRectangle (rec_x rec) (rec_y rec) (rec_width rec) (F32.of_int 0)
  else rec.

Definition ImageDrawRectangleRec (dst : Image) (rec : Rectangle) (color : Color)
  : option Image :=
  if is_null (data dst) || (width dst =? 0) || (height dst =? 0) then Some dst
  else
    let rec := ImageDrawRectangleRec_clamp rec in
    let sy := F32.to_int (rec_y rec) in
    let ey := int (sy + F32.to_int (rec_height rec)) in
    let sx := F32.to_int (rec_x rec) in
    let bytesPerPixel := GetPixelDataSize 1 1 (format dst) in
    for_range sy ey
      (fun y dst =>
         do dst <- ImageDrawPixel dst sx y color;
         let bytesOffset := int (int (int (y * width dst) + sx) * bytesPerPixel) in
         for_range 1 (F32.to_int (rec_width rec))
           (fun x dst =>
              do m <- data dst;
              do m <- memcpy m (bytesOffset + int (x * bytesPerPixel)) m bytesOffset
                        (size_t bytesPerPixel);
              Some (set_data dst (Some m)))
           dst)
      dst.

Definition ImageDrawRectangle (dst : Image) (posX posY width height : Z) (color : Color)
  : option Image :=
  ImageDrawRectangleRec dst
    (mkRectangle (F32.of_int posX) (F32.of_int posY) (F32.of_int width) (F32.of_int height))
    color.

(** [while (cond) body], threading the loop state.  The loop is cut after
    [fuel] iterations: the result is [None] when the body faults or when the
    fuel runs out before the condition turns false. *)
Fixpoint while_loop {St : Type} (fuel : nat) (cond : St -> bool) (body : St -> option St)
    (s : St) : option St :=
  match fuel with
  | O => None
  | Datatypes.S fuel' =>
      if cond s then do s' <- body s; while_loop fuel' cond body s' else Some s
  end.

(** Bresenham's line.  The loop [for (u = startU + 1; u <= endU; u++)] is
    the range from [startU + 1] to [endU] included; this is what the loop
    runs through as long as [endU] is below [INT_MAX], where [u++] does not
    overflow. *)
Definition ImageDrawLine (dst : Image) (startPosX startPosY endPosX endPosY : Z)
    (color : Color) : option Image :=
  let changeInX := int (endPosX - startPosX) in
  let absChangeInX := if changeInX <? 0 then int (- changeInX) else changeInX in
  let changeInY := int (endPosY - startPosY) in
  let absChangeInY := if changeInY <? 0 then int (- changeInY) else changeInY in
  let reversedXY := absChangeInY <? absChangeInX in
  do '(dst, startU, startV, endU, stepV, A, B, P) <-
    (if reversedXY then
       let A := int (2 * absChangeInY) in
       let B := int (A - int (2 * absChangeInX)) in
       let P := int (A - absChangeInX) in
       let '(startU, startV, endU, changeInX, changeInY) :=
         if 0 <? changeInX then (startPosX, startPosY, endPosX, changeInX, changeInY)
         else (endPosX, endPosY, startPosX, int (- changeInX), int (- changeInY)) in
       let stepV := if changeInY <? 0 then -1 else 1 in
       do dst <- ImageDrawPixel dst startU startV color;
       Some (dst, startU, startV, endU, stepV, A, B, P)
     else
       let A := int (2 * absChangeInX) in
       let B := int (A - int (2 * absChangeInY)) in
       let P := int (A - absChangeInY) in
       let '(startU, startV, endU, changeInX, changeInY) :=
         if 0 <? changeInY then (startPosY, startPosX, endPosY, changeInX, changeInY)
         else (endPosY, endPosX, startPosY, int (- changeInX), int (- changeInY)) in
       let stepV := if changeInX <? 0 then -1 else 1 in
       do dst <- ImageDrawPixel dst startV startU color;
       Some (dst, startU, startV, endU, stepV, A, B, P));
  do '(dst, _, _) <-
    for_range (int (startU + 1)) (endU + 1)
      (fun u '(dst, v, P) =>
         let '(v, P) :=
           if 0 <=? P then (int (v + stepV), int (P + B)) else (v, int (P + A)) in
         do dst <- (if reversedXY then ImageDrawPixel dst u v color
                    else ImageDrawPixel dst v u color);
         Some (dst, v, P))
      (dst, startV, P);
  Some dst.

(** The update of the decision parameter shared by the two circle loops,
    after [x++]. *)
Definition circle_step (x y decesionParameter : Z) : Z * Z * Z :=
  let x := int (x + 1) in
  if 0 <? decesionParameter then
    let y := int (y - 1) in
    (x, y, int (int (decesionParameter + int (4 * int (x - y))) + 10))
  else (x, y, int (int (decesionParameter + int (4 * x)) + 6)).

Definition ImageDrawCircle (fuel : nat) (dst : Image) (centerX centerY radius : Z)
    (color : Color) : option Image :=
  do '(dst, _, _, _) <-
    while_loop fuel (fun '(_, x, y, _) => x <=? y)
      (fun '(dst, x, y, decesionParameter) =>
         do dst <- ImageDrawRectangle dst (int (centerX - x)) (int (centerY + y))
                     (int (x * 2)) 1 color;
         do dst <- ImageDrawRectangle dst (int (centerX - x)) (int (centerY - y))
                     (int (x * 2)) 1 color;
         do dst <- ImageDrawRectangle dst (int (centerX - y)) (int (centerY + x))
                     (int (y * 2)) 1 color;
         do dst <- ImageDrawRectangle dst (int (centerX - y)) (int (centerY - x))
                     (int (y * 2)) 1 color;
         let '(x, y, decesionParameter) := circle_step x y decesionParameter in
         Some (dst, x, y, decesionParameter))
      (dst, 0, radius, int (3 - int (2 * radius)));
  Some dst.

Definition ImageDrawCircleLines (fuel : nat) (dst : Image) (centerX centerY radius : Z)
    (color : Color) : option Image :=
  do '(dst, _, _, _) <-
    while_loop fuel (fun '(_, x, y, _) => x <=? y)
      (fun '(dst, x, y, decesionParameter) =>
         do dst <- ImageDrawPixel dst (int (centerX + x)) (int (centerY + y)) color;
         do dst <- ImageDrawPixel dst (int (centerX - x)) (int (centerY + y)) color;
         do dst <- ImageDrawPixel dst (int (centerX + x)) (int (centerY - y)) color;
         do dst <- ImageDrawPixel dst (int (centerX - x)) (int (centerY - y)) color;
         do dst <- ImageDrawPixel dst (int (centerX + y)) (int (centerY + x)) color;
         do dst <- ImageDrawPixel dst (int (centerX - y)) (int (centerY + x)) color;
         do dst <- ImageDrawPixel dst (int (centerX + y)) (int (centerY - x)) color;
         do dst <- ImageDrawPixel dst (int (centerX - y)) (int (centerY - x)) color;
         let '(x, y, decesionParameter) := circle_step x y decesionParameter in
         Some (dst, x, y, decesionParameter))
      (dst, 0, radius, int (3 - int (2 * radius)));
  Some dst.

(** ** Compositor *)

(** One row of the blit of [ImageDraw]: a raw copy when [fast], otherwise
    decode, blend and encode pixel by pixel. *)
Definition ImageDraw_row (fast blendRequired : bool) (srcbuf : buffer)
    (srcFormat dstFormat : Z) (n bytesPerPixelSrc bytesPerPixelDst : Z) (tint : Color)
    (pSrc pDst : Z) (dstbuf : buffer) : option buffer :=
  if fast then memcpy dstbuf pDst srcbuf pSrc (size_t (int (n * bytesPerPixelSrc)))
  else
    do '(dstbuf, _, _) <-
      for_range 0 n
        (fun x '(dstbuf, pSrc, pDst) =>
           do colSrc <- GetPixelColor srcbuf pSrc srcFormat;
           do colDst <- GetPixelColor dstbuf pDst dstFormat;
           let blend :=
             if blendRequired then ColorAlphaBlend colDst colSrc tint else colSrc in
           do dstbuf <- SetPixelColor dstbuf pDst blend dstFormat;
           Some (dstbuf, pSrc + bytesPerPixelSrc, pDst + bytesPerPixelDst))
        (dstbuf, pSrc, pDst);
    Some dstbuf.

(** The destination-side checks of [ImageDraw], which shrink the source
    rectangle along with the destination one. *)
Definition ImageDraw_clamp (dst : Image) (srcRec dstRec : Rectangle)
  : Rectangle * Rectangle :=
  let '(srcRec, dstRec) :=
    if F32.ltb (rec_x dstRec) (F32.of_int 0)
    then (mkRectangle (F32.neg (rec_x dstRec)) (rec_y srcRec)
            (F32.add (rec_width srcRec) (rec_x dstRec)) (rec_height srcRec),
          mkRectangle (F32.of_int 0) (rec_y dstRec) (rec_width dstRec) (rec_height dstRec))
    else if F32.gtb (F32.add (rec_x dstRec) (rec_width srcRec)) (F32.of_int (width dst))
    then (mkRectangle (rec_x srcRec) (rec_y srcRec)
            (F32.sub (F32.of_int (width dst)) (rec_x dstRec)) (rec_height srcRec), dstRec)
    else (srcRec, dstRec) in
  let '(srcRec, dstRec) :=
    if F32.ltb (rec_y dstRec) (F32.of_int 0)
    then (mkRectangle (rec_x srcRec) (F32.neg (rec_y dstRec)) (rec_width srcRec)
            (F32.add (rec_height srcRec) (rec_y dstRec)),
          mkRectangle (rec_x dstRec) (F32.of_int 0) (rec_width dstRec) (rec_height dstRec))
    else if F32.gtb (F32.add (rec_y dstRec) (rec_height srcRec)) (F32.of_int (height dst))
    then (mkRectangle (rec_x srcRec) (rec_y srcRec) (rec_width srcRec)
            (F32.sub (F32.of_int (height dst)) (rec_y dstRec)), dstRec)
    else (srcRec, dstRec) in
  let srcRec :=
    if F32.ltb (F32.of_int (width dst)) (rec_width srcRec)
    then mkRectangle (rec_x srcRec) (rec_y srcRec) (F32.of_int (width dst)) (rec_height srcRec)
    else srcRec in
  let srcRec :=
    if F32.ltb (F32.of_int (height dst)) (rec_height srcRec)
    then mkRectangle (rec_x srcRec) (rec_y srcRec) (rec_width srcRec) (F32.of_int (height dst))
    else srcRec in
  (srcRec, dstRec).

(** The blit of [ImageDraw] once the rectangles are settled: strides, base
    offsets and the loop over the rows. *)
Definition ImageDraw_blit (fast blendRequired : bool) (dst srcPtr : Image)
    (srcRec dstRec : Rectangle) (tint : Color) : option Image :=
  let strideDst := GetPixelDataSize (width dst) 1 (format dst) in
  let bytesPerPixelDst := int (strideDst ÷ width dst) in
  let strideSrc := GetPixelDataSize (width srcPtr) 1 (format srcPtr) in
  if width srcPtr =? 0 then None
  else
    let bytesPerPixelSrc := int (strideSrc ÷ width srcPtr) in
    let pSrcBase :=
      int (int (int (F32.to_int (rec_y srcRec) * width srcPtr)
                + F32.to_int (rec_x srcRec)) * bytesPerPixelSrc) in
    let pDstBase :=
      int (int (int (F32.to_int (rec_y dstRec) * width dst)
                + F32.to_int (rec_x dstRec)) * bytesPerPixelDst) in
    do dstbuf <- data dst;
    do '(dstbuf, _, _) <-
      for_range 0 (F32.to_int (rec_height srcRec))
        (fun y '(dstbuf, pSrcBase, pDstBase) =>
           do srcbuf <- data srcPtr;
           do dstbuf <- ImageDraw_row fast blendRequired srcbuf (format srcPtr)
                          (format dst) (F32.to_int (rec_width srcRec))
                          bytesPerPixelSrc bytesPerPixelDst tint pSrcBase pDstBase dstbuf;
           Some (dstbuf, pSrcBase + strideSrc, pDstBase + strideDst))
        (dstbuf, pSrcBase, pDstBase);
    Some (set_data dst (Some dstbuf)).

Section Compositor.

Variable stbir_resize_uint8 :
  option buffer -> Z -> Z -> Z -> option buffer -> Z -> Z -> Z -> Z -> option (option buffer).

(** [ImageDraw], with its two shortcuts made switchable: [blend_shortcut]
    allows skipping the blend when the source has no alpha and the tint is
    opaque, [copy_shortcut] allows the row-wise raw copy.  The source
    function is [ImageDraw_with true true]. *)
Definition ImageDraw_with (blend_shortcut copy_shortcut : bool) (dst src : Image)
    (srcRec dstRec : Rectangle) (tint : Color) : option Image :=
  if is_null (data dst) || (width dst =? 0) || (height dst =? 0)
     || is_null (data src) || (width src =? 0) || (height src =? 0)
  then Some dst
  else if PIXELFORMAT_COMPRESSED_DXT1_RGB <=? format dst then Some dst
  else
    let srcRec := ImageCrop_clamp src srcRec in
    do '(srcPtr, srcRec) <-
      (if negb (F32.to_int (rec_width srcRec) =? F32.to_int (rec_width dstRec))
          || negb (F32.to_int (rec_height srcRec) =? F32.to_int (rec_height dstRec))
       then
         do srcMod <- ImageFromImage src srcRec;
         do srcMod <- ImageResize stbir_resize_uint8 srcMod
                        (F32.to_int (rec_width dstRec)) (F32.to_int (rec_height dstRec));
         Some (srcMod, mkRectangle (F32.of_int 0) (F32.of_int 0)
                         (F32.of_int (width srcMod)) (F32.of_int (height srcMod)))
       else Some (src, srcRec));
    let '(srcRec, dstRec) := ImageDraw_clamp dst srcRec dstRec in
    let blendRequired :=
      negb (blend_shortcut
            && (a tint =? 255)
            && ((format srcPtr =? PIXELFORMAT_UNCOMPRESSED_GRAYSCALE)
                || (format srcPtr =? PIXELFORMAT_UNCOMPRESSED_R8G8B8)
                || (format srcPtr =? PIXELFORMAT_UNCOMPRESSED_R5G6B5))) in
    let fast := copy_shortcut && negb blendRequired && (format srcPtr =? format dst) in
    ImageDraw_blit fast blendRequired dst srcPtr srcRec dstRec tint.

Definition ImageDraw : Image -> Image -> Rectangle -> Rectangle -> Color -> option Image :=
  ImageDraw_with true true.

(** The reference slow path: every pixel decoded from both buffers, tinted
    and blended with [ColorAlphaBlend], and re-encoded. *)
Definition ImageDraw_slow : Image -> Image -> Rectangle -> Rectangle -> Color -> option Image :=
  ImageDraw_with false false.

End Compositor.

(** ** Colour utilities *)

(** Modelled from the spec: the colour constant [BLANK] of raylib.h,
    transparent black. *)
Definition BLANK : Color := mkColor 0 0 0 0.

(** The clamp of [Fade] and [ColorAlpha]:
    [if (alpha < 0.0f) alpha = 0.0f; else if (alpha > 1.0f) alpha = 1.0f]. *)
Definition clamp01 (alpha : float) : float :=
  if F32.ltb alpha (F32.of_int 0) then F32.of_int 0
  else if F32.gtb alpha (F32.of_int 1) then F32.of_int 1
  else alpha.

Definition Fade (color : Color) (alpha : float) : Color :=
  let alpha := clamp01 alpha in
  mkColor (r color) (g color) (b color) (F32.to_uchar (F32.mul (F32.of_int 255) alpha)).

Definition ColorAlpha (color : Color) (alpha : float) : Color :=
  let alpha := clamp01 alpha in
  mkColor (r color) (g color) (b color) (F32.to_uchar (F32.mul (F32.of_int 255) alpha)).

(** [ColorToInt]: the shifts are those of [int]. *)
Definition ColorToInt (color : Color) : Z :=
  Z.lor (Z.lor (Z.lor (int (Z.shiftl (r color) 24)) (int (Z.shiftl (g color) 16)))
               (int (Z.shiftl (b color) 8)))
        (a color).

(** [GetColor], on an [unsigned int]. *)
Definition GetColor (hexValue : Z) : Color :=
  mkColor (uchar (Z.land (uchar (Z.shiftr hexValue 24)) 255))
          (uchar (Z.land (uchar (Z.shiftr hexValue 16)) 255))
          (uchar (Z.land (uchar (Z.shiftr hexValue 8)) 255))
          (uchar (Z.land (uchar hexValue) 255)).

Definition ColorNormalize (color : Color) : Vector4 :=
  mkVector4 (F32.div (F32.of_int (r color)) (F32.of_int 255))
            (F32.div (F32.of_int (g color)) (F32.of_int 255))
            (F32.div (F32.of_int (b color)) (F32.of_int 255))
            (F32.div (F32.of_int (a color)) (F32.of_int 255)).

Definition ColorFromNormalized (normalized : Vector4) : Color :=
  mkColor (F32.to_uchar (F32.mul (v_x normalized) (F32.of_int 255)))
          (F32.to_uchar (F32.mul (v_y normalized) (F32.of_int 255)))
          (F32.to_uchar (F32.mul (v_z normalized) (F32.of_int 255)))
          (F32.to_uchar (F32.mul (v_w normalized) (F32.of_int 255))).

(** One channel of [ColorTint]:
    [(unsigned char)(((float)c/255*((float)t/255))*255.0f)]. *)
Definition ColorTint_channel (c t : Z) : Z :=
  let cT := F32.div (F32.of_int t) (F32.of_int 255) in
  F32.to_uchar
    (F32.mul (F32.mul (F32.div (F32.of_int c) (F32.of_int 255)) cT) (F32.of_int 255)).

Definition ColorTint (color tint : Color) : Color :=
  mkColor (ColorTint_channel (r color) (r tint)) (ColorTint_channel (g color) (g tint))
          (ColorTint_channel (b color) (b tint)) (ColorTint_channel (a color) (a tint)).

(** One channel of [ColorBrightness], for the factor after its clamp. *)
Definition ColorBrightness_channel (c : Z) (factor : float) : Z :=
  let red := F32.of_int c in
  let red :=
    if F32.ltb factor (F32.of_int 0)
    then F32.mul red (F32.add (F32.of_int 1) factor)
    else F32.add (F32.mul (F32.sub (F32.of_int 255) red) factor) red in
  F32.to_uchar red.

Definition ColorBrightness (color : Color) (factor : float) : Color :=
  let factor :=
    if F32.gtb factor (F32.of_int 1) then F32.of_int 1
    else if F32.ltb factor (F32.of_int (-1)) then F32.of_int (-1)
    else factor in
  mkColor (ColorBrightness_channel (r color) factor)
          (ColorBrightness_channel (g color) factor)
          (ColorBrightness_channel (b color) factor)
          (a color).

(** One channel of [ColorContrast], for the squared factor. *)
Definition ColorContrast_channel (c : Z) (contrast : float) : Z :=
  let pR := F32.div (F32.of_int c) (F32.of_int 255) in
  let pR := F32.sub pR (F32.lit 1 2) in
  let pR := F32.mul pR contrast in
  let pR := F32.add pR (F32.lit 1 2) in
  let pR := F32.mul pR (F32.of_int 255) in
  let pR :=
    if F32.ltb pR (F32.of_int 0) then F32.of_int 0
    else if F32.gtb pR (F32.of_int 255) then F32.of_int 255
    else pR in
  F32.to_uchar pR.

Definition ColorContrast (color : Color) (contrast : float) : Color :=
  let contrast :=
    if F32.ltb contrast (F32.of_int (-1)) then F32.of_int (-1)
    else if F32.gtb contrast (F32.of_int 1) then F32.of_int 1
    else contrast in
  let contrast := F32.add (F32.of_int 1) contrast in
  let contrast := F32.mul contrast contrast in
  mkColor (ColorContrast_channel (r color) contrast)
          (ColorContrast_channel (g color) contrast)
          (ColorContrast_channel (b color) contrast)
          (a color).

(** ** Image creation and pixel access *)

Definition IsImageReady (image : Image) : bool :=
  negb (is_null (data image)) && (0 <? width image) && (0 <? height image)
  && (0 <? format image) && (0 <? mipmaps image).

Definition GenImageColor (width height : Z) (color : Color) : option Image :=
  let count := int (width * height) in
  let pixels := RL_CALLOC (size_t (size_t count * 4)) in
  do pixels <-
    for_range 0 count
      (fun i pixels => do m <- pixels; do m <- store_Color m i color; Some (Some m))
      pixels;
  Some (mkImage pixels width height 1 PIXELFORMAT_UNCOMPRESSED_R8G8B8A8).

(** [ImageCopy]: the size of the mipmap chain, then the copy of that many
    bytes.  When the allocation fails the zero image is returned. *)
Definition ImageCopy_size (image : Image) : option (Z * Z * Z) :=
  for_range 0 (mipmaps image)
    (fun i '(size, width, height) =>
       let size := int (size + GetPixelDataSize width height (format image)) in
       let width := width ÷ 2 in
       let height := height ÷ 2 in
       let width := if width <? 1 then 1 else width in
       let height := if height <? 1 then 1 else height in
       Some (size, width, height))
    (0, width image, height image).

Definition ImageCopy (image : Image) : option Image :=
  do '(size, _, _) <- ImageCopy_size image;
  match RL_CALLOC (size_t (size_t size * 1)) with
  | Some newData =>
      do src <- data image;
      do m <- memcpy newData 0 src 0 (size_t size);
      Some (mkImage (Some m) (width image) (height image) (mipmaps image) (format image))
  | None => Some (mkImage None 0 0 0 0)
  end.

Definition GetImageColor (image : Image) (x y : Z) : option Color :=
  let color := mkColor 0 0 0 0 in
  let scaled (v : Z) (ratio : Z) := F32.to_uchar (F32.mul (F32.of_int v) (F32.of_int ratio)) in
  let scaled_float (m : buffer) (k : Z) :=
    do f <- load_float m (4 * k); Some (F32.to_uchar (F32.mul f (F32.of_int 255))) in
  if (0 <=? x) && (x <? width image) && (0 <=? y) && (y <? height image) then
    let idx := int (int (y * width image) + x) in
    let fmt := format image in
    if fmt =? PIXELFORMAT_UNCOMPRESSED_GRAYSCALE then
      do m <- data image;
      do v <- load_uchar m idx;
      Some (mkColor v v v 255)
    else if fmt =? PIXELFORMAT_UNCOMPRESSED_GRAY_ALPHA then
      do m <- data image;
      do v <- load_uchar m (int (idx * 2));
      do v1 <- load_uchar m (int (int (idx * 2) + 1));
      Some (mkColor v v v v1)
    else if fmt =? PIXELFORMAT_UNCOMPRESSED_R5G5B5A1 then
      do m <- data image;
      do pixel <- load_ushort m (2 * idx);
      Some (mkColor (scaled (Z.shiftr (Z.land pixel 63488) 11) (255 ÷ 31))
                    (scaled (Z.shiftr (Z.land pixel 1984) 6) (255 ÷ 31))
                    (scaled (Z.shiftr (Z.land pixel 62) 1) (255 ÷ 31))
                    (uchar (int (Z.land pixel 1 * 255))))
    else if fmt =? PIXELFORMAT_UNCOMPRESSED_R5G6B5 then
      do m <- data image;
      do pixel <- load_ushort m (2 * idx);
      Some (mkColor (scaled (Z.shiftr (Z.land pixel 63488) 11) (255 ÷ 31))
                    (scaled (Z.shiftr (Z.land pixel 2016) 5) (255 ÷ 63))
                    (scaled (Z.land pixel 31) (255 ÷ 31))
                    255)
    else if fmt =? PIXELFORMAT_UNCOMPRESSED_R4G4B4A4 then
      do m <- data image;
      do pixel <- load_ushort m (2 * idx);
      Some (mkColor (scaled (Z.shiftr (Z.land pixel 61440) 12) (255 ÷ 15))
                    (scaled (Z.shiftr (Z.land pixel 3840) 8) (255 ÷ 15))
                    (scaled (Z.shiftr (Z.land pixel 240) 4) (255 ÷ 15))
                    (scaled (Z.land pixel 15) (255 ÷ 15)))
    else if fmt =? PIXELFORMAT_UNCOMPRESSED_R8G8B8A8 then
      do m <- data image;
      do v0 <- load_uchar m (int (idx * 4));
      do v1 <- load_uchar m (int (int (idx * 4) + 1));
      do v2 <- load_uchar m (int (int (idx * 4) + 2));
      do v3 <- load_uchar m (int (int (idx * 4) + 3));
      Some (mkColor v0 v1 v2 v3)
    else if fmt =? PIXELFORMAT_UNCOMPRESSED_R8G8B8 then
      do m <- data image;
      do v0 <- load_uchar m (int (idx * 3));
      do v1 <- load_uchar m (int (int (idx * 3) + 1));
      do v2 <- load_uchar m (int (int (idx * 3) + 2));
      Some (mkColor v0 v1 v2 255)
    else if fmt =? PIXELFORMAT_UNCOMPRESSED_R32 then
      do m <- data image;
      do v <- scaled_float m idx;
      Some (mkColor v 0 0 255)
    else if fmt =? PIXELFORMAT_UNCOMPRESSED_R32G32B32 then
      do m <- data image;
      do v0 <- scaled_float m (int (idx * 3));
      do v1 <- scaled_float m (int (int (idx * 3) + 1));
      do v2 <- scaled_float m (int (int (idx * 3) + 2));
      Some (mkColor v0 v1 v2 255)
    else if fmt =? PIXELFORMAT_UNCOMPRESSED_R32G32B32A32 then
      do m <- data image;
      do v <- scaled_float m (int (idx * 4));
      Some (mkColor v v v v)
    else Some color
  else Some color.

Definition ImageClearBackground (dst : Image) (color : Color) : option Image :=
  if is_null (data dst) || (width dst =? 0) || (height dst =? 0) then Some dst
  else
    do dst <- ImageDrawPixel dst 0 0 color;
    let bytesPerPixel := GetPixelDataSize 1 1 (format dst) in
    for_range 1 (int (width dst * height dst))
      (fun i dst =>
         do m <- data dst;
         do m <- memcpy m (int (i * bytesPerPixel)) m 0 (size_t bytesPerPixel);
         Some (set_data dst (Some m)))
      dst.

(** [ImageResizeNN]: nearest-neighbour scaling with 16.16 fixed-point
    ratios.  A division by zero is a fault. *)
Definition ImageResizeNN (image : Image) (newWidth newHeight : Z) : option Image :=
  if is_null (data image) || (width image =? 0) || (height image =? 0) then Some image
  else
    do pixels <- LoadImageColors image;
    let output := RL_MALLOC (size_t (size_t (int (newWidth * newHeight)) * 4)) in
    if (newWidth =? 0) || (newHeight =? 0) then None
    else
      let xRatio := int (int (Z.shiftl (width image) 16) ÷ newWidth + 1) in
      let yRatio := int (int (Z.shiftl (height image) 16) ÷ newHeight + 1) in
      do output <-
        for_range 0 newHeight
          (fun y output =>
             for_range 0 newWidth
               (fun x output =>
                  let x2 := Z.shiftr (int (x * xRatio)) 16 in
                  let y2 := Z.shiftr (int (y * yRatio)) 16 in
                  do out <- output; do px <- pixels;
                  do m <- memcpy out (4 * int (int (y * newWidth) + x))
                            px (4 * int (int (y2 * width image) + x2)) 4;
                  Some (Some m))
               output)
          output;
      let format := format image in
      ImageFormat
        (mkImage output newWidth newHeight (mipmaps image) PIXELFORMAT_UNCOMPRESSED_R8G8B8A8)
        format.

(** ** Alpha border *)

(** [GetImageAlphaBorder]: the rectangle around the pixels whose alpha is
    above the threshold, found by a scan of the colours of the image. *)
Definition GetImageAlphaBorder (image : Image) (threshold : float) : option Rectangle :=
  let crop := mkRectangle f_zero f_zero f_zero f_zero in
  do pixels <- LoadImageColors image;
  match pixels with
  | Some px =>
      do '(xMin, xMax, yMin, yMax) <-
        for_range 0 (height image)
          (fun y s =>
             for_range 0 (width image)
               (fun x '(xMin, xMax, yMin, yMax) =>
                  do alpha <- load_uchar px (4 * int (int (y * width image) + x) + 3);
                  if F32.to_uchar (F32.mul threshold (F32.of_int 255)) <? alpha then
                    let xMin := if x <? xMin then x else xMin in
                    let xMax := if xMax <? x then x else xMax in
                    let yMin := if y <? yMin then y else yMin in
                    let yMax := if yMax <? y then y else yMax in
                    Some (xMin, xMax, yMin, yMax)
                  else Some (xMin, xMax, yMin, yMax))
               s)
          (65536, 0, 65536, 0);
      if negb (xMin =? 65536) && negb (xMax =? 65536) then
        Some (mkRectangle (F32.of_int xMin) (F32.of_int yMin)
                (F32.of_int (int (int (xMax + 1) - xMin)))
                (F32.of_int (int (int (yMax + 1) - yMin))))
      else Some crop
  | None => Some crop
  end.

(** ** Palette *)

(** [pixels[i]] of a [Color] array. *)
Definition load_Color (pixels : buffer) (i : Z) : option Color :=
  do r <- load_uchar pixels (4 * i);
  do g <- load_uchar pixels (4 * i + 1);
  do b <- load_uchar pixels (4 * i + 2);
  do a <- load_uchar pixels (4 * i + 3);
  Some (mkColor r g b a).

Definition COLOR_EQUAL (col1 col2 : Color) : bool :=
  (r col1 =? r col2) && (g col1 =? g col2) && (b col1 =? b col2) && (a col1 =? a col2).

(** The search of [LoadImagePalette] for a colour among all the
    [maxPaletteSize] entries; after the [break] no entry is read. *)
Definition LoadImagePalette_search (palette : option buffer) (maxPaletteSize : Z)
    (pixel : Color) : option bool :=
  for_range 0 maxPaletteSize
    (fun j colorInPalette =>
       if colorInPalette : bool then Some true
       else do m <- palette; do entry <- load_Color m j;
            Some (COLOR_EQUAL pixel entry))
    false.

(** [LoadImagePalette]: the palette and [*colorCount].  The main loop
    assigns its own counter to leave early, so it is a [while_loop] on the
    counter, cut after [fuel] iterations. *)
Definition LoadImagePalette (fuel : nat) (image : Image) (maxPaletteSize : Z)
  : option (option buffer * Z) :=
  do pixels <- LoadImageColors image;
  match pixels with
  | None => Some (None, 0)
  | Some px =>
      let palette := RL_MALLOC (size_t (size_t maxPaletteSize * 4)) in
      do palette <-
        for_range 0 maxPaletteSize
          (fun i palette => do m <- palette; do m <- store_Color m i BLANK; Some (Some m))
          palette;
      let count := int (width image * height image) in
      do '(_, palette, palCount) <-
        while_loop fuel (fun '(i, _, _) => i <? count)
          (fun '(i, palette, palCount) =>
             do alpha <- load_uchar px (4 * i + 3);
             do '(i, palette, palCount) <-
               (if 0 <? alpha then
                  do pixel <- load_Color px i;
                  do colorInPalette <- LoadImagePalette_search palette maxPaletteSize pixel;
                  if negb colorInPalette then
                    do m <- palette;
                    do m <- store_Color m palCount pixel;
                    let palCount := int (palCount + 1) in
                    if maxPaletteSize <=? palCount then Some (count, Some m, palCount)
                    else Some (i, Some m, palCount)
                  else Some (i, palette, palCount)
                else Some (i, palette, palCount));
             Some (int (i + 1), palette, palCount))
          (0, palette, 0);
      Some (palette, palCount)
  end.

(** ** Rectangle outline *)

(** [ImageDrawRectangleLines]: four rectangles, with the casts to [int] of
    the float coordinates as written. *)
Definition ImageDrawRectangleLines (dst : Image) (rec : Rectangle) (thick : Z)
    (color : Color) : option Image :=
  let inner_height :=
    F32.to_int (F32.sub (rec_height rec) (F32.of_int (int (thick * 2)))) in
  do dst <- ImageDrawRectangle dst (F32.to_int (rec_x rec)) (F32.to_int (rec_y rec))
              (F32.to_int (rec_width rec)) thick color;
  do dst <- ImageDrawRectangle dst (F32.to_int (rec_x rec))
              (F32.to_int (F32.add (rec_y rec) (F32.of_int thick)))
              thick inner_height color;
  do dst <- ImageDrawRectangle dst
              (F32.to_int (F32.sub (F32.add (rec_x rec) (rec_width rec)) (F32.of_int thick)))
              (F32.to_int (F32.add (rec_y rec) (F32.of_int thick)))
              thick inner_height color;
  ImageDrawRectangle dst (F32.to_int (rec_x rec))
    (F32.to_int (F32.sub (F32.add (rec_y rec) (rec_height rec)) (F32.of_int thick)))
    (F32.to_int (rec_width rec)) thick color.

(** ** Vocabulary of the statements *)

Definition is_uchar (z : Z) : Prop := 0 <= z < 256.

Definition Color_ok (c : Color) : Prop :=
  is_uchar (r c) /\ is_uchar (g c) /\ is_uchar (b c) /\ is_uchar (a c).

(** The formulas of the blend as the specification writes them, over the
    integers. *)
Definition spec_tint (c t : Z) : Z := Z.shiftr (c * (t + 1)) 8.

Definition spec_tinted (src tint : Color) : Color :=
  mkColor (spec_tint (r src) (r tint)) (spec_tint (g src) (g tint))
          (spec_tint (b src) (b tint)) (spec_tint (a src) (a tint)).

Definition spec_outA (srcA1 dstA : Z) : Z :=
  Z.shiftr (srcA1 * 256 + dstA * (256 - srcA1)) 8.

Definition spec_channel (srcC dstC dstA srcA1 : Z) : Z :=
  Z.shiftr ((srcC * srcA1 * 256 + dstC * dstA * (256 - srcA1)) / spec_outA srcA1 dstA) 8.

(** Encoding a colour into a pixel and decoding it back. *)
Definition codec_roundtrip (m : buffer) (c : Color) (f : Z) : option Color :=
  do m' <- SetPixelColor m 0 c f; GetPixelColor m' 0 f.

Definition Color_eqb (c1 c2 : Color) : bool :=
  (r c1 =? r c2) && (g c1 =? g c2) && (b c1 =? b c2) && (a c1 =? a c2).

(** A bounded universal quantifier, to settle finitely many cases by
    evaluation. *)
Fixpoint all_from (n : nat) (z : Z) (P : Z -> bool) : bool :=
  match n with
  | O => true
  | S n' => P z && all_from n' (z + 1) P
  end.

Definition all_below (n : Z) (P : Z -> bool) : bool := all_from (Z.to_nat n) 0 P.

(** The R5G6B5 pixel word written for a colour, and the colour read from a
    pixel word, as [SetPixelColor] and [GetPixelColor] compute them. *)
Definition encode_r5g6b5 (c : Color) : Z :=
  pack_r5g6b5 (quantize (r c) 31) (quantize (g c) 63) (quantize (b c) 31).

Definition decode_r5g6b5 (p : Z) : Color :=
  mkColor (uchar (int (Z.shiftr p 11 * 255) ÷ 31))
          (uchar (int (Z.land (Z.shiftr p 5) 63 * 255) ÷ 63))
          (uchar (int (Z.land p 31 * 255) ÷ 31))
          255.

(** The linear up-scaling of the specification: a channel value [v] out of
    [max] becomes [v*255/max], truncated. *)
Definition spec_decode_r5g6b5 (p : Z) : Color :=
  mkColor ((p / 2048) * 255 / 31) ((p / 32) mod 64 * 255 / 63) ((p mod 32) * 255 / 31) 255.

(** The byte of a block at a (signed) offset. *)
Definition byte_at (m : buffer) (k : Z) : option memval :=
  if k <? 0 then None else m !! Z.to_nat k.

(** A rectangle with integer coordinates. *)
Definition rect (x y w h : Z) : Rectangle :=
  mkRectangle (F32.of_int x) (F32.of_int y) (F32.of_int w) (F32.of_int h).

(** The four bytes of an R8G8B8A8 pixel, and a row-major RGBA pixel array in
    which exactly the pixels selected by [inside] carry [color]. *)
Definition pixel_bytes (c : Color) : buffer :=
  [Byte (r c); Byte (g c); Byte (b c); Byte (a c)].

Definition painted (w h : Z) (inside : Z -> Z -> bool) (color bg : Color) : buffer :=
  flat_map
    (fun y => flat_map (fun x => pixel_bytes (if inside x y then color else bg)) (seqZ 0 w))
    (seqZ 0 h).

Definition in_rect (x0 y0 w h : Z) (x y : Z) : bool :=
  (x0 <=? x) && (x <? x0 + w) && (y0 <=? y) && (y <? y0 + h).

(** The invariant of section 3: a non-empty buffer comes with positive
    dimensions. *)
Definition buffer_nonempty (image : Image) : Prop :=
  exists m : buffer, data image = Some m /\ m <> [].

Definition dimensions_positive (image : Image) : Prop :=
  buffer_nonempty image -> 0 < width image /\ 0 < height image.

(** The row-wise copy that the geometry operations perform: [n] rows of
    [len] bytes, the row [i + j] read at [soff (i + j)] and written at
    [doff + j*dstride]. *)
Fixpoint copy_rows (n : nat) (i : Z) (dst : buffer) (doff dstride : Z)
    (src : buffer) (soff : Z -> Z) (len : Z) : option buffer :=
  match n with
  | O => Some dst
  | S n' =>
      do m <- memcpy dst doff src (soff i) len;
      copy_rows n' (i + 1) m (doff + dstride) dstride src soff len
  end.

(** A defined byte of memory. *)
Definition is_byte (v : memval) : Prop :=
  match v with
  | Byte b => is_uchar b
  | Undef => False
  end.

(** The grey levels that the grey encoder returns unchanged. *)
Definition gray_stable (v : Z) : bool := gray_of (mkColor v v v 255) =? v.

Definition gray_stable_byte (v : memval) : Prop :=
  match v with
  | Byte b => gray_stable b = true
  | Undef => True
  end.

(** The formats without alpha to which the raw copy of [ImageDraw] applies,
    with their bytes per pixel. *)
Definition opaque_format (f bpp : Z) : Prop :=
  (f = PIXELFORMAT_UNCOMPRESSED_GRAYSCALE /\ bpp = 1)
  \/ (f = PIXELFORMAT_UNCOMPRESSED_R5G6B5 /\ bpp = 2)
  \/ (f = PIXELFORMAT_UNCOMPRESSED_R8G8B8 /\ bpp = 3).

(** Consecutive byte stores. *)
Fixpoint store_bytes (m : buffer) (off : Z) (vs : list Z) : option buffer :=
  match vs with
  | [] => Some m
  | v :: vs' => do m' <- store_uchar m off v; store_bytes m' (off + 1) vs'
  end.

(** The grey levels that the grey encoder lowers by one. *)
Definition gray_unstable_levels : list Z :=
  [45; 85; 90; 95; 167; 170; 180; 190; 227; 237; 247].

(** A resampler that is never called. *)
Definition no_resampler (input : option buffer) (w h stride : Z) (output : option buffer)
    (w' h' stride' channels : Z) : option (option buffer) := None.

(** The binary32 float of an integer below 2^24 in magnitude: a 24-bit
    mantissa and the matching exponent. *)
Definition canonical_float (z : Z) : float :=
  match z with
  | Z0 => S754_zero false
  | Zpos q =>
      S754_finite false (Z.to_pos (Zpos q * 2 ^ (24 - Zpos (digits2_pos q))))
        (Zpos (digits2_pos q) - 24)
  | Zneg q =>
      S754_finite true (Z.to_pos (Zpos q * 2 ^ (24 - Zpos (digits2_pos q))))
        (Zpos (digits2_pos q) - 24)
  end.

(** The spans of [ImageResizeCanvas] along one axis, over the integers: the
    first source coordinate, the number of coordinates copied and the first
    destination coordinate, for an image of [size] placed at [offset] in a
    canvas of [newSize]. *)
Definition canvas_span (size newSize offset : Z) : Z * Z * Z :=
  let '(s, len, d) :=
    if offset <? 0 then (- offset, size + offset, 0)
    else if newSize <? offset + size then (0, newSize - offset, offset)
    else (0, size, offset) in
  (s, (if newSize <? len then newSize else len), d).

(** The pixel [(x, y)] of the canvas is covered by the image placed at
    [(offsetX, offsetY)]. *)
Definition covered (w h offsetX offsetY x y : Z) : bool :=
  (0 <=? x - offsetX) && (x - offsetX <? w) && (0 <=? y - offsetY) && (y - offsetY <? h).

(** The buffer of the image, when there is one, holds at least
    [width * height] pixels of the image's format, and that many bytes are
    addressable with an [int]. *)
Definition Image_ok (image : Image) : Prop :=
  forall m, data image = Some m ->
    width image * height image * GetPixelDataSize 1 1 (format image)
      <= Z.of_nat (length m)
    /\ width image * height image * GetPixelDataSize 1 1 (format image) <= INT_MAX.

(** [image'] has the dimensions, the format and the buffer length of
    [image]: only pixel values may differ. *)
Definition same_shape (image image' : Image) : Prop :=
  width image' = width image /\ height image' = height image
  /\ mipmaps image' = mipmaps image /\ format image' = format image
  /\ option_map (@length memval) (data image') = option_map (@length memval) (data image).

(** A drawing call returns, and only pixel values of the image differ. *)
Definition draws_on (image : Image) (result : option Image) : Prop :=
  exists image', result = Some image' /\ same_shape image image'.

(** The four channel bytes of a colour stored at a pixel index of an
    R8G8B8A8 block. *)
Definition Color_at (m : buffer) (i : Z) (c : Color) : Prop :=
  byte_at m (4 * i) = Some (Byte (r c)) /\ byte_at m (4 * i + 1) = Some (Byte (g c))
  /\ byte_at m (4 * i + 2) = Some (Byte (b c)) /\ byte_at m (4 * i + 3) = Some (Byte (a c)).

(** The pixel [(x, y)] lies inside the image. *)
Definition in_bounds (image : Image) (x y : Z) : bool :=
  (0 <=? x) && (x <? width image) && (0 <=? y) && (y <? height image).

(** [m'] differs from [m] at most on the bytes from [lo] to [hi - 1]. *)
Definition writes_within (m m' : buffer) (lo hi : Z) : Prop :=
  length m' = length m
  /\ forall k, k < lo \/ hi <= k -> byte_at m' k = byte_at m k.

(** The security checks of [ImageCrop] along one axis, over the integers:
    the first coordinate and the length kept of a span [(pos, len)] cropped
    from an image of [size]. *)
Definition crop_span (size pos len : Z) : Z * Z :=
  let '(pos, len) := if pos <? 0 then (0, len + pos) else (pos, len) in
  (pos, if size <? pos + len then size - pos else len).

(** The source coordinate that [ImageResizeNN] samples for the coordinate
    [x] of the result, along an axis scaled from [size] to [newSize]. *)
Definition nearest_source (size newSize x : Z) : Z :=
  x * (size * 65536 / newSize + 1) / 65536.

(** The number of components that the read position [k] of the loop of
    [LoadImageColors] advances per pixel: the formats read through the
    pixel index [i], and R32, leave it where it is. *)
Definition LoadImageColors_step (format : Z) : Z :=
  if format =? PIXELFORMAT_UNCOMPRESSED_GRAY_ALPHA then 2
  else if (format =? PIXELFORMAT_UNCOMPRESSED_R8G8B8)
          || (format =? PIXELFORMAT_UNCOMPRESSED_R32G32B32) then 3
  else if (format =? PIXELFORMAT_UNCOMPRESSED_R8G8B8A8)
          || (format =? PIXELFORMAT_UNCOMPRESSED_R32G32B32A32) then 4
  else 0.

(** The value of an 8-bit channel after it has been rounded to one of
    [levels + 1] steps and scaled back to 8 bits with a truncating
    division, over the integers. *)
Definition requantized (v levels : Z) : Z := (v * levels + 127) / 255 * 255 / levels.

(** The security checks of [ImageDrawRectangleRec] along one axis, over the
    integers: a negative position becomes 0 while the length grows by its
    amount, and a negative length becomes 0. *)
Definition rectangle_span (pos len : Z) : Z * Z :=
  let '(pos, len) := if pos <? 0 then (0, len - pos) else (pos, len) in
  (pos, if len <? 0 then 0 else len).

(** The pixel [(x, y)] of the image has an alpha above [t], as
    [GetImageColor] reads it. *)
Definition alpha_above (image : Image) (t x y : Z) : Prop :=
  0 <= x < width image /\ 0 <= y < height image
  /\ exists c, GetImageColor image x y = Some c /\ t < a c.

(** The colours that [GetImageColor] and [GetPixelColor] decode from the
    16-bit pixel [p] of an R5G6B5 or R5G5B5A1 image: the first multiplies
    the fields by the truncated ratios [255/31 = 8] and [255/63 = 4], the
    second scales them by [255/31] and [255/63] with one truncating division,
    and takes the blue of R5G5B5A1 from the low five bits. *)
Definition GetImageColor_16bit (format p : Z) : Color :=
  if format =? PIXELFORMAT_UNCOMPRESSED_R5G6B5
  then mkColor (8 * (p / 2048)) (4 * ((p / 32) mod 64)) (8 * (p mod 32)) 255
  else mkColor (8 * (p / 2048)) (8 * ((p / 64) mod 32)) (8 * ((p / 2) mod 32))
               (255 * (p mod 2)).

Definition GetPixelColor_16bit (format p : Z) : Color :=
  if format =? PIXELFORMAT_UNCOMPRESSED_R5G6B5
  then mkColor (p / 2048 * 255 / 31) ((p / 32) mod 64 * 255 / 63) (p mod 32 * 255 / 31) 255
  else mkColor (p / 2048 * 255 / 31) ((p / 64) mod 32 * 255 / 31) (p mod 32 * 255 / 31)
               (255 * (p mod 2)).

(** A float that a 32-bit memory cell holds and returns unchanged. *)
Definition representable (x : float) : Prop :=
  0 <= F32.to_bits x < 4294967296 /\ F32.of_bits (F32.to_bits x) = x.

(** The normalized pixel that [LoadImageDataNormalized] stores for a colour
    read from one of the 8-bit formats. *)
Definition normalized_color (c : Color) : Vector4 :=
  mkVector4 (normalized (r c)) (normalized (g c)) (normalized (b c)) (normalized (a c)).

(** The colour of a pixel after [ImageFormat] has converted it to one of the
    8-bit formats: what the new format keeps of the colour [c]. *)
Definition ImageFormat_color (newFormat : Z) (c : Color) : Color :=
  if newFormat =? PIXELFORMAT_UNCOMPRESSED_GRAYSCALE
  then mkColor (gray_of c) (gray_of c) (gray_of c) 255
  else if newFormat =? PIXELFORMAT_UNCOMPRESSED_GRAY_ALPHA
  then mkColor (gray_of c) (gray_of c) (gray_of c) (a c)
  else if newFormat =? PIXELFORMAT_UNCOMPRESSED_R8G8B8
  then mkColor (r c) (g c) (b c) 255
  else c.

(** The formats with 8-bit channels. *)
Definition eight_bit (format : Z) : Prop :=
  format = PIXELFORMAT_UNCOMPRESSED_GRAYSCALE \/ format = PIXELFORMAT_UNCOMPRESSED_GRAY_ALPHA
  \/ format = PIXELFORMAT_UNCOMPRESSED_R8G8B8 \/ format = PIXELFORMAT_UNCOMPRESSED_R8G8B8A8.

(** Every pixel of [cur] is the pixel of [dst], or lies in [box] and has
    the colour. *)
Definition painted_in (dst : Image) (color : Color) (box : Z -> Z -> bool)
    (cur : Image) : Prop :=
  forall x y,
    (box x y = true /\ GetImageColor cur x y = Some color)
    \/ GetImageColor cur x y = GetImageColor dst x y.

(** The state of a drawing of one colour on [dst]: the block has been
    replaced by one of the same length, nothing outside [box] has changed,
    and the pixels of [marked] have the colour. *)
Definition drawing (dst : Image) (m : buffer) (color : Color) (box : Z -> Z -> bool)
    (marked : Z -> Z -> Prop) (cur : Image) : Prop :=
  exists mc : buffer,
    cur = set_data dst (Some mc) /\ length mc = length m
    /\ painted_in dst color box cur
    /\ forall x y, marked x y -> GetImageColor cur x y = Some color.

(** The squared distance of [(x, y)] to the centre, less the squared
    radius. *)
Definition circle_error (centerX centerY radius x y : Z) : Z :=
  (x - centerX) * (x - centerX) + (y - centerY) * (y - centerY) - radius * radius.

(** The ring in which the outline of a circle is drawn. *)
Definition near_circle (centerX centerY radius x y : Z) : bool :=
  (- 3 * radius <=? circle_error centerX centerY radius x y)
  && (circle_error centerX centerY radius x y <=? radius + 8).

(** The four points of a circle on the axes through its centre. *)
Definition circle_extreme (centerX centerY radius x y : Z) : Prop :=
  (x = centerX /\ (y = centerY + radius \/ y = centerY - radius))
  \/ (y = centerY /\ (x = centerX + radius \/ x = centerX - radius)).

(** The region in which [ImageDrawCircle] paints: no further from the
    centre than the ring of the outline, and left of the column at the
    radius (at the centre column for the radius 0). *)
Definition in_disc (centerX centerY radius x y : Z) : bool :=
  (circle_error centerX centerY radius x y <=? radius + 8)
  && (x - centerX <? Z.max 1 radius).

(** The pixels whose right or left neighbour, away from the centre, is
    within the inner border of the ring. *)
Definition inside_circle (centerX centerY radius x y : Z) : bool :=
  (Z.abs (x - centerX) + 1) * (Z.abs (x - centerX) + 1)
    + (y - centerY) * (y - centerY) <=? radius * radius - 3 * radius.

(** The pixels that the loop of [ImageDrawCircleLines] has painted for sure
    before the pass at [x]: the extreme points, from the first pass. *)
Definition outline_drawn (dst : Image) (centerX centerY radius x y : Z) :
    Z -> Z -> Prop :=
  fun px py => 1 <= x /\ in_bounds dst px py = true
               /\ circle_extreme centerX centerY radius px py.

(** The pixels that the loop of [ImageDrawCircle] has painted for sure
    before the pass at [x] and [y]: inside the circle, the rows nearer to the
    centre than [x] and further than [y]; and the row through the centre,
    from the first pass. *)
Definition disc_filled (centerX centerY radius x y : Z) : Z -> Z -> Prop :=
  fun px py =>
    (inside_circle centerX centerY radius px py = true
     /\ (Z.abs (py - centerY) < x \/ y < Z.abs (py - centerY)))
    \/ (1 <= x /\ py = centerY
        /\ centerX - radius <= px < centerX + Z.max 1 radius).

(** The invariant of the two circle loops on the state
    [(dst, x, y, decesionParameter)]. *)
Definition circle_invariant (dst : Image) (m : buffer) (color : Color)
    (box : Z -> Z -> bool) (drawn : Z -> Z -> Z -> Z -> Prop) (radius : Z)
    (s : Image * Z * Z * Z) : Prop :=
  let '(cur, x, y, dp) := s in
  drawing dst m color box (drawn x y) cur
  /\ 0 <= x /\ y <= radius /\ 0 <= y + 1 /\ (x = 0 -> y = radius)
  /\ dp = 2 * (x * x) + 8 * x + 2 * (y * y) - 6 * y + 3 + 4 * radius
          - 2 * (radius * radius)
  /\ - 4 * (y - x) + 3 <= dp
  /\ (x <= y -> dp <= 4 * x + 6 + (if y - x <=? 1 then 14 else 0)).

(** The displacement along the minor axis after [k] steps along the major
    one, for a line that covers [dU] along the major axis and [dV] along the
    minor one: [k * dV / dU] rounded to the nearest integer, halves up. *)
Definition line_minor (dU dV k : Z) : Z := (2 * k * dV + dU) / (2 * dU).

(** The pixels of the path that starts at [(startU, startV)], the major
    axis being x when [reversedXY] holds and y otherwise. *)
Definition on_path (reversedXY : bool) (startU startV dU dV stepV x y : Z) : bool :=
  let '(u, v) := if reversedXY then (x, y) else (y, x) in
  (startU <=? u) && (u <=? startU + dU)
  && (v =? startV + stepV * line_minor dU dV (u - startU)).

(** The pixels of the line between [(x0, y0)] and [(x1, y1)]: the path
    along the axis of the larger extent (y when they are equal), from the end
    with the smaller coordinate on that axis. *)
Definition line_pixel (x0 y0 x1 y1 x y : Z) : bool :=
  let dx := Z.abs (x1 - x0) in
  let dy := Z.abs (y1 - y0) in
  if dy <? dx then
    if x0 <? x1 then on_path true x0 y0 dx dy (if y1 <? y0 then -1 else 1) x y
    else on_path true x1 y1 dx dy (if y0 <? y1 then -1 else 1) x y
  else
    if y0 <? y1 then on_path false y0 x0 dy dx (if x1 <? x0 then -1 else 1) x y
    else on_path false y1 x1 dy dx (if x0 <? x1 then -1 else 1) x y.

(** The formats with one 16-bit word per pixel. *)
Definition sixteen_bit (format : Z) : Prop :=
  format = PIXELFORMAT_UNCOMPRESSED_R5G6B5 \/ format = PIXELFORMAT_UNCOMPRESSED_R5G5B5A1
  \/ format = PIXELFORMAT_UNCOMPRESSED_R4G4B4A4.

(** An 8-bit channel value on a scale of [n] levels, rounded to the
    nearest. *)
Definition level (v n : Z) : Z := (v * n + 127) / 255.

(** The word that [ImageFormat] stores for a colour in a 16-bit format. *)
Definition ImageFormat_word (newFormat : Z) (c : Color) : Z :=
  if newFormat =? PIXELFORMAT_UNCOMPRESSED_R5G6B5
  then pack_r5g6b5 (quantize (r c) 31) (quantize (g c) 63) (quantize (b c) 31)
  else if newFormat =? PIXELFORMAT_UNCOMPRESSED_R5G5B5A1
  then pack_r5g5b5a1 (quantize (r c) 31) (quantize (g c) 31) (quantize (b c) 31)
         (alpha_bit (a c))
  else pack_r4g4b4a4 (quantize (r c) 15) (quantize (g c) 15) (quantize (b c) 15)
         (quantize (a c) 15).

(** The colour that [GetImageColor] reads from the pixel that [ImageFormat]
    has converted to a 16-bit format. *)
Definition ImageFormat_color16 (newFormat : Z) (c : Color) : Color :=
  if newFormat =? PIXELFORMAT_UNCOMPRESSED_R5G6B5
  then mkColor (8 * level (r c) 31) (4 * level (g c) 63) (8 * level (b c) 31) 255
  else if newFormat =? PIXELFORMAT_UNCOMPRESSED_R5G5B5A1
  then mkColor (8 * level (r c) 31) (8 * level (g c) 31) (8 * level (b c) 31)
         (if 50 <? a c then 255 else 0)
  else mkColor (17 * level (r c) 15) (17 * level (g c) 15) (17 * level (b c) 15)
         (17 * level (a c) 15).

(** * Properties *)

(** ** Machine integers *)

Lemma int_small (z : Z) : INT_MIN <= z <= INT_MAX -> int z = z.
Proof.
  unfold int, INT_MIN, INT_MAX. intros H.
  rewrite Z.mod_small by lia. lia.
Qed.

Lemma int_range (z : Z) : INT_MIN <= int z <= INT_MAX.
Proof.
  unfold int, INT_MIN, INT_MAX.
  pose proof (Z.mod_pos_bound (z + 2147483648) 4294967296). lia.
Qed.

Lemma uint_small (z : Z) : 0 <= z < 4294967296 -> uint z = z.
Proof. intros H. unfold uint. now apply Z.mod_small. Qed.

Lemma uchar_small (z : Z) : is_uchar z -> uchar z = z.
Proof. intros H. unfold uchar. now apply Z.mod_small. Qed.

Lemma size_t_small (z : Z) : 0 <= z < 18446744073709551616 -> size_t z = z.
Proof. intros H. unfold size_t. now apply Z.mod_small. Qed.

Lemma shiftr8_div (z : Z) : Z.shiftr z 8 = z / 256.
Proof. now rewrite Z.shiftr_div_pow2. Qed.

(** ** ColorAlphaBlend *)

Lemma tint_channel_spec (c t : Z) :
  is_uchar c -> is_uchar t -> tint_channel c t = spec_tint c t /\ is_uchar (spec_tint c t).
Proof.
  unfold is_uchar, tint_channel, spec_tint. intros Hc Ht.
  rewrite !shiftr8_div.
  rewrite (uint_small c), (uint_small t), (uint_small (t + 1)) by lia.
  assert (0 <= c * (t + 1) <= 255 * 256) by nia.
  rewrite (uint_small (c * (t + 1))) by lia.
  assert (0 <= c * (t + 1) / 256 < 256).
  { split; [apply Z.div_pos; lia | apply Z.div_lt_upper_bound; lia]. }
  split; [apply uchar_small; assumption | assumption].
Qed.

Lemma spec_outA_range (alpha dstA : Z) :
  2 <= alpha <= 255 -> is_uchar dstA -> 2 <= spec_outA alpha dstA < 256.
Proof.
  unfold is_uchar, spec_outA. intros Ha Hd. rewrite shiftr8_div.
  split.
  - apply Z.div_le_lower_bound; nia.
  - apply Z.div_lt_upper_bound; nia.
Qed.

Lemma blend_channel_spec (srcC dstC dstA alpha : Z) :
  is_uchar srcC -> is_uchar dstC -> is_uchar dstA -> 2 <= alpha <= 255 ->
  blend_channel srcC dstC dstA alpha (spec_outA alpha dstA)
  = spec_channel srcC dstC dstA alpha.
Proof.
  unfold is_uchar. intros Hs Hd Ha Hal.
  pose proof (spec_outA_range alpha dstA Hal Ha) as Ho.
  unfold blend_channel, spec_channel.
  rewrite (uint_small srcC), (uint_small dstC), (uint_small dstA),
    (uint_small (256 - alpha)), (uint_small (spec_outA alpha dstA)) by lia.
  assert (0 <= srcC * alpha <= 255 * 255) by nia.
  assert (0 <= dstC * dstA <= 255 * 255) by nia.
  assert (0 <= dstC * dstA * (256 - alpha) <= 255 * 255 * 254) by nia.
  rewrite (uint_small (srcC * alpha)), (uint_small (srcC * alpha * 256)),
    (uint_small (dstC * dstA)), (uint_small (dstC * dstA * (256 - alpha))) by lia.
  rewrite (uint_small (srcC * alpha * 256 + dstC * dstA * (256 - alpha))) by lia.
  rewrite Z.quot_div_nonneg by lia.
  rewrite uint_small; [reflexivity|].
  split; [apply Z.div_pos; lia|].
  apply Z.div_lt_upper_bound; nia.
Qed.

Lemma spec_channel_opaque (srcC dstC alpha : Z) :
  is_uchar srcC -> is_uchar dstC -> 2 <= alpha <= 255 ->
  spec_channel srcC dstC 255 alpha <= 255.
Proof.
  unfold is_uchar, spec_channel, spec_outA. intros Hs Hd Hal.
  rewrite !shiftr8_div.
  replace ((alpha * 256 + 255 * (256 - alpha)) / 256) with 255.
  2:{ apply Z.div_unique with (r := alpha); lia. }
  assert ((srcC * alpha * 256 + dstC * 255 * (256 - alpha)) / 255 < 65536).
  { apply Z.div_lt_upper_bound; nia. }
  assert ((srcC * alpha * 256 + dstC * 255 * (256 - alpha)) / 255 / 256 < 256).
  { apply Z.div_lt_upper_bound; lia. }
  lia.
Qed.

(** C1, counterexample: blending a red of alpha 1 over a red of alpha 1 with
    an opaque white tint, the formula of the claim gives 381 for the red
    channel, which the 8-bit channel cannot hold; the function returns 125. *)
Lemma ColorAlphaBlend_channel_overflow :
  let dst := mkColor 255 0 0 1 in
  let src := mkColor 255 0 0 1 in
  let s := spec_tinted src WHITE in
  Color_ok dst /\ Color_ok src /\ Color_ok WHITE /\
  a s = 1 /\
  spec_channel (r s) (r dst) (a dst) (a s + 1) = 381 /\
  r (ColorAlphaBlend dst src WHITE) = 125 /\
  r (ColorAlphaBlend dst src WHITE) <> spec_channel (r s) (r dst) (a dst) (a s + 1).
Proof.
  unfold Color_ok, is_uchar. cbn -[ColorAlphaBlend spec_channel spec_tint].
  repeat split; try lia; vm_compute; congruence.
Qed.

(** C1, as amended: [ColorAlphaBlend] first tints every source channel as
    [(channel*(tintChannel + 1)) >> 8]; it returns [dst] when the tinted alpha
    is 0, the tinted source when it is 255, and otherwise the alpha
    [(srcA1*256 + dstA*(256 - srcA1)) >> 8] and, for each colour channel, the
    value [((srcC*srcA1*256 + dstC*dstA*(256 - srcA1))/outA) >> 8] whenever
    that value fits the 8-bit channel, which it always does over an opaque
    destination. *)
Theorem ColorAlphaBlend_spec (dst src tint : Color) :
  Color_ok dst -> Color_ok src -> Color_ok tint ->
  let s := spec_tinted src tint in
  let srcA1 := a s + 1 in
  let out := ColorAlphaBlend dst src tint in
  let fits (srcC dstC : Z) := spec_channel srcC dstC (a dst) srcA1 <= 255 in
  Color_ok s /\
  (a s = 0 -> out = dst) /\
  (a s = 255 -> out = s) /\
  (a s <> 0 -> a s <> 255 ->
   a out = spec_outA srcA1 (a dst) /\
   (fits (r s) (r dst) -> r out = spec_channel (r s) (r dst) (a dst) srcA1) /\
   (fits (g s) (g dst) -> g out = spec_channel (g s) (g dst) (a dst) srcA1) /\
   (fits (b s) (b dst) -> b out = spec_channel (b s) (b dst) (a dst) srcA1) /\
   (a dst = 255 -> fits (r s) (r dst) /\ fits (g s) (g dst) /\ fits (b s) (b dst))).
Proof.
  intros (Hdr & Hdg & Hdb & Hda) (Hsr & Hsg & Hsb & Hsa) (Htr & Htg & Htb & Hta).
  destruct (tint_channel_spec _ _ Hsr Htr) as [Er Rr].
  destruct (tint_channel_spec _ _ Hsg Htg) as [Eg Rg].
  destruct (tint_channel_spec _ _ Hsb Htb) as [Eb Rb].
  destruct (tint_channel_spec _ _ Hsa Hta) as [Ea Ra].
  cbv zeta. unfold ColorAlphaBlend. rewrite Er, Eg, Eb, Ea.
  cbn [r g b a spec_tinted].
  set (sa := spec_tint (a src) (a tint)) in *.
  split; [repeat split; apply Rr || apply Rg || apply Rb || apply Ra|].
  split; [intros ->; reflexivity|].
  split.
  { intros E. rewrite E. cbn. rewrite <- E. reflexivity. }
  intros N0 N255.
  destruct (Z.eqb_spec sa 0) as [|_]; [contradiction|].
  destruct (Z.eqb_spec sa 255) as [|_]; [contradiction|].
  assert (Hal : 2 <= sa + 1 <= 255) by (unfold is_uchar in Ra; lia).
  rewrite (uint_small sa), (uint_small (sa + 1)) by (unfold is_uchar in Ra; lia).
  assert (Eo : uchar (Z.shiftr (uint (uint ((sa + 1) * 256)
                 + uint (uint (a dst) * uint (256 - (sa + 1))))) 8)
               = spec_outA (sa + 1) (a dst)).
  { pose proof (spec_outA_range _ _ Hal Hda) as Ho. unfold spec_outA in *.
    unfold is_uchar in Hda.
    rewrite (uint_small (a dst)), (uint_small (256 - (sa + 1))),
      (uint_small ((sa + 1) * 256)) by lia.
    assert (0 <= a dst * (256 - (sa + 1)) <= 255 * 254) by nia.
    rewrite (uint_small (a dst * (256 - (sa + 1)))) by lia.
    rewrite uint_small by lia.
    apply uchar_small. unfold is_uchar. lia. }
  rewrite Eo.
  pose proof (spec_outA_range _ _ Hal Hda) as Ho.
  destruct (Z.ltb_spec 0 (spec_outA (sa + 1) (a dst))) as [_|]; [|lia].
  rewrite !blend_channel_spec by assumption.
  cbn [r g b a].
  assert (Hpos : forall sc dc, is_uchar sc -> is_uchar dc ->
                   0 <= spec_channel sc dc (a dst) (sa + 1)).
  { intros sc dc Hsc Hdc. unfold spec_channel, is_uchar in *. rewrite shiftr8_div.
    apply Z.div_pos; [|lia]. apply Z.div_pos; [nia | lia]. }
  split; [reflexivity|].
  repeat split.
  - intros F. apply uchar_small. split; [apply Hpos; assumption | lia].
  - intros F. apply uchar_small. split; [apply Hpos; assumption | lia].
  - intros F. apply uchar_small. split; [apply Hpos; assumption | lia].
  - rewrite H. apply spec_channel_opaque; assumption.
  - rewrite H. apply spec_channel_opaque; assumption.
  - rewrite H. apply spec_channel_opaque; assumption.
Qed.

(** The theorem at work: a half-transparent white over an opaque black. *)
Lemma ColorAlphaBlend_spec_witness :
  a (ColorAlphaBlend (mkColor 0 0 0 255) (mkColor 255 255 255 128) WHITE) = 255
  /\ r (ColorAlphaBlend (mkColor 0 0 0 255) (mkColor 255 255 255 128) WHITE) = 129.
Proof.
  assert (Hd : Color_ok (mkColor 0 0 0 255)) by (unfold Color_ok, is_uchar; cbn; lia).
  assert (Hs : Color_ok (mkColor 255 255 255 128))
    by (unfold Color_ok, is_uchar; cbn; lia).
  assert (Ht : Color_ok WHITE) by (unfold Color_ok, is_uchar; cbn; lia).
  destruct (ColorAlphaBlend_spec _ _ _ Hd Hs Ht) as (_ & _ & _ & H).
  destruct H as (Ha & Hr & _); [vm_compute; congruence | vm_compute; congruence |].
  split; [rewrite Ha; reflexivity | rewrite Hr; [reflexivity | vm_compute; congruence]].
Defined.

(** ** GetPixelDataSize *)

Lemma bits_per_pixel_range (f : Z) : 0 <= bits_per_pixel f <= 128.
Proof.
  unfold bits_per_pixel.
  repeat match goal with
         | |- context [if ?c then _ else _] => destruct c
         end; vm_compute; split; congruence.
Qed.

(** C5, counterexample: ASTC 8x8 is a block format of 2 bits per pixel, and a
    2x2 image of it is smaller than a 4x4 block, yet its size is the linear
    [2*2*2/8 = 1], not a floor of 8 bytes. *)
Lemma GetPixelDataSize_astc_8x8_not_clamped :
  bits_per_pixel PIXELFORMAT_COMPRESSED_ASTC_8x8_RGBA = 2
  /\ GetPixelDataSize 2 2 PIXELFORMAT_COMPRESSED_ASTC_8x8_RGBA = 1
  /\ GetPixelDataSize 2 2 PIXELFORMAT_COMPRESSED_ASTC_8x8_RGBA <> 8.
Proof. repeat split; vm_compute; congruence. Qed.

(** C5, as amended: [GetPixelDataSize] is [width*height*bpp/8] with the fixed
    bits per pixel of the format, for every format, except that an image
    with both dimensions below 4 takes 8 bytes in the two DXT1 formats and 16
    bytes in the eight formats from DXT3_RGBA to ASTC_4x4_RGBA: DXT3, DXT5,
    ETC2_EAC and ASTC 4x4 of 8 bits per pixel, and also ETC1_RGB, ETC2_RGB,
    PVRT_RGB and PVRT_RGBA of 4 bits per pixel.  ASTC 8x8 is never clamped.
    In particular [GetPixelDataSize 2 2 DXT1_RGBA] is 8 and not the linear 2,
    and [GetPixelDataSize 2 2 ETC1_RGB] is 16. *)
Theorem GetPixelDataSize_spec (w h f : Z) :
  INT_MIN <= w * h <= INT_MAX ->
  INT_MIN <= w * h * bits_per_pixel f <= INT_MAX ->
  GetPixelDataSize w h f
  = (if (w <? 4) && (h <? 4)
        && ((f =? PIXELFORMAT_COMPRESSED_DXT1_RGB)
            || (f =? PIXELFORMAT_COMPRESSED_DXT1_RGBA))
     then 8
     else if (w <? 4) && (h <? 4)
             && ((f =? PIXELFORMAT_COMPRESSED_DXT3_RGBA)
                 || (f =? PIXELFORMAT_COMPRESSED_DXT5_RGBA)
                 || (f =? PIXELFORMAT_COMPRESSED_ETC1_RGB)
                 || (f =? PIXELFORMAT_COMPRESSED_ETC2_RGB)
                 || (f =? PIXELFORMAT_COMPRESSED_ETC2_EAC_RGBA)
                 || (f =? PIXELFORMAT_COMPRESSED_PVRT_RGB)
                 || (f =? PIXELFORMAT_COMPRESSED_PVRT_RGBA)
                 || (f =? PIXELFORMAT_COMPRESSED_ASTC_4x4_RGBA))
     then 16
     else (w * h * bits_per_pixel f) ÷ 8)
  /\ GetPixelDataSize 2 2 PIXELFORMAT_COMPRESSED_DXT1_RGBA = 8
  /\ 2 * 2 * bits_per_pixel PIXELFORMAT_COMPRESSED_DXT1_RGBA ÷ 8 = 2
  /\ GetPixelDataSize 2 2 PIXELFORMAT_COMPRESSED_ETC1_RGB = 16
  /\ bits_per_pixel PIXELFORMAT_COMPRESSED_ETC1_RGB = 4.
Proof.
  intros H1 H2.
  split; [|repeat split; reflexivity].
  unfold GetPixelDataSize.
  rewrite (int_small (w * h)) by assumption.
  rewrite (int_small (w * h * bits_per_pixel f)) by assumption.
  unfold PIXELFORMAT_COMPRESSED_DXT1_RGB, PIXELFORMAT_COMPRESSED_DXT1_RGBA,
    PIXELFORMAT_COMPRESSED_DXT3_RGBA, PIXELFORMAT_COMPRESSED_DXT5_RGBA,
    PIXELFORMAT_COMPRESSED_ETC2_EAC_RGBA, PIXELFORMAT_COMPRESSED_ASTC_4x4_RGBA,
    PIXELFORMAT_COMPRESSED_ASTC_8x8_RGBA, PIXELFORMAT_COMPRESSED_ETC1_RGB,
    PIXELFORMAT_COMPRESSED_ETC2_RGB, PIXELFORMAT_COMPRESSED_PVRT_RGB,
    PIXELFORMAT_COMPRESSED_PVRT_RGBA in *.
  destruct (Z.ltb_spec w 4) as [Hw|Hw]; [|reflexivity].
  destruct (Z.ltb_spec h 4) as [Hh|Hh]; [|reflexivity].
  cbn [andb].
  repeat match goal with
         | |- context [Z.leb ?x ?y] => destruct (Z.leb_spec x y)
         | |- context [Z.ltb ?x ?y] => destruct (Z.ltb_spec x y)
         | |- context [Z.eqb ?x ?y] => destruct (Z.eqb_spec x y)
         end; cbn [andb orb]; try reflexivity; lia.
Qed.

(** The theorem at the input of the claim. *)
Lemma GetPixelDataSize_spec_witness :
  GetPixelDataSize 2 2 PIXELFORMAT_COMPRESSED_DXT1_RGBA = 8.
Proof.
  refine (proj1 (GetPixelDataSize_spec 2 2 PIXELFORMAT_COMPRESSED_DXT1_RGBA _ _)).
  - vm_compute. split; congruence.
  - vm_compute. split; congruence.
Defined.

(** ** ImageFormat *)

(** C6: [ImageFormat] leaves the image unchanged (data, width, height,
    mipmaps and format) when the new format is 0, is the current format, or
    when the current or the new format is a compressed one. *)
Theorem ImageFormat_unchanged (image : Image) (newFormat : Z) :
  newFormat = 0 \/ newFormat = format image
  \/ PIXELFORMAT_COMPRESSED_DXT1_RGB <= format image
  \/ PIXELFORMAT_COMPRESSED_DXT1_RGB <= newFormat ->
  ImageFormat image newFormat = Some image.
Proof.
  intros H. unfold ImageFormat.
  destruct (is_null (data image) || (width image =? 0) || (height image =? 0));
    [reflexivity|].
  destruct (Z.eqb_spec newFormat 0) as [|N0]; [reflexivity|].
  destruct (Z.eqb_spec (format image) newFormat) as [|Nf]; [reflexivity|].
  cbn [negb andb].
  destruct (Z.ltb_spec (format image) PIXELFORMAT_COMPRESSED_DXT1_RGB) as [Hc|Hc];
    [|reflexivity].
  destruct (Z.ltb_spec newFormat PIXELFORMAT_COMPRESSED_DXT1_RGB) as [Hn|Hn];
    [|reflexivity].
  exfalso. destruct H as [H | [H | [H | H]]]; try contradiction.
  - symmetry in H. contradiction.
  - lia.
  - lia.
Qed.

(** The theorem on a 1x1 RGBA image asked to become DXT5, and to stay RGBA. *)
Lemma ImageFormat_unchanged_witness :
  let image := mkImage (Some [Byte 1; Byte 2; Byte 3; Byte 4]) 1 1 1
                 PIXELFORMAT_UNCOMPRESSED_R8G8B8A8 in
  ImageFormat image PIXELFORMAT_COMPRESSED_DXT5_RGBA = Some image
  /\ ImageFormat image PIXELFORMAT_UNCOMPRESSED_R8G8B8A8 = Some image.
Proof.
  split.
  - apply ImageFormat_unchanged. right. right. right. vm_compute. congruence.
  - apply ImageFormat_unchanged. right. left. reflexivity.
Defined.

(** ** The R5G6B5 codec *)

Lemma all_from_spec (n : nat) (z0 : Z) (P : Z -> bool) :
  all_from n z0 P = true -> forall z, z0 <= z < z0 + Z.of_nat n -> P z = true.
Proof.
  revert z0. induction n as [|n IH]; cbn [all_from]; intros z0 H z Hz; [lia|].
  apply andb_true_iff in H as [H1 H2].
  destruct (Z.eq_dec z z0) as [->|]; [assumption|].
  apply (IH (z0 + 1)); [assumption | lia].
Qed.

Lemma all_below_spec (n : Z) (P : Z -> bool) :
  all_below n P = true -> forall z, 0 <= z < n -> P z = true.
Proof.
  unfold all_below. intros H z Hz.
  apply (all_from_spec (Z.to_nat n) 0); [assumption | lia].
Qed.

Lemma load_ushort_bytes (b0 b1 : Z) (m : buffer) :
  load_ushort (Byte b0 :: Byte b1 :: m) 0 = Some (b0 + 256 * b1).
Proof. reflexivity. Qed.

Lemma GetPixelColor_r5g6b5 (m : buffer) (off : Z) :
  GetPixelColor m off PIXELFORMAT_UNCOMPRESSED_R5G6B5
  = do p <- load_ushort m off; Some (decode_r5g6b5 p).
Proof. reflexivity. Qed.

Lemma SetPixelColor_r5g6b5 (m : buffer) (off : Z) (c : Color) :
  SetPixelColor m off c PIXELFORMAT_UNCOMPRESSED_R5G6B5
  = store_ushort m off (encode_r5g6b5 c).
Proof. reflexivity. Qed.

(** A 5-bit (6-bit) channel value up-scaled by the linear ratio is
    recovered by the rounding of the encoder. *)
Lemma quantize_upscaled_31 (v : Z) :
  0 <= v < 32 ->
  uchar (int (v * 255) ÷ 31) = v * 255 / 31
  /\ quantize (uchar (int (v * 255) ÷ 31)) 31 = v.
Proof.
  intros Hv.
  assert (H : ((uchar (int (v * 255) ÷ 31) =? v * 255 / 31)
               && (quantize (uchar (int (v * 255) ÷ 31)) 31 =? v)) = true).
  { revert v Hv. apply (all_below_spec 32). vm_compute. reflexivity. }
  apply andb_true_iff in H as [H1 H2]. split; apply Z.eqb_eq; assumption.
Qed.

Lemma quantize_upscaled_63 (v : Z) :
  0 <= v < 64 ->
  uchar (int (v * 255) ÷ 63) = v * 255 / 63
  /\ quantize (uchar (int (v * 255) ÷ 63)) 63 = v.
Proof.
  intros Hv.
  assert (H : ((uchar (int (v * 255) ÷ 63) =? v * 255 / 63)
               && (quantize (uchar (int (v * 255) ÷ 63)) 63 =? v)) = true).
  { revert v Hv. apply (all_below_spec 64). vm_compute. reflexivity. }
  apply andb_true_iff in H as [H1 H2]. split; apply Z.eqb_eq; assumption.
Qed.

(** The three fields of a pixel word, and the word packed from them. *)
Lemma r5g6b5_fields (p : Z) :
  0 <= p < 65536 ->
  Z.shiftr p 11 = p / 2048 /\ Z.land (Z.shiftr p 5) 63 = (p / 32) mod 64
  /\ Z.land p 31 = p mod 32
  /\ pack_r5g6b5 (p / 2048) ((p / 32) mod 64) (p mod 32) = p.
Proof.
  intros Hp.
  assert (H : ((Z.shiftr p 11 =? p / 2048)
               && (Z.land (Z.shiftr p 5) 63 =? (p / 32) mod 64)
               && (Z.land p 31 =? p mod 32)
               && (pack_r5g6b5 (p / 2048) ((p / 32) mod 64) (p mod 32) =? p)) = true).
  { revert p Hp. apply (all_below_spec 65536). vm_compute. reflexivity. }
  repeat (apply andb_true_iff in H as [H ?]).
  repeat split; apply Z.eqb_eq; assumption.
Qed.

(** Every pixel word decodes by the linear ratio and is recovered by
    encoding the decoded colour. *)
Lemma r5g6b5_word_stable (p : Z) :
  0 <= p < 65536 ->
  decode_r5g6b5 p = spec_decode_r5g6b5 p /\ encode_r5g6b5 (decode_r5g6b5 p) = p.
Proof.
  intros Hp.
  destruct (r5g6b5_fields p Hp) as (Er & Eg & Eb & Ep).
  assert (Hr : 0 <= p / 2048 < 32).
  { split; [apply Z.div_pos; lia | apply Z.div_lt_upper_bound; lia]. }
  assert (Hg : 0 <= (p / 32) mod 64 < 64) by (apply Z.mod_pos_bound; lia).
  assert (Hb : 0 <= p mod 32 < 32) by (apply Z.mod_pos_bound; lia).
  destruct (quantize_upscaled_31 _ Hr) as [Dr Qr].
  destruct (quantize_upscaled_63 _ Hg) as [Dg Qg].
  destruct (quantize_upscaled_31 _ Hb) as [Db Qb].
  unfold decode_r5g6b5, spec_decode_r5g6b5, encode_r5g6b5. cbn [r g b a].
  rewrite Er, Eg, Eb, Dr, Dg, Db.
  split; [reflexivity|].
  rewrite <- Dr at 1. rewrite <- Dg at 1. rewrite <- Db at 1.
  rewrite Qr, Qg, Qb. exact Ep.
Qed.

Lemma store_ushort_pair (x y : memval) (v : Z) :
  store_ushort [x; y] 0 v = Some [Byte (uchar v); Byte (uchar (Z.shiftr v 8))].
Proof. reflexivity. Qed.

Lemma ushort_bytes (p : Z) :
  0 <= p < 65536 -> uchar p + 256 * uchar (Z.shiftr p 8) = p.
Proof.
  intros Hp. unfold uchar. rewrite shiftr8_div.
  rewrite (Z.mod_small (p / 256)).
  - pose proof (Z.div_mod p 256). lia.
  - split; [apply Z.div_pos; lia | apply Z.div_lt_upper_bound; lia].
Qed.

Lemma codec_roundtrip_r5g6b5 (m : buffer) (c : Color) :
  length m = 2%nat ->
  codec_roundtrip m c PIXELFORMAT_UNCOMPRESSED_R5G6B5
  = Some (decode_r5g6b5 (encode_r5g6b5 c)).
Proof.
  intros Hm. destruct m as [|x [|y [|]]]; try discriminate.
  unfold codec_roundtrip. rewrite SetPixelColor_r5g6b5, store_ushort_pair.
  cbn [bind]. rewrite GetPixelColor_r5g6b5, load_ushort_bytes. cbn [bind].
  rewrite ushort_bytes; [reflexivity|].
  unfold encode_r5g6b5, pack_r5g6b5, ushort. apply Z.mod_pos_bound. lia.
Qed.

(** C3, counterexample: encoded into R5G6B5 and decoded back,
    Color{248,252,248,255} comes out as Color{246,250,246,255}. *)
Lemma R5G6B5_roundtrip_248_differs :
  codec_roundtrip [Byte 0; Byte 0] (mkColor 248 252 248 255)
    PIXELFORMAT_UNCOMPRESSED_R5G6B5
  = Some (mkColor 246 250 246 255)
  /\ codec_roundtrip [Byte 0; Byte 0] (mkColor 248 252 248 255)
       PIXELFORMAT_UNCOMPRESSED_R5G6B5
     <> Some (mkColor 248 252 248 255).
Proof. split; vm_compute; congruence. Qed.

(** C3, as amended: encoding Color{248,252,248,255} into R5G6B5 and decoding
    it back returns Color{246,250,246,255}; decoding up-scales the 5/6-bit
    channel values [v] by the linear ratio, [v*255/max] truncated, and every
    colour that is the decoding of a pixel (such as Color{246,250,246,255})
    is returned exactly by the round trip. *)
Theorem R5G6B5_roundtrip (m : buffer) :
  length m = 2%nat ->
  codec_roundtrip m (mkColor 248 252 248 255) PIXELFORMAT_UNCOMPRESSED_R5G6B5
  = Some (mkColor 246 250 246 255)
  /\ codec_roundtrip m (mkColor 246 250 246 255) PIXELFORMAT_UNCOMPRESSED_R5G6B5
     = Some (mkColor 246 250 246 255)
  /\ forall b0 b1 : Z, is_uchar b0 -> is_uchar b1 ->
     GetPixelColor [Byte b0; Byte b1] 0 PIXELFORMAT_UNCOMPRESSED_R5G6B5
     = Some (spec_decode_r5g6b5 (b0 + 256 * b1))
     /\ codec_roundtrip m (spec_decode_r5g6b5 (b0 + 256 * b1))
          PIXELFORMAT_UNCOMPRESSED_R5G6B5
        = Some (spec_decode_r5g6b5 (b0 + 256 * b1)).
Proof.
  intros Hm. rewrite !codec_roundtrip_r5g6b5 by assumption.
  split; [vm_compute; reflexivity|].
  split; [vm_compute; reflexivity|].
  intros b0 b1 H0 H1.
  assert (Hp : 0 <= b0 + 256 * b1 < 65536) by (unfold is_uchar in *; lia).
  destruct (r5g6b5_word_stable _ Hp) as [Ed Ee].
  rewrite GetPixelColor_r5g6b5, load_ushort_bytes. cbn [bind].
  rewrite codec_roundtrip_r5g6b5 by assumption.
  rewrite <- Ed, Ee. split; reflexivity.
Qed.

(** The theorem on a zeroed two-byte pixel. *)
Lemma R5G6B5_roundtrip_witness :
  codec_roundtrip [Byte 0; Byte 0] (mkColor 248 252 248 255)
    PIXELFORMAT_UNCOMPRESSED_R5G6B5
  = Some (mkColor 246 250 246 255).
Proof.
  refine (proj1 (R5G6B5_roundtrip [Byte 0; Byte 0] _)). reflexivity.
Defined.

(** ** ImageDrawPixel *)

(** Outside the destination bounds, or with a null destination buffer,
    the call returns without modifying the image, whatever the colour and
    the format. *)
Lemma ImageDrawPixel_outside (dst : Image) (x y : Z) (color : Color) :
  data dst = None \/ x < 0 \/ width dst <= x \/ y < 0 \/ height dst <= y ->
  ImageDrawPixel dst x y color = Some dst.
Proof.
  intros H. unfold ImageDrawPixel.
  destruct (data dst) as [m|] eqn:Ed; [|reflexivity]. cbn [is_null orb].
  destruct (Z.ltb_spec x 0); [reflexivity|].
  destruct (Z.leb_spec (width dst) x); [reflexivity|].
  destruct (Z.ltb_spec y 0); [reflexivity|].
  destruct (Z.leb_spec (height dst) y); [reflexivity|].
  exfalso. destruct H as [H | [H | [H | [H | H]]]]; try discriminate; lia.
Qed.

(** ** Memory blocks *)

Lemma byte_at_nonneg (m : buffer) (k : Z) : 0 <= k -> byte_at m k = m !! Z.to_nat k.
Proof.
  intros H. unfold byte_at. destruct (Z.ltb_spec k 0); [lia | reflexivity].
Qed.

Lemma memcpy_Some (dst : buffer) (doff : Z) (src : buffer) (soff n : Z) :
  0 <= doff -> 0 <= soff -> 0 <= n ->
  doff + n <= Z.of_nat (length dst) -> soff + n <= Z.of_nat (length src) ->
  memcpy dst doff src soff n
  = Some (list_inserts (Z.to_nat doff) (take (Z.to_nat n) (drop (Z.to_nat soff) src)) dst).
Proof.
  intros H1 H2 H3 H4 H5. unfold memcpy.
  destruct (Z.leb_spec 0 doff); [|lia].
  destruct (Z.leb_spec 0 soff); [|lia].
  destruct (Z.leb_spec 0 n); [|lia].
  destruct (Z.leb_spec (doff + n) (Z.of_nat (length dst))); [|lia].
  destruct (Z.leb_spec (soff + n) (Z.of_nat (length src))); [|lia].
  reflexivity.
Qed.

Lemma memcpy_inv (dst : buffer) (doff : Z) (src : buffer) (soff n : Z) (m : buffer) :
  memcpy dst doff src soff n = Some m ->
  0 <= doff /\ 0 <= soff /\ 0 <= n
  /\ doff + n <= Z.of_nat (length dst) /\ soff + n <= Z.of_nat (length src)
  /\ m = list_inserts (Z.to_nat doff) (take (Z.to_nat n) (drop (Z.to_nat soff) src)) dst.
Proof.
  unfold memcpy.
  destruct (Z.leb_spec 0 doff); [|discriminate].
  destruct (Z.leb_spec 0 soff); [|discriminate].
  destruct (Z.leb_spec 0 n); [|discriminate].
  destruct (Z.leb_spec (doff + n) (Z.of_nat (length dst))); [|discriminate].
  destruct (Z.leb_spec (soff + n) (Z.of_nat (length src))); [|discriminate].
  cbn [andb]. intros [= <-]. repeat split; assumption.
Qed.

Lemma memcpy_length (dst : buffer) (doff : Z) (src : buffer) (soff n : Z) (m : buffer) :
  memcpy dst doff src soff n = Some m -> length m = length dst.
Proof.
  intros H. apply memcpy_inv in H as (_ & _ & _ & _ & _ & ->).
  apply length_inserts.
Qed.

(** The bytes of the copied range come from the source ... *)
Lemma memcpy_inside (dst : buffer) (doff : Z) (src : buffer) (soff n : Z) (m : buffer) (c : Z) :
  memcpy dst doff src soff n = Some m -> 0 <= c < n ->
  byte_at m (doff + c) = byte_at src (soff + c).
Proof.
  intros H Hc. apply memcpy_inv in H as (H1 & H2 & H3 & H4 & H5 & ->).
  rewrite !byte_at_nonneg by lia.
  rewrite list_lookup_inserts.
  2:{ rewrite length_take, length_drop. lia. }
  2:{ lia. }
  rewrite lookup_take_lt by lia. rewrite lookup_drop. f_equal. lia.
Qed.

(** ... and every other byte is kept. *)
Lemma memcpy_outside (dst : buffer) (doff : Z) (src : buffer) (soff n : Z) (m : buffer) (k : Z) :
  memcpy dst doff src soff n = Some m -> k < doff \/ doff + n <= k ->
  byte_at m k = byte_at dst k.
Proof.
  intros H Hk. apply memcpy_inv in H as (H1 & H2 & H3 & H4 & H5 & ->).
  unfold byte_at. destruct (Z.ltb_spec k 0); [reflexivity|].
  destruct Hk as [Hk|Hk].
  - apply list_lookup_inserts_lt. lia.
  - apply list_lookup_inserts_ge. rewrite length_take, length_drop. lia.
Qed.

Lemma byte_at_ext (m1 m2 : buffer) :
  (forall k : Z, byte_at m1 k = byte_at m2 k) -> m1 = m2.
Proof.
  intros H. apply list_eq. intros i.
  specialize (H (Z.of_nat i)). rewrite !byte_at_nonneg in H by lia.
  now rewrite Nat2Z.id in H.
Qed.

(** ** The row-wise copy *)

Lemma copy_rows_spec (n : nat) (i : Z) (dst : buffer) (doff dstride : Z)
    (src : buffer) (soff : Z -> Z) (len : Z) :
  0 <= len <= dstride -> 0 <= doff ->
  doff + Z.of_nat n * dstride <= Z.of_nat (length dst) + (dstride - len) ->
  (forall j, 0 <= j < Z.of_nat n ->
     0 <= soff (i + j) /\ soff (i + j) + len <= Z.of_nat (length src)) ->
  exists m : buffer,
    copy_rows n i dst doff dstride src soff len = Some m
    /\ length m = length dst
    /\ (forall j c, 0 <= j < Z.of_nat n -> 0 <= c < len ->
          byte_at m (doff + j * dstride + c) = byte_at src (soff (i + j) + c))
    /\ (forall k, (forall j, 0 <= j < Z.of_nat n ->
                     k < doff + j * dstride \/ doff + j * dstride + len <= k) ->
          byte_at m k = byte_at dst k).
Proof.
  revert i dst doff.
  induction n as [|n IH]; intros i dst doff Hlen Hdoff Hfit Hsrc.
  - exists dst. cbn [copy_rows].
    split; [reflexivity|]. split; [reflexivity|].
    split; [intros; lia | intros; reflexivity].
  - cbn [copy_rows].
    destruct (Hsrc 0 ltac:(lia)) as [Hs0 Hs1]. rewrite Z.add_0_r in Hs0, Hs1.
    rewrite memcpy_Some by nia. cbn [bind].
    set (m1 := list_inserts _ _ dst).
    assert (E1 : memcpy dst doff src (soff i) len = Some m1).
    { apply memcpy_Some; nia. }
    assert (L1 : length m1 = length dst) by (eapply memcpy_length; exact E1).
    destruct (IH (i + 1) m1 (doff + dstride)) as (m & Em & Lm & Hin & Hout).
    + assumption.
    + lia.
    + rewrite L1. nia.
    + intros j Hj. replace (i + 1 + j) with (i + (j + 1)) by lia. apply Hsrc. lia.
    + exists m. split; [exact Em|]. split; [congruence|]. split.
      * intros j c Hj Hc. destruct (Z.eq_dec j 0) as [->|Nj].
        -- rewrite Hout.
           ++ rewrite Z.mul_0_l, !Z.add_0_r.
              eapply memcpy_inside; [exact E1 | assumption].
           ++ intros j' Hj'. left. nia.
        -- specialize (Hin (j - 1) c ltac:(lia) Hc).
           replace (doff + dstride + (j - 1) * dstride + c)
             with (doff + j * dstride + c) in Hin by lia.
           replace (i + 1 + (j - 1)) with (i + j) in Hin by lia.
           exact Hin.
      * intros k Hk. rewrite Hout.
        -- eapply memcpy_outside; [exact E1|].
           specialize (Hk 0 ltac:(lia)). lia.
        -- intros j Hj. specialize (Hk (j + 1) ltac:(lia)). lia.
Qed.

(** A loop that copies one row per iteration, advancing the destination
    offset by [stride], is [copy_rows]. *)
Lemma for_loop_copy_rows (n : nat) (lo : Z) (body : Z -> option buffer * Z -> option (option buffer * Z))
    (d : buffer) (o stride : Z) (src : buffer) (soff : Z -> Z) (len : Z) :
  (forall j d', 0 <= j < Z.of_nat n ->
     body (lo + j) (Some d', o + j * stride)
     = do m <- memcpy d' (o + j * stride) src (soff (lo + j)) len;
       Some (Some m, o + (j + 1) * stride)) ->
  for_loop n lo body (Some d, o)
  = do m <- copy_rows n lo d o stride src soff len; Some (Some m, o + Z.of_nat n * stride).
Proof.
  revert lo d o. induction n as [|n IH]; intros lo d o Hbody.
  - cbn [for_loop copy_rows bind]. change (Z.of_nat 0) with 0.
    rewrite Z.mul_0_l, Z.add_0_r. reflexivity.
  - cbn [for_loop copy_rows].
    pose proof (Hbody 0 d ltac:(lia)) as H0.
    rewrite Z.mul_0_l, !Z.add_0_r in H0. rewrite H0.
    destruct (memcpy d o src (soff lo) len) as [m|]; [|reflexivity].
    cbn [bind]. replace (o + (0 + 1) * stride) with (o + stride) by lia.
    rewrite IH.
    + destruct (copy_rows n (lo + 1) m (o + stride) stride src soff len); [|reflexivity].
      cbn [bind]. replace (o + stride + Z.of_nat n * stride)
        with (o + Z.of_nat (S n) * stride) by lia. reflexivity.
    + intros j d' Hj.
      specialize (Hbody (j + 1) d' ltac:(lia)).
      replace (lo + 1 + j) with (lo + (j + 1)) by lia.
      replace (o + stride + j * stride) with (o + (j + 1) * stride) by lia.
      rewrite Hbody.
      replace (o + (j + 1 + 1) * stride) with (o + stride + (j + 1) * stride) by lia.
      reflexivity.
Qed.

Lemma load_uchar_byte_at (m : buffer) (off : Z) :
  load_uchar m off = match byte_at m off with
                     | Some (Byte b) => Some b
                     | _ => None
                     end.
Proof. unfold load_uchar, byte_at. destruct (off <? 0); reflexivity. Qed.

(** Closed subterms (float clamps, sizes) are replaced by their values. *)
Ltac eval_closed c :=
  let v := eval vm_compute in c in
  replace c with v by (vm_compute; reflexivity).

(** ** ImageCrop *)

Lemma ImageCrop_clamp_far_corner (d : option buffer) (mips f : Z) :
  ImageCrop_clamp (mkImage d 100 100 mips f) (rect 90 90 30 30) = rect 90 90 10 10.
Proof. vm_compute. reflexivity. Qed.

(** C7: cropping a 100x100 R8G8B8A8 image with the rectangle
    (90, 90, 30, 30) clamps the rectangle at the far edges and gives a 10x10
    image whose pixel (x, y) is the source pixel (90 + x, 90 + y). *)
Theorem ImageCrop_far_corner (m : buffer) (mips : Z) :
  Z.of_nat (length m) = 100 * 100 * 4 ->
  exists m' : buffer,
    ImageCrop (mkImage (Some m) 100 100 mips PIXELFORMAT_UNCOMPRESSED_R8G8B8A8)
      (rect 90 90 30 30)
    = Some (mkImage (Some m') 10 10 mips PIXELFORMAT_UNCOMPRESSED_R8G8B8A8)
    /\ Z.of_nat (length m') = 10 * 10 * 4
    /\ forall x y, 0 <= x < 10 -> 0 <= y < 10 ->
       (forall c, 0 <= c < 4 ->
          byte_at m' ((y * 10 + x) * 4 + c)
          = byte_at m (((90 + y) * 100 + (90 + x)) * 4 + c))
       /\ GetPixelColor m' ((y * 10 + x) * 4) PIXELFORMAT_UNCOMPRESSED_R8G8B8A8
          = GetPixelColor m (((90 + y) * 100 + (90 + x)) * 4)
              PIXELFORMAT_UNCOMPRESSED_R8G8B8A8.
Proof.
  intros HmZ.
  destruct (copy_rows_spec 10 90 (replicate 400 Undef) 0 40 m
              (fun y => (y * 100 + 90) * 4) 40) as (m' & Em & Lm & Hin & _).
  { lia. }
  { lia. }
  { rewrite length_replicate. lia. }
  { intros j Hj. cbv beta. rewrite HmZ. lia. }
  exists m'.
  assert (Hbytes : forall x y c, 0 <= x < 10 -> 0 <= y < 10 -> 0 <= c < 4 ->
            byte_at m' ((y * 10 + x) * 4 + c)
            = byte_at m (((90 + y) * 100 + (90 + x)) * 4 + c)).
  { intros x y c Hx Hy Hc.
    specialize (Hin y (x * 4 + c) ltac:(lia) ltac:(lia)).
    replace (0 + y * 40 + (x * 4 + c)) with ((y * 10 + x) * 4 + c) in Hin by lia.
    rewrite Hin. f_equal. lia. }
  split; [|split].
  - unfold ImageCrop. cbn [data width height format mipmaps is_null orb].
    rewrite ImageCrop_clamp_far_corner.
    eval_closed (F32.gtb (rec_x (rect 90 90 10 10)) (F32.of_int 100)).
    eval_closed (F32.gtb (rec_y (rect 90 90 10 10)) (F32.of_int 100)).
    eval_closed (PIXELFORMAT_COMPRESSED_DXT1_RGB <=? PIXELFORMAT_UNCOMPRESSED_R8G8B8A8).
    cbn [orb].
    eval_closed (GetPixelDataSize 1 1 PIXELFORMAT_UNCOMPRESSED_R8G8B8A8).
    eval_closed (F32.to_int (rec_y (rect 90 90 10 10))).
    eval_closed (F32.to_int (rec_x (rect 90 90 10 10))).
    eval_closed (F32.to_int (rec_width (rect 90 90 10 10))).
    eval_closed (F32.to_int (rec_height (rect 90 90 10 10))).
    eval_closed (F32.to_int (F32.add (rec_y (rect 90 90 10 10))
                               (rec_height (rect 90 90 10 10)))).
    eval_closed (F32.to_int (F32.mul (rec_width (rect 90 90 10 10))
                               (rec_height (rect 90 90 10 10)))).
    eval_closed (size_t (int (100 * 4))). eval_closed (size_t (int (10 * 4))).
    eval_closed (int (10 * 4)).
    change (RL_MALLOC 400) with (Some (replicate 400 Undef)).
    unfold for_range. change (Z.to_nat (100 - 90)) with 10%nat.
    rewrite (for_loop_copy_rows 10 90 _ (replicate 400 Undef) 0 40 m
               (fun y => (y * 100 + 90) * 4) 40).
    + rewrite Em. reflexivity.
    + intros j d' Hj. cbn [bind].
      rewrite (int_small ((90 + j) * 100)) by (unfold INT_MIN, INT_MAX; lia).
      rewrite (int_small ((90 + j) * 100 + 90)) by (unfold INT_MIN, INT_MAX; lia).
      rewrite (int_small (((90 + j) * 100 + 90) * 4)) by (unfold INT_MIN, INT_MAX; lia).
      rewrite (int_small (0 + j * 40 + 40)) by (unfold INT_MIN, INT_MAX; lia).
      destruct (memcpy d' (0 + j * 40) m (((90 + j) * 100 + 90) * 4) 40); [|reflexivity].
      cbn [bind]. replace (0 + (j + 1) * 40) with (0 + j * 40 + 40) by lia.
      reflexivity.
  - rewrite Lm, length_replicate. reflexivity.
  - intros x y Hx Hy. split; [intros c Hc; apply Hbytes; assumption|].
    unfold GetPixelColor.
    eval_closed (PIXELFORMAT_UNCOMPRESSED_R8G8B8A8 =? PIXELFORMAT_UNCOMPRESSED_GRAYSCALE).
    eval_closed (PIXELFORMAT_UNCOMPRESSED_R8G8B8A8 =? PIXELFORMAT_UNCOMPRESSED_GRAY_ALPHA).
    eval_closed (PIXELFORMAT_UNCOMPRESSED_R8G8B8A8 =? PIXELFORMAT_UNCOMPRESSED_R5G6B5).
    eval_closed (PIXELFORMAT_UNCOMPRESSED_R8G8B8A8 =? PIXELFORMAT_UNCOMPRESSED_R5G5B5A1).
    eval_closed (PIXELFORMAT_UNCOMPRESSED_R8G8B8A8 =? PIXELFORMAT_UNCOMPRESSED_R4G4B4A4).
    eval_closed (PIXELFORMAT_UNCOMPRESSED_R8G8B8A8 =? PIXELFORMAT_UNCOMPRESSED_R8G8B8A8).
    cbv iota.
    rewrite !load_uchar_byte_at.
    rewrite <- (Z.add_0_r ((y * 10 + x) * 4)) at 1.
    rewrite <- (Z.add_0_r (((90 + y) * 100 + (90 + x)) * 4)) at 1.
    rewrite !Hbytes by lia. reflexivity.
Qed.

(** The theorem on a uniformly filled image. *)
Lemma ImageCrop_far_corner_witness :
  exists m' : buffer,
    ImageCrop
      (mkImage (Some (replicate (Z.to_nat 40000) (Byte 7))) 100 100 1
         PIXELFORMAT_UNCOMPRESSED_R8G8B8A8)
      (rect 90 90 30 30)
    = Some (mkImage (Some m') 10 10 1 PIXELFORMAT_UNCOMPRESSED_R8G8B8A8).
Proof.
  destruct (ImageCrop_far_corner (replicate (Z.to_nat 40000) (Byte 7)) 1)
    as (m' & E & _).
  - rewrite length_replicate. vm_compute. reflexivity.
  - exists m'. exact E.
Defined.

(** C8, failing input: a crop rectangle lying above and to the left of a
    10x10 image passes the security checks of [ImageCrop]; the image is left
    with a buffer of 36 bytes and the dimensions -3 x -3. *)
Lemma ImageCrop_outside_top_left :
  let image := mkImage (Some (replicate 400 (Byte 0))) 10 10 1
                 PIXELFORMAT_UNCOMPRESSED_R8G8B8A8 in
  let cropped := mkImage (Some (replicate 36 Undef)) (-3) (-3) 1
                   PIXELFORMAT_UNCOMPRESSED_R8G8B8A8 in
  buffer_nonempty image /\ 0 < width image /\ 0 < height image
  /\ ImageCrop image (rect (-5) (-5) 2 2) = Some cropped
  /\ buffer_nonempty cropped
  /\ ~ dimensions_positive cropped.
Proof.
  cbv zeta. split; [|split; [|split; [|split; [|split]]]].
  - eexists. split; [reflexivity | discriminate].
  - reflexivity.
  - reflexivity.
  - vm_compute. reflexivity.
  - eexists. split; [reflexivity | discriminate].
  - intros H. destruct H as [H _].
    + eexists. split; [reflexivity | discriminate].
    + cbn in H. lia.
Qed.

(** ** ImageDrawRectangleRec *)

(** C4, failing input: on a 10x10 image the rectangle (-2, 0, 5, 5) is
    widened to (0, 0, 7, 5) by the check on the negative origin, and 35
    pixels are painted instead of the 15 of the rectangle (0, 0, 3, 5). *)
Lemma ImageDrawRectangleRec_negative_origin_widens :
  let black := mkColor 0 0 0 0 in
  let red := mkColor 230 41 55 255 in
  let dst := mkImage (Some (painted 10 10 (fun _ _ => false) red black)) 10 10 1
               PIXELFORMAT_UNCOMPRESSED_R8G8B8A8 in
  ImageDrawRectangleRec_clamp (rect (-2) 0 5 5) = rect 0 0 7 5
  /\ ImageDrawRectangleRec dst (rect (-2) 0 5 5) red
     = Some (set_data dst (Some (painted 10 10 (in_rect 0 0 7 5) red black)))
  /\ ImageDrawRectangleRec dst (rect (-2) 0 5 5) red
     <> Some (set_data dst (Some (painted 10 10 (in_rect 0 0 3 5) red black))).
Proof.
  cbv zeta. split; [|split].
  - vm_compute. reflexivity.
  - vm_compute. reflexivity.
  - vm_compute. congruence.
Qed.

(** C10, failing input: [ImageDrawRectangleRec] writes only the first pixel
    of a row through [ImageDrawPixel], and its security checks look at the
    top and left edges only.  On a 4x4 image a rectangle that overhangs the
    right edge is not clipped: the row (2, 0)-(5, 0) spills
    into the pixels (0, 1) and (1, 1) of the next row, and on the last row
    it is written past the end of the buffer.  [ImageDrawCircle] fills its
    rows with such rectangles: the disc of radius 2 around (3, 1) paints the
    pixel (0, 2), and the one around (2, 2) writes past the end of the
    buffer (three iterations are enough for radius 2). *)
Lemma ImageDrawRectangleRec_not_clipped :
  let black := mkColor 0 0 0 0 in
  let red := mkColor 230 41 55 255 in
  let dst := mkImage (Some (painted 4 4 (fun _ _ => false) red black)) 4 4 1
               PIXELFORMAT_UNCOMPRESSED_R8G8B8A8 in
  ImageDrawRectangleRec dst (rect 2 0 4 1) red
  = Some (set_data dst
            (Some (painted 4 4 (fun x y => in_rect 2 0 2 1 x y || in_rect 0 1 2 1 x y)
                     red black)))
  /\ ImageDrawRectangleRec dst (rect 2 0 4 1) red
     <> Some (set_data dst (Some (painted 4 4 (in_rect 2 0 2 1) red black)))
  /\ ImageDrawRectangleRec dst (rect 2 3 4 1) red = None
  /\ (do result <- ImageDrawCircle 5 dst 3 1 2 red;
      do m <- data result; byte_at m ((2 * 4 + 0) * 4)) = Some (Byte 230)
  /\ ImageDrawCircle 5 dst 2 2 2 red = None.
Proof.
  cbv zeta. split; [|split; [|split; [|split]]].
  - vm_compute. reflexivity.
  - vm_compute. congruence.
  - vm_compute. reflexivity.
  - vm_compute. reflexivity.
  - vm_compute. reflexivity.
Qed.

(** ** Byte-wise stores *)

Lemma store_uchar_Some (m : buffer) (off v : Z) :
  0 <= off < Z.of_nat (length m) ->
  store_uchar m off v = Some (<[Z.to_nat off := Byte (uchar v)]> m).
Proof.
  intros H. unfold store_uchar.
  destruct (Z.leb_spec 0 off); [|lia].
  destruct (Z.ltb_spec off (Z.of_nat (length m))); [|lia].
  reflexivity.
Qed.

Lemma byte_at_insert (m : buffer) (off : Z) (x : memval) (k : Z) :
  0 <= off < Z.of_nat (length m) ->
  byte_at (<[Z.to_nat off := x]> m) k = if k =? off then Some x else byte_at m k.
Proof.
  intros Hoff. unfold byte_at.
  destruct (Z.eqb_spec k off) as [->|N].
  - destruct (Z.ltb_spec off 0); [lia|].
    apply list_lookup_insert_eq. lia.
  - destruct (Z.ltb_spec k 0); [reflexivity|].
    apply list_lookup_insert_ne. lia.
Qed.

Lemma byte_at_is_byte (m : buffer) (k : Z) :
  Forall is_byte m -> 0 <= k < Z.of_nat (length m) ->
  exists v : Z, byte_at m k = Some (Byte v) /\ is_uchar v.
Proof.
  intros Hm Hk. rewrite byte_at_nonneg by lia.
  destruct (lookup_lt_is_Some_2 m (Z.to_nat k) ltac:(lia)) as [x Hx].
  rewrite Forall_lookup in Hm. specialize (Hm _ _ Hx).
  destruct x as [|v]; [contradiction|]. exists v. split; assumption.
Qed.

Lemma byte_at_Some_lt (m : buffer) (k : Z) (x : memval) :
  byte_at m k = Some x -> 0 <= k < Z.of_nat (length m).
Proof.
  unfold byte_at. destruct (Z.ltb_spec k 0) as [|Hk]; [discriminate|].
  intros E. apply lookup_lt_Some in E. lia.
Qed.

Lemma Forall_is_byte_ext (m1 m2 src : buffer) :
  Forall is_byte m1 -> Forall is_byte src ->
  (forall k x, byte_at m2 k = Some x ->
     byte_at m1 k = Some x \/ exists k', byte_at src k' = Some x) ->
  Forall is_byte m2.
Proof.
  intros H1 Hs H. apply Forall_lookup. intros i x Hx.
  destruct (H (Z.of_nat i) x) as [E | [k' E]].
  - rewrite byte_at_nonneg by lia. now rewrite Nat2Z.id.
  - rewrite Forall_lookup in H1. unfold byte_at in E.
    destruct (Z.of_nat i <? 0); [discriminate|]. eapply H1; exact E.
  - rewrite Forall_lookup in Hs. unfold byte_at in E.
    destruct (k' <? 0); [discriminate|]. eapply Hs; exact E.
Qed.

Lemma memcpy_is_byte (dst : buffer) (doff : Z) (src : buffer) (soff n : Z) (m : buffer) :
  Forall is_byte dst -> Forall is_byte src ->
  memcpy dst doff src soff n = Some m -> Forall is_byte m.
Proof.
  intros Hd Hs E. apply (Forall_is_byte_ext dst m src); [assumption | assumption |].
  intros k x Hx.
  destruct (Z_lt_dec k doff) as [L|L].
  { left. rewrite <- Hx. symmetry. eapply memcpy_outside; [exact E | lia]. }
  destruct (Z_le_dec (doff + n) k) as [G|G].
  { left. rewrite <- Hx. symmetry. eapply memcpy_outside; [exact E | lia]. }
  right. exists (soff + (k - doff)).
  rewrite <- Hx. symmetry.
  replace k with (doff + (k - doff)) at 1 by lia.
  eapply memcpy_inside; [exact E | lia].
Qed.

(** Two adjacent copies are one copy. *)
Lemma memcpy_append (dst : buffer) (doff : Z) (src : buffer) (soff n1 n2 : Z) (m1 : buffer) :
  0 <= n2 -> soff + n1 + n2 <= Z.of_nat (length src) ->
  doff + n1 + n2 <= Z.of_nat (length dst) ->
  memcpy dst doff src soff n1 = Some m1 ->
  memcpy m1 (doff + n1) src (soff + n1) n2 = memcpy dst doff src soff (n1 + n2).
Proof.
  intros Hn2 Hs Hd E1.
  pose proof (memcpy_inv _ _ _ _ _ _ E1) as (H1 & H2 & H3 & H4 & H5 & _).
  pose proof (memcpy_length _ _ _ _ _ _ E1) as L1.
  assert (E2 : exists m2, memcpy m1 (doff + n1) src (soff + n1) n2 = Some m2).
  { eexists. apply memcpy_Some; lia. }
  assert (E3 : exists m3, memcpy dst doff src soff (n1 + n2) = Some m3).
  { eexists. apply memcpy_Some; lia. }
  destruct E2 as [m2 E2], E3 as [m3 E3]. rewrite E2, E3. f_equal.
  apply byte_at_ext. intros k.
  destruct (Z_lt_dec k doff) as [L|L].
  { rewrite (memcpy_outside _ _ _ _ _ _ k E2) by lia.
    rewrite (memcpy_outside _ _ _ _ _ _ k E1) by lia.
    rewrite (memcpy_outside _ _ _ _ _ _ k E3) by lia. reflexivity. }
  destruct (Z_le_dec (doff + n1 + n2) k) as [G|G].
  { rewrite (memcpy_outside _ _ _ _ _ _ k E2) by lia.
    rewrite (memcpy_outside _ _ _ _ _ _ k E1) by lia.
    rewrite (memcpy_outside _ _ _ _ _ _ k E3) by lia. reflexivity. }
  replace k with (doff + (k - doff)) at 2 by lia.
  rewrite (memcpy_inside _ _ _ _ _ _ (k - doff) E3) by lia.
  destruct (Z_lt_dec k (doff + n1)) as [M|M].
  - rewrite (memcpy_outside _ _ _ _ _ _ k E2) by lia.
    replace k with (doff + (k - doff)) at 1 by lia.
    rewrite (memcpy_inside _ _ _ _ _ _ (k - doff) E1) by lia. reflexivity.
  - replace k with (doff + n1 + (k - doff - n1)) at 1 by lia.
    rewrite (memcpy_inside _ _ _ _ _ _ (k - doff - n1) E2) by lia.
    f_equal. lia.
Qed.

(** A block [m1] that holds the bytes of [src] on the range of a copy, and
    those of [dst] elsewhere, is the result of the copy. *)
Lemma memcpy_intro (dst : buffer) (doff : Z) (src : buffer) (soff n : Z) (m1 : buffer) :
  0 <= doff -> 0 <= soff -> 0 <= n ->
  doff + n <= Z.of_nat (length dst) -> soff + n <= Z.of_nat (length src) ->
  (forall k, byte_at m1 k
             = if (doff <=? k) && (k <? doff + n) then byte_at src (soff + (k - doff))
               else byte_at dst k) ->
  memcpy dst doff src soff n = Some m1.
Proof.
  intros H1 H2 H3 H4 H5 H.
  assert (E : exists m, memcpy dst doff src soff n = Some m).
  { eexists. apply memcpy_Some; assumption. }
  destruct E as [m E]. rewrite E. f_equal.
  apply byte_at_ext. intros k. rewrite H.
  destruct (Z.leb_spec doff k); cbn [andb].
  - destruct (Z.ltb_spec k (doff + n)).
    + replace k with (doff + (k - doff)) at 1 by lia.
      eapply memcpy_inside; [exact E | lia].
    + eapply memcpy_outside; [exact E | lia].
  - eapply memcpy_outside; [exact E | lia].
Qed.

Lemma bind_Some_r {A : Type} (m : option A) : (do x <- m; Some x) = m.
Proof. destruct m; reflexivity. Qed.

(** Storing, byte after byte, the values found in [src] is a copy. *)
Lemma store_bytes_memcpy (vs : list Z) (dst : buffer) (doff : Z) (src : buffer) (soff : Z) :
  0 <= doff -> 0 <= soff ->
  doff + Z.of_nat (length vs) <= Z.of_nat (length dst) ->
  soff + Z.of_nat (length vs) <= Z.of_nat (length src) ->
  (forall i v, vs !! i = Some v -> byte_at src (soff + Z.of_nat i) = Some (Byte (uchar v))) ->
  store_bytes dst doff vs = memcpy dst doff src soff (Z.of_nat (length vs)).
Proof.
  revert dst doff soff.
  induction vs as [|v vs IH]; intros dst doff soff Hd Hs Ld Ls Hv.
  - cbn [store_bytes length]. symmetry. apply memcpy_intro; try lia.
    intros k. destruct (Z.leb_spec doff k); cbn [andb]; [|reflexivity].
    destruct (Z.ltb_spec k (doff + Z.of_nat 0)); [lia | reflexivity].
  - cbn [store_bytes]. cbn [length] in Ld, Ls.
    rewrite store_uchar_Some by lia. cbn [bind].
    set (m1 := <[Z.to_nat doff := Byte (uchar v)]> dst).
    assert (E1 : memcpy dst doff src soff 1 = Some m1).
    { apply memcpy_intro; try lia. intros k. unfold m1.
      rewrite byte_at_insert by lia.
      destruct (Z.eqb_spec k doff) as [->|N].
      - destruct (Z.leb_spec doff doff); [|lia].
        destruct (Z.ltb_spec doff (doff + 1)); [|lia]. cbn [andb].
        rewrite Z.sub_diag. symmetry.
        specialize (Hv 0%nat v eq_refl). exact Hv.
      - destruct (Z.leb_spec doff k); cbn [andb]; [|reflexivity].
        destruct (Z.ltb_spec k (doff + 1)); [lia | reflexivity]. }
    rewrite (IH m1 (doff + 1) (soff + 1)).
    + replace (Z.of_nat (length (v :: vs))) with (1 + Z.of_nat (length vs))
        by (cbn [length]; lia).
      apply memcpy_append; try lia. exact E1.
    + lia.
    + lia.
    + unfold m1. rewrite length_insert. lia.
    + lia.
    + intros i v' Hi. specialize (Hv (S i) v' Hi).
      rewrite <- Hv. f_equal. lia.
Qed.

(** ** The codec on the formats without alpha *)

Lemma gray_of_gray (v : Z) :
  is_uchar v -> gray_stable v = true -> uchar (gray_of (mkColor v v v 255)) = uchar v.
Proof.
  unfold gray_stable. intros _ H. apply Z.eqb_eq in H. now rewrite H.
Qed.

Lemma ColorAlphaBlend_opaque_white (dst src : Color) :
  Color_ok src -> a src = 255 -> ColorAlphaBlend dst src WHITE = src.
Proof.
  intros (Hr & Hg & Hb & Ha) E.
  assert (T : forall c, is_uchar c -> tint_channel c 255 = c).
  { intros c Hc. destruct (tint_channel_spec c 255 Hc) as [-> _].
    - unfold is_uchar. lia.
    - unfold spec_tint. rewrite shiftr8_div.
      replace (c * (255 + 1)) with (c * 256) by lia. apply Z.div_mul. lia. }
  unfold ColorAlphaBlend. cbn [WHITE r g b a].
  rewrite !T by assumption. rewrite E. cbn.
  destruct src as [sr sg sb sa]. cbn in E. subst sa. reflexivity.
Qed.

(** One pixel of the slow path: the source pixel is decoded to an opaque
    colour, and encoding that colour at the destination writes the bytes of
    the source pixel. *)
Lemma pixel_copy (f bpp : Z) (sm dm : buffer) (pS pD : Z) :
  opaque_format f bpp ->
  Forall is_byte sm -> Forall is_byte dm ->
  (f = PIXELFORMAT_UNCOMPRESSED_GRAYSCALE -> Forall gray_stable_byte sm) ->
  0 <= pS -> pS + bpp <= Z.of_nat (length sm) ->
  0 <= pD -> pD + bpp <= Z.of_nat (length dm) ->
  exists colSrc colDst : Color,
    GetPixelColor sm pS f = Some colSrc
    /\ GetPixelColor dm pD f = Some colDst
    /\ Color_ok colSrc /\ a colSrc = 255
    /\ SetPixelColor dm pD colSrc f = memcpy dm pD sm pS bpp.
Proof.
  intros Hf Hsm Hdm Hgray HpS LS HpD LD.
  destruct Hf as [[-> ->] | [[-> ->] | [-> ->]]].
  - (* grayscale *)
    destruct (byte_at_is_byte sm pS Hsm ltac:(lia)) as (v & Ev & Rv).
    destruct (byte_at_is_byte dm pD Hdm ltac:(lia)) as (w & Ew & Rw).
    exists (mkColor v v v 255), (mkColor w w w 255).
    assert (Sv : gray_stable v = true).
    { specialize (Hgray eq_refl). rewrite Forall_lookup in Hgray.
      rewrite byte_at_nonneg in Ev by lia. exact (Hgray _ _ Ev). }
    unfold GetPixelColor, SetPixelColor. cbn [Z.eqb PIXELFORMAT_UNCOMPRESSED_GRAYSCALE Pos.eqb].
    rewrite !load_uchar_byte_at, Ev, Ew. cbn [bind].
    split; [reflexivity|]. split; [reflexivity|].
    split; [unfold Color_ok; cbn [r g b a]; unfold is_uchar in *; lia|].
    split; [reflexivity|].
    rewrite <- (bind_Some_r (store_uchar dm pD _)).
    change 1 with (Z.of_nat (length [gray_of (mkColor v v v 255)])).
    rewrite <- (store_bytes_memcpy [gray_of (mkColor v v v 255)] dm pD sm pS);
      try (cbn [length]; lia).
    + reflexivity.
    + intros [|i] v' Hi; [|destruct i; discriminate]. injection Hi as <-.
      rewrite Z.add_0_r, Ev. rewrite gray_of_gray by assumption.
      rewrite uchar_small by assumption. reflexivity.
  - (* R5G6B5 *)
    destruct (byte_at_is_byte sm pS Hsm ltac:(lia)) as (v0 & Ev0 & Rv0).
    destruct (byte_at_is_byte sm (pS + 1) Hsm ltac:(lia)) as (v1 & Ev1 & Rv1).
    destruct (byte_at_is_byte dm pD Hdm ltac:(lia)) as (w0 & Ew0 & Rw0).
    destruct (byte_at_is_byte dm (pD + 1) Hdm ltac:(lia)) as (w1 & Ew1 & Rw1).
    exists (decode_r5g6b5 (v0 + 256 * v1)), (decode_r5g6b5 (w0 + 256 * w1)).
    rewrite !GetPixelColor_r5g6b5, SetPixelColor_r5g6b5. unfold load_ushort.
    rewrite !load_uchar_byte_at, Ev0, Ev1, Ew0, Ew1. cbn [bind].
    assert (Hp : 0 <= v0 + 256 * v1 < 65536) by (unfold is_uchar in *; lia).
    destruct (r5g6b5_word_stable _ Hp) as [Ed Ee].
    split; [reflexivity|]. split; [reflexivity|].
    split.
    { unfold decode_r5g6b5, Color_ok, is_uchar, uchar. cbn [r g b a].
      repeat split; try lia; apply Z.mod_pos_bound; lia. }
    split; [reflexivity|].
    rewrite Ee. unfold store_ushort.
    change 2 with (Z.of_nat (length [v0 + 256 * v1; Z.shiftr (v0 + 256 * v1) 8])).
    rewrite <- (store_bytes_memcpy [v0 + 256 * v1; Z.shiftr (v0 + 256 * v1) 8] dm pD sm pS);
      try (cbn [length]; lia).
    + cbn [store_bytes].
      destruct (store_uchar dm pD (v0 + 256 * v1)); [|reflexivity]. cbn [bind].
      now rewrite bind_Some_r.
    + assert (U0 : uchar (v0 + 256 * v1) = v0).
      { unfold uchar, is_uchar in *. rewrite (Z.mul_comm 256 v1), Z.mod_add by lia.
        apply Z.mod_small. lia. }
      assert (U1 : uchar (Z.shiftr (v0 + 256 * v1) 8) = v1).
      { unfold uchar, is_uchar in *. rewrite shiftr8_div.
        rewrite (Z.mul_comm 256 v1), Z.div_add by lia.
        rewrite (Z.div_small v0) by lia. rewrite Z.add_0_l. apply Z.mod_small. lia. }
      intros [|[|i]] v' Hi; try discriminate; injection Hi as <-.
      * rewrite Z.add_0_r, U0. exact Ev0.
      * rewrite U1. exact Ev1.
  - (* R8G8B8 *)
    destruct (byte_at_is_byte sm pS Hsm ltac:(lia)) as (v0 & Ev0 & Rv0).
    destruct (byte_at_is_byte sm (pS + 1) Hsm ltac:(lia)) as (v1 & Ev1 & Rv1).
    destruct (byte_at_is_byte sm (pS + 2) Hsm ltac:(lia)) as (v2 & Ev2 & Rv2).
    destruct (byte_at_is_byte dm pD Hdm ltac:(lia)) as (w0 & Ew0 & Rw0).
    destruct (byte_at_is_byte dm (pD + 1) Hdm ltac:(lia)) as (w1 & Ew1 & Rw1).
    destruct (byte_at_is_byte dm (pD + 2) Hdm ltac:(lia)) as (w2 & Ew2 & Rw2).
    exists (mkColor v0 v1 v2 255), (mkColor w0 w1 w2 255).
    unfold GetPixelColor, SetPixelColor.
    cbn [Z.eqb PIXELFORMAT_UNCOMPRESSED_R8G8B8 PIXELFORMAT_UNCOMPRESSED_GRAYSCALE
           PIXELFORMAT_UNCOMPRESSED_GRAY_ALPHA PIXELFORMAT_UNCOMPRESSED_R5G6B5
           PIXELFORMAT_UNCOMPRESSED_R5G5B5A1 PIXELFORMAT_UNCOMPRESSED_R4G4B4A4
           PIXELFORMAT_UNCOMPRESSED_R8G8B8A8 Pos.eqb].
    rewrite !load_uchar_byte_at, Ev0, Ev1, Ev2, Ew0, Ew1, Ew2. cbn [bind].
    split; [reflexivity|]. split; [reflexivity|].
    split; [unfold Color_ok; cbn [r g b a]; unfold is_uchar in *; lia|].
    split; [reflexivity|]. cbn [r g b a].
    change 3 with (Z.of_nat (length [v0; v1; v2])).
    rewrite <- (store_bytes_memcpy [v0; v1; v2] dm pD sm pS); try (cbn [length]; lia).
    + cbn [store_bytes].
      destruct (store_uchar dm pD v0); [|reflexivity]. cbn [bind].
      destruct (store_uchar _ (pD + 1) v1); [|reflexivity]. cbn [bind].
      replace (pD + 1 + 1) with (pD + 2) by lia. now rewrite bind_Some_r.
    + intros [|[|[|i]]] v' Hi; try discriminate; injection Hi as <-;
        rewrite uchar_small by assumption.
      * rewrite Z.add_0_r. exact Ev0.
      * exact Ev1.
      * exact Ev2.
Qed.

(** ** The two paths of the blit *)

Lemma memcpy_zero (dst : buffer) (doff : Z) (src : buffer) (soff : Z) :
  0 <= doff <= Z.of_nat (length dst) -> 0 <= soff <= Z.of_nat (length src) ->
  memcpy dst doff src soff 0 = Some dst.
Proof.
  intros Hd Hs. apply memcpy_intro; try lia.
  intros k. destruct (Z.leb_spec doff k); cbn [andb]; [|reflexivity].
  destruct (Z.ltb_spec k (doff + 0)); [lia | reflexivity].
Qed.

(** The pixel loop of a row, on formats without alpha and under an opaque
    white tint, performs the raw copy of the row. *)
Lemma ImageDraw_row_loop (f bpp : Z) (blendRequired : bool) (sm : buffer) (k : nat) :
  opaque_format f bpp -> Forall is_byte sm ->
  (f = PIXELFORMAT_UNCOMPRESSED_GRAYSCALE -> Forall gray_stable_byte sm) ->
  forall (i : Z) (dm : buffer) (pS pD : Z),
  Forall is_byte dm ->
  0 <= pS -> pS + Z.of_nat k * bpp <= Z.of_nat (length sm) ->
  0 <= pD -> pD + Z.of_nat k * bpp <= Z.of_nat (length dm) ->
  for_loop k i
    (fun (x : Z) '(dstbuf, pSrc, pDst) =>
       do colSrc <- GetPixelColor sm pSrc f;
       do colDst <- GetPixelColor dstbuf pDst f;
       let blend :=
         if blendRequired then ColorAlphaBlend colDst colSrc WHITE else colSrc in
       do dstbuf <- SetPixelColor dstbuf pDst blend f;
       Some (dstbuf, pSrc + bpp, pDst + bpp))
    (dm, pS, pD)
  = do m <- memcpy dm pD sm pS (Z.of_nat k * bpp);
    Some (m, pS + Z.of_nat k * bpp, pD + Z.of_nat k * bpp).
Proof.
  intros Hf Hsm Hgray.
  assert (Hbpp : 0 < bpp) by (destruct Hf as [[_ ->] | [[_ ->] | [_ ->]]]; lia).
  induction k as [|k IH]; intros i dm pS pD Hdm HpS LS HpD LD.
  - cbn [for_loop]. change (Z.of_nat 0) with 0. rewrite Z.mul_0_l, !Z.add_0_r.
    rewrite memcpy_zero by lia. reflexivity.
  - cbn [for_loop].
    destruct (pixel_copy f bpp sm dm pS pD Hf Hsm Hdm Hgray)
      as (colSrc & colDst & -> & -> & Hok & Ha & Eset); try nia.
    cbn [bind].
    replace (if blendRequired then ColorAlphaBlend colDst colSrc WHITE else colSrc)
      with colSrc.
    2:{ destruct blendRequired; [|reflexivity].
        symmetry. apply ColorAlphaBlend_opaque_white; assumption. }
    rewrite Eset.
    assert (E1 : exists m1, memcpy dm pD sm pS bpp = Some m1).
    { eexists. apply memcpy_Some; nia. }
    destruct E1 as [m1 E1]. rewrite E1. cbn [bind].
    rewrite IH.
    + rewrite (memcpy_append dm pD sm pS bpp (Z.of_nat k * bpp) m1); try nia.
      2:{ exact E1. }
      replace (bpp + Z.of_nat k * bpp) with (Z.of_nat (S k) * bpp) by lia.
      destruct (memcpy dm pD sm pS (Z.of_nat (S k) * bpp)); [|reflexivity].
      cbn [bind]. do 2 f_equal; [f_equal|]; lia.
    + eapply memcpy_is_byte; [exact Hdm | exact Hsm | exact E1].
    + lia.
    + nia.
    + lia.
    + rewrite (memcpy_length _ _ _ _ _ _ E1). nia.
Qed.

Lemma ImageDraw_row_paths (f bpp : Z) (blendRequired blendRequired' : bool)
    (sm dm : buffer) (n pS pD : Z) :
  opaque_format f bpp -> Forall is_byte sm -> Forall is_byte dm ->
  (f = PIXELFORMAT_UNCOMPRESSED_GRAYSCALE -> Forall gray_stable_byte sm) ->
  0 <= n -> n * bpp <= INT_MAX ->
  0 <= pS -> pS + n * bpp <= Z.of_nat (length sm) ->
  0 <= pD -> pD + n * bpp <= Z.of_nat (length dm) ->
  ImageDraw_row false blendRequired sm f f n bpp bpp WHITE pS pD dm
  = memcpy dm pD sm pS (n * bpp)
  /\ ImageDraw_row true blendRequired' sm f f n bpp bpp WHITE pS pD dm
     = memcpy dm pD sm pS (n * bpp).
Proof.
  intros Hf Hsm Hdm Hgray Hn Hmax HpS LS HpD LD.
  assert (Hbpp : 0 < bpp) by (destruct Hf as [[_ ->] | [[_ ->] | [_ ->]]]; lia).
  unfold ImageDraw_row. split.
  - unfold for_range. rewrite Z.sub_0_r.
    rewrite (ImageDraw_row_loop f bpp blendRequired sm (Z.to_nat n) Hf Hsm Hgray);
      try assumption; rewrite ?Z2Nat.id by lia; try assumption.
    destruct (memcpy dm pD sm pS (n * bpp)); reflexivity.
  - rewrite int_small by (unfold INT_MIN, INT_MAX in *; nia).
    rewrite size_t_small by (unfold INT_MAX in *; nia). reflexivity.
Qed.

(** Two loops whose bodies agree on the states of an invariant agree. *)
Lemma for_loop_ext_inv {St : Type} (Inv : Z -> St -> Prop)
    (body1 body2 : Z -> St -> option St) (n : nat) (i : Z) (s : St) :
  Inv i s ->
  (forall j s, i <= j < i + Z.of_nat n -> Inv j s ->
     body1 j s = body2 j s /\ forall s', body2 j s = Some s' -> Inv (j + 1) s') ->
  for_loop n i body1 s = for_loop n i body2 s.
Proof.
  revert i s. induction n as [|n IH]; intros i s Hinv Hstep; [reflexivity|].
  cbn [for_loop].
  destruct (Hstep i s ltac:(lia) Hinv) as [E Hnext]. rewrite E.
  destruct (body2 i s) as [s'|]; [|reflexivity]. cbn [bind].
  apply IH.
  - apply Hnext. reflexivity.
  - intros j s0 Hj. apply Hstep. lia.
Qed.

Lemma for_loop_inv_Some {St : Type} (Inv : Z -> St -> Prop) (body : Z -> St -> option St)
    (n : nat) (i : Z) (s : St) :
  Inv i s ->
  (forall j s, i <= j < i + Z.of_nat n -> Inv j s ->
     exists s', body j s = Some s' /\ Inv (j + 1) s') ->
  exists s', for_loop n i body s = Some s' /\ Inv (i + Z.of_nat n) s'.
Proof.
  revert i s. induction n as [|n IH]; intros i s Hinv Hstep.
  - exists s. cbn [for_loop]. rewrite Z.add_0_r. split; [reflexivity | assumption].
  - cbn [for_loop].
    destruct (Hstep i s ltac:(lia) Hinv) as (s1 & -> & Hinv1). cbn [bind].
    destruct (IH (i + 1) s1 Hinv1) as (s' & E & Hinv').
    + intros j s0 Hj. apply Hstep. lia.
    + exists s'. split; [exact E|].
      replace (i + Z.of_nat (S n)) with (i + 1 + Z.of_nat n) by lia. exact Hinv'.
Qed.

Lemma opaque_format_stride (f bpp w : Z) :
  opaque_format f bpp -> 0 < w <= 65536 ->
  GetPixelDataSize w 1 f = w * bpp /\ int (w * bpp ÷ w) = bpp.
Proof.
  intros Hf Hw.
  assert (Hq : forall c, 0 < c <= 3 -> int (w * c ÷ w) = c).
  { intros c Hc. rewrite Z.quot_div_nonneg by nia.
    rewrite Z.mul_comm, Z.div_mul by lia.
    apply int_small. unfold INT_MIN, INT_MAX. lia. }
  unfold GetPixelDataSize.
  rewrite Z.mul_1_r, (int_small w) by (unfold INT_MIN, INT_MAX; lia).
  destruct Hf as [[-> ->] | [[-> ->] | [-> ->]]].
  - change (bits_per_pixel PIXELFORMAT_UNCOMPRESSED_GRAYSCALE) with 8.
    rewrite (int_small (w * 8)) by (unfold INT_MIN, INT_MAX; lia).
    rewrite Z.quot_div_nonneg, Z.div_mul by lia.
    split; [|apply Hq; lia].
    change (PIXELFORMAT_COMPRESSED_DXT1_RGB <=? PIXELFORMAT_UNCOMPRESSED_GRAYSCALE) with false.
    change (PIXELFORMAT_COMPRESSED_DXT3_RGBA <=? PIXELFORMAT_UNCOMPRESSED_GRAYSCALE) with false.
    cbn [andb]. destruct ((w <? 4) && (1 <? 4)); lia.
  - change (bits_per_pixel PIXELFORMAT_UNCOMPRESSED_R5G6B5) with (2 * 8).
    rewrite Z.mul_assoc.
    rewrite (int_small (w * 2 * 8)) by (unfold INT_MIN, INT_MAX; lia).
    rewrite Z.quot_div_nonneg, Z.div_mul by lia.
    split; [|apply Hq; lia].
    change (PIXELFORMAT_COMPRESSED_DXT1_RGB <=? PIXELFORMAT_UNCOMPRESSED_R5G6B5) with false.
    change (PIXELFORMAT_COMPRESSED_DXT3_RGBA <=? PIXELFORMAT_UNCOMPRESSED_R5G6B5) with false.
    cbn [andb]. destruct ((w <? 4) && (1 <? 4)); lia.
  - change (bits_per_pixel PIXELFORMAT_UNCOMPRESSED_R8G8B8) with (3 * 8).
    rewrite Z.mul_assoc.
    rewrite (int_small (w * 3 * 8)) by (unfold INT_MIN, INT_MAX; lia).
    rewrite Z.quot_div_nonneg, Z.div_mul by lia.
    split; [|apply Hq; lia].
    change (PIXELFORMAT_COMPRESSED_DXT1_RGB <=? PIXELFORMAT_UNCOMPRESSED_R8G8B8) with false.
    change (PIXELFORMAT_COMPRESSED_DXT3_RGBA <=? PIXELFORMAT_UNCOMPRESSED_R8G8B8) with false.
    cbn [andb]. destruct ((w <? 4) && (1 <? 4)); lia.
Qed.

(** On a 4x4 source and an 8x8 destination of the same format without
    alpha, with the whole source drawn at [(dx, dy)] inside the destination
    under an opaque white tint, the per-pixel blit and the raw copy agree,
    and return. *)
Lemma ImageDraw_blit_paths (f bpp : Z) (blendRequired : bool) (sm dm : buffer)
    (smips dmips dx dy : Z) (srcRec dstRec : Rectangle) :
  opaque_format f bpp -> Forall is_byte sm -> Forall is_byte dm ->
  (f = PIXELFORMAT_UNCOMPRESSED_GRAYSCALE -> Forall gray_stable_byte sm) ->
  Z.of_nat (length sm) = 4 * 4 * bpp -> Z.of_nat (length dm) = 8 * 8 * bpp ->
  F32.to_int (rec_x srcRec) = 0 -> F32.to_int (rec_y srcRec) = 0 ->
  F32.to_int (rec_width srcRec) = 4 -> F32.to_int (rec_height srcRec) = 4 ->
  F32.to_int (rec_x dstRec) = dx -> F32.to_int (rec_y dstRec) = dy ->
  0 <= dx <= 4 -> 0 <= dy <= 4 ->
  let dst := mkImage (Some dm) 8 8 dmips f in
  let src := mkImage (Some sm) 4 4 smips f in
  ImageDraw_blit false blendRequired dst src srcRec dstRec WHITE
  = ImageDraw_blit true false dst src srcRec dstRec WHITE
  /\ exists m : buffer,
       ImageDraw_blit true false dst src srcRec dstRec WHITE
       = Some (set_data dst (Some m))
       /\ length m = length dm.
Proof.
  intros Hf Hsm Hdm Hgray Ls Ld Esx Esy Esw Esh Edx Edy Hdx Hdy dst src.
  assert (Hbpp : 0 < bpp <= 3) by (destruct Hf as [[_ ->] | [[_ ->] | [_ ->]]]; lia).
  destruct (opaque_format_stride f bpp 8 Hf ltac:(lia)) as [Sd Bd].
  destruct (opaque_format_stride f bpp 4 Hf ltac:(lia)) as [Ss Bs].
  unfold ImageDraw_blit, dst, src. cbn [data width height format mipmaps].
  rewrite Esx, Esy, Esw, Esh, Edx, Edy, Sd, Ss, Bd, Bs.
  change (4 =? 0) with false. cbv iota. cbn [bind].
  rewrite (int_small (0 * 4)), (int_small (0 * 4 + 0)), (int_small ((0 * 4 + 0) * bpp))
    by (unfold INT_MIN, INT_MAX; lia).
  rewrite (int_small (dy * 8)), (int_small (dy * 8 + dx)),
    (int_small ((dy * 8 + dx) * bpp)) by (unfold INT_MIN, INT_MAX; nia).
  unfold for_range. change (Z.to_nat (4 - 0)) with 4%nat.
  set (Inv := fun (j : Z) (s : buffer * Z * Z) =>
                let '(d, pS, pD) := s in
                Forall is_byte d /\ length d = length dm
                /\ pS = (0 * 4 + 0) * bpp + j * (4 * bpp)
                /\ pD = (dy * 8 + dx) * bpp + j * (8 * bpp)).
  assert (Hinv0 : Inv 0 (dm, (0 * 4 + 0) * bpp, (dy * 8 + dx) * bpp)).
  { unfold Inv. repeat split; try assumption; lia. }
  assert (Hrow : forall j (d : buffer) pS pD, 0 <= j < 4 -> Inv j (d, pS, pD) ->
            ImageDraw_row false blendRequired sm f f 4 bpp bpp WHITE pS pD d
            = memcpy d pD sm pS (4 * bpp)
            /\ ImageDraw_row true false sm f f 4 bpp bpp WHITE pS pD d
               = memcpy d pD sm pS (4 * bpp)
            /\ exists m, memcpy d pD sm pS (4 * bpp) = Some m
                         /\ Inv (j + 1) (m, pS + 4 * bpp, pD + 8 * bpp)).
  { intros j d pS pD Hj (Hd & Ld' & -> & ->).
    destruct (ImageDraw_row_paths f bpp blendRequired false sm d 4
                ((0 * 4 + 0) * bpp + j * (4 * bpp))
                ((dy * 8 + dx) * bpp + j * (8 * bpp)))
      as [E1 E2]; try assumption; try (unfold INT_MAX; nia); try (rewrite ?Ld'; nia).
    split; [exact E1|]. split; [exact E2|].
    assert (E : exists m, memcpy d ((dy * 8 + dx) * bpp + j * (8 * bpp)) sm
                            ((0 * 4 + 0) * bpp + j * (4 * bpp)) (4 * bpp) = Some m).
    { eexists. apply memcpy_Some; nia. }
    destruct E as [m E]. exists m. split; [exact E|].
    unfold Inv. split; [eapply memcpy_is_byte; [exact Hd | exact Hsm | exact E]|].
    split; [rewrite (memcpy_length _ _ _ _ _ _ E); exact Ld'|]. split; lia. }
  split.
  - rewrite (for_loop_ext_inv Inv _
               (fun (y : Z) '(dstbuf, pSrcBase, pDstBase) =>
                  do dstbuf <- ImageDraw_row true false sm f f 4 bpp bpp WHITE
                                 pSrcBase pDstBase dstbuf;
                  Some (dstbuf, pSrcBase + 4 * bpp, pDstBase + 8 * bpp)) 4 0 _ Hinv0).
    + reflexivity.
    + intros j [[d pS] pD] Hj Hi.
      destruct (Hrow j d pS pD ltac:(lia) Hi) as (E1 & E2 & m & Em & Hi').
      rewrite E1, E2, Em. cbn [bind]. split; [reflexivity|].
      intros s' [= <-]. exact Hi'.
  - destruct (for_loop_inv_Some Inv
                (fun (y : Z) '(dstbuf, pSrcBase, pDstBase) =>
                   do dstbuf <- ImageDraw_row true false sm f f 4 bpp bpp WHITE
                                  pSrcBase pDstBase dstbuf;
                   Some (dstbuf, pSrcBase + 4 * bpp, pDstBase + 8 * bpp)) 4 0 _ Hinv0)
      as ([[m pS] pD] & E & Hi).
    + intros j [[d pS] pD] Hj Hi.
      destruct (Hrow j d pS pD ltac:(lia) Hi) as (_ & E2 & m & Em & Hi').
      rewrite E2, Em. cbn [bind]. eexists. split; [reflexivity | exact Hi'].
    + exists m. rewrite E. cbn [bind]. split; [reflexivity|].
      destruct Hi as (_ & L & _). exact L.
Qed.

Lemma gray_stable_levels (v : Z) :
  is_uchar v ->
  gray_stable v = negb (existsb (Z.eqb v) gray_unstable_levels)
  /\ (gray_stable v = false -> gray_of (mkColor v v v 255) = v - 1).
Proof.
  intros Hv.
  assert (H : (Bool.eqb (gray_stable v) (negb (existsb (Z.eqb v) gray_unstable_levels))
               && (gray_stable v || (gray_of (mkColor v v v 255) =? v - 1))) = true).
  { revert v Hv. apply (all_below_spec 256). vm_compute. reflexivity. }
  apply andb_true_iff in H as [H1 H2]. apply Bool.eqb_prop in H1.
  split; [exact H1|].
  intros E. rewrite E in H2. cbn [orb] in H2. now apply Z.eqb_eq.
Qed.

Lemma ImageDraw_rects_inside (dx dy : Z) (d d' : option buffer) (mips mips' f f' : Z) :
  0 <= dx <= 4 -> 0 <= dy <= 4 ->
  ImageCrop_clamp (mkImage d' 4 4 mips' f') (rect 0 0 4 4) = rect 0 0 4 4
  /\ ImageDraw_clamp (mkImage d 8 8 mips f) (rect 0 0 4 4) (rect dx dy 4 4)
     = (rect 0 0 4 4, rect dx dy 4 4)
  /\ F32.to_int (F32.of_int dx) = dx /\ F32.to_int (F32.of_int dy) = dy.
Proof.
  intros Hx Hy.
  assert (Cx : dx = 0 \/ dx = 1 \/ dx = 2 \/ dx = 3 \/ dx = 4) by lia.
  assert (Cy : dy = 0 \/ dy = 1 \/ dy = 2 \/ dy = 3 \/ dy = 4) by lia.
  destruct Cx as [-> | [-> | [-> | [-> | ->]]]];
    destruct Cy as [-> | [-> | [-> | [-> | ->]]]];
    vm_compute; repeat split; reflexivity.
Qed.

(** With the whole 4x4 source drawn inside the 8x8 destination, [ImageDraw]
    is its blit, on the path selected by the two shortcuts. *)
Lemma ImageDraw_with_blit (stbir : option buffer -> Z -> Z -> Z -> option buffer -> Z -> Z -> Z -> Z
                                    -> option (option buffer))
    (b1 b2 : bool) (f bpp : Z) (sm dm : buffer) (smips dmips dx dy : Z) :
  opaque_format f bpp -> 0 <= dx <= 4 -> 0 <= dy <= 4 ->
  let dst := mkImage (Some dm) 8 8 dmips f in
  let src := mkImage (Some sm) 4 4 smips f in
  ImageDraw_with stbir b1 b2 dst src (rect 0 0 4 4) (rect dx dy 4 4) WHITE
  = ImageDraw_blit (b2 && b1) (negb b1) dst src (rect 0 0 4 4) (rect dx dy 4 4) WHITE.
Proof.
  intros Hf Hx Hy dst src.
  destruct (ImageDraw_rects_inside dx dy (Some dm) (Some sm) dmips smips f f Hx Hy)
    as (Ec & Ed & _ & _).
  unfold ImageDraw_with, dst, src. cbn [data width height format is_null orb].
  change (8 =? 0) with false. change (4 =? 0) with false. cbn [orb].
  rewrite Ec.
  replace (PIXELFORMAT_COMPRESSED_DXT1_RGB <=? f) with false.
  2:{ destruct Hf as [[-> _] | [[-> _] | [-> _]]]; reflexivity. }
  replace (negb (F32.to_int (rec_width (rect 0 0 4 4))
                 =? F32.to_int (rec_width (rect dx dy 4 4)))
           || negb (F32.to_int (rec_height (rect 0 0 4 4))
                    =? F32.to_int (rec_height (rect dx dy 4 4)))) with false
    by (vm_compute; reflexivity).
  cbn [bind]. rewrite Ed.
  cbn [format a WHITE]. rewrite !Z.eqb_refl.
  replace ((f =? PIXELFORMAT_UNCOMPRESSED_GRAYSCALE)
           || (f =? PIXELFORMAT_UNCOMPRESSED_R8G8B8)
           || (f =? PIXELFORMAT_UNCOMPRESSED_R5G6B5)) with true.
  2:{ destruct Hf as [[-> _] | [[-> _] | [-> _]]]; reflexivity. }
  rewrite !andb_true_r. rewrite negb_involutive. reflexivity.
Qed.

(** C2, counterexample: a Grayscale source whose pixels hold the grey level
    45, drawn on a zeroed Grayscale destination with an opaque white tint.
    The raw copy writes 45; the per-pixel path re-encodes the decoded colour
    (45, 45, 45) through the float luma formula and writes 44. *)
Lemma ImageDraw_grayscale_paths_differ :
  let src := mkImage (Some (replicate 16 (Byte 45))) 4 4 1
               PIXELFORMAT_UNCOMPRESSED_GRAYSCALE in
  let dst := mkImage (Some (replicate 64 (Byte 0))) 8 8 1
               PIXELFORMAT_UNCOMPRESSED_GRAYSCALE in
  let pixel0 (o : option Image) := do image <- o; do m <- data image; byte_at m 0 in
  pixel0 (ImageDraw no_resampler dst src (rect 0 0 4 4) (rect 0 0 4 4) WHITE)
  = Some (Byte 45)
  /\ pixel0 (ImageDraw_slow no_resampler dst src (rect 0 0 4 4) (rect 0 0 4 4) WHITE)
     = Some (Byte 44)
  /\ ImageDraw_slow no_resampler dst src (rect 0 0 4 4) (rect 0 0 4 4) WHITE
     <> ImageDraw no_resampler dst src (rect 0 0 4 4) (rect 0 0 4 4) WHITE.
Proof.
  cbv zeta. split; [|split].
  - vm_compute. reflexivity.
  - vm_compute. reflexivity.
  - vm_compute. congruence.
Qed.

(** C2, as amended: for every 4x4 source and 8x8 destination of the same
    format, drawn whole at a position inside the destination with an opaque
    white tint, the raw-copy fast path and the per-pixel slow path of
    [ImageDraw] return the same destination, byte for byte, when the format
    is R8G8B8 or R5G6B5, and also when it is Grayscale provided every source
    grey level is one that the grey encoder returns unchanged; the encoder
    lowers the levels 45, 85, 90, 95, 167, 170, 180, 190, 227, 237 and 247
    by one. *)
Theorem ImageDraw_paths_agree
    (stbir : option buffer -> Z -> Z -> Z -> option buffer -> Z -> Z -> Z -> Z
             -> option (option buffer))
    (f bpp : Z) (sm dm : buffer) (smips dmips dx dy : Z) :
  opaque_format f bpp ->
  Z.of_nat (length sm) = 4 * 4 * bpp -> Z.of_nat (length dm) = 8 * 8 * bpp ->
  Forall is_byte sm -> Forall is_byte dm ->
  (f = PIXELFORMAT_UNCOMPRESSED_GRAYSCALE -> Forall gray_stable_byte sm) ->
  0 <= dx <= 4 -> 0 <= dy <= 4 ->
  let dst := mkImage (Some dm) 8 8 dmips f in
  let src := mkImage (Some sm) 4 4 smips f in
  let srcRec := rect 0 0 4 4 in
  let dstRec := rect dx dy 4 4 in
  ImageDraw_slow stbir dst src srcRec dstRec WHITE
  = ImageDraw stbir dst src srcRec dstRec WHITE
  /\ ImageDraw_with stbir true false dst src srcRec dstRec WHITE
     = ImageDraw stbir dst src srcRec dstRec WHITE
  /\ (exists m : buffer,
        ImageDraw stbir dst src srcRec dstRec WHITE = Some (set_data dst (Some m))
        /\ length m = length dm)
  /\ (forall v, is_uchar v ->
        gray_stable v = negb (existsb (Z.eqb v) gray_unstable_levels)).
Proof.
  intros Hf Ls Ld Hsm Hdm Hgray Hx Hy dst src srcRec dstRec.
  destruct (ImageDraw_rects_inside dx dy (Some dm) (Some sm) dmips smips f f Hx Hy)
    as (_ & _ & Edx & Edy).
  assert (Hblit : forall br,
            ImageDraw_blit false br dst src srcRec dstRec WHITE
            = ImageDraw_blit true false dst src srcRec dstRec WHITE
            /\ exists m : buffer,
                 ImageDraw_blit true false dst src srcRec dstRec WHITE
                 = Some (set_data dst (Some m))
                 /\ length m = length dm).
  { intros br.
    apply (ImageDraw_blit_paths f bpp br sm dm smips dmips dx dy srcRec dstRec);
      try assumption; try (vm_compute; reflexivity). }
  unfold ImageDraw_slow, ImageDraw, dst, src, srcRec, dstRec.
  rewrite !(ImageDraw_with_blit stbir _ _ f bpp) by assumption.
  cbn [andb negb].
  split; [apply Hblit|]. split; [apply Hblit|].
  split; [apply (Hblit true)|].
  intros v Hv. apply gray_stable_levels. exact Hv.
Qed.

(** The theorem on an R5G6B5 source drawn at (2, 3). *)
Lemma ImageDraw_paths_agree_witness :
  let src := mkImage (Some (replicate 32 (Byte 200))) 4 4 1
               PIXELFORMAT_UNCOMPRESSED_R5G6B5 in
  let dst := mkImage (Some (replicate 128 (Byte 0))) 8 8 1
               PIXELFORMAT_UNCOMPRESSED_R5G6B5 in
  ImageDraw_slow no_resampler dst src (rect 0 0 4 4) (rect 2 3 4 4) WHITE
  = ImageDraw no_resampler dst src (rect 0 0 4 4) (rect 2 3 4 4) WHITE.
Proof.
  refine (proj1 (ImageDraw_paths_agree no_resampler PIXELFORMAT_UNCOMPRESSED_R5G6B5 2
                   (replicate 32 (Byte 200)) (replicate 128 (Byte 0)) 1 1 2 3
                   _ _ _ _ _ _ _ _)).
  - right. left. split; reflexivity.
  - reflexivity.
  - reflexivity.
  - apply Forall_replicate. unfold is_byte, is_uchar. lia.
  - apply Forall_replicate. unfold is_byte, is_uchar. lia.
  - intros H. discriminate H.
  - lia.
  - lia.
Defined.


(** ** binary32 arithmetic on integers below 2^24

    The rectangles of the geometry operations hold integers; on integers
    below 2^24 in magnitude the conversions, additions and comparisons of
    binary32 are exact. *)

Lemma digits2_pos_bounds (p : positive) :
  2 ^ (Zpos (digits2_pos p) - 1) <= Zpos p < 2 ^ Zpos (digits2_pos p).
Proof.
  induction p as [p IH|p IH|]; cbn [digits2_pos].
  - rewrite Pos2Z.inj_succ. replace (Z.succ (Zpos (digits2_pos p)) - 1) with (Zpos (digits2_pos p)) by lia.
    rewrite Z.pow_succ_r by lia.
    assert (2 ^ Zpos (digits2_pos p) = 2 * 2 ^ (Zpos (digits2_pos p) - 1)).
    { rewrite <- Z.pow_succ_r by lia. f_equal. lia. }
    lia.
  - rewrite Pos2Z.inj_succ. replace (Z.succ (Zpos (digits2_pos p)) - 1) with (Zpos (digits2_pos p)) by lia.
    rewrite Z.pow_succ_r by lia.
    assert (2 ^ Zpos (digits2_pos p) = 2 * 2 ^ (Zpos (digits2_pos p) - 1)).
    { rewrite <- Z.pow_succ_r by lia. f_equal. lia. }
    lia.
  - cbn. lia.
Qed.

Lemma digits2_pos_unique (p : positive) (d : Z) :
  2 ^ (d - 1) <= Zpos p < 2 ^ d -> Zpos (digits2_pos p) = d.
Proof.
  intros [H1 H2]. pose proof (digits2_pos_bounds p) as [B1 B2].
  set (e := Zpos (digits2_pos p)) in *.
  assert (0 < d).
  { destruct (Z_lt_dec 0 d) as [|N]; [assumption|]. exfalso.
    destruct (Z.eq_dec d 0) as [->|N0].
    - cbn in H2. lia.
    - rewrite Z.pow_neg_r in H2 by lia. lia. }
  destruct (Z_lt_dec e d) as [L|L].
  - assert (2 ^ e <= 2 ^ (d - 1)) by (apply Z.pow_le_mono_r; lia). lia.
  - destruct (Z_lt_dec d e) as [G|G]; [|lia].
    assert (2 ^ d <= 2 ^ (e - 1)) by (apply Z.pow_le_mono_r; lia). lia.
Qed.

Lemma iter_pos_nat {A : Type} (f : A -> A) (p : positive) (x : A) :
  SpecFloat.iter_pos f p x = Nat.iter (Pos.to_nat p) f x.
Proof.
  revert x. induction p as [p IH|p IH|]; intros x; cbn [SpecFloat.iter_pos].
  - rewrite !IH. rewrite Pos2Nat.inj_xI.
    replace (S (2 * Pos.to_nat p)) with (Pos.to_nat p + (Pos.to_nat p + 1))%nat by lia.
    rewrite !Nat.iter_add. cbn [Nat.iter]. reflexivity.
  - rewrite !IH. rewrite Pos2Nat.inj_xO.
    replace (2 * Pos.to_nat p)%nat with (Pos.to_nat p + Pos.to_nat p)%nat by lia.
    rewrite Nat.iter_add. reflexivity.
  - reflexivity.
Qed.

Lemma shr_1_exact_nat (n : nat) (X : Z) :
  0 < X ->
  Nat.iter n shr_1 (Build_shr_record (X * 2 ^ Z.of_nat n) false false)
  = Build_shr_record X false false.
Proof.
  intros HX. induction n as [|n IH].
  - cbn [Nat.iter]. change (Z.of_nat 0) with 0. rewrite Z.pow_0_r, Z.mul_1_r. reflexivity.
  - rewrite Nat.iter_succ_r.
    replace (X * 2 ^ Z.of_nat (S n)) with (2 * (X * 2 ^ Z.of_nat n)).
    2:{ rewrite Nat2Z.inj_succ, Z.pow_succ_r by lia. lia. }
    assert (0 < X * 2 ^ Z.of_nat n) by (apply Z.mul_pos_pos; [assumption | apply Z.pow_pos_nonneg; lia]).
    destruct (X * 2 ^ Z.of_nat n) as [|q|q] eqn:E; try lia.
    cbn [shr_1 Z.mul Pos.mul orb]. exact IH.
Qed.

Lemma shr_exact (X E n : Z) :
  0 < X -> 0 <= n ->
  shr (Build_shr_record (X * 2 ^ n) false false) E n
  = (Build_shr_record X false false, E + n).
Proof.
  intros HX Hn. unfold shr. destruct n as [|p|p]; try lia.
  - rewrite Z.pow_0_r, Z.mul_1_r, Z.add_0_r. reflexivity.
  - rewrite iter_pos_nat. rewrite <- (positive_nat_Z p) at 1.
    rewrite shr_1_exact_nat by assumption. reflexivity.
Qed.

Lemma Zdigits2_24 (X : Z) : 2 ^ 23 <= X < 2 ^ 24 -> Zdigits2 X = 24.
Proof.
  intros H. destruct X as [|p|p]; try (cbn in H; lia).
  cbn [Zdigits2]. apply digits2_pos_unique. exact H.
Qed.

Lemma shr_fexp_canonical (X E : Z) :
  2 ^ 23 <= X < 2 ^ 24 -> -149 <= E ->
  shr_fexp 24 128 X E loc_Exact = (Build_shr_record X false false, E).
Proof.
  intros HX HE. unfold shr_fexp. rewrite Zdigits2_24 by assumption.
  unfold fexp, emin.
  replace (Z.max (24 + E - 24) (3 - 128 - 24) - E) with 0 by lia.
  reflexivity.
Qed.

Lemma binary_round_aux_canonical (s : bool) (X E : Z) :
  2 ^ 23 <= X < 2 ^ 24 -> -149 <= E <= 104 ->
  binary_round_aux 24 128 s X E loc_Exact = S754_finite s (Z.to_pos X) E.
Proof.
  intros HX HE. unfold binary_round_aux.
  rewrite shr_fexp_canonical by (assumption || lia).
  cbn [shr_m loc_of_shr_record round_nearest_even].
  rewrite shr_fexp_canonical by (assumption || lia).
  cbn [shr_m].
  destruct X as [|p|p]; try (cbn in HX; lia).
  replace (E <=? 128 - 24) with true by (symmetry; apply Z.leb_le; lia).
  reflexivity.
Qed.

Lemma shift_pos_Z (p : positive) (k : positive) :
  Zpos (Pos.iter xO p k) = Zpos p * 2 ^ Zpos k.
Proof.
  change (Pos.iter xO p k) with (shift_pos k p).
  rewrite shift_pos_correct, Z.pow_pos_fold. lia.
Qed.

Lemma canonical_mantissa_range (q : positive) :
  Zpos q < 2 ^ 24 ->
  1 <= Zpos (digits2_pos q) <= 24
  /\ 2 ^ 23 <= Zpos q * 2 ^ (24 - Zpos (digits2_pos q)) < 2 ^ 24.
Proof.
  intros Hq. pose proof (digits2_pos_bounds q) as [B1 B2].
  set (d := Zpos (digits2_pos q)) in *.
  assert (Hd : 1 <= d <= 24).
  { split; [unfold d; lia|].
    destruct (Z_le_dec d 24) as [|N]; [assumption|]. exfalso.
    assert (2 ^ 24 <= 2 ^ (d - 1)) by (apply Z.pow_le_mono_r; lia). lia. }
  split; [exact Hd|].
  assert (P : 0 < 2 ^ (24 - d)) by (apply Z.pow_pos_nonneg; lia).
  assert (E1 : 2 ^ 23 = 2 ^ (d - 1) * 2 ^ (24 - d)).
  { rewrite <- Z.pow_add_r by lia. f_equal. lia. }
  assert (E2 : 2 ^ 24 = 2 ^ d * 2 ^ (24 - d)).
  { rewrite <- Z.pow_add_r by lia. f_equal. lia. }
  rewrite E1 at 1. rewrite E2. nia.
Qed.

(** A mantissa padded with [k] zero bits, at exponent [-k], rounds to the
    canonical float of the integer. *)
Lemma binary_round_shifted (s : bool) (q : positive) (k : Z) :
  Zpos q < 2 ^ 24 -> 0 <= k ->
  binary_round 24 128 s (Z.to_pos (Zpos q * 2 ^ k)) (- k)
  = S754_finite s (Z.to_pos (Zpos q * 2 ^ (24 - Zpos (digits2_pos q))))
      (Zpos (digits2_pos q) - 24).
Proof.
  intros Hq Hk.
  destruct (canonical_mantissa_range q Hq) as [Hd HX].
  pose proof (digits2_pos_bounds q) as [B1 B2].
  set (d := Zpos (digits2_pos q)) in *.
  set (X := Zpos q * 2 ^ (24 - d)) in *.
  assert (Pk : 0 < 2 ^ k) by (apply Z.pow_pos_nonneg; lia).
  set (m := Z.to_pos (Zpos q * 2 ^ k)).
  assert (Em : Zpos m = Zpos q * 2 ^ k) by (unfold m; rewrite Z2Pos.id; nia).
  assert (Dm : Zpos (digits2_pos m) = d + k).
  { apply digits2_pos_unique. rewrite Em.
    replace (d + k - 1) with ((d - 1) + k) by lia.
    rewrite !Z.pow_add_r by lia. nia. }
  unfold binary_round. rewrite Dm.
  replace (fexp 24 128 (d + k + - k)) with (d - 24) by (unfold fexp, emin; lia).
  unfold shl_align.
  destruct (d - 24 - - k) as [|p|p] eqn:En.
  - (* no shift: the mantissa is already canonical *)
    assert (k = 24 - d) by lia. subst k.
    rewrite Em. fold X. replace (- (24 - d)) with (d - 24) by lia.
    apply binary_round_aux_canonical; [exact HX | lia].
  - (* the trailing zero bits are shifted out *)
    assert (Ek : k = Zpos p + (24 - d)) by lia.
    assert (EX : Zpos m = X * 2 ^ Zpos p).
    { rewrite Em, Ek. unfold X. rewrite (Z.pow_add_r 2 (Zpos p)) by lia. lia. }
    unfold binary_round_aux, shr_fexp at 1.
    cbn [Zdigits2]. rewrite Dm.
    replace (fexp 24 128 (d + k + - k) - - k) with (Zpos p) by (unfold fexp, emin; lia).
    cbn [shr_record_of_loc]. rewrite EX.
    rewrite shr_exact by lia.
    cbn [shr_m loc_of_shr_record round_nearest_even].
    replace (- k + Zpos p) with (d - 24) by lia.
    rewrite shr_fexp_canonical by (assumption || lia).
    cbn [shr_m].
    destruct X as [|x|x] eqn:EqX; try lia.
    replace (d - 24 <=? 128 - 24) with true by (symmetry; apply Z.leb_le; lia).
    reflexivity.
  - (* the mantissa is shifted left *)
    assert (Ek : Zpos p = 24 - d - k) by lia.
    cbn [fst snd].
    assert (EX : Zpos (Pos.iter xO m p) = X).
    { rewrite shift_pos_Z, Em, Ek. unfold X.
      rewrite <- Z.mul_assoc, <- Z.pow_add_r by lia. do 2 f_equal. lia. }
    rewrite EX. apply binary_round_aux_canonical; [exact HX | lia].
Qed.

Lemma binary_normalize_shifted (z k : Z) :
  Z.abs z < 2 ^ 24 -> 0 <= k ->
  binary_normalize 24 128 (z * 2 ^ k) (- k) false = canonical_float z.
Proof.
  intros Hz Hk.
  assert (Pk : 0 < 2 ^ k) by (apply Z.pow_pos_nonneg; lia).
  destruct z as [|q|q].
  - reflexivity.
  - destruct (Zpos q * 2 ^ k) as [|m|m] eqn:E; try nia.
    cbn [binary_normalize canonical_float].
    replace m with (Z.to_pos (Zpos q * 2 ^ k)) by (rewrite E; reflexivity).
    apply binary_round_shifted; [exact Hz | exact Hk].
  - destruct (Zneg q * 2 ^ k) as [|m|m] eqn:E; try nia.
    cbn [binary_normalize canonical_float].
    replace m with (Z.to_pos (Zpos q * 2 ^ k)).
    2:{ assert (Zpos q * 2 ^ k = Zpos m) by lia. rewrite H. reflexivity. }
    apply binary_round_shifted; [exact Hz | exact Hk].
Qed.

Lemma of_int_canonical (z : Z) : Z.abs z < 2 ^ 24 -> F32.of_int z = canonical_float z.
Proof.
  intros Hz. unfold F32.of_int, F32.prec, F32.emax.
  rewrite <- (binary_normalize_shifted z 0) by (assumption || lia).
  rewrite Z.pow_0_r, Z.mul_1_r. reflexivity.
Qed.

Lemma trunc_canonical (s : bool) (q : positive) :
  Zpos q < 2 ^ 24 ->
  F32.trunc (S754_finite s (Z.to_pos (Zpos q * 2 ^ (24 - Zpos (digits2_pos q))))
               (Zpos (digits2_pos q) - 24))
  = Some (if s then - Zpos q else Zpos q).
Proof.
  intros Hq. destruct (canonical_mantissa_range q Hq) as [Hd HX].
  set (d := Zpos (digits2_pos q)) in *.
  unfold F32.trunc. rewrite Z2Pos.id by lia.
  assert (E : match d - 24 with
              | Zneg p => Z.shiftr (Zpos q * 2 ^ (24 - d)) (Zpos p)
              | _ => Z.shiftl (Zpos q * 2 ^ (24 - d)) (d - 24)
              end = Zpos q).
  { destruct (d - 24) as [|p|p] eqn:E; try lia.
    - replace (24 - d) with 0 by lia. rewrite Z.pow_0_r, Z.mul_1_r. reflexivity.
    - rewrite Z.shiftr_div_pow2 by lia. replace (24 - d) with (Zpos p) by lia.
      apply Z.div_mul. apply Z.pow_nonzero; lia. }
  rewrite E. reflexivity.
Qed.

Lemma to_int_canonical (z : Z) : Z.abs z < 2 ^ 24 -> F32.to_int (canonical_float z) = z.
Proof.
  intros Hz. unfold F32.to_int, INT_MIN, INT_MAX. destruct z as [|q|q].
  - reflexivity.
  - cbn [canonical_float]. rewrite trunc_canonical by exact Hz.
    destruct (Z.leb_spec (-2147483648) (Zpos q)); [|lia].
    destruct (Z.leb_spec (Zpos q) 2147483647); [reflexivity|]. cbn in Hz. lia.
  - cbn [canonical_float]. rewrite trunc_canonical by exact Hz.
    destruct (Z.leb_spec (-2147483648) (- Zpos q)); [|cbn in Hz; lia].
    destruct (Z.leb_spec (- Zpos q) 2147483647); [reflexivity|]. lia.
Qed.

Lemma shl_align_value (mx : positive) (ex ez : Z) :
  ez <= ex -> Zpos (fst (shl_align mx ex ez)) = Zpos mx * 2 ^ (ex - ez).
Proof.
  intros H. unfold shl_align. destruct (ez - ex) as [|p|p] eqn:E; try lia.
  - replace (ex - ez) with 0 by lia. cbn [fst]. lia.
  - cbn [fst]. rewrite shift_pos_Z. f_equal. f_equal. lia.
Qed.

Lemma add_canonical (a b : Z) :
  Z.abs a < 2 ^ 24 -> Z.abs b < 2 ^ 24 -> Z.abs (a + b) < 2 ^ 24 ->
  F32.add (canonical_float a) (canonical_float b) = canonical_float (a + b).
Proof.
  intros Ha Hb Hab.
  assert (Fin : forall (sa sb : bool) (qa qb : positive),
            Zpos qa < 2 ^ 24 -> Zpos qb < 2 ^ 24 ->
            Z.abs (cond_Zopp sa (Zpos qa) + cond_Zopp sb (Zpos qb)) < 2 ^ 24 ->
            SFadd 24 128
              (S754_finite sa (Z.to_pos (Zpos qa * 2 ^ (24 - Zpos (digits2_pos qa))))
                 (Zpos (digits2_pos qa) - 24))
              (S754_finite sb (Z.to_pos (Zpos qb * 2 ^ (24 - Zpos (digits2_pos qb))))
                 (Zpos (digits2_pos qb) - 24))
            = canonical_float (cond_Zopp sa (Zpos qa) + cond_Zopp sb (Zpos qb))).
  { intros sa sb qa qb Hqa Hqb Hs.
    destruct (canonical_mantissa_range qa Hqa) as [Hda HXa].
    destruct (canonical_mantissa_range qb Hqb) as [Hdb HXb].
    set (da := Zpos (digits2_pos qa)) in *. set (db := Zpos (digits2_pos qb)) in *.
    cbn [SFadd]. set (ez := Z.min (da - 24) (db - 24)).
    rewrite !shl_align_value by lia. rewrite !Z2Pos.id by lia.
    assert (Ea : Zpos qa * 2 ^ (24 - da) * 2 ^ (da - 24 - ez) = Zpos qa * 2 ^ (- ez)).
    { rewrite <- Z.mul_assoc, <- Z.pow_add_r by lia. do 2 f_equal. lia. }
    assert (Eb : Zpos qb * 2 ^ (24 - db) * 2 ^ (db - 24 - ez) = Zpos qb * 2 ^ (- ez)).
    { rewrite <- Z.mul_assoc, <- Z.pow_add_r by lia. do 2 f_equal. lia. }
    rewrite Ea, Eb.
    replace (cond_Zopp sa (Zpos qa * 2 ^ (- ez)) + cond_Zopp sb (Zpos qb * 2 ^ (- ez)))
      with ((cond_Zopp sa (Zpos qa) + cond_Zopp sb (Zpos qb)) * 2 ^ (- ez))
      by (destruct sa, sb; cbn [cond_Zopp]; lia).
    replace ez with (- - ez) at 2 by lia.
    apply binary_normalize_shifted; [exact Hs | lia]. }
  unfold F32.add, F32.prec, F32.emax.
  destruct a as [|qa|qa], b as [|qb|qb]; try reflexivity.
  - exact (Fin false false qa qb Ha Hb Hab).
  - exact (Fin false true qa qb Ha Hb Hab).
  - exact (Fin true false qa qb Ha Hb Hab).
  - exact (Fin true true qa qb Ha Hb Hab).
Qed.

Lemma compare_canonical (qa qb : positive) :
  Zpos qa < 2 ^ 24 -> Zpos qb < 2 ^ 24 ->
  SFcompare (canonical_float (Zpos qa)) (canonical_float (Zpos qb)) = Some (Pos.compare qa qb)
  /\ SFcompare (canonical_float (Zneg qa)) (canonical_float (Zneg qb)) = Some (CompOpp (Pos.compare qa qb)).
Proof.
  intros Hqa Hqb.
  destruct (canonical_mantissa_range qa Hqa) as [Hda HXa].
  destruct (canonical_mantissa_range qb Hqb) as [Hdb HXb].
  pose proof (digits2_pos_bounds qa) as [A1 A2].
  pose proof (digits2_pos_bounds qb) as [B1 B2].
  set (da := Zpos (digits2_pos qa)) in *. set (db := Zpos (digits2_pos qb)) in *.
  set (ma := Z.to_pos (Zpos qa * 2 ^ (24 - da))).
  set (mb := Z.to_pos (Zpos qb * 2 ^ (24 - db))).
  assert (C : match Z.compare (da - 24) (db - 24) with
              | Lt => Lt
              | Gt => Gt
              | Eq => Pos.compare ma mb
              end = Pos.compare qa qb).
  { destruct (Z.compare_spec (da - 24) (db - 24)) as [E|L|G].
    - assert (Ed : db = da) by lia. unfold ma, mb.
      rewrite <- Z2Pos.inj_compare by lia. rewrite Ed.
      assert (P : 0 < 2 ^ (24 - da)) by (apply Z.pow_pos_nonneg; lia).
      rewrite (Pos2Z.inj_compare qa qb).
      destruct (Z.compare_spec (Zpos qa) (Zpos qb)) as [E'|L'|G'].
      + rewrite E'. apply Z.compare_refl.
      + apply Z.compare_lt_iff. nia.
      + apply Z.compare_gt_iff. nia.
    - symmetry. apply Pos.compare_lt_iff.
      assert (2 ^ da <= 2 ^ (db - 1)) by (apply Z.pow_le_mono_r; lia). lia.
    - symmetry. apply Pos.compare_gt_iff.
      assert (2 ^ db <= 2 ^ (da - 1)) by (apply Z.pow_le_mono_r; lia). lia. }
  assert (C' : match Z.compare (da - 24) (db - 24) with
               | Lt => Gt
               | Gt => Lt
               | Eq => CompOpp (Pos.compare ma mb)
               end = CompOpp (Pos.compare qa qb)).
  { rewrite <- C. destruct (Z.compare (da - 24) (db - 24)); reflexivity. }
  split.
  - cbn [canonical_float SFcompare]. f_equal. exact C.
  - cbn [canonical_float SFcompare]. f_equal. exact C'.
Qed.

Lemma ltb_canonical (a b : Z) :
  Z.abs a < 2 ^ 24 -> Z.abs b < 2 ^ 24 -> F32.ltb (canonical_float a) (canonical_float b) = (a <? b).
Proof.
  intros Ha Hb. unfold F32.ltb, SFltb.
  destruct a as [|qa|qa], b as [|qb|qb]; try reflexivity.
  - destruct (compare_canonical qa qb Ha Hb) as [-> _].
    unfold Z.ltb. cbn [Z.compare]. destruct (Pos.compare qa qb); reflexivity.
  - destruct (compare_canonical qa qb Ha Hb) as [_ ->].
    unfold Z.ltb. cbn [Z.compare]. destruct (Pos.compare qa qb); reflexivity.
Qed.


(** ** ImageResizeCanvas *)

Lemma canvas_span_bounds (size newSize offset : Z) :
  0 < size < 2 ^ 23 -> 0 <= newSize < 2 ^ 23 -> - 2 ^ 23 < offset < 2 ^ 23 ->
  let '(s, len, d) := canvas_span size newSize offset in
  Z.abs s < 2 ^ 24 /\ Z.abs len < 2 ^ 24 /\ Z.abs d < 2 ^ 24.
Proof.
  intros Hs Hn Ho.
  assert (P23 : 2 ^ 23 = 8388608) by reflexivity.
  assert (P24 : 2 ^ 24 = 16777216) by reflexivity.
  unfold canvas_span.
  destruct (Z.ltb_spec offset 0).
  - destruct (Z.ltb_spec newSize (size + offset)); lia.
  - destruct (Z.ltb_spec newSize (offset + size)).
    + destruct (Z.ltb_spec newSize (newSize - offset)); lia.
    + destruct (Z.ltb_spec newSize size); lia.
Qed.

(** On dimensions and offsets below 2^23 the float rectangles of
    [ImageResizeCanvas] hold the integer spans. *)
Lemma ImageResizeCanvas_rects_exact (image : Image) (newWidth newHeight offsetX offsetY : Z) :
  0 < width image < 2 ^ 23 -> 0 < height image < 2 ^ 23 ->
  0 <= newWidth < 2 ^ 23 -> 0 <= newHeight < 2 ^ 23 ->
  - 2 ^ 23 < offsetX < 2 ^ 23 -> - 2 ^ 23 < offsetY < 2 ^ 23 ->
  ImageResizeCanvas_rects image newWidth newHeight offsetX offsetY
  = (let '(sx, sw, dx) := canvas_span (width image) newWidth offsetX in
     let '(sy, sh, dy) := canvas_span (height image) newHeight offsetY in
     (mkRectangle (canonical_float sx) (canonical_float sy)
        (canonical_float sw) (canonical_float sh),
      canonical_float dx, canonical_float dy)).
Proof.
  intros Hw Hh Hnw Hnh Hox Hoy.
  assert (P23 : 2 ^ 23 = 8388608) by reflexivity.
  assert (P24 : 2 ^ 24 = 16777216) by reflexivity.
  unfold ImageResizeCanvas_rects, canvas_span.
  rewrite (int_small (- offsetX)), (int_small (offsetX + width image)),
    (int_small (newWidth - offsetX)), (int_small (- offsetY)),
    (int_small (offsetY + height image)), (int_small (newHeight - offsetY))
    by (unfold INT_MIN, INT_MAX; lia).
  rewrite !of_int_canonical by lia.
  cbn [rec_x rec_y rec_width rec_height].
  destruct (Z.ltb_spec offsetX 0) as [Lx|Lx];
    [rewrite (add_canonical (width image) offsetX) by lia
    | destruct (Z.ltb_spec newWidth (offsetX + width image)) as [Lnx|Lnx]];
    cbn [rec_x rec_y rec_width rec_height];
    (destruct (Z.ltb_spec offsetY 0) as [Ly|Ly];
     [rewrite (add_canonical (height image) offsetY) by lia
     | destruct (Z.ltb_spec newHeight (offsetY + height image)) as [Lny|Lny]]);
    repeat (cbn [rec_x rec_y rec_width rec_height];
            first [ rewrite ltb_canonical by lia
                  | match goal with
                    | |- context [Z.ltb ?x ?y] => destruct (Z.ltb_spec x y)
                    end ]);
    cbn [rec_x rec_y rec_width rec_height]; reflexivity.
Qed.

Lemma canvas_span_spec (size newSize offset : Z) :
  0 < size -> 0 <= newSize ->
  let '(s, len, d) := canvas_span size newSize offset in
  d - s = offset /\ 0 <= s /\ 0 <= d
  /\ (0 <= len -> s + len <= size /\ d + len <= newSize)
  /\ (forall x, d <= x < d + len <-> (0 <= x < newSize /\ 0 <= x - offset < size))
  /\ (- size <= offset <= newSize -> 0 <= len).
Proof.
  intros Hs Hn. unfold canvas_span.
  destruct (Z.ltb_spec offset 0).
  - destruct (Z.ltb_spec newSize (size + offset)); repeat split; lia.
  - destruct (Z.ltb_spec newSize (offset + size)).
    + destruct (Z.ltb_spec newSize (newSize - offset)); repeat split; lia.
    + destruct (Z.ltb_spec newSize size); repeat split; lia.
Qed.

Lemma uncompressed_bytes_per_pixel (f : Z) :
  PIXELFORMAT_UNCOMPRESSED_GRAYSCALE <= f <= PIXELFORMAT_UNCOMPRESSED_R32G32B32A32 ->
  0 < GetPixelDataSize 1 1 f <= 16
  /\ (PIXELFORMAT_COMPRESSED_DXT1_RGB <=? f) = false.
Proof.
  unfold PIXELFORMAT_UNCOMPRESSED_GRAYSCALE, PIXELFORMAT_UNCOMPRESSED_R32G32B32A32.
  intros Hf.
  assert (C : f = 1 \/ f = 2 \/ f = 3 \/ f = 4 \/ f = 5 \/ f = 6 \/ f = 7 \/ f = 8
              \/ f = 9 \/ f = 10) by lia.
  repeat (destruct C as [-> | C]); try subst f;
    (split; [vm_compute; split; congruence | reflexivity]).
Qed.

(** Where the byte [c] of the canvas pixel [(x, y)] lies with respect to the
    row [j] of the copy. *)
Lemma canvas_byte_inside (nw bpp dx dy sw x y c : Z) :
  0 < bpp -> 0 <= dx -> 0 <= sw -> dx <= x < dx + sw -> 0 <= c < bpp ->
  (y * nw + x) * bpp + c
  = (dy * nw + dx) * bpp + (y - dy) * (nw * bpp) + ((x - dx) * bpp + c)
  /\ 0 <= (x - dx) * bpp + c < sw * bpp.
Proof. intros. split; nia. Qed.

Lemma canvas_byte_outside (nw bpp dx dy sw x y c j : Z) :
  0 < bpp -> 0 <= dx -> 0 <= sw -> dx + sw <= nw -> 0 <= x < nw -> 0 <= c < bpp ->
  y <> dy + j \/ x < dx \/ dx + sw <= x ->
  (y * nw + x) * bpp + c < (dy * nw + dx) * bpp + j * (nw * bpp)
  \/ (dy * nw + dx) * bpp + j * (nw * bpp) + sw * bpp <= (y * nw + x) * bpp + c.
Proof.
  intros Hb Hdx Hsw Hfit Hx Hc H.
  assert (Hxc : 0 <= x * bpp + c < nw * bpp) by nia.
  destruct (Z_lt_dec y (dy + j)) as [L|L].
  { left. assert ((y + 1) * (nw * bpp) <= (dy + j) * (nw * bpp)) by nia. nia. }
  destruct (Z_lt_dec (dy + j) y) as [G|G].
  { right. assert ((dy + j + 1) * (nw * bpp) <= y * (nw * bpp)) by nia. nia. }
  assert (y = dy + j) by lia. subst y.
  destruct H as [H | [H | H]]; [lia | left; nia | right; nia].
Qed.

Lemma mul_le_mono_nonneg3 (a b c a' b' c' : Z) :
  0 <= a <= a' -> 0 <= b <= b' -> 0 <= c <= c' -> 0 <= a * b * c <= a' * b' * c'.
Proof.
  intros Ha Hb Hc.
  assert (0 <= a * b <= a' * b') by (split; [apply Z.mul_nonneg_nonneg; lia | apply Z.mul_le_mono_nonneg; lia]).
  split; [apply Z.mul_nonneg_nonneg; lia | apply Z.mul_le_mono_nonneg; lia].
Qed.

Lemma pixel_index_range (nw nh bpp x y c : Z) :
  0 <= x < nw -> 0 <= y < nh -> 0 <= c < bpp ->
  0 <= (y * nw + x) * bpp + c < nw * nh * bpp.
Proof.
  intros Hx Hy Hc.
  assert (0 <= y * nw) by (apply Z.mul_nonneg_nonneg; lia).
  assert (y * nw + x + 1 <= nh * nw) by nia.
  assert (0 <= (y * nw + x) * bpp) by (apply Z.mul_nonneg_nonneg; lia).
  assert ((y * nw + x + 1) * bpp <= nh * nw * bpp) by (apply Z.mul_le_mono_nonneg_r; lia).
  lia.
Qed.

Lemma canvas_size_range (nw nh bpp : Z) :
  0 <= nw -> 0 <= nh -> 0 < bpp -> nw * (nh + 1) * bpp <= INT_MAX ->
  0 <= nw * nh <= INT_MAX /\ 0 <= nw * nh * bpp <= INT_MAX
  /\ 0 <= nw * bpp <= INT_MAX.
Proof.
  intros Hnw Hnh Hbpp H.
  pose proof (mul_le_mono_nonneg3 nw nh 1 nw (nh + 1) bpp
                ltac:(lia) ltac:(lia) ltac:(lia)) as A.
  pose proof (mul_le_mono_nonneg3 nw nh bpp nw (nh + 1) bpp
                ltac:(lia) ltac:(lia) ltac:(lia)) as B.
  pose proof (mul_le_mono_nonneg3 nw 1 bpp nw (nh + 1) bpp
                ltac:(lia) ltac:(lia) ltac:(lia)) as C.
  lia.
Qed.

Lemma canvas_dst_range (nw nh bpp dx dy sw sh j : Z) :
  0 <= nw -> 0 <= nh -> 0 < bpp -> nw * (nh + 1) * bpp <= INT_MAX ->
  0 <= dx -> 0 <= sw -> dx + sw <= nw -> 0 <= dy -> dy + sh <= nh -> 0 <= j <= sh ->
  0 <= dy * nw <= INT_MAX /\ 0 <= dy * nw + dx <= INT_MAX
  /\ 0 <= (dy * nw + dx) * bpp <= INT_MAX
  /\ 0 <= sw * bpp <= nw * bpp
  /\ 0 <= (dy * nw + dx) * bpp + j * (nw * bpp)
  /\ (dy * nw + dx) * bpp + j * (nw * bpp) + sw * bpp <= nw * (nh + 1) * bpp.
Proof.
  intros Hnw Hnh Hbpp H Hdx Hsw Hx Hdy Hy Hj.
  assert (E : (dy * nw + dx) * bpp + j * (nw * bpp) + sw * bpp
              = ((dy + j) * nw + (dx + sw)) * bpp) by ring.
  assert (0 <= dy * nw) by (apply Z.mul_nonneg_nonneg; lia).
  assert (0 <= j * (nw * bpp)) by (apply Z.mul_nonneg_nonneg; [lia|apply Z.mul_nonneg_nonneg; lia]).
  assert (0 <= sw * bpp <= nw * bpp) by (split; [apply Z.mul_nonneg_nonneg; lia|apply Z.mul_le_mono_nonneg_r; lia]).
  assert ((dy + j) * nw <= nh * nw) by (apply Z.mul_le_mono_nonneg_r; lia).
  assert (((dy + j) * nw + (dx + sw)) * bpp <= (nh * nw + nw) * bpp)
    by (apply Z.mul_le_mono_nonneg_r; lia).
  assert (0 <= (dy * nw + dx) * bpp) by (apply Z.mul_nonneg_nonneg; lia).
  assert (dy * nw + dx <= (dy * nw + dx) * bpp) by nia.
  replace (nw * (nh + 1) * bpp) with ((nh * nw + nw) * bpp) in * by ring.
  lia.
Qed.

Lemma canvas_src_range (w h bpp sx sy sw sh j : Z) :
  0 < w -> 0 < h -> 0 < bpp -> w * h * bpp <= INT_MAX ->
  0 <= sx -> 0 <= sw -> sx + sw <= w -> 0 <= sy -> sy + sh <= h -> 0 <= j < sh ->
  0 <= j + sy <= INT_MAX /\ 0 <= (j + sy) * w <= INT_MAX
  /\ 0 <= (j + sy) * w + sx <= INT_MAX
  /\ 0 <= ((j + sy) * w + sx) * bpp <= INT_MAX
  /\ ((j + sy) * w + sx) * bpp + sw * bpp <= w * h * bpp.
Proof.
  intros Hw Hh Hbpp H Hsx Hsw Hx Hsy Hy Hj.
  assert (0 <= (j + sy) * w) by (apply Z.mul_nonneg_nonneg; lia).
  assert ((j + sy + 1) * w <= h * w) by (apply Z.mul_le_mono_nonneg_r; lia).
  assert (((j + sy) * w + sx + sw) * bpp <= h * w * bpp) by (apply Z.mul_le_mono_nonneg_r; lia).
  assert (0 <= ((j + sy) * w + sx) * bpp) by (apply Z.mul_nonneg_nonneg; lia).
  assert (0 <= sw * bpp) by (apply Z.mul_nonneg_nonneg; lia).
  assert ((j + sy) * w + sx <= ((j + sy) * w + sx) * bpp) by nia.
  assert (j + sy <= (j + sy) * w) by nia.
  replace (w * h * bpp) with (h * w * bpp) in * by ring.
  lia.
Qed.

Lemma covered_spans (w h nw nh ox oy x y : Z) (sx sw dx sy sh dy : Z) :
  0 < w -> 0 < h -> 0 <= nw -> 0 <= nh ->
  canvas_span w nw ox = (sx, sw, dx) -> canvas_span h nh oy = (sy, sh, dy) ->
  0 <= x < nw -> 0 <= y < nh ->
  covered w h ox oy x y = true <-> (dx <= x < dx + sw /\ dy <= y < dy + sh).
Proof.
  intros Hw Hh Hnw Hnh Ex Ey Hx Hy.
  pose proof (canvas_span_spec w nw ox Hw Hnw) as Sx. rewrite Ex in Sx.
  pose proof (canvas_span_spec h nh oy Hh Hnh) as Sy. rewrite Ey in Sy.
  destruct Sx as (_ & _ & _ & _ & Ix & _), Sy as (_ & _ & _ & _ & Iy & _).
  unfold covered. rewrite !andb_true_iff, !Z.leb_le, !Z.ltb_lt.
  specialize (Ix x). specialize (Iy y). lia.
Qed.

(** C9, counterexample: with the size unchanged the call returns the image
    as it is, whatever the offset; the column left of the shifted image is
    not zeroed. *)
Lemma ImageResizeCanvas_same_size_offset :
  let image := mkImage (Some [Byte 7; Byte 9]) 2 1 1 PIXELFORMAT_UNCOMPRESSED_GRAYSCALE in
  ImageResizeCanvas image 2 1 1 0 WHITE = Some image
  /\ covered 2 1 1 0 0 0 = false
  /\ (do result <- ImageResizeCanvas image 2 1 1 0 WHITE;
      do m <- data result; byte_at m 0) = Some (Byte 7)
  /\ ImageResizeCanvas image 3 1 1 0 WHITE
     = Some (mkImage (Some [Byte 0; Byte 7; Byte 9]) 3 1 1 PIXELFORMAT_UNCOMPRESSED_GRAYSCALE).
Proof. cbv zeta. repeat split; vm_compute; reflexivity. Qed.

(** C9, as amended: for a non-empty uncompressed image and a canvas whose
    size differs from the image's, [ImageResizeCanvas] returns a canvas that
    holds the old pixel [(x - offsetX, y - offsetY)] at every pixel [(x, y)]
    covered by the image placed at the offset, and zero bytes everywhere
    else; the fill colour has no effect.  With the size unchanged the image
    is returned as it is.  (Dimensions and offsets below 2^23, byte sizes in
    the [int] range, and a horizontal offset between [-width] and
    [newWidth].) *)
Theorem ImageResizeCanvas_spec (image : Image) (m : buffer)
    (newWidth newHeight offsetX offsetY : Z) (fill fill' : Color) :
  let w := width image in
  let h := height image in
  let bpp := GetPixelDataSize 1 1 (format image) in
  data image = Some m ->
  PIXELFORMAT_UNCOMPRESSED_GRAYSCALE <= format image
    <= PIXELFORMAT_UNCOMPRESSED_R32G32B32A32 ->
  0 < w < 2 ^ 23 -> 0 < h < 2 ^ 23 ->
  0 <= newWidth < 2 ^ 23 -> 0 <= newHeight < 2 ^ 23 ->
  - 2 ^ 23 < offsetX < 2 ^ 23 -> - 2 ^ 23 < offsetY < 2 ^ 23 ->
  Z.of_nat (length m) = w * h * bpp ->
  w * h * bpp <= INT_MAX -> newWidth * (newHeight + 1) * bpp <= INT_MAX ->
  - w <= offsetX <= newWidth ->
  (newWidth = w /\ newHeight = h ->
   ImageResizeCanvas image newWidth newHeight offsetX offsetY fill = Some image)
  /\ (newWidth <> w \/ newHeight <> h ->
      exists m' : buffer,
        ImageResizeCanvas image newWidth newHeight offsetX offsetY fill
        = Some (mkImage (Some m') newWidth newHeight (mipmaps image) (format image))
        /\ Z.of_nat (length m') = newWidth * newHeight * bpp
        /\ forall x y c, 0 <= x < newWidth -> 0 <= y < newHeight -> 0 <= c < bpp ->
           byte_at m' ((y * newWidth + x) * bpp + c)
           = if covered w h offsetX offsetY x y
             then byte_at m (((y - offsetY) * w + (x - offsetX)) * bpp + c)
             else Some (Byte 0))
  /\ ImageResizeCanvas image newWidth newHeight offsetX offsetY fill
     = ImageResizeCanvas image newWidth newHeight offsetX offsetY fill'.
Proof.
  intros w h bpp Hdata Hf Hw Hh Hnw Hnh Hox Hoy Hlen Hsize Hnsize Hofs.
  destruct (uncompressed_bytes_per_pixel _ Hf) as [Hbpp Hunc]. fold bpp in Hbpp.
  split; [|split; [|reflexivity]].
  { intros [-> ->]. unfold ImageResizeCanvas. fold w h.
    rewrite Hdata, Hunc, !Z.eqb_refl. cbn [is_null orb negb].
    destruct ((w =? 0) || (h =? 0)); reflexivity. }
  intros Hdiff.
  unfold ImageResizeCanvas. fold w h bpp. rewrite Hdata, Hunc. cbn [is_null orb].
  replace (w =? 0) with false by (symmetry; apply Z.eqb_neq; lia).
  replace (h =? 0) with false by (symmetry; apply Z.eqb_neq; lia).
  cbn [orb].
  replace (negb (newWidth =? w) || negb (newHeight =? h)) with true.
  2:{ symmetry. apply orb_true_iff. rewrite !negb_true_iff, !Z.eqb_neq. exact Hdiff. }
  rewrite ImageResizeCanvas_rects_exact by assumption. fold w h.
  pose proof (canvas_span_bounds w newWidth offsetX Hw Hnw Hox) as Bx.
  pose proof (canvas_span_bounds h newHeight offsetY Hh Hnh Hoy) as By.
  pose proof (canvas_span_spec w newWidth offsetX ltac:(lia) ltac:(lia)) as Sx.
  pose proof (canvas_span_spec h newHeight offsetY ltac:(lia) ltac:(lia)) as Sy.
  pose proof (fun x y => covered_spans w h newWidth newHeight offsetX offsetY x y) as Cov.
  destruct (canvas_span w newWidth offsetX) as [[sx sw] dx].
  destruct (canvas_span h newHeight offsetY) as [[sy sh] dy].
  specialize (fun x y => Cov x y sx sw dx sy sh dy ltac:(lia) ltac:(lia) ltac:(lia)
                           ltac:(lia) eq_refl eq_refl).
  destruct Bx as (Bsx & Bsw & Bdx), By as (Bsy & Bsh & Bdy).
  destruct Sx as (Ox & Hsx & Hdx & Fx & _ & Px), Sy as (Oy & Hsy & Hdy & Fy & _ & _).
  specialize (Px Hofs). destruct (Fx Px) as [Fx1 Fx2]. clear Fx.
  cbn [rec_x rec_y rec_width rec_height].
  rewrite !to_int_canonical by assumption.
  clear Bsx Bsw Bdx Bsy Bsh Bdy Hox Hoy Hofs Hdiff Hf Hunc.
  destruct (canvas_size_range newWidth newHeight bpp) as (R1 & R2 & R3); try lia.
  assert (Hmin : INT_MIN <= 0) by (unfold INT_MIN; lia).
  assert (Hmax : INT_MAX < 9223372036854775808) by (unfold INT_MAX; lia).
  rewrite (int_small (newWidth * newHeight)) by lia.
  rewrite (int_small (newWidth * newHeight * bpp)) by lia.
  rewrite (size_t_small (newWidth * newHeight * bpp)) by lia.
  rewrite Z.mul_1_r.
  rewrite (size_t_small (newWidth * newHeight * bpp)) by lia.
  unfold RL_CALLOC.
  replace (newWidth * newHeight * bpp <? 9223372036854775808) with true
    by (symmetry; apply Z.ltb_lt; lia).
  set (zeros := replicate (Z.to_nat (newWidth * newHeight * bpp)) (Byte 0)).
  assert (Lz : Z.of_nat (length zeros) = newWidth * newHeight * bpp).
  { unfold zeros. rewrite length_replicate. lia. }
  assert (Hzero : forall x y c, 0 <= x < newWidth -> 0 <= y < newHeight -> 0 <= c < bpp ->
            byte_at zeros ((y * newWidth + x) * bpp + c) = Some (Byte 0)).
  { intros x y c Hx Hy Hc.
    pose proof (pixel_index_range newWidth newHeight bpp x y c Hx Hy Hc) as Hk.
    rewrite byte_at_nonneg by lia. unfold zeros.
    apply lookup_replicate_2. lia. }
  unfold for_range. rewrite Z.sub_0_r.
  destruct (Z_le_dec sh 0) as [Hsh|Hsh].
  - (* no row is copied *)
    replace (Z.to_nat sh) with 0%nat by lia. cbn [for_loop bind].
    exists zeros. split; [reflexivity|]. split; [exact Lz|].
    intros x y c Hx Hy Hc.
    replace (covered w h offsetX offsetY x y) with false.
    + apply Hzero; assumption.
    + symmetry. apply not_true_is_false. intros C.
      apply Cov in C; lia.
  - (* [sh] rows are copied *)
    destruct (Fy ltac:(lia)) as [Fy1 Fy2]. clear Fy.
    destruct (canvas_dst_range newWidth newHeight bpp dx dy sw sh 0)
      as (D1 & D2 & D3 & D4 & _ & _); try lia.
    rewrite (int_small (dy * newWidth)) by lia.
    rewrite (int_small (dy * newWidth + dx)) by lia.
    rewrite (int_small ((dy * newWidth + dx) * bpp)) by lia.
    rewrite (int_small (sw * bpp)) by lia.
    rewrite (size_t_small (sw * bpp)) by lia.
    rewrite (int_small (newWidth * bpp)) by lia.
    rewrite (for_loop_copy_rows (Z.to_nat sh) 0 _ zeros ((dy * newWidth + dx) * bpp)
               (newWidth * bpp) m (fun y => ((y + sy) * w + sx) * bpp) (sw * bpp)).
    2:{ intros j d' Hj. cbn [bind].
        rewrite Z.add_0_l.
        destruct (canvas_src_range w h bpp sx sy sw sh j)
          as (S1 & S2 & S3 & S4 & _); try lia.
        destruct (canvas_dst_range newWidth newHeight bpp dx dy sw sh (j + 1))
          as (_ & _ & _ & _ & T1 & T2); try lia.
        rewrite (int_small (j + sy)) by lia.
        rewrite (int_small ((j + sy) * w)) by lia.
        rewrite (int_small ((j + sy) * w + sx)) by lia.
        rewrite (int_small (((j + sy) * w + sx) * bpp)) by lia.
        rewrite (int_small ((dy * newWidth + dx) * bpp + j * (newWidth * bpp)
                            + newWidth * bpp)) by lia.
        destruct (memcpy d' _ m _ _); [|reflexivity]. cbn [bind].
        replace ((dy * newWidth + dx) * bpp + (j + 1) * (newWidth * bpp))
          with ((dy * newWidth + dx) * bpp + j * (newWidth * bpp) + newWidth * bpp) by lia.
        reflexivity. }
    destruct (copy_rows_spec (Z.to_nat sh) 0 zeros ((dy * newWidth + dx) * bpp)
                (newWidth * bpp) m (fun y => ((y + sy) * w + sx) * bpp) (sw * bpp))
      as (m' & Em & Lm & Hin & Hout).
    { lia. }
    { lia. }
    { rewrite Lz, Z2Nat.id by lia.
      destruct (canvas_dst_range newWidth newHeight bpp dx dy sw sh sh)
        as (_ & _ & _ & _ & T1 & T2); lia. }
    { intros j Hj. cbv beta. rewrite Hlen, Z.add_0_l.
      destruct (canvas_src_range w h bpp sx sy sw sh j)
        as (S1 & S2 & S3 & S4 & S5); lia. }
    rewrite Em. cbn [bind].
    exists m'. split; [reflexivity|]. split; [rewrite Lm; exact Lz|].
    intros x y c Hx Hy Hc.
    destruct (covered w h offsetX offsetY x y) eqn:C.
    + apply Cov in C; try lia.
      destruct C as [Cx Cy].
      destruct (canvas_byte_inside newWidth bpp dx dy sw x y c) as [Ek Rk]; try lia.
      rewrite Ek, Hin by lia. cbv beta. f_equal.
      assert (Ex : x - offsetX = x - dx + sx) by lia.
      assert (Ey : y - offsetY = y - dy + sy) by lia.
      rewrite Ex, Ey. ring.
    + rewrite Hout; [apply Hzero; assumption|].
      intros j Hj.
      apply (canvas_byte_outside newWidth bpp dx dy sw x y c j); try lia.
      destruct (Z.eq_dec y (dy + j)) as [Eyj|]; [|left; assumption].
      right.
      destruct (Z_lt_dec x dx) as [|Nx]; [left; assumption|].
      destruct (Z_le_dec (dx + sw) x) as [|Nx']; [right; assumption|].
      exfalso. apply not_true_iff_false in C. apply C.
      apply Cov; lia.
Qed.

Lemma ImageResizeCanvas_spec_witness :
  let image := mkImage (Some [Byte 7; Byte 9]) 2 1 1 PIXELFORMAT_UNCOMPRESSED_GRAYSCALE in
  (exists m' : buffer,
     ImageResizeCanvas image 3 2 (-1) 1 WHITE
     = Some (mkImage (Some m') 3 2 1 PIXELFORMAT_UNCOMPRESSED_GRAYSCALE)
     /\ byte_at m' ((1 * 3 + 0) * 1 + 0) = Some (Byte 9)
     /\ byte_at m' ((0 * 3 + 0) * 1 + 0) = Some (Byte 0))
  /\ ImageResizeCanvas image 3 2 (-1) 1 WHITE
     = ImageResizeCanvas image 3 2 (-1) 1 (mkColor 0 0 0 0).
Proof.
  intros image.
  destruct (ImageResizeCanvas_spec image [Byte 7; Byte 9] 3 2 (-1) 1 WHITE (mkColor 0 0 0 0))
    as (_ & Hcanvas & Hfill).
  - reflexivity.
  - vm_compute. split; discriminate.
  - vm_compute. split; reflexivity.
  - vm_compute. split; reflexivity.
  - vm_compute. split; [discriminate | reflexivity].
  - vm_compute. split; [discriminate | reflexivity].
  - vm_compute. split; reflexivity.
  - vm_compute. split; reflexivity.
  - reflexivity.
  - vm_compute. discriminate.
  - vm_compute. discriminate.
  - vm_compute. split; discriminate.
  - split; [|exact Hfill].
    destruct (Hcanvas ltac:(left; discriminate)) as (m' & E & _ & Hbytes).
    exists m'. split; [exact E|]. split.
    + exact (Hbytes 0 1 0 ltac:(lia) ltac:(lia) ltac:(vm_compute; split; [discriminate | reflexivity])).
    + exact (Hbytes 0 0 0 ltac:(lia) ltac:(lia) ltac:(vm_compute; split; [discriminate | reflexivity])).
Defined.

(** ** Drawing through ImageDrawPixel *)

Lemma same_shape_refl (image : Image) : same_shape image image.
Proof. unfold same_shape. repeat split. Qed.

Lemma same_shape_trans (a b c : Image) :
  same_shape a b -> same_shape b c -> same_shape a c.
Proof.
  unfold same_shape. intros (A1 & A2 & A3 & A4 & A5) (B1 & B2 & B3 & B4 & B5).
  repeat split; congruence.
Qed.

Lemma Image_ok_same_shape (a b : Image) : same_shape a b -> Image_ok a -> Image_ok b.
Proof.
  unfold same_shape, Image_ok. intros (A1 & A2 & A3 & A4 & A5) Hok m Hm.
  rewrite Hm in A5. destruct (data a) as [ma|]; [|discriminate A5].
  cbn [option_map] in A5. injection A5 as A5.
  rewrite A1, A2, A4, A5. apply Hok. reflexivity.
Qed.

Lemma same_shape_set_data (image : Image) (m m' : buffer) :
  data image = Some m -> length m' = length m ->
  same_shape image (set_data image (Some m')).
Proof.
  intros Hm Hl. unfold same_shape, set_data. cbn [width height mipmaps format data].
  rewrite Hm. cbn [option_map]. rewrite Hl. repeat split.
Qed.

Lemma store_uchar_length (m : buffer) (off v : Z) :
  0 <= off -> off + 1 <= Z.of_nat (length m) ->
  exists m', store_uchar m off v = Some m' /\ length m' = length m.
Proof.
  intros H0 H1. rewrite store_uchar_Some by lia.
  eexists. split; [reflexivity|]. apply length_insert.
Qed.

Lemma store_ushort_length (m : buffer) (off v : Z) :
  0 <= off -> off + 2 <= Z.of_nat (length m) ->
  exists m', store_ushort m off v = Some m' /\ length m' = length m.
Proof.
  intros H0 H1. unfold store_ushort.
  destruct (store_uchar_length m off v) as (m1 & -> & L1); [lia | lia |]. cbn [bind].
  destruct (store_uchar_length m1 (off + 1) (Z.shiftr v 8)) as (m2 & -> & L2); [lia | lia |].
  exists m2. split; [reflexivity | congruence].
Qed.

Lemma store_uint_length (m : buffer) (off v : Z) :
  0 <= off -> off + 4 <= Z.of_nat (length m) ->
  exists m', store_uint m off v = Some m' /\ length m' = length m.
Proof.
  intros H0 H1. unfold store_uint.
  destruct (store_uchar_length m off v) as (m1 & -> & L1); [lia | lia |]. cbn [bind].
  destruct (store_uchar_length m1 (off + 1) (Z.shiftr v 8)) as (m2 & -> & L2); [lia | lia |].
  cbn [bind].
  destruct (store_uchar_length m2 (off + 2) (Z.shiftr v 16)) as (m3 & -> & L3); [lia | lia |].
  cbn [bind].
  destruct (store_uchar_length m3 (off + 3) (Z.shiftr v 24)) as (m4 & -> & L4); [lia | lia |].
  exists m4. split; [reflexivity | congruence].
Qed.

Lemma store_float_length (m : buffer) (off : Z) (x : float) :
  0 <= off -> off + 4 <= Z.of_nat (length m) ->
  exists m', store_float m off x = Some m' /\ length m' = length m.
Proof. intros H0 H1. unfold store_float. apply store_uint_length; assumption. Qed.

Lemma pixel_offset_range (w h bpp x y : Z) :
  0 <= x < w -> 0 <= y < h -> 0 < bpp -> w * h * bpp <= INT_MAX ->
  0 <= y * w <= INT_MAX /\ 0 <= y * w + x
  /\ (y * w + x + 1) * bpp <= w * h * bpp.
Proof.
  intros Hx Hy Hbpp H.
  assert (0 <= y * w) by (apply Z.mul_nonneg_nonneg; lia).
  assert ((y + 1) * w <= h * w) by (apply Z.mul_le_mono_nonneg_r; lia).
  assert ((y * w + x + 1) * bpp <= h * w * bpp) by (apply Z.mul_le_mono_nonneg_r; lia).
  assert (y * w + x + 1 <= (y * w + x + 1) * bpp) by nia.
  replace (w * h * bpp) with (h * w * bpp) by ring.
  lia.
Qed.

(** On an image whose buffer holds its pixels, [ImageDrawPixel] returns for
    every coordinate, colour and format, and keeps the shape of the image. *)
Lemma ImageDrawPixel_draws (dst : Image) (x y : Z) (color : Color) :
  Image_ok dst -> draws_on dst (ImageDrawPixel dst x y color).
Proof.
  intros Hok. unfold draws_on, ImageDrawPixel.
  destruct (data dst) as [m|] eqn:Hm; cbn [is_null orb].
  2:{ exists dst. split; [reflexivity | apply same_shape_refl]. }
  destruct (Z.ltb_spec x 0) as [|Hx0]; cbn [orb].
  { exists dst. split; [reflexivity | apply same_shape_refl]. }
  destruct (Z.leb_spec (width dst) x) as [|Hx1]; cbn [orb].
  { exists dst. split; [reflexivity | apply same_shape_refl]. }
  destruct (Z.ltb_spec y 0) as [|Hy0]; cbn [orb].
  { exists dst. split; [reflexivity | apply same_shape_refl]. }
  destruct (Z.leb_spec (height dst) y) as [|Hy1]; cbn [orb bind].
  { exists dst. split; [reflexivity | apply same_shape_refl]. }
  destruct (Hok m Hm) as [Hlen Hmax]. clear Hok.
  assert (Hmin : INT_MIN <= 0) by (unfold INT_MIN; lia).
  assert (Hstore : forall bpp, GetPixelDataSize 1 1 (format dst) = bpp -> 0 < bpp ->
            int (int (y * width dst) + x) = y * width dst + x
            /\ 0 <= y * width dst + x
            /\ (y * width dst + x + 1) * bpp <= Z.of_nat (length m)
            /\ (y * width dst + x + 1) * bpp <= INT_MAX).
  { intros bpp E Hbpp. rewrite E in Hlen, Hmax.
    destruct (pixel_offset_range (width dst) (height dst) bpp x y) as (P1 & P2 & P3);
      try lia.
    assert (y * width dst + x + 1 <= (y * width dst + x + 1) * bpp) by nia.
    rewrite (int_small (y * width dst)) by lia.
    rewrite int_small by lia. lia. }
  assert (Hdone : forall r, (exists m', r = Some m' /\ length m' = length m) ->
            exists image', (do m0 <- r; Some (set_data dst (Some m0))) = Some image'
                           /\ same_shape dst image').
  { intros r (m' & -> & L). cbn [bind]. eexists. split; [reflexivity|].
    apply (same_shape_set_data dst m m'); assumption. }
  apply Hdone. clear Hdone.
  repeat match goal with
         | |- context [format dst =? ?f] =>
             destruct (Z.eqb_spec (format dst) f) as [Ef|_];
             [ destruct (Hstore (GetPixelDataSize 1 1 f) ltac:(rewrite Ef; reflexivity)
                           ltac:(vm_compute; reflexivity)) as (Ei & Hi0 & Hi1 & Hi2);
               clear Hstore Hlen Hmax; rewrite Ei;
               match type of Hi1 with
               | context [GetPixelDataSize 1 1 ?g] =>
                   let v := eval vm_compute in (GetPixelDataSize 1 1 g) in
                   change (GetPixelDataSize 1 1 g) with v in Hi1, Hi2
               end
             | ]
         end.
  all: repeat match goal with
         | |- context [int ?z] => rewrite (int_small z) by lia
         end.
  all: repeat match goal with
         | |- exists m', Some ?m0 = Some m' /\ _ => exists m0; split; [reflexivity|]
         | |- exists m', store_uchar ?m0 ?off ?v = Some m' /\ _ =>
             destruct (store_uchar_length m0 off v) as (?m1 & -> & ?L); [lia | lia |];
             eexists; split; [reflexivity|]
         | |- exists m', store_ushort ?m0 ?off ?v = Some m' /\ _ =>
             destruct (store_ushort_length m0 off v) as (?m1 & -> & ?L); [lia | lia |];
             eexists; split; [reflexivity|]
         | |- exists m', store_float ?m0 ?off ?v = Some m' /\ _ =>
             destruct (store_float_length m0 off v) as (?m1 & -> & ?L); [lia | lia |];
             eexists; split; [reflexivity|]
         | |- exists m', (do m1 <- store_uchar ?m0 ?off ?v; _) = Some m' /\ _ =>
             destruct (store_uchar_length m0 off v) as (?m1 & -> & ?L); [lia | lia |];
             cbn [bind]
         | |- exists m', (do m1 <- store_float ?m0 ?off ?v; _) = Some m' /\ _ =>
             destruct (store_float_length m0 off v) as (?m1 & -> & ?L); [lia | lia |];
             cbn [bind]
         end.
  all: congruence.
Qed.

Lemma ImageDrawPixel_next (dst0 dst : Image) (x y : Z) (color : Color) :
  Image_ok dst0 -> same_shape dst0 dst ->
  exists dst', ImageDrawPixel dst x y color = Some dst' /\ same_shape dst0 dst'.
Proof.
  intros Hok Hs.
  destruct (ImageDrawPixel_draws dst x y color) as (dst' & E & Hs').
  - apply (Image_ok_same_shape dst0); assumption.
  - exists dst'. split; [exact E|]. apply (same_shape_trans dst0 dst); assumption.
Qed.

(** [ImageDrawLine] returns for all end points below [INT_MAX] and keeps the
    shape of the image: every pixel of the line outside the image is
    skipped. *)
Lemma ImageDrawLine_draws (dst : Image) (startPosX startPosY endPosX endPosY : Z)
    (color : Color) :
  Image_ok dst ->
  startPosX < INT_MAX -> startPosY < INT_MAX -> endPosX < INT_MAX -> endPosY < INT_MAX ->
  draws_on dst (ImageDrawLine dst startPosX startPosY endPosX endPosY color).
Proof.
  intros Hok _ _ _ _. unfold draws_on, ImageDrawLine.
  set (changeInX := int (endPosX - startPosX)).
  set (changeInY := int (endPosY - startPosY)).
  set (absChangeInX := if changeInX <? 0 then int (- changeInX) else changeInX).
  set (absChangeInY := if changeInY <? 0 then int (- changeInY) else changeInY).
  set (reversedXY := absChangeInY <? absChangeInX).
  assert (Hloop : forall dst1 startU startV endU stepV A B P,
            same_shape dst dst1 ->
            exists dst',
              (do '(dst, startU, startV, endU, stepV, A, B, P) <-
                 Some (dst1, startU, startV, endU, stepV, A, B, P);
               do '(dst, _, _) <-
                 for_range (int (startU + 1)) (endU + 1)
                   (fun u '(dst, v, P) =>
                      let '(v, P) :=
                        if 0 <=? P then (int (v + stepV), int (P + B))
                        else (v, int (P + A)) in
                      do dst <- (if reversedXY then ImageDrawPixel dst u v color
                                 else ImageDrawPixel dst v u color);
                      Some (dst, v, P))
                   (dst, startV, P);
               Some dst) = Some dst' /\ same_shape dst dst').
  { intros dst1 startU startV endU stepV A B P Hs. cbn [bind]. unfold for_range.
    destruct (for_loop_inv_Some
                (fun (_ : Z) (s : Image * Z * Z) => same_shape dst (fst (fst s)))
                (fun u '(dst, v, P) =>
                   let '(v, P) :=
                     if 0 <=? P then (int (v + stepV), int (P + B))
                     else (v, int (P + A)) in
                   do dst <- (if reversedXY then ImageDrawPixel dst u v color
                              else ImageDrawPixel dst v u color);
                   Some (dst, v, P))
                (Z.to_nat (endU + 1 - int (startU + 1))) (int (startU + 1))
                (dst1, startV, P)) as ([[dst' v'] P'] & E & Hs').
    - exact Hs.
    - intros u [[d v] p] _ Hd. cbn [fst] in Hd.
      destruct (0 <=? p); destruct reversedXY;
        match goal with
        | |- context [ImageDrawPixel d ?a ?b color] =>
            destruct (ImageDrawPixel_next dst d a b color Hok Hd) as (d' & -> & Hd')
        end; cbn [bind]; eexists; (split; [reflexivity | exact Hd']).
    - rewrite E. cbn [bind]. exists dst'. split; [reflexivity | exact Hs']. }
  destruct reversedXY.
  - destruct (0 <? changeInX);
      match goal with
      | |- context [ImageDrawPixel dst ?a ?b color] =>
          destruct (ImageDrawPixel_next dst dst a b color Hok (same_shape_refl dst))
            as (d' & -> & Hd')
      end; cbn [bind]; apply Hloop; exact Hd'.
  - destruct (0 <? changeInY);
      match goal with
      | |- context [ImageDrawPixel dst ?a ?b color] =>
          destruct (ImageDrawPixel_next dst dst a b color Hok (same_shape_refl dst))
            as (d' & -> & Hd')
      end; cbn [bind]; apply Hloop; exact Hd'.
Qed.

Lemma circle_step_measure (x y dp : Z) :
  0 <= x <= y -> y < INT_MAX ->
  let '(x', y', _) := circle_step x y dp in
  0 <= x' /\ y' < INT_MAX /\ y' - x' < y - x.
Proof.
  intros Hx Hy. unfold circle_step.
  assert (Hmin : INT_MIN <= -1) by (unfold INT_MIN; lia).
  rewrite (int_small (x + 1)) by lia.
  destruct (0 <? dp).
  - rewrite (int_small (y - 1)) by lia. lia.
  - lia.
Qed.

Lemma ImageDrawCircleLines_loop (dst : Image) (centerX centerY : Z) (color : Color)
    (fuel : nat) :
  Image_ok dst ->
  forall (dst1 : Image) (x y dp : Z),
    same_shape dst dst1 -> 0 <= x -> y < INT_MAX ->
    Z.max 0 (y - x + 1) < Z.of_nat fuel ->
    exists s',
      while_loop fuel (fun '(_, x, y, _) => x <=? y)
        (fun '(dst, x, y, decesionParameter) =>
           do dst <- ImageDrawPixel dst (int (centerX + x)) (int (centerY + y)) color;
           do dst <- ImageDrawPixel dst (int (centerX - x)) (int (centerY + y)) color;
           do dst <- ImageDrawPixel dst (int (centerX + x)) (int (centerY - y)) color;
           do dst <- ImageDrawPixel dst (int (centerX - x)) (int (centerY - y)) color;
           do dst <- ImageDrawPixel dst (int (centerX + y)) (int (centerY + x)) color;
           do dst <- ImageDrawPixel dst (int (centerX - y)) (int (centerY + x)) color;
           do dst <- ImageDrawPixel dst (int (centerX + y)) (int (centerY - x)) color;
           do dst <- ImageDrawPixel dst (int (centerX - y)) (int (centerY - x)) color;
           let '(x, y, decesionParameter) := circle_step x y decesionParameter in
           Some (dst, x, y, decesionParameter))
        (dst1, x, y, dp) = Some s'
      /\ same_shape dst (fst (fst (fst s'))).
Proof.
  intros Hok. induction fuel as [|fuel IH]; intros dst1 x y dp Hs Hx Hy Hfuel.
  - lia.
  - cbn [while_loop].
    destruct (Z.leb_spec x y) as [Hxy|Hxy].
    + repeat match goal with
             | |- context [ImageDrawPixel ?d ?a ?b color] =>
                 let Hd := fresh "Hd" in
                 let d' := fresh "d" in
                 destruct (ImageDrawPixel_next dst d a b color Hok ltac:(assumption))
                   as (d' & -> & Hd); cbn [bind]
             end.
      pose proof (circle_step_measure x y dp ltac:(lia) Hy) as Hm.
      destruct (circle_step x y dp) as [[x' y'] dp'].
      apply IH; [assumption | lia | lia | lia].
    + eexists. split; [reflexivity|]. exact Hs.
Qed.

(** [ImageDrawCircleLines] returns for every centre and every radius below
    [INT_MAX], after at most [radius + 1] iterations, and keeps the shape of
    the image: every pixel of the outline outside the image is skipped. *)
Lemma ImageDrawCircleLines_draws (dst : Image) (centerX centerY radius : Z)
    (color : Color) (fuel : nat) :
  Image_ok dst -> radius < INT_MAX -> Z.max 0 (radius + 1) < Z.of_nat fuel ->
  draws_on dst (ImageDrawCircleLines fuel dst centerX centerY radius color).
Proof.
  intros Hok Hr Hfuel. unfold draws_on, ImageDrawCircleLines.
  destruct (ImageDrawCircleLines_loop dst centerX centerY color fuel Hok dst 0 radius
              (int (3 - int (2 * radius))) (same_shape_refl dst))
    as ([[[d x] y] dp] & -> & Hs); [lia | lia | lia |].
  cbn [bind]. exists d. split; [reflexivity | exact Hs].
Qed.

(** Clipping by [ImageDrawPixel]: outside the destination bounds, or with a
    null destination buffer, [ImageDrawPixel] returns the image as it is,
    whatever the colour and the format.  So on an image whose buffer holds
    its pixels, [ImageDrawPixel] at any coordinate, and the primitives
    that write through it only, [ImageDrawLine] for any end points below
    [INT_MAX] and [ImageDrawCircleLines] for any centre and any radius
    below [INT_MAX] (the bounds keep [u++] and [x++] from overflowing),
    return without a write outside the buffer and keep the dimensions, the
    format and the buffer length of the image. *)
Theorem ImageDrawPixel_clips (dst : Image) (color : Color) :
  (forall x y,
     data dst = None \/ x < 0 \/ width dst <= x \/ y < 0 \/ height dst <= y ->
     ImageDrawPixel dst x y color = Some dst)
  /\ (Image_ok dst ->
      (forall x y, draws_on dst (ImageDrawPixel dst x y color))
      /\ (forall startPosX startPosY endPosX endPosY,
            startPosX < INT_MAX -> startPosY < INT_MAX ->
            endPosX < INT_MAX -> endPosY < INT_MAX ->
            draws_on dst (ImageDrawLine dst startPosX startPosY endPosX endPosY color))
      /\ (forall centerX centerY radius fuel,
            radius < INT_MAX -> Z.max 0 (radius + 1) < Z.of_nat fuel ->
            draws_on dst (ImageDrawCircleLines fuel dst centerX centerY radius color))).
Proof.
  split.
  - intros x y H. apply ImageDrawPixel_outside. exact H.
  - intros Hok. split; [|split].
    + intros x y. apply ImageDrawPixel_draws. exact Hok.
    + intros. apply ImageDrawLine_draws; assumption.
    + intros. apply ImageDrawCircleLines_draws; assumption.
Qed.

Lemma ImageDrawPixel_clips_witness :
  let dst := mkImage (Some (replicate 16 (Byte 0))) 4 4 1
               PIXELFORMAT_UNCOMPRESSED_GRAYSCALE in
  ImageDrawPixel dst 4 1 WHITE = Some dst
  /\ ImageDrawPixel dst 1 (-1) WHITE = Some dst
  /\ draws_on dst (ImageDrawLine dst (-2) 1 5 2 WHITE)
  /\ draws_on dst (ImageDrawCircleLines 4 dst 3 1 2 WHITE).
Proof.
  intros dst.
  destruct (ImageDrawPixel_clips dst WHITE) as [Hout Hin].
  assert (Hok : Image_ok dst).
  { intros m Hm. injection Hm as <-. vm_compute. split; discriminate. }
  destruct (Hin Hok) as (_ & Hline & Hcircle).
  split; [|split; [|split]].
  - apply Hout. right. right. left. cbn [width dst]. lia.
  - apply Hout. right. right. right. left. lia.
  - apply Hline; unfold INT_MAX; lia.
  - apply Hcircle; [unfold INT_MAX; lia | lia].
Defined.

(** ** Colour utilities *)

Lemma lor_shiftl_add (x y n : Z) :
  0 <= n -> 0 <= y < 2 ^ n -> Z.lor (x * 2 ^ n) y = x * 2 ^ n + y.
Proof.
  intros Hn Hy. rewrite <- Z.shiftl_mul_pow2 by assumption.
  assert (L : Z.land (Z.shiftl x n) y = 0).
  { apply Z.bits_inj'. intros i Hi. rewrite Z.land_spec, Z.bits_0.
    destruct (Z_lt_dec i n) as [Hlt|Hge].
    - rewrite Z.shiftl_spec_low by assumption. reflexivity.
    - destruct (Z.eq_dec y 0) as [->|Hy0]; [rewrite Z.bits_0; apply andb_false_r|].
      rewrite (Z.bits_above_log2 y i); [apply andb_false_r | lia |].
      apply Z.log2_lt_pow2; [lia|].
      assert (2 ^ n <= 2 ^ i) by (apply Z.pow_le_mono_r; lia). lia. }
  rewrite <- Z.lxor_lor by exact L.
  rewrite <- Z.add_nocarry_lxor by exact L. reflexivity.
Qed.

(** The integer of a colour, as a sum. *)
Lemma ColorToInt_value (c : Color) :
  Color_ok c ->
  ColorToInt c = int (r c * 16777216 + g c * 65536 + b c * 256 + a c).
Proof.
  intros (Hr & Hg & Hb & Ha). unfold ColorToInt, is_uchar in *.
  rewrite !Z.shiftl_mul_pow2 by lia.
  change (2 ^ 24) with 16777216. change (2 ^ 16) with 65536. change (2 ^ 8) with 256.
  rewrite (int_small (g c * 65536)) by (unfold INT_MIN, INT_MAX; lia).
  rewrite (int_small (b c * 256)) by (unfold INT_MIN, INT_MAX; lia).
  assert (E : exists r', int (r c * 16777216) = r' * 16777216
                         /\ int (r c * 16777216 + g c * 65536 + b c * 256 + a c)
                            = r' * 16777216 + g c * 65536 + b c * 256 + a c).
  { destruct (Z_lt_dec (r c) 128).
    - exists (r c). rewrite !int_small by (unfold INT_MIN, INT_MAX; lia). split; reflexivity.
    - exists (r c - 256). unfold int. split.
      + replace (r c * 16777216 + 2147483648)
          with ((r c * 16777216 - 2147483648) + 1 * 4294967296) by lia.
        rewrite Z.mod_add by lia. rewrite Z.mod_small by lia. lia.
      + replace (r c * 16777216 + g c * 65536 + b c * 256 + a c + 2147483648)
          with ((r c * 16777216 + g c * 65536 + b c * 256 + a c - 2147483648)
                + 1 * 4294967296) by lia.
        rewrite Z.mod_add by lia. rewrite Z.mod_small by lia. lia. }
  destruct E as (r' & -> & ->).
  change 16777216 with (2 ^ 24) at 1.
  rewrite (lor_shiftl_add r' (g c * 65536) 24) by (change (2 ^ 24) with 16777216; lia).
  replace (r' * 2 ^ 24 + g c * 65536) with ((r' * 256 + g c) * 2 ^ 16)
    by (change (2 ^ 24) with 16777216; change (2 ^ 16) with 65536; lia).
  rewrite (lor_shiftl_add _ (b c * 256) 16) by (change (2 ^ 16) with 65536; lia).
  replace ((r' * 256 + g c) * 2 ^ 16 + b c * 256)
    with (((r' * 256 + g c) * 256 + b c) * 2 ^ 8)
    by (change (2 ^ 16) with 65536; change (2 ^ 8) with 256; lia).
  rewrite (lor_shiftl_add _ (a c) 8) by (change (2 ^ 8) with 256; lia).
  change (2 ^ 8) with 256. lia.
Qed.

Lemma uint_int (z : Z) : uint (int z) = uint z.
Proof.
  unfold uint, int.
  rewrite Zminus_mod_idemp_l.
  replace (z + 2147483648 - 2147483648) with z by lia. reflexivity.
Qed.

Lemma GetColor_value (h : Z) :
  0 <= h < 4294967296 ->
  GetColor h = mkColor (h / 16777216) (h / 65536 mod 256) (h / 256 mod 256) (h mod 256).
Proof.
  intros Hh. unfold GetColor, uchar.
  rewrite !Z.shiftr_div_pow2 by lia.
  change (2 ^ 24) with 16777216. change (2 ^ 16) with 65536. change (2 ^ 8) with 256.
  change 255 with (Z.ones 8). rewrite !Z.land_ones by lia. change (2 ^ 8) with 256.
  rewrite !Z.mod_mod by lia.
  rewrite (Z.mod_small (h / 16777216)) by (split; [apply Z.div_pos; lia | apply Z.div_lt_upper_bound; lia]).
  reflexivity.
Qed.

(** [GetColor] and [ColorToInt] are inverse of each other: the colour read
    from the integer of a colour is that colour, and the integer of the
    colour read from a 32-bit value is that value (as an [int]). *)
Theorem GetColor_ColorToInt_inverse :
  (forall c : Color, Color_ok c -> GetColor (uint (ColorToInt c)) = c)
  /\ (forall h : Z, 0 <= h < 4294967296 ->
        Color_ok (GetColor h) /\ ColorToInt (GetColor h) = int h).
Proof.
  split.
  - intros c Hc. rewrite (ColorToInt_value c Hc), uint_int.
    destruct Hc as (Hr & Hg & Hb & Ha). unfold is_uchar in *.
    assert (Hs : 0 <= r c * 16777216 + g c * 65536 + b c * 256 + a c < 4294967296) by lia.
    unfold uint. rewrite Z.mod_small by exact Hs.
    rewrite GetColor_value by exact Hs.
    destruct c as [cr cg cb ca]. cbn [r g b a] in *.
    f_equal.
    + symmetry. apply (Z.div_unique _ _ _ (cg * 65536 + cb * 256 + ca)); lia.
    + replace (cr * 16777216 + cg * 65536 + cb * 256 + ca)
        with ((cr * 256 + cg) * 65536 + (cb * 256 + ca)) by lia.
      rewrite Z.div_add_l by lia. rewrite (Z.div_small (cb * 256 + ca)) by lia.
      rewrite Z.add_0_r, Z.add_comm, Z.mod_add by lia. apply Z.mod_small. lia.
    + replace (cr * 16777216 + cg * 65536 + cb * 256 + ca)
        with ((cr * 65536 + cg * 256 + cb) * 256 + ca) by lia.
      rewrite Z.div_add_l by lia. rewrite (Z.div_small ca) by lia.
      rewrite Z.add_0_r.
      replace (cr * 65536 + cg * 256 + cb) with (cb + (cr * 256 + cg) * 256) by lia.
      rewrite Z.mod_add by lia. apply Z.mod_small. lia.
    + replace (cr * 16777216 + cg * 65536 + cb * 256 + ca)
        with (ca + (cr * 65536 + cg * 256 + cb) * 256) by lia.
      rewrite Z.mod_add by lia. apply Z.mod_small. lia.
  - intros h Hh. rewrite GetColor_value by exact Hh.
    assert (Hok : Color_ok (mkColor (h / 16777216) (h / 65536 mod 256) (h / 256 mod 256)
                              (h mod 256))).
    { unfold Color_ok, is_uchar. cbn [r g b a].
      repeat split; try (apply Z.mod_pos_bound; lia).
      - apply Z.div_pos; lia.
      - apply Z.div_lt_upper_bound; lia. }
    split; [exact Hok|].
    rewrite (ColorToInt_value _ Hok). cbn [r g b a]. f_equal.
    pose proof (Z.div_mod h 256 ltac:(lia)) as E0.
    pose proof (Z.div_mod (h / 256) 256 ltac:(lia)) as E1.
    pose proof (Z.div_mod (h / 65536) 256 ltac:(lia)) as E2.
    rewrite (Z.div_div h 256 256) in E1 by lia.
    rewrite (Z.div_div h 65536 256) in E2 by lia.
    change (256 * 256) with 65536 in E1. change (65536 * 256) with 16777216 in E2.
    lia.
Qed.

Lemma GetColor_ColorToInt_inverse_witness :
  GetColor (uint (ColorToInt (mkColor 230 41 55 255))) = mkColor 230 41 55 255
  /\ ColorToInt (GetColor 3861460991) = int 3861460991.
Proof.
  destruct GetColor_ColorToInt_inverse as [H1 H2]. split.
  - apply H1. unfold Color_ok, is_uchar. cbn [r g b a]. lia.
  - apply H2. lia.
Defined.

Lemma mul_comm (x y : float) : F32.mul x y = F32.mul y x.
Proof.
  unfold F32.mul, SFmul.
  destruct x as [sx|sx| |sx mx ex], y as [sy|sy| |sy my ey];
    try reflexivity; try (rewrite xorb_comm; reflexivity).
  rewrite xorb_comm, Pos.mul_comm, Z.add_comm. reflexivity.
Qed.

Lemma normalized_roundtrip (v : Z) :
  is_uchar v ->
  F32.to_uchar (F32.mul (F32.div (F32.of_int v) (F32.of_int 255)) (F32.of_int 255)) = v.
Proof.
  intros Hv.
  assert (H : all_below 256
                (fun v => F32.to_uchar (F32.mul (F32.div (F32.of_int v) (F32.of_int 255))
                                          (F32.of_int 255)) =? v) = true)
    by (vm_compute; reflexivity).
  apply Z.eqb_eq. exact (all_below_spec 256 _ H v Hv).
Qed.

Lemma normalized_unit_interval (v : Z) :
  is_uchar v -> clamp01 (F32.div (F32.of_int v) (F32.of_int 255))
                = F32.div (F32.of_int v) (F32.of_int 255).
Proof.
  intros Hv.
  assert (H : all_below 256
                (fun v => negb (F32.ltb (F32.div (F32.of_int v) (F32.of_int 255)) (F32.of_int 0))
                          && negb (F32.gtb (F32.div (F32.of_int v) (F32.of_int 255))
                                     (F32.of_int 1))) = true)
    by (vm_compute; reflexivity).
  pose proof (all_below_spec 256 _ H v Hv) as E. cbv beta in E.
  apply andb_true_iff in E. destruct E as [E0 E1].
  apply negb_true_iff in E0, E1. unfold clamp01. rewrite E0, E1. reflexivity.
Qed.

(** [ColorFromNormalized] undoes [ColorNormalize]: the division by 255 and
    the multiplication by 255, both rounded to binary32 and then truncated,
    give back every 8-bit channel value. *)
Theorem ColorFromNormalized_ColorNormalize (c : Color) :
  Color_ok c -> ColorFromNormalized (ColorNormalize c) = c.
Proof.
  intros (Hr & Hg & Hb & Ha). destruct c as [cr cg cb ca]. cbn [r g b a] in *.
  unfold ColorFromNormalized, ColorNormalize. cbn [v_x v_y v_z v_w r g b a].
  rewrite !normalized_roundtrip by assumption. reflexivity.
Qed.

Lemma ColorFromNormalized_ColorNormalize_witness :
  ColorFromNormalized (ColorNormalize (mkColor 230 41 55 254)) = mkColor 230 41 55 254.
Proof.
  apply ColorFromNormalized_ColorNormalize.
  unfold Color_ok, is_uchar. cbn [r g b a]. lia.
Defined.

(** [Fade] keeps the colour channels and sets the alpha channel from the
    factor: 0 for a negative factor, 255 for a factor above 1, and exactly
    [v] for the factor [v/255] of an 8-bit value; [ColorAlpha] is the same
    function. *)
Theorem Fade_alpha (color : Color) (alpha : float) :
  (F32.ltb alpha (F32.of_int 0) = true ->
   Fade color alpha = mkColor (r color) (g color) (b color) 0)
  /\ (F32.gtb alpha (F32.of_int 1) = true ->
      Fade color alpha = mkColor (r color) (g color) (b color) 255)
  /\ (forall v, is_uchar v ->
        Fade color (F32.div (F32.of_int v) (F32.of_int 255))
        = mkColor (r color) (g color) (b color) v)
  /\ ColorAlpha color alpha = Fade color alpha.
Proof.
  split; [|split; [|split]].
  - intros H. unfold Fade, clamp01. rewrite H. reflexivity.
  - intros H. unfold Fade, clamp01.
    destruct (F32.ltb alpha (F32.of_int 0)) eqn:E0.
    + (* a factor cannot be both below 0 and above 1 *)
      exfalso. unfold F32.gtb, F32.ltb, SFltb in *.
      destruct alpha as [s|s| |s m e]; try discriminate;
        destruct s; cbn in *; discriminate.
    + rewrite H. reflexivity.
  - intros v Hv. unfold Fade. rewrite normalized_unit_interval by exact Hv.
    rewrite mul_comm, normalized_roundtrip by exact Hv. reflexivity.
  - reflexivity.
Qed.

Lemma Fade_alpha_witness :
  Fade WHITE (F32.of_int (-3)) = mkColor 255 255 255 0
  /\ Fade WHITE (F32.of_int 2) = mkColor 255 255 255 255
  /\ Fade WHITE (F32.div (F32.of_int 77) (F32.of_int 255)) = mkColor 255 255 255 77.
Proof.
  destruct (Fade_alpha WHITE (F32.of_int (-3))) as (H0 & _).
  destruct (Fade_alpha WHITE (F32.of_int 2)) as (_ & H1 & H2 & _).
  split; [|split].
  - apply H0. vm_compute. reflexivity.
  - apply H1. vm_compute. reflexivity.
  - apply H2. unfold is_uchar. lia.
Defined.

Lemma ColorTint_channel_comm (c t : Z) : ColorTint_channel c t = ColorTint_channel t c.
Proof.
  unfold ColorTint_channel. cbv zeta.
  rewrite (mul_comm (F32.div (F32.of_int c) (F32.of_int 255))). reflexivity.
Qed.

Lemma ColorTint_channel_255 (c : Z) : is_uchar c -> ColorTint_channel c 255 = c.
Proof.
  intros Hc.
  assert (H : all_below 256 (fun c => ColorTint_channel c 255 =? c) = true)
    by (vm_compute; reflexivity).
  apply Z.eqb_eq. exact (all_below_spec 256 _ H c Hc).
Qed.

Lemma ColorTint_channel_0 (c : Z) : is_uchar c -> ColorTint_channel c 0 = 0.
Proof.
  intros Hc.
  assert (H : all_below 256 (fun c => ColorTint_channel c 0 =? 0) = true)
    by (vm_compute; reflexivity).
  apply Z.eqb_eq. exact (all_below_spec 256 _ H c Hc).
Qed.

(** [ColorTint] is commutative, white is its neutral element and a blank
    tint gives the blank colour: the float product loses nothing on these
    inputs. *)
Theorem ColorTint_laws (color tint : Color) :
  ColorTint color tint = ColorTint tint color
  /\ (Color_ok color ->
      ColorTint color WHITE = color /\ ColorTint WHITE color = color
      /\ ColorTint color BLANK = BLANK).
Proof.
  split.
  - unfold ColorTint. f_equal; apply ColorTint_channel_comm.
  - intros (Hr & Hg & Hb & Ha). destruct color as [cr cg cb ca]. cbn [r g b a] in *.
    unfold ColorTint, WHITE, BLANK. cbn [r g b a].
    rewrite !(ColorTint_channel_comm 255).
    rewrite !ColorTint_channel_255, !ColorTint_channel_0 by assumption.
    repeat split.
Qed.

Lemma ColorTint_laws_witness :
  ColorTint (mkColor 230 41 55 200) WHITE = mkColor 230 41 55 200
  /\ ColorTint (mkColor 230 41 55 200) BLANK = BLANK.
Proof.
  destruct (ColorTint_laws (mkColor 230 41 55 200) WHITE) as [_ H].
  destruct H as (H1 & _ & H3).
  - unfold Color_ok, is_uchar. cbn [r g b a]. lia.
  - split; assumption.
Defined.

Lemma ColorBrightness_channel_1 (c : Z) :
  is_uchar c -> ColorBrightness_channel c (F32.of_int 1) = 255.
Proof.
  intros Hc.
  assert (H : all_below 256 (fun c => ColorBrightness_channel c (F32.of_int 1) =? 255) = true)
    by (vm_compute; reflexivity).
  apply Z.eqb_eq. exact (all_below_spec 256 _ H c Hc).
Qed.

Lemma ColorBrightness_channel_m1 (c : Z) :
  is_uchar c -> ColorBrightness_channel c (F32.of_int (-1)) = 0.
Proof.
  intros Hc.
  assert (H : all_below 256 (fun c => ColorBrightness_channel c (F32.of_int (-1)) =? 0) = true)
    by (vm_compute; reflexivity).
  apply Z.eqb_eq. exact (all_below_spec 256 _ H c Hc).
Qed.

Lemma ColorBrightness_channel_0 (c : Z) :
  is_uchar c -> ColorBrightness_channel c (F32.of_int 0) = c.
Proof.
  intros Hc.
  assert (H : all_below 256 (fun c => ColorBrightness_channel c (F32.of_int 0) =? c) = true)
    by (vm_compute; reflexivity).
  apply Z.eqb_eq. exact (all_below_spec 256 _ H c Hc).
Qed.

(** [ColorBrightness] keeps alpha; a factor of 1 or more gives white, a
    factor of -1 or less gives black, and the factor 0 leaves the colour
    unchanged. *)
Theorem ColorBrightness_extremes (color : Color) (factor : float) :
  Color_ok color ->
  (F32.gtb factor (F32.of_int 1) = true \/ factor = F32.of_int 1 ->
   ColorBrightness color factor = mkColor 255 255 255 (a color))
  /\ (F32.ltb factor (F32.of_int (-1)) = true \/ factor = F32.of_int (-1) ->
      ColorBrightness color factor = mkColor 0 0 0 (a color))
  /\ ColorBrightness color (F32.of_int 0) = color.
Proof.
  intros (Hr & Hg & Hb & Ha). destruct color as [cr cg cb ca]. cbn [r g b a] in *.
  split; [|split].
  - intros H. unfold ColorBrightness. cbn [r g b a].
    assert (E : (if F32.gtb factor (F32.of_int 1) then F32.of_int 1
                 else if F32.ltb factor (F32.of_int (-1)) then F32.of_int (-1)
                      else factor) = F32.of_int 1).
    { destruct H as [H | ->]; [rewrite H; reflexivity | reflexivity]. }
    rewrite E. rewrite !ColorBrightness_channel_1 by assumption. reflexivity.
  - intros H. unfold ColorBrightness. cbn [r g b a].
    assert (E : (if F32.gtb factor (F32.of_int 1) then F32.of_int 1
                 else if F32.ltb factor (F32.of_int (-1)) then F32.of_int (-1)
                      else factor) = F32.of_int (-1)).
    { destruct H as [H | ->]; [|reflexivity].
      destruct (F32.gtb factor (F32.of_int 1)) eqn:E1; [|rewrite H; reflexivity].
      exfalso. unfold F32.gtb, F32.ltb, SFltb in *.
      destruct factor as [s|s| |s m e]; try discriminate;
        destruct s; cbn in *; discriminate. }
    rewrite E. rewrite !ColorBrightness_channel_m1 by assumption. reflexivity.
  - unfold ColorBrightness. cbn [r g b a].
    change (F32.gtb (F32.of_int 0) (F32.of_int 1)) with false.
    change (F32.ltb (F32.of_int 0) (F32.of_int (-1))) with false. cbv iota.
    rewrite !ColorBrightness_channel_0 by assumption. reflexivity.
Qed.

Lemma ColorBrightness_extremes_witness :
  ColorBrightness (mkColor 230 41 55 200) (F32.of_int 3) = mkColor 255 255 255 200
  /\ ColorBrightness (mkColor 230 41 55 200) (F32.of_int (-2)) = mkColor 0 0 0 200.
Proof.
  assert (Hok : Color_ok (mkColor 230 41 55 200))
    by (unfold Color_ok, is_uchar; cbn [r g b a]; lia).
  destruct (ColorBrightness_extremes (mkColor 230 41 55 200) (F32.of_int 3) Hok)
    as (H1 & _ & _).
  destruct (ColorBrightness_extremes (mkColor 230 41 55 200) (F32.of_int (-2)) Hok)
    as (_ & H2 & _).
  split.
  - apply H1. left. vm_compute. reflexivity.
  - apply H2. left. vm_compute. reflexivity.
Defined.

Lemma ColorContrast_channel_0 (c : Z) :
  is_uchar c -> ColorContrast_channel c (F32.of_int 0) = 127.
Proof.
  intros Hc.
  assert (H : all_below 256 (fun c => ColorContrast_channel c (F32.of_int 0) =? 127) = true)
    by (vm_compute; reflexivity).
  apply Z.eqb_eq. exact (all_below_spec 256 _ H c Hc).
Qed.

Lemma ColorContrast_channel_1 (c : Z) :
  is_uchar c ->
  ColorContrast_channel c (F32.of_int 1) = if (0 <? c) && (c <? 64) then c - 1 else c.
Proof.
  intros Hc.
  assert (H : all_below 256
                (fun c => ColorContrast_channel c (F32.of_int 1)
                          =? if (0 <? c) && (c <? 64) then c - 1 else c) = true)
    by (vm_compute; reflexivity).
  apply Z.eqb_eq. exact (all_below_spec 256 _ H c Hc).
Qed.

(** [ColorContrast] keeps alpha; a contrast of -1 or less turns every colour
    into the grey 127; the contrast 0 leaves the channel values 0 and 64 to
    255 unchanged and lowers the values 1 to 63 by one (the subtraction and
    addition of 0.5 round in binary32). *)
Theorem ColorContrast_flat_and_neutral (color : Color) (contrast : float) :
  Color_ok color ->
  (F32.ltb contrast (F32.of_int (-1)) = true \/ contrast = F32.of_int (-1) ->
   ColorContrast color contrast = mkColor 127 127 127 (a color))
  /\ ColorContrast color (F32.of_int 0)
     = let neutral (c : Z) := if (0 <? c) && (c <? 64) then c - 1 else c in
       mkColor (neutral (r color)) (neutral (g color)) (neutral (b color)) (a color).
Proof.
  intros (Hr & Hg & Hb & Ha). destruct color as [cr cg cb ca]. cbn [r g b a] in *.
  split.
  - intros H. unfold ColorContrast. cbn [r g b a].
    assert (E : (if F32.ltb contrast (F32.of_int (-1)) then F32.of_int (-1)
                 else if F32.gtb contrast (F32.of_int 1) then F32.of_int 1
                      else contrast) = F32.of_int (-1)).
    { destruct H as [H | ->]; [rewrite H; reflexivity | reflexivity]. }
    rewrite E.
    change (F32.mul (F32.add (F32.of_int 1) (F32.of_int (-1)))
              (F32.add (F32.of_int 1) (F32.of_int (-1)))) with (F32.of_int 0).
    rewrite !ColorContrast_channel_0 by assumption. reflexivity.
  - unfold ColorContrast. cbn [r g b a].
    change (F32.ltb (F32.of_int 0) (F32.of_int (-1))) with false.
    change (F32.gtb (F32.of_int 0) (F32.of_int 1)) with false. cbv iota.
    change (F32.mul (F32.add (F32.of_int 1) (F32.of_int 0))
              (F32.add (F32.of_int 1) (F32.of_int 0))) with (F32.of_int 1).
    rewrite !ColorContrast_channel_1 by assumption. reflexivity.
Qed.

Lemma ColorContrast_flat_and_neutral_witness :
  ColorContrast (mkColor 230 41 55 200) (F32.of_int (-2)) = mkColor 127 127 127 200
  /\ ColorContrast (mkColor 230 41 55 200) (F32.of_int 0) = mkColor 230 40 54 200.
Proof.
  assert (Hok : Color_ok (mkColor 230 41 55 200))
    by (unfold Color_ok, is_uchar; cbn [r g b a]; lia).
  destruct (ColorContrast_flat_and_neutral (mkColor 230 41 55 200) (F32.of_int (-2)) Hok)
    as (H1 & H2).
  split.
  - apply H1. left. vm_compute. reflexivity.
  - exact H2.
Defined.

(** ** Blending over an opaque destination *)

Lemma spec_outA_opaque (alpha : Z) : 2 <= alpha <= 255 -> spec_outA alpha 255 = 255.
Proof.
  intros H. unfold spec_outA. rewrite shiftr8_div.
  symmetry. apply Z.div_unique with (r := alpha); lia.
Qed.

Lemma spec_channel_between (srcC dstC alpha : Z) :
  is_uchar srcC -> is_uchar dstC -> 2 <= alpha <= 255 ->
  Z.min srcC dstC <= spec_channel srcC dstC 255 alpha <= Z.max srcC dstC.
Proof.
  unfold is_uchar, spec_channel. intros Hs Hd Hal.
  rewrite spec_outA_opaque by assumption. rewrite shiftr8_div.
  rewrite Z.div_div by lia. change (255 * 256) with 65280.
  set (lo := Z.min srcC dstC). set (hi := Z.max srcC dstC).
  assert (Hlo : lo * 65280 <= srcC * alpha * 256 + dstC * 255 * (256 - alpha)).
  { assert (lo * (alpha * 256) <= srcC * (alpha * 256))
      by (apply Z.mul_le_mono_nonneg_r; lia).
    assert (lo * (255 * (256 - alpha)) <= dstC * (255 * (256 - alpha)))
      by (apply Z.mul_le_mono_nonneg_r; lia).
    assert (0 <= lo * alpha) by (apply Z.mul_nonneg_nonneg; lia).
    lia. }
  assert (Hhi : srcC * alpha * 256 + dstC * 255 * (256 - alpha) < (hi + 1) * 65280).
  { assert (srcC * (alpha * 256) <= hi * (alpha * 256))
      by (apply Z.mul_le_mono_nonneg_r; lia).
    assert (dstC * (255 * (256 - alpha)) <= hi * (255 * (256 - alpha)))
      by (apply Z.mul_le_mono_nonneg_r; lia).
    assert (hi * alpha <= 255 * 255) by (apply Z.mul_le_mono_nonneg; lia).
    lia. }
  split.
  - apply Z.div_le_lower_bound; lia.
  - assert ((srcC * alpha * 256 + dstC * 255 * (256 - alpha)) / 65280 < hi + 1)
      by (apply Z.div_lt_upper_bound; lia).
    lia.
Qed.

(** Over an opaque destination [ColorAlphaBlend] returns an opaque colour
    whose red, green and blue lie between the destination's and the tinted
    source's: the fixed-point blend neither overshoots nor wraps. *)
Theorem ColorAlphaBlend_over_opaque (dst src tint : Color) :
  Color_ok dst -> Color_ok src -> Color_ok tint -> a dst = 255 ->
  let s := spec_tinted src tint in
  let out := ColorAlphaBlend dst src tint in
  a out = 255
  /\ Z.min (r s) (r dst) <= r out <= Z.max (r s) (r dst)
  /\ Z.min (g s) (g dst) <= g out <= Z.max (g s) (g dst)
  /\ Z.min (b s) (b dst) <= b out <= Z.max (b s) (b dst).
Proof.
  intros (Hdr & Hdg & Hdb & Hda) (Hsr & Hsg & Hsb & Hsa) (Htr & Htg & Htb & Hta) Hopaque.
  destruct (tint_channel_spec _ _ Hsr Htr) as [Er Rr].
  destruct (tint_channel_spec _ _ Hsg Htg) as [Eg Rg].
  destruct (tint_channel_spec _ _ Hsb Htb) as [Eb Rb].
  destruct (tint_channel_spec _ _ Hsa Hta) as [Ea Ra].
  cbv zeta. unfold ColorAlphaBlend. rewrite Er, Eg, Eb, Ea.
  cbn [r g b a spec_tinted].
  set (sr := spec_tint (r src) (r tint)) in *.
  set (sg := spec_tint (g src) (g tint)) in *.
  set (sb := spec_tint (b src) (b tint)) in *.
  set (sa := spec_tint (a src) (a tint)) in *.
  destruct (Z.eqb_spec sa 0) as [E0|N0]; [lia|].
  destruct (Z.eqb_spec sa 255) as [E255|N255]; [cbn [r g b a]; lia|].
  assert (Hal : 2 <= sa + 1 <= 255) by (unfold is_uchar in Ra; lia).
  rewrite (uint_small sa), (uint_small (sa + 1)) by (unfold is_uchar in Ra; lia).
  rewrite Hopaque in *.
  assert (Eo : uchar (Z.shiftr (uint (uint ((sa + 1) * 256)
                 + uint (uint 255 * uint (256 - (sa + 1))))) 8) = 255).
  { rewrite (uint_small 255), (uint_small (256 - (sa + 1))),
      (uint_small ((sa + 1) * 256)) by lia.
    rewrite (uint_small (255 * (256 - (sa + 1)))) by lia.
    rewrite uint_small by lia.
    pose proof (spec_outA_opaque (sa + 1) Hal) as Eo. unfold spec_outA in Eo.
    rewrite Eo. reflexivity. }
  rewrite Eo. change (0 <? 255) with true. cbv iota. cbn [r g b a].
  assert (Bc : forall sc dc, is_uchar sc -> is_uchar dc ->
            blend_channel sc dc 255 (sa + 1) 255 = spec_channel sc dc 255 (sa + 1)).
  { intros sc dc Hsc Hdc.
    rewrite <- (blend_channel_spec sc dc 255 (sa + 1)) by assumption.
    rewrite spec_outA_opaque by assumption. reflexivity. }
  rewrite !Bc by assumption.
  pose proof (spec_channel_between sr (r dst) (sa + 1) Rr Hdr Hal) as Br.
  pose proof (spec_channel_between sg (g dst) (sa + 1) Rg Hdg Hal) as Bg.
  pose proof (spec_channel_between sb (b dst) (sa + 1) Rb Hdb Hal) as Bb.
  unfold is_uchar in *.
  rewrite !uchar_small by (unfold is_uchar; lia).
  repeat split; lia.
Qed.

Lemma ColorAlphaBlend_over_opaque_witness :
  let out := ColorAlphaBlend (mkColor 10 200 30 255) (mkColor 250 100 30 128) WHITE in
  a out = 255 /\ 10 <= r out <= 250 /\ 100 <= g out <= 200 /\ b out = 30.
Proof.
  assert (Hd : Color_ok (mkColor 10 200 30 255)) by (unfold Color_ok, is_uchar; cbn; lia).
  assert (Hs : Color_ok (mkColor 250 100 30 128))
    by (unfold Color_ok, is_uchar; cbn; lia).
  assert (Ht : Color_ok WHITE) by (unfold Color_ok, is_uchar; cbn; lia).
  destruct (ColorAlphaBlend_over_opaque _ _ _ Hd Hs Ht eq_refl) as (Ha & Hr & Hg & Hb).
  cbv zeta. split; [exact Ha|].
  change (spec_tinted (mkColor 250 100 30 128) WHITE) with (mkColor 250 100 30 128)
    in Hr, Hg, Hb.
  cbn [r g b a] in Hr, Hg, Hb.
  change (Z.min 250 10) with 10 in Hr. change (Z.max 250 10) with 250 in Hr.
  change (Z.min 100 200) with 100 in Hg. change (Z.max 100 200) with 200 in Hg.
  change (Z.min 30 30) with 30 in Hb. change (Z.max 30 30) with 30 in Hb.
  repeat split; lia.
Defined.

(** ** Image creation and pixel access *)

(** Stores as updates of the byte map. *)
Lemma store_uchar_spec (m : buffer) (off v : Z) :
  0 <= off < Z.of_nat (length m) ->
  exists m', store_uchar m off v = Some m' /\ length m' = length m
    /\ forall k, byte_at m' k = if k =? off then Some (Byte (uchar v)) else byte_at m k.
Proof.
  intros H. rewrite store_uchar_Some by exact H.
  eexists. split; [reflexivity|]. split; [apply length_insert|].
  intros k. apply byte_at_insert. exact H.
Qed.

Lemma store_Color_spec (m : buffer) (i : Z) (c : Color) :
  0 <= i -> 4 * i + 4 <= Z.of_nat (length m) ->
  exists m', store_Color m i c = Some m' /\ length m' = length m
    /\ forall k, byte_at m' k
                 = if k =? 4 * i then Some (Byte (uchar (r c)))
                   else if k =? 4 * i + 1 then Some (Byte (uchar (g c)))
                   else if k =? 4 * i + 2 then Some (Byte (uchar (b c)))
                   else if k =? 4 * i + 3 then Some (Byte (uchar (a c)))
                   else byte_at m k.
Proof.
  intros Hi Hlen. unfold store_Color.
  destruct (store_uchar_spec m (4 * i) (r c)) as (m1 & -> & L1 & B1); [lia|]. cbn [bind].
  destruct (store_uchar_spec m1 (4 * i + 1) (g c)) as (m2 & -> & L2 & B2); [lia|]. cbn [bind].
  destruct (store_uchar_spec m2 (4 * i + 2) (b c)) as (m3 & -> & L3 & B3); [lia|]. cbn [bind].
  destruct (store_uchar_spec m3 (4 * i + 3) (a c)) as (m4 & -> & L4 & B4); [lia|].
  exists m4. split; [reflexivity|]. split; [congruence|].
  intros k. rewrite B4, B3, B2, B1.
  destruct (Z.eqb_spec k (4 * i)), (Z.eqb_spec k (4 * i + 1)),
    (Z.eqb_spec k (4 * i + 2)), (Z.eqb_spec k (4 * i + 3)); try reflexivity; lia.
Qed.

Lemma store_Color_at (m : buffer) (i : Z) (c : Color) :
  0 <= i -> 4 * i + 4 <= Z.of_nat (length m) -> Color_ok c ->
  exists m', store_Color m i c = Some m' /\ length m' = length m
    /\ Color_at m' i c
    /\ (forall j c', j <> i -> Color_at m j c' -> Color_at m' j c')
    /\ (forall k, k < 4 * i \/ 4 * i + 4 <= k -> byte_at m' k = byte_at m k).
Proof.
  intros Hi Hlen (Hr & Hg & Hb & Ha).
  destruct (store_Color_spec m i c Hi Hlen) as (m' & E & L & B).
  rewrite !uchar_small in B by assumption.
  exists m'. split; [exact E|]. split; [exact L|]. split; [|split].
  - unfold Color_at. rewrite !B.
    rewrite Z.eqb_refl.
    destruct (Z.eqb_spec (4 * i + 1) (4 * i)); [lia|]. rewrite Z.eqb_refl.
    destruct (Z.eqb_spec (4 * i + 2) (4 * i)); [lia|].
    destruct (Z.eqb_spec (4 * i + 2) (4 * i + 1)); [lia|]. rewrite Z.eqb_refl.
    destruct (Z.eqb_spec (4 * i + 3) (4 * i)); [lia|].
    destruct (Z.eqb_spec (4 * i + 3) (4 * i + 1)); [lia|].
    destruct (Z.eqb_spec (4 * i + 3) (4 * i + 2)); [lia|]. rewrite Z.eqb_refl.
    repeat split.
  - intros j c' Hj (C0 & C1 & C2 & C3). unfold Color_at. rewrite !B.
    repeat match goal with
           | |- context [?x =? ?y] => destruct (Z.eqb_spec x y); [lia|]
           end.
    repeat split; assumption.
  - intros k Hk. rewrite B.
    repeat match goal with
           | |- context [?x =? ?y] => destruct (Z.eqb_spec x y); [lia|]
           end.
    reflexivity.
Qed.

Lemma load_uchar_Byte (m : buffer) (off v : Z) :
  byte_at m off = Some (Byte v) -> load_uchar m off = Some v.
Proof. intros H. rewrite load_uchar_byte_at, H. reflexivity. Qed.

(** Reading an R8G8B8A8 pixel inside the image. *)
Lemma GetImageColor_RGBA (image : Image) (m : buffer) (x y : Z) (c : Color) :
  data image = Some m -> format image = PIXELFORMAT_UNCOMPRESSED_R8G8B8A8 ->
  0 <= x < width image -> 0 <= y < height image ->
  width image * height image * 4 <= INT_MAX ->
  Color_at m (y * width image + x) c ->
  GetImageColor image x y = Some c.
Proof.
  intros Hm Hf Hx Hy Hmax (C0 & C1 & C2 & C3). unfold GetImageColor.
  destruct (Z.leb_spec 0 x); [|lia]. destruct (Z.ltb_spec x (width image)); [|lia].
  destruct (Z.leb_spec 0 y); [|lia]. destruct (Z.ltb_spec y (height image)); [|lia].
  cbn [andb]. rewrite Hf, Hm.
  change (PIXELFORMAT_UNCOMPRESSED_R8G8B8A8 =? PIXELFORMAT_UNCOMPRESSED_GRAYSCALE) with false.
  change (PIXELFORMAT_UNCOMPRESSED_R8G8B8A8 =? PIXELFORMAT_UNCOMPRESSED_GRAY_ALPHA) with false.
  change (PIXELFORMAT_UNCOMPRESSED_R8G8B8A8 =? PIXELFORMAT_UNCOMPRESSED_R5G5B5A1) with false.
  change (PIXELFORMAT_UNCOMPRESSED_R8G8B8A8 =? PIXELFORMAT_UNCOMPRESSED_R5G6B5) with false.
  change (PIXELFORMAT_UNCOMPRESSED_R8G8B8A8 =? PIXELFORMAT_UNCOMPRESSED_R4G4B4A4) with false.
  change (PIXELFORMAT_UNCOMPRESSED_R8G8B8A8 =? PIXELFORMAT_UNCOMPRESSED_R8G8B8A8) with true.
  cbv iota. cbn [bind].
  destruct (pixel_offset_range (width image) (height image) 4 x y) as (P1 & P2 & P3);
    try lia.
  assert (Hmin : INT_MIN <= 0) by (unfold INT_MIN; lia).
  rewrite (int_small (y * width image)) by lia.
  rewrite (int_small (y * width image + x)) by lia.
  rewrite (int_small ((y * width image + x) * 4)) by lia.
  rewrite !int_small by lia.
  replace ((y * width image + x) * 4) with (4 * (y * width image + x)) by lia.
  rewrite (load_uchar_Byte _ _ _ C0). cbn [bind].
  rewrite (load_uchar_Byte _ _ _ C1). cbn [bind].
  rewrite (load_uchar_Byte _ _ _ C2). cbn [bind].
  rewrite (load_uchar_Byte _ _ _ C3). cbn [bind].
  destruct c; reflexivity.
Qed.

(** Outside the image, [GetImageColor] reads nothing. *)
Lemma GetImageColor_outside (image : Image) (x y : Z) :
  in_bounds image x y = false -> GetImageColor image x y = Some BLANK.
Proof. unfold in_bounds, GetImageColor. intros ->. reflexivity. Qed.

Lemma GenImageColor_loop (count : Z) (color : Color) (m0 : buffer) :
  0 <= count -> Z.of_nat (length m0) = 4 * count -> Color_ok color ->
  exists m,
    for_range 0 count
      (fun i pixels => do m <- pixels; do m <- store_Color m i color; Some (Some m))
      (Some m0) = Some (Some m)
    /\ Z.of_nat (length m) = 4 * count
    /\ forall j, 0 <= j < count -> Color_at m j color.
Proof.
  intros Hc Hl Hok. unfold for_range. rewrite Z.sub_0_r.
  destruct (for_loop_inv_Some
              (fun (i : Z) (s : option buffer) =>
                 exists m, s = Some m /\ Z.of_nat (length m) = 4 * count
                           /\ forall j, 0 <= j < i -> Color_at m j color)
              (fun i pixels => do m <- pixels; do m <- store_Color m i color; Some (Some m))
              (Z.to_nat count) 0 (Some m0)) as (s & E & m & -> & L & C).
  - exists m0. split; [reflexivity|]. split; [exact Hl|]. intros j Hj. lia.
  - intros i s Hi (m & -> & L & C). cbn [bind].
    destruct (store_Color_at m i color) as (m' & -> & L' & Ci & Cj & _); [lia | lia | exact Hok |].
    cbn [bind]. eexists. split; [reflexivity|].
    exists m'. split; [reflexivity|]. split; [lia|].
    intros j Hj. destruct (Z.eq_dec j i) as [->|Hne]; [exact Ci|].
    apply Cj; [exact Hne|]. apply C. lia.
  - exists m. split; [exact E|]. split; [exact L|].
    intros j Hj. apply C. lia.
Qed.

Lemma GenImageColor_data (w h : Z) (color : Color) :
  0 <= w -> 0 <= h -> w * h * 4 <= INT_MAX -> Color_ok color ->
  exists m : buffer,
    GenImageColor w h color
    = Some (mkImage (Some m) w h 1 PIXELFORMAT_UNCOMPRESSED_R8G8B8A8)
    /\ Z.of_nat (length m) = 4 * (w * h)
    /\ forall j, 0 <= j < w * h -> Color_at m j color.
Proof.
  intros Hw Hh Hmax Hok.
  assert (Hwh : 0 <= w * h) by (apply Z.mul_nonneg_nonneg; lia).
  assert (Hmin : INT_MIN <= 0) by (unfold INT_MIN; lia).
  assert (HM : INT_MAX = 2147483647) by reflexivity.
  unfold GenImageColor.
  rewrite (int_small (w * h)) by lia.
  rewrite (size_t_small (w * h)) by lia.
  rewrite (size_t_small (w * h * 4)) by lia.
  unfold RL_CALLOC.
  replace (w * h * 4 <? 9223372036854775808) with true by (symmetry; apply Z.ltb_lt; lia).
  destruct (GenImageColor_loop (w * h) color (replicate (Z.to_nat (w * h * 4)) (Byte 0)))
    as (m & E & L & C); [lia | rewrite length_replicate; lia | exact Hok |].
  rewrite E. cbn [bind]. exists m.
  split; [reflexivity|]. split; [exact L | exact C].
Qed.

Lemma in_bounds_spec (image : Image) (x y : Z) :
  in_bounds image x y = true <-> 0 <= x < width image /\ 0 <= y < height image.
Proof.
  unfold in_bounds. rewrite !andb_true_iff, !Z.leb_le, !Z.ltb_lt. lia.
Qed.

(** [GenImageColor] returns an R8G8B8A8 image with one mipmap level whose
    every pixel reads back as the colour through [GetImageColor], which
    returns the blank colour outside the image; the image is ready exactly
    when both dimensions are positive. *)
Theorem GenImageColor_GetImageColor (w h : Z) (color : Color) :
  0 <= w -> 0 <= h -> w * h * 4 <= INT_MAX -> Color_ok color ->
  exists m : buffer,
    let image := mkImage (Some m) w h 1 PIXELFORMAT_UNCOMPRESSED_R8G8B8A8 in
    GenImageColor w h color = Some image
    /\ Z.of_nat (length m) = w * h * 4
    /\ IsImageReady image = (0 <? w) && (0 <? h)
    /\ forall x y, GetImageColor image x y
                   = Some (if in_bounds image x y then color else BLANK).
Proof.
  intros Hw Hh Hmax Hok.
  destruct (GenImageColor_data w h color Hw Hh Hmax Hok) as (m & E & L & C).
  exists m. cbv zeta.
  split; [exact E|]. split; [lia|]. split.
  - unfold IsImageReady. cbn [data width height format mipmaps is_null negb andb].
    change (0 <? PIXELFORMAT_UNCOMPRESSED_R8G8B8A8) with true.
    change (0 <? 1) with true. rewrite !andb_true_r. reflexivity.
  - intros x y.
    destruct (in_bounds _ x y) eqn:B.
    + apply in_bounds_spec in B. cbn [width height] in B.
      apply (GetImageColor_RGBA _ m); cbn [data width height format];
        [reflexivity | reflexivity | lia | lia | lia |].
      apply C.
      destruct (pixel_offset_range w h 1 x y) as (P1 & P2 & P3); lia.
    + apply GetImageColor_outside. exact B.
Qed.

Lemma GenImageColor_GetImageColor_witness :
  (do image <- GenImageColor 3 2 (mkColor 230 41 55 255); GetImageColor image 2 1)
  = Some (mkColor 230 41 55 255)
  /\ (do image <- GenImageColor 3 2 (mkColor 230 41 55 255); GetImageColor image 3 1)
     = Some BLANK.
Proof.
  destruct (GenImageColor_GetImageColor 3 2 (mkColor 230 41 55 255))
    as (m & E & _ & _ & G).
  - lia.
  - lia.
  - unfold INT_MAX. lia.
  - unfold Color_ok, is_uchar. cbn [r g b a]. lia.
  - rewrite E. cbn [bind]. split.
    + rewrite (G 2 1). reflexivity.
    + rewrite (G 3 1). reflexivity.
Defined.

(** ** The bytes written by ImageDrawPixel *)

Lemma writes_within_refl (m : buffer) (lo hi : Z) : writes_within m m lo hi.
Proof. split; [reflexivity | intros; reflexivity]. Qed.

Lemma writes_within_trans (m1 m2 m3 : buffer) (lo hi : Z) :
  writes_within m1 m2 lo hi -> writes_within m2 m3 lo hi -> writes_within m1 m3 lo hi.
Proof.
  intros [L1 B1] [L2 B2]. split; [congruence|].
  intros k Hk. rewrite B2, B1 by assumption. reflexivity.
Qed.

Lemma store_uchar_within (m : buffer) (off v lo hi : Z) :
  0 <= off -> off + 1 <= Z.of_nat (length m) -> lo <= off -> off + 1 <= hi ->
  exists m', store_uchar m off v = Some m' /\ writes_within m m' lo hi.
Proof.
  intros H0 H1 Hlo Hhi.
  destruct (store_uchar_spec m off v) as (m' & E & L & B); [lia|].
  exists m'. split; [exact E|]. split; [exact L|].
  intros k Hk. rewrite B. destruct (Z.eqb_spec k off); [lia | reflexivity].
Qed.

Lemma store_ushort_within (m : buffer) (off v lo hi : Z) :
  0 <= off -> off + 2 <= Z.of_nat (length m) -> lo <= off -> off + 2 <= hi ->
  exists m', store_ushort m off v = Some m' /\ writes_within m m' lo hi.
Proof.
  intros H0 H1 Hlo Hhi. unfold store_ushort.
  destruct (store_uchar_within m off v lo hi) as (m1 & -> & W1); try lia. cbn [bind].
  destruct (store_uchar_within m1 (off + 1) (Z.shiftr v 8) lo hi) as (m2 & -> & W2);
    try lia; [rewrite (proj1 W1); lia|].
  exists m2. split; [reflexivity|]. apply (writes_within_trans m m1 m2); assumption.
Qed.

Lemma store_uint_within (m : buffer) (off v lo hi : Z) :
  0 <= off -> off + 4 <= Z.of_nat (length m) -> lo <= off -> off + 4 <= hi ->
  exists m', store_uint m off v = Some m' /\ writes_within m m' lo hi.
Proof.
  intros H0 H1 Hlo Hhi. unfold store_uint.
  destruct (store_uchar_within m off v lo hi) as (m1 & -> & W1); try lia. cbn [bind].
  destruct (store_uchar_within m1 (off + 1) (Z.shiftr v 8) lo hi) as (m2 & -> & W2);
    try lia; [rewrite (proj1 W1); lia|]. cbn [bind].
  destruct (store_uchar_within m2 (off + 2) (Z.shiftr v 16) lo hi) as (m3 & -> & W3);
    try lia; [rewrite (proj1 W2), (proj1 W1); lia|]. cbn [bind].
  destruct (store_uchar_within m3 (off + 3) (Z.shiftr v 24) lo hi) as (m4 & -> & W4);
    try lia; [rewrite (proj1 W3), (proj1 W2), (proj1 W1); lia|].
  exists m4. split; [reflexivity|].
  apply (writes_within_trans m m3 m4); [|assumption].
  apply (writes_within_trans m m2 m3); [|assumption].
  apply (writes_within_trans m m1 m2); assumption.
Qed.

Lemma store_float_within (m : buffer) (off : Z) (x : float) (lo hi : Z) :
  0 <= off -> off + 4 <= Z.of_nat (length m) -> lo <= off -> off + 4 <= hi ->
  exists m', store_float m off x = Some m' /\ writes_within m m' lo hi.
Proof. intros. unfold store_float. apply store_uint_within; assumption. Qed.

Lemma within_bind (m : buffer) (lo hi : Z) (s : option buffer)
    (k : buffer -> option buffer) :
  (exists m1, s = Some m1 /\ writes_within m m1 lo hi) ->
  (forall m1, writes_within m m1 lo hi ->
     exists m', k m1 = Some m' /\ writes_within m m' lo hi) ->
  exists m', (do x <- s; k x) = Some m' /\ writes_within m m' lo hi.
Proof. intros (m1 & -> & W) H. cbn [bind]. apply H. exact W. Qed.

Lemma store_uchar_from (m m1 : buffer) (off v lo hi : Z) :
  writes_within m m1 lo hi ->
  0 <= off -> off + 1 <= Z.of_nat (length m) -> lo <= off -> off + 1 <= hi ->
  exists m', store_uchar m1 off v = Some m' /\ writes_within m m' lo hi.
Proof.
  intros W H0 H1 Hlo Hhi.
  destruct (store_uchar_within m1 off v lo hi) as (m' & E & W'); try lia.
  - rewrite (proj1 W). lia.
  - exists m'. split; [exact E|]. apply (writes_within_trans m m1 m'); assumption.
Qed.

Lemma store_ushort_from (m m1 : buffer) (off v lo hi : Z) :
  writes_within m m1 lo hi ->
  0 <= off -> off + 2 <= Z.of_nat (length m) -> lo <= off -> off + 2 <= hi ->
  exists m', store_ushort m1 off v = Some m' /\ writes_within m m' lo hi.
Proof.
  intros W H0 H1 Hlo Hhi.
  destruct (store_ushort_within m1 off v lo hi) as (m' & E & W'); try lia.
  - rewrite (proj1 W). lia.
  - exists m'. split; [exact E|]. apply (writes_within_trans m m1 m'); assumption.
Qed.

Lemma store_float_from (m m1 : buffer) (off : Z) (x : float) (lo hi : Z) :
  writes_within m m1 lo hi ->
  0 <= off -> off + 4 <= Z.of_nat (length m) -> lo <= off -> off + 4 <= hi ->
  exists m', store_float m1 off x = Some m' /\ writes_within m m' lo hi.
Proof.
  intros W H0 H1 Hlo Hhi.
  destruct (store_float_within m1 off x lo hi) as (m' & E & W'); try lia.
  - rewrite (proj1 W). lia.
  - exists m'. split; [exact E|]. apply (writes_within_trans m m1 m'); assumption.
Qed.

Lemma ImageDrawPixel_writes (dst : Image) (m : buffer) (x y : Z) (color : Color) :
  data dst = Some m -> Image_ok dst ->
  0 <= x < width dst -> 0 <= y < height dst ->
  let bpp := GetPixelDataSize 1 1 (format dst) in
  let offset := (y * width dst + x) * bpp in
  exists m' : buffer,
    ImageDrawPixel dst x y color = Some (set_data dst (Some m'))
    /\ writes_within m m' offset (offset + bpp).
Proof.
  intros Hm Hok Hx Hy bpp offset. unfold ImageDrawPixel. rewrite Hm.
  cbn [is_null orb].
  destruct (Z.ltb_spec x 0) as [|_]; [lia|].
  destruct (Z.leb_spec (width dst) x) as [|_]; [lia|].
  destruct (Z.ltb_spec y 0) as [|_]; [lia|].
  destruct (Z.leb_spec (height dst) y) as [|_]; [lia|].
  cbn [orb bind].
  destruct (Hok m Hm) as [Hlen Hmax]. clear Hok.
  assert (Hmin : INT_MIN <= 0) by (unfold INT_MIN; lia).
  assert (Hstore : forall n, bpp = n -> 0 < n ->
            int (int (y * width dst) + x) = y * width dst + x
            /\ 0 <= y * width dst + x
            /\ (y * width dst + x + 1) * n <= Z.of_nat (length m)
            /\ (y * width dst + x + 1) * n <= INT_MAX
            /\ offset = (y * width dst + x) * n).
  { intros n E Hn. unfold offset. unfold bpp in E. rewrite E in *.
    destruct (pixel_offset_range (width dst) (height dst) n x y) as (P1 & P2 & P3);
      try lia.
    assert (y * width dst + x + 1 <= (y * width dst + x + 1) * n) by nia.
    rewrite (int_small (y * width dst)) by lia.
    rewrite int_small by lia. lia. }
  assert (Hdone : forall r, (exists m', r = Some m' /\ writes_within m m' offset (offset + bpp)) ->
            exists m', (do m0 <- r; Some (set_data dst (Some m0)))
                       = Some (set_data dst (Some m'))
                       /\ writes_within m m' offset (offset + bpp)).
  { intros r (m' & -> & W). cbn [bind]. exists m'. split; [reflexivity | exact W]. }
  apply Hdone. clear Hdone.
  repeat match goal with
         | |- context [format dst =? ?f] =>
             destruct (Z.eqb_spec (format dst) f) as [Ef|_];
             [ destruct (Hstore (GetPixelDataSize 1 1 f)
                           ltac:(unfold bpp; rewrite Ef; reflexivity)
                           ltac:(vm_compute; reflexivity)) as (Ei & Hi0 & Hi1 & Hi2 & Eo);
               clear Hstore Hlen Hmax; rewrite Ei;
               assert (Eb : bpp = GetPixelDataSize 1 1 f) by (unfold bpp; rewrite Ef; reflexivity);
               match type of Hi1 with
               | context [GetPixelDataSize 1 1 ?g] =>
                   let v := eval vm_compute in (GetPixelDataSize 1 1 g) in
                   change (GetPixelDataSize 1 1 g) with v in Hi1, Hi2, Eo, Eb
               end;
               rewrite Eb; clearbody offset bpp
             | ]
         end.
  all: repeat match goal with
         | |- context [int ?z] => rewrite (int_small z) by lia
         end.
  all: pose proof (writes_within_refl m offset (offset + bpp)) as W.
  all: try rewrite Eb in W.
  all: repeat match goal with
         | |- exists m', Some ?m0 = Some m' /\ _ =>
             exists m0; split; [reflexivity | assumption]
         | W : writes_within ?mb ?m0 ?lo ?hi
           |- exists m', store_uchar ?m0 ?off ?v = Some m' /\ _ =>
             apply (store_uchar_from mb m0 off v lo hi W); lia
         | W : writes_within ?mb ?m0 ?lo ?hi
           |- exists m', store_ushort ?m0 ?off ?v = Some m' /\ _ =>
             apply (store_ushort_from mb m0 off v lo hi W); lia
         | W : writes_within ?mb ?m0 ?lo ?hi
           |- exists m', store_float ?m0 ?off ?v = Some m' /\ _ =>
             apply (store_float_from mb m0 off v lo hi W); lia
         | W : writes_within ?mb ?m0 ?lo ?hi
           |- exists m', (do m1 <- store_uchar ?m0 ?off ?v; _) = Some m' /\ _ =>
             apply within_bind;
             [ apply (store_uchar_from mb m0 off v lo hi W); lia
             | clear W; intros ?m1 W ]
         | W : writes_within ?mb ?m0 ?lo ?hi
           |- exists m', (do m1 <- store_float ?m0 ?off ?v; _) = Some m' /\ _ =>
             apply within_bind;
             [ apply (store_float_from mb m0 off v lo hi W); lia
             | clear W; intros ?m1 W ]
         end.
Qed.

(** [ImageDrawPixel] inside the image writes the bytes of its pixel only:
    the buffer keeps its length and every byte outside the [bpp] bytes of
    the pixel [(x, y)] keeps its value, whatever the format. *)
Theorem ImageDrawPixel_frame (dst : Image) (m : buffer) (x y : Z) (color : Color) :
  data dst = Some m -> Image_ok dst ->
  0 <= x < width dst -> 0 <= y < height dst ->
  let bpp := GetPixelDataSize 1 1 (format dst) in
  let offset := (y * width dst + x) * bpp in
  exists m' : buffer,
    ImageDrawPixel dst x y color = Some (set_data dst (Some m'))
    /\ length m' = length m
    /\ forall k, k < offset \/ offset + bpp <= k -> byte_at m' k = byte_at m k.
Proof.
  intros Hm Hok Hx Hy bpp offset.
  destruct (ImageDrawPixel_writes dst m x y color Hm Hok Hx Hy) as (m' & E & L & B).
  exists m'. split; [exact E|]. split; [exact L | exact B].
Qed.

Lemma ImageDrawPixel_frame_witness :
  let dst := mkImage (Some (replicate 12 (Byte 7))) 2 2 1 PIXELFORMAT_UNCOMPRESSED_R8G8B8 in
  exists m' : buffer,
    ImageDrawPixel dst 1 0 WHITE = Some (set_data dst (Some m'))
    /\ byte_at m' 2 = Some (Byte 7) /\ byte_at m' 6 = Some (Byte 7).
Proof.
  intros dst.
  destruct (ImageDrawPixel_frame dst (replicate 12 (Byte 7)) 1 0 WHITE)
    as (m' & E & _ & B).
  - reflexivity.
  - intros m Hm. injection Hm as <-. vm_compute. split; discriminate.
  - cbn [width dst]. lia.
  - cbn [height dst]. lia.
  - exists m'. split; [exact E|]. split.
    + rewrite B; [reflexivity | left; vm_compute; reflexivity].
    + rewrite B; [reflexivity | right; vm_compute; discriminate].
Defined.

(** ** Drawing and reading R8G8B8A8 pixels *)

Lemma pixel_index_inj (w x y x' y' : Z) :
  0 <= x < w -> 0 <= x' < w -> y * w + x = y' * w + x' -> x = x' /\ y = y'.
Proof.
  intros Hx Hx' E.
  assert (Ey : y = y').
  { assert (D1 : (y * w + x) / w = y)
      by (rewrite Z.add_comm, Z.div_add by lia; rewrite Z.div_small by lia; lia).
    assert (D2 : (y' * w + x') / w = y')
      by (rewrite Z.add_comm, Z.div_add by lia; rewrite Z.div_small by lia; lia).
    rewrite E in D1. congruence. }
  subst y'. split; [lia | reflexivity].
Qed.

Lemma GetImageColor_RGBA_loads (image : Image) (m : buffer) (x y : Z) :
  data image = Some m -> format image = PIXELFORMAT_UNCOMPRESSED_R8G8B8A8 ->
  0 <= x < width image -> 0 <= y < height image ->
  width image * height image * 4 <= INT_MAX ->
  GetImageColor image x y
  = do v0 <- load_uchar m (4 * (y * width image + x));
    do v1 <- load_uchar m (4 * (y * width image + x) + 1);
    do v2 <- load_uchar m (4 * (y * width image + x) + 2);
    do v3 <- load_uchar m (4 * (y * width image + x) + 3);
    Some (mkColor v0 v1 v2 v3).
Proof.
  intros Hm Hf Hx Hy Hmax. unfold GetImageColor.
  destruct (Z.leb_spec 0 x); [|lia]. destruct (Z.ltb_spec x (width image)); [|lia].
  destruct (Z.leb_spec 0 y); [|lia]. destruct (Z.ltb_spec y (height image)); [|lia].
  cbn [andb]. rewrite Hf, Hm.
  change (PIXELFORMAT_UNCOMPRESSED_R8G8B8A8 =? PIXELFORMAT_UNCOMPRESSED_GRAYSCALE) with false.
  change (PIXELFORMAT_UNCOMPRESSED_R8G8B8A8 =? PIXELFORMAT_UNCOMPRESSED_GRAY_ALPHA) with false.
  change (PIXELFORMAT_UNCOMPRESSED_R8G8B8A8 =? PIXELFORMAT_UNCOMPRESSED_R5G5B5A1) with false.
  change (PIXELFORMAT_UNCOMPRESSED_R8G8B8A8 =? PIXELFORMAT_UNCOMPRESSED_R5G6B5) with false.
  change (PIXELFORMAT_UNCOMPRESSED_R8G8B8A8 =? PIXELFORMAT_UNCOMPRESSED_R4G4B4A4) with false.
  change (PIXELFORMAT_UNCOMPRESSED_R8G8B8A8 =? PIXELFORMAT_UNCOMPRESSED_R8G8B8A8) with true.
  cbv iota. cbn [bind].
  destruct (pixel_offset_range (width image) (height image) 4 x y) as (P1 & P2 & P3);
    try lia.
  assert (Hmin : INT_MIN <= 0) by (unfold INT_MIN; lia).
  rewrite (int_small (y * width image)) by lia.
  rewrite (int_small (y * width image + x)) by lia.
  rewrite (int_small ((y * width image + x) * 4)) by lia.
  rewrite !int_small by lia.
  replace ((y * width image + x) * 4) with (4 * (y * width image + x)) by lia.
  reflexivity.
Qed.

Lemma ImageDrawPixel_RGBA (dst : Image) (m : buffer) (x y : Z) (color : Color) :
  data dst = Some m -> format dst = PIXELFORMAT_UNCOMPRESSED_R8G8B8A8 ->
  0 <= x < width dst -> 0 <= y < height dst ->
  width dst * height dst * 4 <= INT_MAX ->
  ImageDrawPixel dst x y color
  = do m' <- store_Color m (y * width dst + x) color; Some (set_data dst (Some m')).
Proof.
  intros Hm Hf Hx Hy Hmax. unfold ImageDrawPixel. rewrite Hm. cbn [is_null orb].
  destruct (Z.ltb_spec x 0) as [|_]; [lia|].
  destruct (Z.leb_spec (width dst) x) as [|_]; [lia|].
  destruct (Z.ltb_spec y 0) as [|_]; [lia|].
  destruct (Z.leb_spec (height dst) y) as [|_]; [lia|].
  cbn [orb bind]. rewrite Hf.
  change (PIXELFORMAT_UNCOMPRESSED_R8G8B8A8 =? PIXELFORMAT_UNCOMPRESSED_GRAYSCALE) with false.
  change (PIXELFORMAT_UNCOMPRESSED_R8G8B8A8 =? PIXELFORMAT_UNCOMPRESSED_GRAY_ALPHA) with false.
  change (PIXELFORMAT_UNCOMPRESSED_R8G8B8A8 =? PIXELFORMAT_UNCOMPRESSED_R5G5B5A1) with false.
  change (PIXELFORMAT_UNCOMPRESSED_R8G8B8A8 =? PIXELFORMAT_UNCOMPRESSED_R5G6B5) with false.
  change (PIXELFORMAT_UNCOMPRESSED_R8G8B8A8 =? PIXELFORMAT_UNCOMPRESSED_R4G4B4A4) with false.
  change (PIXELFORMAT_UNCOMPRESSED_R8G8B8A8 =? PIXELFORMAT_UNCOMPRESSED_R8G8B8) with false.
  change (PIXELFORMAT_UNCOMPRESSED_R8G8B8A8 =? PIXELFORMAT_UNCOMPRESSED_R8G8B8A8) with true.
  cbv iota.
  destruct (pixel_offset_range (width dst) (height dst) 4 x y) as (P1 & P2 & P3);
    try lia.
  assert (Hmin : INT_MIN <= 0) by (unfold INT_MIN; lia).
  rewrite (int_small (y * width dst)) by lia.
  rewrite (int_small (y * width dst + x)) by lia.
  rewrite (int_small ((y * width dst + x) * 4)) by lia.
  rewrite !int_small by lia.
  replace ((y * width dst + x) * 4) with (4 * (y * width dst + x)) by lia.
  unfold store_Color.
  destruct (store_uchar m (4 * (y * width dst + x)) (r color)) as [m1|]; [|reflexivity].
  cbn [bind].
  destruct (store_uchar m1 (4 * (y * width dst + x) + 1) (g color)) as [m2|]; [|reflexivity].
  cbn [bind].
  destruct (store_uchar m2 (4 * (y * width dst + x) + 2) (b color)) as [m3|]; [|reflexivity].
  cbn [bind]. reflexivity.
Qed.

(** The effect of [ImageDrawPixel] on an R8G8B8A8 image, as [GetImageColor]
    sees it, with the block of the result. *)
Lemma ImageDrawPixel_paints (dst : Image) (m : buffer) (x y : Z) (color : Color) :
  data dst = Some m -> format dst = PIXELFORMAT_UNCOMPRESSED_R8G8B8A8 ->
  Image_ok dst -> 0 <= x < width dst -> 0 <= y < height dst -> Color_ok color ->
  exists m' : buffer,
    ImageDrawPixel dst x y color = Some (set_data dst (Some m'))
    /\ length m' = length m
    /\ forall x' y', GetImageColor (set_data dst (Some m')) x' y'
                     = if (x' =? x) && (y' =? y) then Some color
                       else GetImageColor dst x' y'.
Proof.
  intros Hm Hf Hok Hx Hy Hc.
  destruct (Hok m Hm) as [Hlen Hmax]. rewrite Hf in Hlen, Hmax.
  change (GetPixelDataSize 1 1 PIXELFORMAT_UNCOMPRESSED_R8G8B8A8) with 4 in Hlen, Hmax.
  destruct (pixel_offset_range (width dst) (height dst) 4 x y) as (P1 & P2 & P3); try lia.
  rewrite (ImageDrawPixel_RGBA dst m x y color Hm Hf Hx Hy Hmax).
  destruct (store_Color_at m (y * width dst + x) color) as (m' & -> & L & Ci & _ & Bo);
    [lia | lia | exact Hc |].
  cbn [bind]. exists m'. split; [reflexivity|]. split; [exact L|].
  intros x' y'.
  destruct (in_bounds dst x' y') eqn:B.
  - unfold in_bounds in B.
    apply andb_true_iff in B. destruct B as [B By1].
    apply andb_true_iff in B. destruct B as [B By0].
    apply andb_true_iff in B. destruct B as [Bx0 Bx1].
    apply Z.leb_le in Bx0, By0. apply Z.ltb_lt in Bx1, By1.
    destruct (Z.eqb_spec x' x) as [->|Nx]; cbn [andb].
    + destruct (Z.eqb_spec y' y) as [->|Ny].
      * apply (GetImageColor_RGBA _ m'); cbn [set_data data width height format];
          [reflexivity | exact Hf | lia | lia | lia | exact Ci].
      * rewrite (GetImageColor_RGBA_loads (set_data dst (Some m')) m');
          cbn [set_data data width height format]; try (reflexivity || assumption || lia).
        rewrite (GetImageColor_RGBA_loads dst m) by (assumption || lia).
        assert (Hne : y' * width dst + x <> y * width dst + x).
        { intros E. destruct (pixel_index_inj (width dst) x y' x y Hx Hx E). contradiction. }
        rewrite !load_uchar_byte_at. rewrite !Bo by lia. reflexivity.
    + rewrite (GetImageColor_RGBA_loads (set_data dst (Some m')) m');
        cbn [set_data data width height format]; try (reflexivity || assumption || lia).
      rewrite (GetImageColor_RGBA_loads dst m) by (assumption || lia).
      assert (Hne : y' * width dst + x' <> y * width dst + x).
      { intros E. destruct (pixel_index_inj (width dst) x' y' x y ltac:(lia) Hx E).
        contradiction. }
      rewrite !load_uchar_byte_at. rewrite !Bo by lia. reflexivity.
  - assert (N : (x' =? x) && (y' =? y) = false).
    { apply not_true_is_false. intros T. apply andb_true_iff in T.
      destruct T as [T1 T2]. apply Z.eqb_eq in T1, T2. subst x' y'.
      unfold in_bounds in B.
      destruct (Z.leb_spec 0 x); [|lia]. destruct (Z.ltb_spec x (width dst)); [|lia].
      destruct (Z.leb_spec 0 y); [|lia]. destruct (Z.ltb_spec y (height dst)); [|lia].
      discriminate B. }
    rewrite N.
    rewrite (GetImageColor_outside dst x' y' B).
    apply GetImageColor_outside. exact B.
Qed.

(** Drawing a pixel of an R8G8B8A8 image and reading the image back:
    [GetImageColor] returns the colour drawn at [(x, y)] and what it returned
    before at every other position. *)
Theorem ImageDrawPixel_GetImageColor (dst : Image) (m : buffer) (x y : Z) (color : Color) :
  data dst = Some m -> format dst = PIXELFORMAT_UNCOMPRESSED_R8G8B8A8 ->
  Image_ok dst -> 0 <= x < width dst -> 0 <= y < height dst -> Color_ok color ->
  exists dst' : Image,
    ImageDrawPixel dst x y color = Some dst'
    /\ same_shape dst dst'
    /\ forall x' y', GetImageColor dst' x' y'
                     = if (x' =? x) && (y' =? y) then Some color
                       else GetImageColor dst x' y'.
Proof.
  intros Hm Hf Hok Hx Hy Hc.
  destruct (ImageDrawPixel_paints dst m x y color Hm Hf Hok Hx Hy Hc) as (m' & E & L & G).
  exists (set_data dst (Some m')). split; [exact E|]. split; [|exact G].
  apply same_shape_set_data with (m := m); assumption.
Qed.

Lemma ImageDrawPixel_GetImageColor_witness :
  let dst := mkImage (Some (replicate 16 (Byte 7))) 2 2 1 PIXELFORMAT_UNCOMPRESSED_R8G8B8A8 in
  exists dst' : Image,
    ImageDrawPixel dst 1 0 WHITE = Some dst'
    /\ GetImageColor dst' 1 0 = Some WHITE
    /\ GetImageColor dst' 0 1 = Some (mkColor 7 7 7 7).
Proof.
  intros dst.
  destruct (ImageDrawPixel_GetImageColor dst (replicate 16 (Byte 7)) 1 0 WHITE)
    as (dst' & E & _ & G).
  - reflexivity.
  - reflexivity.
  - intros m Hm. injection Hm as <-. vm_compute. split; discriminate.
  - cbn [width dst]. lia.
  - cbn [height dst]. lia.
  - unfold Color_ok, is_uchar. cbn [r g b a WHITE]. lia.
  - exists dst'. split; [exact E|]. split.
    + rewrite (G 1 0). reflexivity.
    + rewrite (G 0 1). reflexivity.
Defined.

(** ** ImageClearBackground *)

Lemma block_bounds (i n bpp : Z) :
  0 <= i < n -> 0 < bpp -> 0 <= i * bpp /\ i * bpp + bpp <= n * bpp.
Proof.
  intros Hi Hb. split; [apply Z.mul_nonneg_nonneg; lia|].
  replace (i * bpp + bpp) with ((i + 1) * bpp) by ring.
  apply Z.mul_le_mono_nonneg_r; lia.
Qed.

Lemma block_disjoint (i j bpp c : Z) :
  j <> i -> 0 <= c < bpp -> j * bpp + c < i * bpp \/ i * bpp + bpp <= j * bpp + c.
Proof.
  intros Hne Hc. destruct (Z_lt_dec j i) as [Hlt|Hge].
  - left. assert ((j + 1) * bpp <= i * bpp) by (apply Z.mul_le_mono_nonneg_r; lia). lia.
  - right. assert ((i + 1) * bpp <= j * bpp) by (apply Z.mul_le_mono_nonneg_r; lia). lia.
Qed.

Lemma ImageClearBackground_loop (w h mips f : Z) (m1 : buffer) (bpp : Z) :
  0 < bpp ->
  0 < w * h -> w * h * bpp <= Z.of_nat (length m1) -> w * h * bpp <= INT_MAX ->
  exists m' : buffer,
    for_range 1 (int (w * h))
      (fun i dst =>
         do m <- data dst;
         do m <- memcpy m (int (i * bpp)) m 0 (size_t bpp);
         Some (set_data dst (Some m)))
      (mkImage (Some m1) w h mips f)
    = Some (mkImage (Some m') w h mips f)
    /\ length m' = length m1
    /\ (forall i c, 0 <= i < w * h -> 0 <= c < bpp ->
          byte_at m' (i * bpp + c) = byte_at m1 c)
    /\ (forall k, w * h * bpp <= k -> byte_at m' k = byte_at m1 k).
Proof.
  intros Hpos Hcount Hlen Hmax.
  assert (Hmin : INT_MIN <= 0) by (unfold INT_MIN; lia).
  assert (HM : INT_MAX = 2147483647) by reflexivity.
  assert (Hwh : w * h * 1 <= w * h * bpp) by (apply Z.mul_le_mono_nonneg_l; lia).
  rewrite (int_small (w * h)) by lia. unfold for_range.
  destruct (for_loop_inv_Some
              (fun (i : Z) (s : Image) =>
                 exists m, s = mkImage (Some m) w h mips f
                           /\ length m = length m1
                           /\ (forall j c, 0 <= j < i -> 0 <= c < bpp ->
                                 byte_at m (j * bpp + c) = byte_at m1 c)
                           /\ (forall k, i * bpp <= k -> byte_at m k = byte_at m1 k))
              (fun i dst =>
                 do m <- data dst;
                 do m <- memcpy m (int (i * bpp)) m 0 (size_t bpp);
                 Some (set_data dst (Some m)))
              (Z.to_nat (w * h - 1)) 1 (mkImage (Some m1) w h mips f))
    as (s & E & m' & -> & L & Bin & Bout).
  - exists m1. split; [reflexivity|]. split; [reflexivity|]. split.
    + intros j c Hj Hc. replace j with 0 by lia. reflexivity.
    + intros k Hk. reflexivity.
  - intros i s Hi (m & -> & L & Bin & Bout). cbn [data format bind set_data width height mipmaps].
    pose proof (block_bounds i (w * h) bpp ltac:(lia) Hpos) as Hib.
    rewrite (int_small (i * bpp)) by lia.
    rewrite (size_t_small bpp) by lia.
    destruct (memcpy m (i * bpp) m 0 bpp) as [m2|] eqn:Ec.
    2:{ rewrite memcpy_Some in Ec by lia. discriminate Ec. }
    cbn [bind]. eexists. split; [reflexivity|].
    exists m2. split; [reflexivity|].
    split; [rewrite (memcpy_length _ _ _ _ _ _ Ec); exact L|]. split.
    + intros j c Hj Hc.
      destruct (Z.eq_dec j i) as [->|Hne].
      * rewrite (memcpy_inside _ _ _ _ _ _ c Ec) by lia.
        rewrite Z.add_0_l. apply (Bin 0 c); lia.
      * rewrite (memcpy_outside _ _ _ _ _ _ (j * bpp + c) Ec)
          by (apply block_disjoint; assumption).
        apply Bin; lia.
    + intros k Hk.
      rewrite (memcpy_outside _ _ _ _ _ _ k Ec) by lia.
      apply Bout. lia.
  - replace (1 + Z.of_nat (Z.to_nat (w * h - 1))) with (w * h) in Bin, Bout by lia.
    exists m'. split; [exact E|]. split; [exact L|]. split.
    + intros i c Hi Hc. apply Bin; lia.
    + intros k Hk. apply Bout. lia.
Qed.

Lemma uncompressed_format_cases (f : Z) :
  PIXELFORMAT_UNCOMPRESSED_GRAYSCALE <= f <= PIXELFORMAT_UNCOMPRESSED_R32G32B32A32 ->
  0 < GetPixelDataSize 1 1 f.
Proof. intros H. apply uncompressed_bytes_per_pixel. exact H. Qed.

Lemma ImageClearBackground_bytes (dst : Image) (m : buffer) (color : Color) :
  data dst = Some m -> Image_ok dst -> 0 < width dst -> 0 < height dst ->
  PIXELFORMAT_UNCOMPRESSED_GRAYSCALE <= format dst <= PIXELFORMAT_UNCOMPRESSED_R32G32B32A32 ->
  let bpp := GetPixelDataSize 1 1 (format dst) in
  exists m1 m' : buffer,
    ImageDrawPixel dst 0 0 color = Some (set_data dst (Some m1))
    /\ ImageClearBackground dst color = Some (set_data dst (Some m'))
    /\ length m' = length m
    /\ (forall i c, 0 <= i < width dst * height dst -> 0 <= c < bpp ->
          byte_at m' (i * bpp + c) = byte_at m1 c)
    /\ (forall k, width dst * height dst * bpp <= k -> byte_at m' k = byte_at m k).
Proof.
  intros Hm Hok Hw Hh Hf bpp.
  pose proof (uncompressed_format_cases _ Hf) as Hbpp. fold bpp in Hbpp.
  destruct (Hok m Hm) as [Hlen Hmax]. fold bpp in Hlen, Hmax.
  destruct (ImageDrawPixel_writes dst m 0 0 color Hm Hok ltac:(lia) ltac:(lia))
    as (m1 & E1 & L1 & B1).
  fold bpp in B1.
  replace ((0 * width dst + 0) * bpp) with 0 in B1 by lia.
  exists m1. unfold ImageClearBackground. rewrite Hm. cbn [is_null orb].
  replace (width dst =? 0) with false by (symmetry; apply Z.eqb_neq; lia).
  replace (height dst =? 0) with false by (symmetry; apply Z.eqb_neq; lia).
  cbn [orb]. rewrite E1. cbn [bind].
  assert (Hwh : 0 < width dst * height dst) by (apply Z.mul_pos_pos; lia).
  destruct dst as [d w h mips f]. cbn [data width height mipmaps format set_data] in *.
  destruct (ImageClearBackground_loop w h mips f m1 bpp Hbpp Hwh)
    as (m' & E & L & Bin & Bout); [rewrite L1; exact Hlen | exact Hmax |].
  exists m'. split; [reflexivity|]. split; [exact E|]. split; [congruence|].
  split; [exact Bin|].
  intros k Hk. rewrite Bout by exact Hk. apply B1. right.
  pose proof (block_bounds 0 (w * h) bpp ltac:(lia) Hbpp). lia.
Qed.


(** [ImageClearBackground] repeats the first pixel: on an image of an
    uncompressed format whose buffer holds its pixels, every pixel of the
    result carries the bytes that [ImageDrawPixel] writes at (0, 0) for the
    colour, and the bytes of the buffer after the last pixel are kept. *)
Theorem ImageClearBackground_fills (dst : Image) (m : buffer) (color : Color) :
  data dst = Some m -> Image_ok dst -> 0 < width dst -> 0 < height dst ->
  PIXELFORMAT_UNCOMPRESSED_GRAYSCALE <= format dst <= PIXELFORMAT_UNCOMPRESSED_R32G32B32A32 ->
  let bpp := GetPixelDataSize 1 1 (format dst) in
  exists m1 m' : buffer,
    ImageDrawPixel dst 0 0 color = Some (set_data dst (Some m1))
    /\ ImageClearBackground dst color = Some (set_data dst (Some m'))
    /\ length m' = length m
    /\ (forall i c, 0 <= i < width dst * height dst -> 0 <= c < bpp ->
          byte_at m' (i * bpp + c) = byte_at m1 c)
    /\ (forall k, width dst * height dst * bpp <= k -> byte_at m' k = byte_at m k).
Proof. exact (ImageClearBackground_bytes dst m color). Qed.

Lemma ImageClearBackground_fills_witness :
  let dst := mkImage (Some (replicate 13 (Byte 7))) 2 2 1 PIXELFORMAT_UNCOMPRESSED_R8G8B8 in
  exists m' : buffer,
    ImageClearBackground dst (mkColor 1 2 3 255) = Some (set_data dst (Some m'))
    /\ byte_at m' (3 * 3 + 1) = Some (Byte 2)
    /\ byte_at m' 12 = Some (Byte 7).
Proof.
  intros dst.
  destruct (ImageClearBackground_fills dst (replicate 13 (Byte 7)) (mkColor 1 2 3 255))
    as (m1 & m' & E1 & E & _ & Bin & Bout).
  - reflexivity.
  - intros m Hm. injection Hm as <-. vm_compute. split; discriminate.
  - cbn [width dst]. lia.
  - cbn [height dst]. lia.
  - vm_compute. split; discriminate.
  - exists m'. split; [exact E|]. split.
    + change (GetPixelDataSize 1 1 (format dst)) with 3 in Bin.
      rewrite (Bin 3 1); [| cbn [width height dst]; lia | lia].
      assert (E0 : ImageDrawPixel dst 0 0 (mkColor 1 2 3 255)
                   = Some (set_data dst
                             (Some ([Byte 1; Byte 2; Byte 3] ++ replicate 10 (Byte 7)))))
        by (vm_compute; reflexivity).
      rewrite E0 in E1. injection E1 as <-. reflexivity.
    + rewrite Bout; [reflexivity | vm_compute; discriminate].
Defined.

Lemma byte_at_beyond (m : buffer) (k : Z) :
  Z.of_nat (length m) <= k -> byte_at m k = None.
Proof.
  intros H. unfold byte_at. destruct (Z.ltb_spec k 0); [reflexivity|].
  apply lookup_ge_None. lia.
Qed.

Lemma Color_at_ext (m1 m2 : buffer) (count : Z) (c : Color) :
  Z.of_nat (length m1) = 4 * count -> Z.of_nat (length m2) = 4 * count ->
  (forall j, 0 <= j < count -> Color_at m1 j c) ->
  (forall j, 0 <= j < count -> Color_at m2 j c) ->
  m1 = m2.
Proof.
  intros L1 L2 C1 C2. apply byte_at_ext. intros k.
  destruct (Z_lt_dec k 0) as [Hn|Hn].
  { unfold byte_at. destruct (Z.ltb_spec k 0); [reflexivity | lia]. }
  destruct (Z_le_dec (4 * count) k) as [Hb|Hb].
  { rewrite !byte_at_beyond by lia. reflexivity. }
  pose proof (Z.div_mod k 4 ltac:(lia)) as E.
  pose proof (Z.mod_pos_bound k 4 ltac:(lia)) as R.
  set (j := k / 4) in *. clearbody j.
  assert (Hj : 0 <= j < count) by lia.
  destruct (C1 j Hj) as (A0 & A1 & A2 & A3).
  destruct (C2 j Hj) as (B0 & B1 & B2 & B3).
  assert (Hk : k = 4 * j \/ k = 4 * j + 1 \/ k = 4 * j + 2 \/ k = 4 * j + 3) by lia.
  destruct Hk as [-> | [-> | [-> | ->]]]; congruence.
Qed.

(** [ImageClearBackground] on an R8G8B8A8 image: every pixel of the result
    reads back as the colour, and when the buffer holds exactly the pixels
    of one mipmap level the result is the image that [GenImageColor] makes
    for the same size and colour. *)
Theorem ImageClearBackground_RGBA (dst : Image) (m : buffer) (color : Color) :
  data dst = Some m -> format dst = PIXELFORMAT_UNCOMPRESSED_R8G8B8A8 ->
  Image_ok dst -> 0 < width dst -> 0 < height dst -> Color_ok color ->
  exists dst' : Image,
    ImageClearBackground dst color = Some dst'
    /\ same_shape dst dst'
    /\ (forall x y, GetImageColor dst' x y
                    = Some (if in_bounds dst x y then color else BLANK))
    /\ (Z.of_nat (length m) = width dst * height dst * 4 -> mipmaps dst = 1 ->
        GenImageColor (width dst) (height dst) color = Some dst').
Proof.
  intros Hm Hf Hok Hw Hh Hc.
  destruct (Hok m Hm) as [Hlen Hmax]. rewrite Hf in Hlen, Hmax.
  change (GetPixelDataSize 1 1 PIXELFORMAT_UNCOMPRESSED_R8G8B8A8) with 4 in Hlen, Hmax.
  assert (Hwh : 0 < width dst * height dst) by (apply Z.mul_pos_pos; lia).
  destruct (ImageClearBackground_bytes dst m color Hm Hok Hw Hh)
    as (m1 & m' & E1 & E & L & Bin & _).
  { rewrite Hf. vm_compute. split; discriminate. }
  rewrite Hf in Bin.
  change (GetPixelDataSize 1 1 PIXELFORMAT_UNCOMPRESSED_R8G8B8A8) with 4 in Bin.
  rewrite (ImageDrawPixel_RGBA dst m 0 0 color Hm Hf ltac:(lia) ltac:(lia) Hmax) in E1.
  replace (0 * width dst + 0) with 0 in E1 by lia.
  destruct (store_Color_at m 0 color) as (m0 & E0 & L0 & (C0 & C1 & C2 & C3) & _);
    [lia | lia | exact Hc |].
  rewrite E0 in E1. cbn [bind] in E1.
  assert (m1 = m0) as ->.
  { assert (Ed : data (set_data dst (Some m0)) = data (set_data dst (Some m1)))
      by congruence.
    cbn [set_data data] in Ed. congruence. }
  change (4 * 0) with 0 in C0. change (4 * 0 + 1) with 1 in C1.
  change (4 * 0 + 2) with 2 in C2. change (4 * 0 + 3) with 3 in C3.
  assert (Call : forall j, 0 <= j < width dst * height dst -> Color_at m' j color).
  { intros j Hj. unfold Color_at.
    replace (4 * j) with (j * 4 + 0) by lia.
    replace (j * 4 + 0 + 1) with (j * 4 + 1) by lia.
    replace (j * 4 + 0 + 2) with (j * 4 + 2) by lia.
    replace (j * 4 + 0 + 3) with (j * 4 + 3) by lia.
    rewrite !Bin by lia. repeat split; assumption. }
  exists (set_data dst (Some m')). split; [exact E|]. split.
  { apply same_shape_set_data with (m := m); assumption. }
  split.
  - intros x y. destruct (in_bounds dst x y) eqn:B.
    + apply in_bounds_spec in B.
      apply (GetImageColor_RGBA _ m'); cbn [set_data data width height format];
        [reflexivity | exact Hf | lia | lia | lia |].
      apply Call.
      destruct (pixel_offset_range (width dst) (height dst) 1 x y) as (P1 & P2 & P3); lia.
    + apply GetImageColor_outside. exact B.
  - intros Hexact Hmips.
    destruct (GenImageColor_data (width dst) (height dst) color) as (mg & Eg & Lg & Cg);
      [lia | lia | exact Hmax | exact Hc |].
    rewrite Eg. f_equal. unfold set_data. rewrite Hmips, Hf. f_equal. f_equal.
    apply (Color_at_ext mg m' (width dst * height dst) color);
      [exact Lg | lia | exact Cg | exact Call].
Qed.

Lemma ImageClearBackground_RGBA_witness :
  let dst := mkImage (Some (replicate 16 (Byte 7))) 2 2 1 PIXELFORMAT_UNCOMPRESSED_R8G8B8A8 in
  exists dst' : Image,
    ImageClearBackground dst (mkColor 1 2 3 4) = Some dst'
    /\ GetImageColor dst' 1 1 = Some (mkColor 1 2 3 4)
    /\ GenImageColor 2 2 (mkColor 1 2 3 4) = Some dst'.
Proof.
  intros dst.
  destruct (ImageClearBackground_RGBA dst (replicate 16 (Byte 7)) (mkColor 1 2 3 4))
    as (dst' & E & _ & G & Eg).
  - reflexivity.
  - reflexivity.
  - intros m Hm. injection Hm as <-. vm_compute. split; discriminate.
  - cbn [width dst]. lia.
  - cbn [height dst]. lia.
  - unfold Color_ok, is_uchar. cbn [r g b a]. lia.
  - exists dst'. split; [exact E|]. split.
    + rewrite (G 1 1). reflexivity.
    + apply Eg; reflexivity.
Defined.

(** ** ImageCopy *)

Lemma list_inserts_all {A : Type} (k l : list A) :
  length k = length l -> list_inserts 0 k l = k.
Proof.
  intros H. apply list_eq. intros i.
  destruct (decide (i < length k)%nat) as [Hi|Hi].
  - rewrite list_lookup_inserts by lia. f_equal. lia.
  - rewrite !lookup_ge_None_2; [reflexivity | lia | rewrite length_inserts; lia].
Qed.

Lemma GetPixelDataSize_int (w h f : Z) : int (GetPixelDataSize w h f) = GetPixelDataSize w h f.
Proof.
  apply int_small. unfold GetPixelDataSize.
  pose proof (int_range (int (w * h) * bits_per_pixel f)) as R.
  assert (Q : INT_MIN <= int (int (w * h) * bits_per_pixel f) ÷ 8 <= INT_MAX).
  { unfold INT_MIN, INT_MAX in *.
    set (z := int (int (w * h) * bits_per_pixel f)) in *. clearbody z.
    pose proof (Z.quot_rem z 8 ltac:(lia)) as Eq.
    pose proof (Z.rem_bound_abs z 8 ltac:(lia)). lia. }
  repeat match goal with
         | |- context [if ?c then _ else _] => destruct c
         end; try exact Q; unfold INT_MIN, INT_MAX; lia.
Qed.

Lemma ImageCopy_size_total (image : Image) :
  exists size w' h', ImageCopy_size image = Some (size, w', h')
                     /\ INT_MIN <= size <= INT_MAX.
Proof.
  unfold ImageCopy_size, for_range.
  destruct (for_loop_inv_Some
              (fun (_ : Z) (s : Z * Z * Z) => INT_MIN <= fst (fst s) <= INT_MAX)
              (fun (i : Z) '(size, width, height) =>
                 let size := int (size + GetPixelDataSize width height (format image)) in
                 let width := width ÷ 2 in
                 let height := height ÷ 2 in
                 let width := if width <? 1 then 1 else width in
                 let height := if height <? 1 then 1 else height in
                 Some (size, width, height))
              (Z.to_nat (mipmaps image - 0)) 0 (0, width image, height image))
    as ([[size w'] h'] & E & R).
  - cbn [fst]. unfold INT_MIN, INT_MAX. lia.
  - intros j [[s w0] h0] _ _. eexists. split; [reflexivity|]. cbn [fst]. apply int_range.
  - exists size, w', h'. split; [exact E | exact R].
Qed.

(** [ImageCopy] copies the bytes of the mipmap chain: the first [size]
    bytes of the buffer ([GetPixelDataSize width height format] with one
    mipmap level).  An image whose buffer is exactly that long is copied as
    it is; a shorter buffer is read past its end; a negative size gives the
    zero image. *)
Theorem ImageCopy_copies (image : Image) (m : buffer) :
  data image = Some m ->
  exists size w' h' : Z,
    ImageCopy_size image = Some (size, w', h')
    /\ (mipmaps image = 1 ->
        size = GetPixelDataSize (width image) (height image) (format image))
    /\ (0 <= size <= Z.of_nat (length m) ->
        ImageCopy image = Some (set_data image (Some (take (Z.to_nat size) m))))
    /\ (0 <= size -> Z.of_nat (length m) = size -> ImageCopy image = Some image)
    /\ (Z.of_nat (length m) < size -> ImageCopy image = None)
    /\ (size < 0 -> ImageCopy image = Some (mkImage None 0 0 0 0)).
Proof.
  intros Hm.
  destruct (ImageCopy_size_total image) as (size & w' & h' & E & R).
  exists size, w', h'. split; [exact E|].
  assert (HM : INT_MAX = 2147483647) by reflexivity.
  assert (Hmin : INT_MIN = -2147483648) by reflexivity.
  assert (Hcopy : 0 <= size <= Z.of_nat (length m) ->
            ImageCopy image = Some (set_data image (Some (take (Z.to_nat size) m)))).
  { intros Hs. unfold ImageCopy. rewrite E. cbn [bind].
    rewrite (size_t_small size) by lia. rewrite Z.mul_1_r.
    rewrite (size_t_small size) by lia.
    unfold RL_CALLOC.
    replace (size <? 9223372036854775808) with true by (symmetry; apply Z.ltb_lt; lia).
    rewrite Hm. cbn [bind].
    rewrite memcpy_Some by (rewrite ?length_replicate; lia).
    cbn [bind]. rewrite drop_0.
    rewrite list_inserts_all by (rewrite length_take, length_replicate; lia).
    reflexivity. }
  split; [|split; [exact Hcopy|split; [|split]]].
  - intros Hmips. unfold ImageCopy_size, for_range in E. rewrite Hmips in E.
    cbn in E. injection E as <- _ _. rewrite Z.add_0_l. apply GetPixelDataSize_int.
  - intros Hs Hl. rewrite Hcopy by lia.
    rewrite firstn_all2 by lia.
    destruct image as [d w h mips f]. cbn [data] in Hm. subst d. reflexivity.
  - intros Hs. unfold ImageCopy. rewrite E. cbn [bind].
    rewrite (size_t_small size) by lia. rewrite Z.mul_1_r.
    rewrite (size_t_small size) by lia.
    unfold RL_CALLOC.
    replace (size <? 9223372036854775808) with true by (symmetry; apply Z.ltb_lt; lia).
    rewrite Hm. cbn [bind]. unfold memcpy.
    replace (0 + size <=? Z.of_nat (length m)) with false
      by (symmetry; apply Z.leb_gt; lia).
    rewrite andb_false_r. reflexivity.
  - intros Hs. unfold ImageCopy. rewrite E. cbn [bind].
    assert (Es : size_t size = 18446744073709551616 + size).
    { unfold size_t.
      replace size with ((18446744073709551616 + size) + (-1) * 18446744073709551616) at 1
        by lia.
      rewrite Z.mod_add by lia. apply Z.mod_small. lia. }
    rewrite Es, Z.mul_1_r.
    rewrite (size_t_small (18446744073709551616 + size)) by lia.
    unfold RL_CALLOC.
    replace (18446744073709551616 + size <? 9223372036854775808) with false
      by (symmetry; apply Z.ltb_ge; lia).
    reflexivity.
Qed.

Lemma ImageCopy_copies_witness :
  let image := mkImage (Some [Byte 1; Byte 2; Byte 3; Byte 4]) 2 2 1
                 PIXELFORMAT_UNCOMPRESSED_GRAYSCALE in
  ImageCopy image = Some image.
Proof.
  intros image.
  destruct (ImageCopy_copies image [Byte 1; Byte 2; Byte 3; Byte 4] eq_refl)
    as (size & w' & h' & E & Hsize & _ & Hexact & _).
  specialize (Hsize eq_refl).
  change (GetPixelDataSize (width image) (height image) (format image)) with 4 in Hsize.
  apply Hexact; rewrite Hsize; [lia | reflexivity].
Defined.

(** ** binary32 subtraction and multiplication on integers below 2^24 *)

Lemma sub_add_neg (x y : float) : F32.sub x y = F32.add x (F32.neg y).
Proof.
  unfold F32.sub, F32.add, F32.neg.
  destruct x as [sx|sx| |sx mx ex], y as [sy|sy| |sy my ey]; try reflexivity;
    destruct sx, sy; reflexivity.
Qed.

Lemma neg_canonical (z : Z) : z <> 0 -> F32.neg (canonical_float z) = canonical_float (- z).
Proof. intros Hz. destruct z; [contradiction | reflexivity | reflexivity]. Qed.

Lemma sub_canonical (a b : Z) :
  Z.abs a < 2 ^ 24 -> Z.abs b < 2 ^ 24 -> Z.abs (a - b) < 2 ^ 24 ->
  F32.sub (canonical_float a) (canonical_float b) = canonical_float (a - b).
Proof.
  intros Ha Hb Hab.
  destruct (Z.eq_dec b 0) as [->|Hnz].
  - rewrite Z.sub_0_r. destruct a; reflexivity.
  - rewrite sub_add_neg, neg_canonical by exact Hnz.
    apply add_canonical; [exact Ha | lia | exact Hab].
Qed.

Lemma binary_round_aux_shifted (s : bool) (q : positive) (k : Z) :
  Zpos q < 2 ^ 24 -> 24 - Zpos (digits2_pos q) <= k ->
  binary_round_aux 24 128 s (Zpos q * 2 ^ k) (- k) loc_Exact
  = S754_finite s (Z.to_pos (Zpos q * 2 ^ (24 - Zpos (digits2_pos q))))
      (Zpos (digits2_pos q) - 24).
Proof.
  intros Hq Hk.
  destruct (canonical_mantissa_range q Hq) as [Hd HX].
  pose proof (digits2_pos_bounds q) as [B1 B2].
  assert (Hk0 : 0 <= k) by lia.
  rewrite <- (binary_round_shifted s q k Hq Hk0).
  set (d := Zpos (digits2_pos q)) in *.
  assert (Pk : 0 < 2 ^ k) by (apply Z.pow_pos_nonneg; lia).
  set (m := Z.to_pos (Zpos q * 2 ^ k)).
  assert (Em : Zpos m = Zpos q * 2 ^ k) by (unfold m; rewrite Z2Pos.id; nia).
  assert (Dm : Zpos (digits2_pos m) = d + k).
  { apply digits2_pos_unique. rewrite Em.
    replace (d + k - 1) with ((d - 1) + k) by lia.
    rewrite !Z.pow_add_r by lia. nia. }
  unfold binary_round. rewrite Dm.
  replace (fexp 24 128 (d + k + - k)) with (d - 24) by (unfold fexp, emin; lia).
  unfold shl_align.
  destruct (d - 24 - - k) as [|p|p] eqn:En; try lia; rewrite Em; reflexivity.
Qed.

Lemma digits2_pos_mul (qa qb : positive) :
  Zpos (digits2_pos qa) + Zpos (digits2_pos qb) - 1 <= Zpos (digits2_pos (qa * qb)).
Proof.
  pose proof (digits2_pos_bounds qa) as [A1 A2].
  pose proof (digits2_pos_bounds qb) as [B1 B2].
  pose proof (digits2_pos_bounds (qa * qb)) as [C1 C2].
  set (da := Zpos (digits2_pos qa)) in *. set (db := Zpos (digits2_pos qb)) in *.
  set (dc := Zpos (digits2_pos (qa * qb))) in *.
  assert (Hda : 1 <= da) by (unfold da; lia).
  assert (Hdb : 1 <= db) by (unfold db; lia).
  assert (Hdc : 1 <= dc) by (unfold dc; lia).
  destruct (Z_le_dec (da + db - 1) dc) as [|N]; [assumption|]. exfalso.
  assert (Hp : 2 ^ dc <= 2 ^ (da + db - 2)) by (apply Z.pow_le_mono_r; lia).
  replace (da + db - 2) with ((da - 1) + (db - 1)) in Hp by lia.
  rewrite Z.pow_add_r in Hp by lia.
  rewrite Pos2Z.inj_mul in C2.
  assert (2 ^ (da - 1) * 2 ^ (db - 1) <= Zpos qa * Zpos qb)
    by (apply Z.mul_le_mono_nonneg; lia).
  lia.
Qed.

(** The product of two integers, converted back to [int], when it is below
    2^24 in magnitude. *)
Lemma to_int_mul_canonical (a b : Z) :
  Z.abs a < 2 ^ 24 -> Z.abs b < 2 ^ 24 -> Z.abs (a * b) < 2 ^ 24 ->
  F32.to_int (F32.mul (canonical_float a) (canonical_float b)) = a * b.
Proof.
  intros Ha Hb Hab.
  assert (Fin : forall (sa sb : bool) (qa qb : positive),
            Zpos qa < 2 ^ 24 -> Zpos qb < 2 ^ 24 -> Zpos (qa * qb) < 2 ^ 24 ->
            SFmul 24 128
              (S754_finite sa (Z.to_pos (Zpos qa * 2 ^ (24 - Zpos (digits2_pos qa))))
                 (Zpos (digits2_pos qa) - 24))
              (S754_finite sb (Z.to_pos (Zpos qb * 2 ^ (24 - Zpos (digits2_pos qb))))
                 (Zpos (digits2_pos qb) - 24))
            = S754_finite (xorb sa sb)
                (Z.to_pos (Zpos (qa * qb) * 2 ^ (24 - Zpos (digits2_pos (qa * qb)))))
                (Zpos (digits2_pos (qa * qb)) - 24)).
  { intros sa sb qa qb Hqa Hqb Hq.
    destruct (canonical_mantissa_range qa Hqa) as [Hda HXa].
    destruct (canonical_mantissa_range qb Hqb) as [Hdb HXb].
    pose proof (digits2_pos_mul qa qb) as Hdm.
    set (da := Zpos (digits2_pos qa)) in *. set (db := Zpos (digits2_pos qb)) in *.
    cbn [SFmul].
    rewrite Pos2Z.inj_mul, !Z2Pos.id by lia.
    replace (Zpos qa * 2 ^ (24 - da) * (Zpos qb * 2 ^ (24 - db)))
      with (Zpos (qa * qb) * 2 ^ (48 - da - db)).
    2:{ rewrite Pos2Z.inj_mul.
        replace (48 - da - db) with ((24 - da) + (24 - db)) by lia.
        rewrite Z.pow_add_r by lia. ring. }
    replace (da - 24 + (db - 24)) with (- (48 - da - db)) by lia.
    apply binary_round_aux_shifted; [exact Hq | lia]. }
  unfold F32.mul, F32.prec, F32.emax.
  destruct a as [|qa|qa], b as [|qb|qb]; try reflexivity; cbn [canonical_float].
  - rewrite (Fin false false qa qb Ha Hb Hab).
    change (Zpos qa * Zpos qb) with (Zpos (qa * qb)).
    apply (to_int_canonical (Zpos (qa * qb))). exact Hab.
  - rewrite (Fin false true qa qb Ha Hb Hab).
    change (Zpos qa * Zneg qb) with (Zneg (qa * qb)).
    apply (to_int_canonical (Zneg (qa * qb))). exact Hab.
  - rewrite (Fin true false qa qb Ha Hb Hab).
    change (Zneg qa * Zpos qb) with (Zneg (qa * qb)).
    apply (to_int_canonical (Zneg (qa * qb))). exact Hab.
  - rewrite (Fin true true qa qb Ha Hb Hab).
    change (Zneg qa * Zneg qb) with (Zpos (qa * qb)).
    apply (to_int_canonical (Zpos (qa * qb))). exact Hab.
Qed.

(** ** ImageCrop and ImageFromImage on integer rectangles *)

Lemma gtb_canonical (a b : Z) :
  Z.abs a < 2 ^ 24 -> Z.abs b < 2 ^ 24 ->
  F32.gtb (canonical_float a) (canonical_float b) = (b <? a).
Proof. intros Ha Hb. exact (ltb_canonical b a Hb Ha). Qed.

Lemma ImageCrop_clamp_exact (image : Image) (x y w h : Z) :
  0 < width image < 2 ^ 22 -> 0 < height image < 2 ^ 22 ->
  - 2 ^ 22 < x < 2 ^ 22 -> - 2 ^ 22 < y < 2 ^ 22 ->
  - 2 ^ 22 < w < 2 ^ 22 -> - 2 ^ 22 < h < 2 ^ 22 ->
  ImageCrop_clamp image (rect x y w h)
  = (let '(cx, cw) := crop_span (width image) x w in
     let '(cy, ch) := crop_span (height image) y h in
     mkRectangle (canonical_float cx) (canonical_float cy)
       (canonical_float cw) (canonical_float ch)).
Proof.
  intros HW HH Hx Hy Hw Hh.
  assert (P22 : 2 ^ 22 = 4194304) by reflexivity.
  assert (P24 : 2 ^ 24 = 16777216) by reflexivity.
  unfold ImageCrop_clamp, crop_span, rect.
  rewrite !of_int_canonical by lia.
  repeat (cbn [rec_x rec_y rec_width rec_height];
          first [ rewrite ltb_canonical by lia
                | rewrite gtb_canonical by lia
                | rewrite add_canonical by lia
                | rewrite sub_canonical by lia
                | match goal with
                  | |- context [Z.ltb ?a ?b] => destruct (Z.ltb_spec a b)
                  end ]);
    cbn [rec_x rec_y rec_width rec_height]; reflexivity.
Qed.

Lemma crop_span_spec (size pos len : Z) :
  0 < size ->
  let '(c, n) := crop_span size pos len in
  0 <= c /\ (0 <= n -> c + n <= size)
  /\ (forall i, c <= i < c + n <-> (0 <= i < size /\ pos <= i < pos + len))
  /\ (0 <= pos -> pos + len <= size -> c = pos /\ n = len).
Proof.
  intros Hs. unfold crop_span.
  destruct (Z.ltb_spec pos 0);
    match goal with
    | |- context [Z.ltb ?a ?b] => destruct (Z.ltb_spec a b)
    end; repeat split; try lia.
Qed.

Lemma crop_index_range (W H bpp cx cy cw ch i j c : Z) :
  0 < bpp -> 0 <= cx -> 0 <= cy -> cx + cw <= W -> cy + ch <= H ->
  0 <= i < cw -> 0 <= j < ch -> 0 <= c < bpp ->
  (j * cw + i) * bpp + c = 0 + j * (cw * bpp) + (i * bpp + c)
  /\ ((cy + j) * W + (cx + i)) * bpp + c = ((cy + j) * W + cx) * bpp + (i * bpp + c)
  /\ 0 <= i * bpp + c < cw * bpp.
Proof.
  intros Hb Hcx Hcy Hx Hy Hi Hj Hc.
  split; [ring|]. split; [ring|].
  pose proof (block_bounds i cw bpp Hi Hb). lia.
Qed.

Lemma crop_rows_range (W H bpp cx cy cw ch j : Z) :
  0 < bpp -> 0 < W -> 0 <= cx -> 0 <= cy -> 0 <= cw -> cx + cw <= W -> cy + ch <= H ->
  W * H * bpp <= INT_MAX -> 0 <= j < ch ->
  0 <= cw * bpp <= INT_MAX
  /\ 0 <= cw * ch * bpp <= INT_MAX
  /\ 0 <= (cy + j) * W <= INT_MAX
  /\ 0 <= (cy + j) * W + cx <= INT_MAX
  /\ 0 <= ((cy + j) * W + cx) * bpp
  /\ ((cy + j) * W + cx) * bpp + cw * bpp <= W * H * bpp
  /\ 0 <= j * (cw * bpp)
  /\ j * (cw * bpp) + cw * bpp <= cw * ch * bpp.
Proof.
  intros Hb HW Hcx Hcy Hcw Hx Hy Hmax Hj.
  assert (A1 : 0 <= cw * bpp) by (apply Z.mul_nonneg_nonneg; lia).
  assert (A2 : 0 <= (cy + j) * W) by (apply Z.mul_nonneg_nonneg; lia).
  assert (A3 : ((cy + j) * W + cx + cw) * bpp <= (H * W) * bpp).
  { apply Z.mul_le_mono_nonneg_r; [lia|].
    assert ((cy + j + 1) * W <= H * W) by (apply Z.mul_le_mono_nonneg_r; lia). lia. }
  assert (A4 : 0 <= ((cy + j) * W + cx) * bpp) by (apply Z.mul_nonneg_nonneg; lia).
  assert (A5 : (cy + j) * W + cx <= ((cy + j) * W + cx) * bpp) by nia.
  assert (A6 : 0 <= j * (cw * bpp)) by (apply Z.mul_nonneg_nonneg; lia).
  assert (A7 : (j + 1) * (cw * bpp) <= ch * (cw * bpp))
    by (apply Z.mul_le_mono_nonneg_r; lia).
  assert (A8 : cw * (ch * bpp) <= W * (H * bpp)).
  { apply Z.mul_le_mono_nonneg; try lia.
    - apply Z.mul_nonneg_nonneg; lia.
    - apply Z.mul_le_mono_nonneg_r; lia. }
  assert (A9 : cw * bpp <= cw * (ch * bpp)).
  { apply Z.mul_le_mono_nonneg_l; [lia|].
    replace bpp with (1 * bpp) at 1 by lia. apply Z.mul_le_mono_nonneg_r; lia. }
  replace (W * H * bpp) with (H * W * bpp) in * by ring.
  replace (cw * ch * bpp) with (cw * (ch * bpp)) by ring.
  replace (ch * (cw * bpp)) with (cw * (ch * bpp)) in A7 by ring.
  replace (H * W * bpp) with (W * (H * bpp)) in * by ring.
  lia.
Qed.

(** [ImageCrop] on an image of an uncompressed format whose buffer holds its
    pixels, with sides below 2^22, for a rectangle with integer coordinates
    and sizes below 2^22 in absolute value: the rectangle is cut at the four
    edges of the image and, when what is left has a width [cw] and a height
    [ch] that are not negative, with [cw * ch] below 2^24 (the size of the
    new block is computed as a float product), the image becomes that piece,
    pixel [(i, j)] of the result being the pixel [(cx + i, cy + j)] of the
    image.  A rectangle inside the image is kept as it is. *)
Theorem ImageCrop_spec (image : Image) (m : buffer) (x y w h : Z) :
  data image = Some m ->
  PIXELFORMAT_UNCOMPRESSED_GRAYSCALE <= format image
    <= PIXELFORMAT_UNCOMPRESSED_R32G32B32A32 ->
  0 < width image < 2 ^ 22 -> 0 < height image < 2 ^ 22 ->
  - 2 ^ 22 < x < 2 ^ 22 -> - 2 ^ 22 < y < 2 ^ 22 ->
  - 2 ^ 22 < w < 2 ^ 22 -> - 2 ^ 22 < h < 2 ^ 22 ->
  Image_ok image ->
  let bpp := GetPixelDataSize 1 1 (format image) in
  let '(cx, cw) := crop_span (width image) x w in
  let '(cy, ch) := crop_span (height image) y h in
  0 <= cw -> 0 <= ch -> cw * ch < 2 ^ 24 ->
  (0 <= x -> 0 <= y -> x + w <= width image -> y + h <= height image ->
   cx = x /\ cy = y /\ cw = w /\ ch = h)
  /\ exists m' : buffer,
       ImageCrop image (rect x y w h)
       = Some (mkImage (Some m') cw ch (mipmaps image) (format image))
       /\ Z.of_nat (length m') = cw * ch * bpp
       /\ forall i j c, 0 <= i < cw -> 0 <= j < ch -> 0 <= c < bpp ->
            byte_at m' ((j * cw + i) * bpp + c)
            = byte_at m (((cy + j) * width image + (cx + i)) * bpp + c).
Proof.
  intros Hm Hf HW HH Hx Hy Hw Hh Hok bpp.
  pose proof (crop_span_spec (width image) x w ltac:(lia)) as Sx.
  pose proof (crop_span_spec (height image) y h ltac:(lia)) as Sy.
  pose proof (ImageCrop_clamp_exact image x y w h HW HH Hx Hy Hw Hh) as Ec.
  assert (Bx : let '(c, n) := crop_span (width image) x w in
               - 2 ^ 23 < c < 2 ^ 23 /\ - 2 ^ 23 < n < 2 ^ 23).
  { unfold crop_span. change (2 ^ 22) with 4194304 in *. change (2 ^ 23) with 8388608.
    destruct (Z.ltb_spec x 0);
      match goal with
      | |- context [Z.ltb ?a ?b] => destruct (Z.ltb_spec a b)
      end; lia. }
  assert (By : let '(c, n) := crop_span (height image) y h in
               - 2 ^ 23 < c < 2 ^ 23 /\ - 2 ^ 23 < n < 2 ^ 23).
  { unfold crop_span. change (2 ^ 22) with 4194304 in *. change (2 ^ 23) with 8388608.
    destruct (Z.ltb_spec y 0);
      match goal with
      | |- context [Z.ltb ?a ?b] => destruct (Z.ltb_spec a b)
      end; lia. }
  destruct (crop_span (width image) x w) as [cx cw].
  destruct (crop_span (height image) y h) as [cy ch].
  intros Hcw Hch Hsize.
  destruct Sx as (Hcx0 & Hcx1 & _ & Hxin), Sy as (Hcy0 & Hcy1 & _ & Hyin).
  specialize (Hcx1 Hcw). specialize (Hcy1 Hch).
  destruct Bx as [Bcx Bcw], By as [Bcy Bch].
  split.
  { intros X0 Y0 X1 Y1. destruct (Hxin X0 X1), (Hyin Y0 Y1). repeat split; assumption. }
  destruct (uncompressed_bytes_per_pixel _ Hf) as [Hbpp Hunc]. fold bpp in Hbpp.
  destruct (Hok m Hm) as [Hlen Hmax]. fold bpp in Hlen, Hmax.
  assert (P22 : 2 ^ 22 = 4194304) by reflexivity.
  assert (P23 : 2 ^ 23 = 8388608) by reflexivity.
  assert (P24 : 2 ^ 24 = 16777216) by reflexivity.
  assert (Hmin : INT_MIN <= 0) by (unfold INT_MIN; lia).
  assert (HM : INT_MAX = 2147483647) by reflexivity.
  assert (Hwh : 0 <= cw * ch) by (apply Z.mul_nonneg_nonneg; lia).
  assert (Hbytes : 0 <= cw * ch * bpp <= INT_MAX).
  { split; [apply Z.mul_nonneg_nonneg; lia|].
    assert (cw * ch * bpp <= width image * height image * bpp).
    { apply Z.mul_le_mono_nonneg_r; [lia|]. apply Z.mul_le_mono_nonneg; lia. }
    lia. }
  assert (Hrow : 0 <= cw * bpp <= INT_MAX).
  { split; [apply Z.mul_nonneg_nonneg; lia|].
    assert (cw * bpp <= width image * (height image * bpp)).
    { apply Z.mul_le_mono_nonneg; try lia.
      replace bpp with (1 * bpp) at 1 by lia. apply Z.mul_le_mono_nonneg_r; lia. }
    lia. }
  destruct (copy_rows_spec (Z.to_nat ch) cy (replicate (Z.to_nat (cw * ch * bpp)) Undef)
              0 (cw * bpp) m (fun r => (r * width image + cx) * bpp) (cw * bpp))
    as (m' & Em & Lm & Hin & _).
  { lia. }
  { lia. }
  { rewrite length_replicate, !Z2Nat.id by lia.
    replace (0 + ch * (cw * bpp)) with (cw * ch * bpp) by ring. lia. }
  { intros j Hj. cbv beta.
    destruct (crop_rows_range (width image) (height image) bpp cx cy cw ch j)
      as (_ & _ & _ & _ & R5 & R6 & _); lia. }
  exists m'. split; [|split].
  - unfold ImageCrop. rewrite Hm, Ec. cbn [is_null orb].
    replace (width image =? 0) with false by (symmetry; apply Z.eqb_neq; lia).
    replace (height image =? 0) with false by (symmetry; apply Z.eqb_neq; lia).
    cbn [orb rec_x rec_y rec_width rec_height].
    rewrite !of_int_canonical by lia.
    rewrite !gtb_canonical by lia.
    replace (width image <? cx) with false by (symmetry; apply Z.ltb_ge; lia).
    replace (height image <? cy) with false by (symmetry; apply Z.ltb_ge; lia).
    cbn [orb]. rewrite Hunc. fold bpp.
    rewrite to_int_mul_canonical by lia.
    rewrite add_canonical by lia.
    rewrite !to_int_canonical by lia.
    rewrite (int_small (cw * ch * bpp)) by lia.
    rewrite (size_t_small (cw * ch * bpp)) by lia.
    rewrite (int_small (cw * bpp)) by lia.
    rewrite (size_t_small (cw * bpp)) by lia.
    unfold RL_MALLOC.
    replace (cw * ch * bpp <? 9223372036854775808) with true
      by (symmetry; apply Z.ltb_lt; lia).
    unfold for_range. replace (cy + ch - cy) with ch by lia.
    rewrite (for_loop_copy_rows (Z.to_nat ch) cy _
               (replicate (Z.to_nat (cw * ch * bpp)) Undef) 0 (cw * bpp) m
               (fun r => (r * width image + cx) * bpp) (cw * bpp)).
    + rewrite Em. reflexivity.
    + intros j d' Hj. cbn [bind].
      destruct (crop_rows_range (width image) (height image) bpp cx cy cw ch j)
        as (_ & _ & R3 & R4 & R5 & R6 & R7 & R8); try lia.
      rewrite (int_small ((cy + j) * width image)) by lia.
      rewrite (int_small ((cy + j) * width image + cx)) by lia.
      rewrite (int_small (((cy + j) * width image + cx) * bpp)) by lia.
      rewrite (int_small (0 + j * (cw * bpp) + cw * bpp)) by lia.
      destruct (memcpy d' (0 + j * (cw * bpp)) m (((cy + j) * width image + cx) * bpp)
                  (cw * bpp)); [|reflexivity].
      cbn [bind]. replace (0 + (j + 1) * (cw * bpp)) with (0 + j * (cw * bpp) + cw * bpp)
        by ring.
      reflexivity.
  - rewrite Lm, length_replicate. lia.
  - intros i j c Hi Hj Hc.
    destruct (crop_index_range (width image) (height image) bpp cx cy cw ch i j c)
      as (E1 & E2 & R); try lia.
    rewrite E1, E2. apply (Hin j (i * bpp + c)); lia.
Qed.

Lemma ImageCrop_spec_witness :
  let image := mkImage (Some (map Byte (seqZ 0 12))) 4 3 1
                 PIXELFORMAT_UNCOMPRESSED_GRAYSCALE in
  exists m' : buffer,
    ImageCrop image (rect (-1) 1 3 5) = Some (mkImage (Some m') 2 2 1 (format image))
    /\ byte_at m' ((1 * 2 + 1) * 1 + 0) = Some (Byte 9).
Proof.
  intros image.
  pose proof (ImageCrop_spec image (map Byte (seqZ 0 12)) (-1) 1 3 5) as H.
  change (crop_span (width image) (-1) 3) with (0, 2) in H.
  change (crop_span (height image) 1 5) with (1, 2) in H.
  destruct H as (_ & m' & E & _ & B).
  - reflexivity.
  - vm_compute. split; discriminate.
  - vm_compute. split; reflexivity.
  - vm_compute. split; reflexivity.
  - vm_compute. split; reflexivity.
  - vm_compute. split; reflexivity.
  - vm_compute. split; reflexivity.
  - vm_compute. split; reflexivity.
  - intros m Hm. injection Hm as <-. vm_compute. split; discriminate.
  - lia.
  - lia.
  - vm_compute. reflexivity.
  - exists m'. split; [exact E|].
    change (GetPixelDataSize 1 1 (format image)) with 1 in B.
    rewrite (B 1 1 0) by lia.
    reflexivity.
Defined.

Lemma for_loop_copy_rows_at (n : nat) (lo : Z)
    (body : Z -> option buffer -> option (option buffer))
    (d : buffer) (o stride : Z) (src : buffer) (soff : Z -> Z) (len : Z) :
  (forall j d', 0 <= j < Z.of_nat n ->
     body (lo + j) (Some d')
     = do m <- memcpy d' (o + j * stride) src (soff (lo + j)) len; Some (Some m)) ->
  for_loop n lo body (Some d)
  = do m <- copy_rows n lo d o stride src soff len; Some (Some m).
Proof.
  revert lo d o. induction n as [|n IH]; intros lo d o Hbody.
  - reflexivity.
  - cbn [for_loop copy_rows].
    pose proof (Hbody 0 d ltac:(lia)) as H0.
    rewrite Z.mul_0_l, !Z.add_0_r in H0. rewrite H0.
    destruct (memcpy d o src (soff lo) len) as [m|]; [|reflexivity].
    cbn [bind]. apply IH.
    intros j d' Hj.
    specialize (Hbody (j + 1) d' ltac:(lia)).
    replace (lo + 1 + j) with (lo + (j + 1)) by lia.
    replace (o + stride + j * stride) with (o + (j + 1) * stride) by lia.
    exact Hbody.
Qed.

(** [ImageFromImage] on a rectangle with integer coordinates that lies
    inside the image: the result is a new image of the rectangle's size, one
    mipmap level and the same format, whose pixel [(i, j)] is the pixel
    [(x + i, y + j)] of the image. *)
Theorem ImageFromImage_spec (image : Image) (m : buffer) (x y w h : Z) :
  data image = Some m ->
  PIXELFORMAT_UNCOMPRESSED_GRAYSCALE <= format image
    <= PIXELFORMAT_UNCOMPRESSED_R32G32B32A32 ->
  0 <= x -> 0 <= y -> 0 <= w -> 0 <= h ->
  x + w <= width image -> y + h <= height image ->
  0 < width image < 2 ^ 24 -> height image < 2 ^ 24 ->
  Image_ok image ->
  let bpp := GetPixelDataSize 1 1 (format image) in
  exists m' : buffer,
    ImageFromImage image (rect x y w h) = Some (mkImage (Some m') w h 1 (format image))
    /\ Z.of_nat (length m') = w * h * bpp
    /\ forall i j c, 0 <= i < w -> 0 <= j < h -> 0 <= c < bpp ->
         byte_at m' ((j * w + i) * bpp + c)
         = byte_at m (((y + j) * width image + (x + i)) * bpp + c).
Proof.
  intros Hm Hf Hx Hy Hw Hh Hxw Hyh HW HH Hok bpp.
  destruct (uncompressed_bytes_per_pixel _ Hf) as [Hbpp Hunc]. fold bpp in Hbpp.
  destruct (Hok m Hm) as [Hlen Hmax]. fold bpp in Hlen, Hmax.
  assert (P24 : 2 ^ 24 = 16777216) by reflexivity.
  assert (Hmin : INT_MIN <= 0) by (unfold INT_MIN; lia).
  assert (HM : INT_MAX = 2147483647) by reflexivity.
  assert (Hwh : 0 <= w * h) by (apply Z.mul_nonneg_nonneg; lia).
  assert (Hbytes : 0 <= w * h * bpp <= INT_MAX).
  { split; [apply Z.mul_nonneg_nonneg; lia|].
    assert (w * h * bpp <= width image * height image * bpp).
    { apply Z.mul_le_mono_nonneg_r; [lia|]. apply Z.mul_le_mono_nonneg; lia. }
    lia. }
  assert (Hcount : w * h <= INT_MAX).
  { assert (w * h * 1 <= w * h * bpp) by (apply Z.mul_le_mono_nonneg_l; lia). lia. }
  destruct (Z.eq_dec h 0) as [->|Hh0].
  { (* no row *)
    exists []. unfold ImageFromImage, rect. cbn [rec_x rec_y rec_width rec_height].
    rewrite !of_int_canonical by lia. rewrite !to_int_canonical by lia.
    rewrite Z.mul_0_r. fold bpp.
    change (for_range 0 0) with (fun (body : Z -> option buffer -> option (option buffer))
                                   (s : option buffer) => Some s).
    cbv beta. cbn [bind].
    split; [reflexivity|]. split; [cbn; lia|]. intros i j c Hi Hj. lia. }
  destruct (copy_rows_spec (Z.to_nat h) 0 (replicate (Z.to_nat (w * h * bpp)) (Byte 0))
              0 (w * bpp) m (fun r => ((r + y) * width image + x) * bpp) (w * bpp))
    as (m' & Em & Lm & Hin & _).
  { split; [apply Z.mul_nonneg_nonneg; lia | lia]. }
  { lia. }
  { rewrite length_replicate, !Z2Nat.id by lia.
    replace (0 + h * (w * bpp)) with (w * h * bpp) by ring. lia. }
  { intros j Hj. cbv beta. rewrite Z.add_0_l.
    destruct (crop_rows_range (width image) (height image) bpp x y w h j)
      as (_ & _ & _ & _ & R5 & R6 & _); lia. }
  exists m'. split; [|split].
  - unfold ImageFromImage, rect. cbn [rec_x rec_y rec_width rec_height].
    rewrite !of_int_canonical by lia. rewrite !to_int_canonical by lia. fold bpp.
    rewrite (int_small (w * h)) by lia.
    rewrite (int_small (w * h * bpp)) by lia.
    rewrite (size_t_small (w * h * bpp)) by lia. rewrite Z.mul_1_r.
    rewrite (size_t_small (w * h * bpp)) by lia.
    assert (Hrow : 0 <= w * bpp <= INT_MAX).
    { destruct (crop_rows_range (width image) (height image) bpp x y w h 0)
        as (R1 & _); lia. }
    rewrite (int_small (w * bpp)) by lia.
    rewrite (size_t_small (w * bpp)) by lia.
    unfold RL_CALLOC.
    replace (w * h * bpp <? 9223372036854775808) with true
      by (symmetry; apply Z.ltb_lt; lia).
    unfold for_range. rewrite Z.sub_0_r.
    rewrite (for_loop_copy_rows_at (Z.to_nat h) 0 _
               (replicate (Z.to_nat (w * h * bpp)) (Byte 0)) 0 (w * bpp) m
               (fun r => ((r + y) * width image + x) * bpp) (w * bpp)).
    + rewrite Em. reflexivity.
    + intros j d' Hj. cbn [bind]. rewrite Hm. cbn [bind]. rewrite !Z.add_0_l.
      destruct (crop_rows_range (width image) (height image) bpp x y w h j)
        as (_ & _ & R3 & R4 & R5 & R6 & R7 & R8); try lia.
      replace ((y + j) * width image) with ((j + y) * width image) in * by ring.
      assert (Hjw : 0 <= j * w <= INT_MAX).
      { split; [apply Z.mul_nonneg_nonneg; lia|].
        assert (j * w <= h * w) by (apply Z.mul_le_mono_nonneg_r; lia). lia. }
      rewrite (int_small (j * w)) by lia.
      replace (j * (w * bpp)) with (j * w * bpp) in * by ring.
      rewrite (int_small (j * w * bpp)) by lia.
      rewrite (int_small (j + y)) by lia.
      rewrite (int_small ((j + y) * width image)) by lia.
      rewrite (int_small ((j + y) * width image + x)) by lia.
      rewrite (int_small (((j + y) * width image + x) * bpp)) by lia.
      reflexivity.
  - rewrite Lm, length_replicate. lia.
  - intros i j c Hi Hj Hc.
    destruct (crop_index_range (width image) (height image) bpp x y w h i j c)
      as (E1 & E2 & R); try lia.
    rewrite E1, E2.
    replace ((y + j) * width image) with ((0 + j + y) * width image) by ring.
    apply (Hin j (i * bpp + c)); lia.
Qed.

Lemma ImageFromImage_spec_witness :
  let image := mkImage (Some (map Byte (seqZ 0 12))) 4 3 1
                 PIXELFORMAT_UNCOMPRESSED_GRAYSCALE in
  exists m' : buffer,
    ImageFromImage image (rect 1 1 2 2) = Some (mkImage (Some m') 2 2 1 (format image))
    /\ byte_at m' ((1 * 2 + 1) * 1 + 0) = Some (Byte 10).
Proof.
  intros image.
  destruct (ImageFromImage_spec image (map Byte (seqZ 0 12)) 1 1 2 2)
    as (m' & E & _ & B).
  - reflexivity.
  - vm_compute. split; discriminate.
  - lia.
  - lia.
  - lia.
  - lia.
  - cbn [width image]. lia.
  - cbn [height image]. lia.
  - vm_compute. split; reflexivity.
  - vm_compute. reflexivity.
  - intros m Hm. injection Hm as <-. vm_compute. split; discriminate.
  - exists m'. split; [exact E|].
    change (GetPixelDataSize 1 1 (format image)) with 1 in B.
    rewrite (B 1 1 0) by lia.
    reflexivity.
Defined.

(** ** LoadImageColors *)

Lemma load_uchar_defined (m : buffer) (off : Z) :
  Forall is_byte m -> 0 <= off < Z.of_nat (length m) ->
  exists v, load_uchar m off = Some v /\ is_uchar v.
Proof.
  intros Hb Hoff. destruct (byte_at_is_byte m off Hb Hoff) as (v & Hv & Hu).
  exists v. split; [apply load_uchar_Byte; exact Hv | exact Hu].
Qed.

Lemma is_uchar_uchar (z : Z) : is_uchar (uchar z).
Proof. unfold is_uchar, uchar. apply Z.mod_pos_bound. lia. Qed.

Lemma is_uchar_to_uchar (x : float) : is_uchar (F32.to_uchar x).
Proof. apply is_uchar_uchar. Qed.

Lemma row_major_index (w h i : Z) :
  0 < w -> 0 <= i < w * h ->
  0 <= i mod w < w /\ 0 <= i / w < h /\ i / w * w + i mod w = i.
Proof.
  intros Hw Hi.
  pose proof (Z.mod_pos_bound i w Hw). pose proof (Z.div_mod i w ltac:(lia)).
  assert (0 <= i / w) by (apply Z.div_pos; lia).
  assert (i / w < h) by (apply Z.div_lt_upper_bound; lia).
  lia.
Qed.

Ltac format_cases Hf :=
  match type of Hf with
  | _ <= ?f <= _ =>
      let C := fresh "C" in
      assert (C : f = 1 \/ f = 2 \/ f = 3 \/ f = 4 \/ f = 5 \/ f = 6 \/ f = 7 \/ f = 8
                  \/ f = 9 \/ f = 10)
        by (unfold PIXELFORMAT_UNCOMPRESSED_GRAYSCALE,
              PIXELFORMAT_UNCOMPRESSED_R32G32B32A32 in Hf; lia);
      clear Hf;
      repeat (destruct C as [C | C])
  end.

Ltac format_tests :=
  unfold PIXELFORMAT_UNCOMPRESSED_GRAYSCALE, PIXELFORMAT_UNCOMPRESSED_GRAY_ALPHA,
    PIXELFORMAT_UNCOMPRESSED_R5G6B5, PIXELFORMAT_UNCOMPRESSED_R8G8B8,
    PIXELFORMAT_UNCOMPRESSED_R5G5B5A1, PIXELFORMAT_UNCOMPRESSED_R4G4B4A4,
    PIXELFORMAT_UNCOMPRESSED_R8G8B8A8, PIXELFORMAT_UNCOMPRESSED_R32,
    PIXELFORMAT_UNCOMPRESSED_R32G32B32, PIXELFORMAT_UNCOMPRESSED_R32G32B32A32;
  cbn [Z.eqb Pos.eqb orb andb].

(** On an image whose buffer holds its pixels as defined bytes,
    [GetImageColor] reads a colour with 8-bit channels at every position. *)
Lemma GetImageColor_defined (image : Image) (m : buffer) (x y : Z) :
  data image = Some m ->
  PIXELFORMAT_UNCOMPRESSED_GRAYSCALE <= format image
    <= PIXELFORMAT_UNCOMPRESSED_R32G32B32A32 ->
  Image_ok image -> Forall is_byte m ->
  exists c, GetImageColor image x y = Some c /\ Color_ok c.
Proof.
  intros Hm Hf Hok Hb.
  assert (Hz : Color_ok (mkColor 0 0 0 0)) by (repeat split; cbn; lia).
  unfold GetImageColor.
  destruct ((0 <=? x) && (x <? width image) && (0 <=? y) && (y <? height image))
    eqn:Hin; [|eexists; split; [reflexivity | exact Hz]].
  apply andb_prop in Hin as [Hin Hy2]. apply andb_prop in Hin as [Hin Hy1].
  apply andb_prop in Hin as [Hx1 Hx2].
  apply Z.leb_le in Hx1, Hy1. apply Z.ltb_lt in Hx2, Hy2.
  destruct (Hok m Hm) as [Hlen Hmax]. clear Hok.
  assert (Hmin : INT_MIN <= 0) by (unfold INT_MIN; lia).
  assert (HM : INT_MAX = 2147483647) by reflexivity.
  rewrite Hm. cbn [bind].
  assert (R : forall bpp, GetPixelDataSize 1 1 (format image) = bpp -> 0 < bpp ->
     int (int (y * width image) + x) = y * width image + x
     /\ 0 <= y * width image + x
     /\ (y * width image + x + 1) * bpp <= Z.of_nat (length m)
     /\ (y * width image + x + 1) * bpp <= INT_MAX).
  { intros bpp Eb Hbpp. rewrite Eb in Hlen, Hmax.
    destruct (pixel_offset_range (width image) (height image) bpp x y) as (P1 & P2 & P3);
      try lia.
    assert (y * width image + x + 1 <= (y * width image + x + 1) * bpp)
      by (apply Z.le_mul_diag_r; lia).
    rewrite (int_small (y * width image)) by lia.
    rewrite int_small by lia. lia. }
  pose proof (uncompressed_format_cases _ Hf) as Hpos.
  destruct (R _ eq_refl Hpos) as (Ei & R1 & R2 & R3). clear R. rewrite Ei. clear Ei.
  format_cases Hf; rewrite C in *; format_tests;
    (set (bpp := GetPixelDataSize 1 1 _) in *; vm_compute in bpp; subst bpp);
    unfold load_float, load_uint, load_ushort;
    rewrite ?int_small by lia;
    repeat match goal with
      | |- context [load_uchar m ?e] =>
          let v := fresh "v" in let E := fresh "E" in let U := fresh "U" in
          destruct (load_uchar_defined m e Hb ltac:(lia)) as (v & E & U);
          rewrite E; clear E; cbn [bind]
      end;
    (eexists; split; [reflexivity|]);
    repeat split; cbn [r g b a]; try assumption; try apply is_uchar_uchar;
      try apply is_uchar_to_uchar; try (unfold is_uchar; lia).
  all: unfold is_uchar in *; lia.
Qed.

(** One iteration of the loop of [LoadImageColors] computes what
    [GetImageColor] computes for the pixel of index [i] in row-major order;
    for the R32 format, whose read position is never advanced, it is the
    first pixel's. *)
Lemma color_pixel_GetImageColor (image : Image) (m : buffer) (i : Z) :
  data image = Some m ->
  PIXELFORMAT_UNCOMPRESSED_GRAYSCALE <= format image
    <= PIXELFORMAT_UNCOMPRESSED_R32G32B32A32 ->
  Image_ok image -> 0 < width image -> 0 <= i < width image * height image ->
  let j := if format image =? PIXELFORMAT_UNCOMPRESSED_R32 then 0 else i in
  let step := LoadImageColors_step (format image) in
  color_pixel m (format image) i (step * i)
  = do c <- GetImageColor image (j mod width image) (j / width image);
    Some (Some c, step * (i + 1)).
Proof.
  intros Hm Hf Hok HW Hi j step.
  assert (Hj : 0 <= j < width image * height image).
  { subst j. destruct (format image =? PIXELFORMAT_UNCOMPRESSED_R32); lia. }
  destruct (row_major_index (width image) (height image) j HW Hj) as (Hx & Hy & Ej).
  destruct (Hok m Hm) as [Hlen Hmax]. clear Hok.
  assert (Hmin : INT_MIN <= 0) by (unfold INT_MIN; lia).
  assert (HM : INT_MAX = 2147483647) by reflexivity.
  pose proof (uncompressed_format_cases _ Hf) as Hpos.
  assert (Hidx : int (int (j / width image * width image) + j mod width image) = j).
  { destruct (pixel_offset_range (width image) (height image) _
                (j mod width image) (j / width image) Hx Hy Hpos Hmax) as (P1 & P2 & P3).
    assert (j + 1 <= (j + 1) * GetPixelDataSize 1 1 (format image))
      by (apply Z.le_mul_diag_r; lia).
    rewrite Ej in P3.
    rewrite (int_small (j / width image * width image)) by lia.
    rewrite Ej. apply int_small. lia. }
  assert (Hbig : (i + 1) * GetPixelDataSize 1 1 (format image) <= INT_MAX).
  { assert ((i + 1) * GetPixelDataSize 1 1 (format image)
            <= width image * height image * GetPixelDataSize 1 1 (format image))
      by (apply Z.mul_le_mono_nonneg_r; lia).
    lia. }
  unfold GetImageColor.
  destruct (Z.leb_spec 0 (j mod width image)); [|lia].
  destruct (Z.ltb_spec (j mod width image) (width image)); [|lia].
  destruct (Z.leb_spec 0 (j / width image)); [|lia].
  destruct (Z.ltb_spec (j / width image) (height image)); [|lia].
  cbn [andb]. rewrite Hidx, Hm. unfold color_pixel. subst j step.
  clear Hidx Ej Hx Hy Hj Hlen Hmax.
  format_cases Hf; rewrite C in *; format_tests;
    (set (bpp := GetPixelDataSize 1 1 _) in *; vm_compute in bpp; subst bpp);
    (set (st := LoadImageColors_step _) in *; vm_compute in st; subst st);
    cbn [bind];
    rewrite ?int_small by lia;
    try replace (i * 2) with (2 * i) by ring;
    try replace (i * 3) with (3 * i) by ring;
    try replace (i * 4) with (4 * i) by ring;
    try replace (0 * i) with 0 by ring;
    try replace (0 * (i + 1)) with 0 by ring;
    try replace (4 * 0) with 0 by ring;
    unfold load_float, load_uint, load_ushort;
    repeat match goal with
      | |- context [load_uchar m ?e] =>
          destruct (load_uchar m e); cbn [bind]; [|reflexivity]
      end;
    try reflexivity; (f_equal; f_equal; lia).
Qed.

(** [LoadImageColors] on an image of an uncompressed format whose buffer
    holds its pixels as defined bytes: the array has four bytes per pixel
    and its entry [i] is the colour [GetImageColor] reads at pixel [i] in
    row-major order (at the first pixel for the R32 format). *)
Lemma LoadImageColors_colors (image : Image) (m : buffer) :
  data image = Some m ->
  PIXELFORMAT_UNCOMPRESSED_GRAYSCALE <= format image
    <= PIXELFORMAT_UNCOMPRESSED_R32G32B32A32 ->
  Image_ok image -> Forall is_byte m ->
  0 < width image -> 0 < height image ->
  exists px : buffer,
    LoadImageColors image = Some (Some px)
    /\ Z.of_nat (length px) = 4 * (width image * height image)
    /\ forall i, 0 <= i < width image * height image ->
         let j := if format image =? PIXELFORMAT_UNCOMPRESSED_R32 then 0 else i in
         exists c, GetImageColor image (j mod width image) (j / width image) = Some c
                   /\ Color_ok c /\ Color_at px i c.
Proof.
  intros Hm Hf Hok Hb HW HH.
  destruct (Hok m Hm) as [Hlen Hmax].
  assert (Hmin : INT_MIN <= 0) by (unfold INT_MIN; lia).
  assert (HM : INT_MAX = 2147483647) by reflexivity.
  pose proof (uncompressed_bytes_per_pixel _ Hf) as [Hpos Hunc].
  assert (Hcount : 0 < width image * height image <= INT_MAX).
  { split; [apply Z.mul_pos_pos; lia|].
    assert (width image * height image
            <= width image * height image * GetPixelDataSize 1 1 (format image))
      by (apply Z.le_mul_diag_r; [apply Z.mul_pos_pos|]; lia).
    lia. }
  unfold LoadImageColors.
  destruct (Z.eqb_spec (width image) 0); [lia|].
  destruct (Z.eqb_spec (height image) 0); [lia|].
  cbn [orb]. rewrite Hunc.
  rewrite (int_small (width image * height image)) by lia.
  set (count := width image * height image) in *.
  rewrite (size_t_small count) by lia. rewrite (size_t_small (count * 4)) by lia.
  unfold RL_MALLOC. destruct (Z.ltb_spec (count * 4) 9223372036854775808); [|lia].
  set (px0 := replicate (Z.to_nat (count * 4)) Undef).
  assert (Hpx0 : Z.of_nat (length px0) = 4 * count).
  { subst px0. rewrite length_replicate. lia. }
  set (step := LoadImageColors_step (format image)).
  set (Inv := fun (i : Z) (s : option buffer * Z) =>
         snd s = step * i
         /\ exists px, fst s = Some px /\ Z.of_nat (length px) = 4 * count
            /\ forall i', 0 <= i' < i ->
                 let j := if format image =? PIXELFORMAT_UNCOMPRESSED_R32 then 0 else i' in
                 exists c, GetImageColor image (j mod width image) (j / width image) = Some c
                           /\ Color_ok c /\ Color_at px i' c).
  unfold for_range.
  edestruct (for_loop_inv_Some Inv) as (s' & Es & Is).
  3: { rewrite Es. destruct s' as [pixels k]. destruct Is as (_ & px & Ep & Lp & Cp).
       cbn [fst] in Ep. subst pixels. cbn [bind]. exists px.
       split; [reflexivity|]. split; [exact Lp|].
       intros i Hi. apply Cp. lia. }
  - split; [cbn; lia|]. exists px0. split; [reflexivity|]. split; [exact Hpx0|].
    intros i' Hi'. lia.
  - intros i [pixels k] Hi (Ek & px & Ep & Lp & Cp). cbn [fst snd] in Ek, Ep. subst pixels k.
    rewrite Hm. cbn [bind]. unfold step.
    rewrite (color_pixel_GetImageColor image m i Hm Hf Hok HW ltac:(fold count; lia)).
    cbv zeta. fold step.
    set (j := if format image =? PIXELFORMAT_UNCOMPRESSED_R32 then 0 else i).
    destruct (GetImageColor_defined image m (j mod width image) (j / width image)
                Hm Hf Hok Hb) as (c & Ec & Okc).
    rewrite Ec. cbn [bind].
    destruct (store_Color_at px i c ltac:(lia) ltac:(lia) Okc)
      as (px' & Es & Lp' & At & Keep & _).
    rewrite Es. cbn [bind]. eexists. split; [reflexivity|].
    unfold Inv. cbn [fst snd].
    split; [reflexivity|]. exists px'. split; [reflexivity|].
    split; [lia|]. intros i' Hi'.
    destruct (Z.eq_dec i' i) as [->|Ne].
    + exists c. fold j. auto.
    + destruct (Cp i' ltac:(lia)) as (c' & E' & Ok' & At').
      exists c'. split; [exact E'|]. split; [exact Ok'|]. apply Keep; assumption.
Qed.

(** [LoadImageColors] agrees with [GetImageColor]: on an image of an
    uncompressed format with positive dimensions whose buffer holds its
    pixels as defined bytes, the array returned has four bytes per pixel and
    holds at index [y * width + x] the colour that [GetImageColor] reads at
    [(x, y)].  The R32 format is the exception: its read position is never
    advanced, and every entry of the array is the colour of the pixel
    [(0, 0)]. *)
Theorem LoadImageColors_GetImageColor (image : Image) (m : buffer) :
  data image = Some m ->
  PIXELFORMAT_UNCOMPRESSED_GRAYSCALE <= format image
    <= PIXELFORMAT_UNCOMPRESSED_R32G32B32A32 ->
  Image_ok image -> Forall is_byte m ->
  0 < width image -> 0 < height image ->
  exists px : buffer,
    LoadImageColors image = Some (Some px)
    /\ Z.of_nat (length px) = 4 * (width image * height image)
    /\ forall x y, 0 <= x < width image -> 0 <= y < height image ->
         exists c,
           (if format image =? PIXELFORMAT_UNCOMPRESSED_R32
            then GetImageColor image 0 0 else GetImageColor image x y) = Some c
           /\ Color_ok c /\ Color_at px (y * width image + x) c.
Proof.
  intros Hm Hf Hok Hb HW HH.
  destruct (LoadImageColors_colors image m Hm Hf Hok Hb HW HH) as (px & E & L & C).
  exists px. split; [exact E|]. split; [exact L|].
  intros x y Hx Hy.
  assert (Hi : 0 <= y * width image + x < width image * height image).
  { assert ((y + 1) * width image <= height image * width image)
      by (apply Z.mul_le_mono_nonneg_r; lia).
    assert (0 <= y * width image) by (apply Z.mul_nonneg_nonneg; lia).
    lia. }
  specialize (C _ Hi). cbv zeta in C.
  destruct (format image =? PIXELFORMAT_UNCOMPRESSED_R32).
  - rewrite Z.mod_0_l, Z.div_0_l in C by lia. exact C.
  - replace ((y * width image + x) mod width image) with x in C.
    2:{ rewrite Z.add_comm, Z.mod_add by lia. symmetry. apply Z.mod_small. lia. }
    replace ((y * width image + x) / width image) with y in C.
    2:{ rewrite Z.add_comm, Z.div_add by lia. rewrite Z.div_small by lia. lia. }
    exact C.
Qed.

(** The theorem on a 2x1 gray-alpha image. *)
Lemma LoadImageColors_GetImageColor_witness :
  let image := mkImage (Some [Byte 10; Byte 20; Byte 30; Byte 40]) 2 1 1
                 PIXELFORMAT_UNCOMPRESSED_GRAY_ALPHA in
  exists px : buffer,
    LoadImageColors image = Some (Some px) /\ Color_at px 1 (mkColor 30 30 30 40).
Proof.
  intros image.
  destruct (LoadImageColors_GetImageColor image [Byte 10; Byte 20; Byte 30; Byte 40])
    as (px & E & _ & C).
  - reflexivity.
  - vm_compute. split; discriminate.
  - intros m Hm. injection Hm as <-. vm_compute. split; discriminate.
  - repeat constructor; vm_compute; discriminate.
  - cbn [width image]. lia.
  - cbn [height image]. lia.
  - exists px. split; [exact E|].
    destruct (C 1 0) as (c & Ec & _ & At).
    + cbn [width image]. lia.
    + cbn [height image]. lia.
    + vm_compute in Ec. injection Ec as <-. exact At.
Defined.

(** On an R8G8B8A8 image the array of [LoadImageColors] is a copy of the
    pixels. *)
Lemma LoadImageColors_RGBA (image : Image) (m : buffer) :
  data image = Some m -> format image = PIXELFORMAT_UNCOMPRESSED_R8G8B8A8 ->
  Image_ok image -> Forall is_byte m ->
  0 < width image -> 0 < height image ->
  exists px : buffer,
    LoadImageColors image = Some (Some px)
    /\ Z.of_nat (length px) = 4 * (width image * height image)
    /\ forall k, 0 <= k < 4 * (width image * height image) ->
         byte_at px k = byte_at m k.
Proof.
  intros Hm Hf Hok Hb HW HH.
  assert (Hf' : PIXELFORMAT_UNCOMPRESSED_GRAYSCALE <= format image
                <= PIXELFORMAT_UNCOMPRESSED_R32G32B32A32)
    by (rewrite Hf; vm_compute; split; discriminate).
  destruct (LoadImageColors_colors image m Hm Hf' Hok Hb HW HH) as (px & E & L & C).
  exists px. split; [exact E|]. split; [exact L|].
  destruct (Hok m Hm) as [Hlen Hmax]. rewrite Hf in Hlen, Hmax.
  change (GetPixelDataSize 1 1 PIXELFORMAT_UNCOMPRESSED_R8G8B8A8) with 4 in *.
  intros k Hk.
  assert (Hi : 0 <= k / 4 < width image * height image).
  { split; [apply Z.div_pos; lia | apply Z.div_lt_upper_bound; lia]. }
  destruct (C _ Hi) as (c & Ec & Okc & At). rewrite Hf in Ec.
  change (PIXELFORMAT_UNCOMPRESSED_R8G8B8A8 =? PIXELFORMAT_UNCOMPRESSED_R32)
    with false in Ec. cbv iota in Ec.
  destruct (row_major_index (width image) (height image) (k / 4) HW Hi) as (Hx & Hy & Ej).
  rewrite (GetImageColor_RGBA_loads image m _ _ Hm Hf Hx Hy ltac:(lia)) in Ec.
  rewrite Ej in Ec.
  pose proof (Z.div_mod k 4 ltac:(lia)) as Dk.
  pose proof (Z.mod_pos_bound k 4 ltac:(lia)) as Mk.
  set (i := k / 4) in *. clearbody i.
  rewrite !load_uchar_byte_at in Ec.
  destruct At as (A0 & A1 & A2 & A3).
  destruct (byte_at m (4 * i)) as [[|v0]|] eqn:B0; try discriminate.
  destruct (byte_at m (4 * i + 1)) as [[|v1]|] eqn:B1; try discriminate.
  destruct (byte_at m (4 * i + 2)) as [[|v2]|] eqn:B2; try discriminate.
  destruct (byte_at m (4 * i + 3)) as [[|v3]|] eqn:B3; try discriminate.
  cbn [bind] in Ec. injection Ec as <-. cbn [r g b a] in *.
  assert (Ck : k = 4 * i \/ k = 4 * i + 1 \/ k = 4 * i + 2 \/ k = 4 * i + 3) by lia.
  destruct Ck as [-> | [-> | [-> | ->]]]; congruence.
Qed.

(** ** ImageResizeNN *)

(** The fixed-point ratio of [ImageResizeNN] along one axis. *)
Lemma resize_ratio_bounds (size newSize : Z) :
  0 < size -> 0 < newSize -> newSize * newSize <= 65536 * size ->
  let q := size * 65536 / newSize in
  newSize <= q /\ newSize * q <= size * 65536 < newSize * (q + 1).
Proof.
  intros Hs Hn Hsq q.
  split.
  - apply Z.div_le_lower_bound; lia.
  - split.
    + apply Z.mul_div_le. lia.
    + apply Z.mul_succ_div_gt. lia.
Qed.

Lemma nearest_source_range (size newSize x : Z) :
  0 < size -> 0 < newSize -> newSize * newSize <= 65536 * size ->
  0 <= x < newSize ->
  0 <= x * (size * 65536 / newSize + 1) < size * 65536
  /\ 0 <= nearest_source size newSize x < size.
Proof.
  intros Hs Hn Hsq Hx. unfold nearest_source.
  destruct (resize_ratio_bounds size newSize Hs Hn Hsq) as (Q1 & Q2 & Q3).
  set (q := size * 65536 / newSize) in *. clearbody q.
  assert (A : x * (q + 1) <= (newSize - 1) * (q + 1))
    by (apply Z.mul_le_mono_nonneg_r; lia).
  assert (B : 0 <= x * (q + 1)) by (apply Z.mul_nonneg_nonneg; lia).
  assert (C : (newSize - 1) * (q + 1) = newSize * q + newSize - q - 1) by ring.
  split; [lia|].
  split; [apply Z.div_pos; lia|].
  apply Z.div_lt_upper_bound; lia.
Qed.


(** Scaling up by a whole factor [k] samples the coordinate [x / k]. *)
Lemma nearest_source_factor (size k x : Z) :
  0 < size -> 0 < k -> k * (k * size) <= 65536 -> 0 <= x < k * size ->
  nearest_source size (k * size) x = x / k.
Proof.
  intros Hs Hk Hsmall Hx. unfold nearest_source.
  replace (size * 65536 / (k * size)) with (65536 / k).
  2:{ rewrite (Z.mul_comm k size). symmetry. apply Z.div_mul_cancel_l; lia. }
  pose proof (Z.mul_div_le 65536 k Hk) as Q1.
  pose proof (Z.mul_succ_div_gt 65536 k Hk) as Q2.
  assert (Q3 : k * size <= 65536 / k) by (apply Z.div_le_lower_bound; lia).
  set (q := 65536 / k) in *. clearbody q.
  pose proof (Z.div_mod x k ltac:(lia)) as Dx.
  pose proof (Z.mod_pos_bound x k Hk) as Mx.
  assert (J0 : 0 <= x / k) by (apply Z.div_pos; lia).
  assert (J1 : x / k < size).
  { apply Z.div_lt_upper_bound; [lia|]. lia. }
  set (j := x / k) in *. set (r := x mod k) in *. clearbody j r.
  set (e := k * Z.succ q - 65536) in *.
  assert (He : 0 < e <= k) by (subst e; lia).
  assert (E : x * (q + 1) = j * 65536 + (j * e + r * (q + 1))).
  { subst e. rewrite Dx. ring. }
  assert (R1 : 0 <= j * e) by (apply Z.mul_nonneg_nonneg; lia).
  assert (R2 : j * e <= (size - 1) * k).
  { transitivity ((size - 1) * e).
    - apply Z.mul_le_mono_nonneg_r; lia.
    - apply Z.mul_le_mono_nonneg_l; lia. }
  assert (R3 : 0 <= r * (q + 1)) by (apply Z.mul_nonneg_nonneg; lia).
  assert (R4 : r * (q + 1) <= (k - 1) * (q + 1))
    by (apply Z.mul_le_mono_nonneg_r; lia).
  assert (R5 : (k - 1) * (q + 1) = 65536 + e - q - 1) by (subst e; ring).
  assert (R6 : (size - 1) * k = k * size - k) by ring.
  rewrite E. symmetry.
  apply (Z.div_unique _ _ j (j * e + r * (q + 1))); [|ring].
  left. lia.
Qed.

Lemma row_major_split (w x y : Z) :
  0 <= x < w -> (y * w + x) / w = y /\ (y * w + x) mod w = x.
Proof.
  intros Hx. split.
  - rewrite Z.add_comm, Z.div_add by lia. rewrite Z.div_small by lia. lia.
  - rewrite Z.add_comm, Z.mod_add by lia. apply Z.mod_small. lia.
Qed.

Lemma row_major_bound (w h x y : Z) :
  0 <= x < w -> 0 <= y < h -> 0 <= y * w /\ y * w + x < w * h.
Proof.
  intros Hx Hy.
  assert ((y + 1) * w <= h * w) by (apply Z.mul_le_mono_nonneg_r; lia).
  assert (0 <= y * w) by (apply Z.mul_nonneg_nonneg; lia).
  lia.
Qed.

(** The two loops of [ImageResizeNN]: every pixel of the output is copied
    from the pixel of the array at the scaled coordinates. *)
Lemma ImageResizeNN_loops (px out0 : buffer) (W H nw nh xRatio yRatio : Z) :
  0 < W -> 0 < H -> W * H <= INT_MAX -> 0 < nw -> 0 < nh -> nw * nh <= INT_MAX ->
  Z.of_nat (length px) = 4 * (W * H) ->
  Z.of_nat (length out0) = 4 * (nw * nh) ->
  (forall x, 0 <= x < nw -> 0 <= x * xRatio <= INT_MAX /\ x * xRatio / 65536 < W) ->
  (forall y, 0 <= y < nh -> 0 <= y * yRatio <= INT_MAX /\ y * yRatio / 65536 < H) ->
  exists out : buffer,
    for_range 0 nh (fun y output =>
      for_range 0 nw (fun x output =>
        let x2 := Z.shiftr (int (x * xRatio)) 16 in
        let y2 := Z.shiftr (int (y * yRatio)) 16 in
        do out <- output; do px <- Some px;
        do m <- memcpy out (4 * int (int (y * nw) + x))
                  px (4 * int (int (y2 * W) + x2)) 4;
        Some (Some m)) output) (Some out0) = Some (Some out)
    /\ Z.of_nat (length out) = 4 * (nw * nh)
    /\ forall x y c, 0 <= x < nw -> 0 <= y < nh -> 0 <= c < 4 ->
         byte_at out (4 * (y * nw + x) + c)
         = byte_at px (4 * (y * yRatio / 65536 * W + x * xRatio / 65536) + c).
Proof.
  intros HW HH HWH Hnw Hnh Hn Lpx Lout Hxr Hyr.
  assert (Hmin : INT_MIN <= 0) by (unfold INT_MIN; lia).
  set (Lin := fun (n : Z) (s : option buffer) =>
         exists out, s = Some out /\ Z.of_nat (length out) = 4 * (nw * nh)
           /\ forall i c, 0 <= i < n -> 0 <= c < 4 ->
                byte_at out (4 * i + c)
                = byte_at px (4 * (i / nw * yRatio / 65536 * W
                                   + i mod nw * xRatio / 65536) + c)).
  unfold for_range.
  edestruct (for_loop_inv_Some (fun y s => Lin (y * nw) s)) as (s' & Es & Is).
  3: { rewrite Es. cbv beta in Is. rewrite Z.sub_0_r, Z2Nat.id, Z.add_0_l in Is by lia.
       destruct Is as (out & -> & Lo & Bo). exists out.
       split; [reflexivity|]. split; [exact Lo|].
       intros x y c Hx Hy Hc.
       destruct (row_major_bound nw nh x y Hx Hy) as [B1 B2].
       destruct (row_major_split nw x y Hx) as [D1 D2].
       rewrite (Bo (y * nw + x) c) by (try replace (nh * nw) with (nw * nh) by ring; lia).
       rewrite D1, D2. reflexivity. }
  - exists out0. split; [reflexivity|]. split; [exact Lout|]. intros i c Hi. lia.
  - intros y s Hy Ly. rewrite Z.sub_0_r, Z2Nat.id in Hy by lia.
    edestruct (for_loop_inv_Some (fun x s => Lin (y * nw + x) s)) as (s' & Es & Is).
    3: { exists s'. split; [exact Es|]. cbv beta in Is.
         rewrite Z.sub_0_r, Z2Nat.id in Is by lia.
         replace ((y + 1) * nw) with (y * nw + (0 + nw)) by ring. exact Is. }
    + rewrite Z.add_0_r. exact Ly.
    + intros x s0 Hx (out & -> & Lo & Bo). rewrite Z.sub_0_r, Z2Nat.id in Hx by lia.
      cbv zeta. cbn [bind].
      destruct (row_major_bound nw nh x y ltac:(lia) ltac:(lia)) as [B1 B2].
      destruct (row_major_split nw x y ltac:(lia)) as [D1 D2].
      destruct (Hxr x ltac:(lia)) as [X1 X2]. destruct (Hyr y ltac:(lia)) as [Y1 Y2].
      rewrite (int_small (x * xRatio)) by lia. rewrite (int_small (y * yRatio)) by lia.
      rewrite !Z.shiftr_div_pow2 by lia. change (2 ^ 16) with 65536.
      assert (X0 : 0 <= x * xRatio / 65536) by (apply Z.div_pos; lia).
      assert (Y0 : 0 <= y * yRatio / 65536) by (apply Z.div_pos; lia).
      destruct (row_major_bound W H (x * xRatio / 65536) (y * yRatio / 65536)
                  ltac:(lia) ltac:(lia)) as [S1 S2].
      rewrite (int_small (y * nw)) by lia. rewrite (int_small (y * nw + x)) by lia.
      rewrite (int_small (y * yRatio / 65536 * W)) by lia.
      rewrite (int_small (y * yRatio / 65536 * W + x * xRatio / 65536)) by lia.
      destruct (memcpy out (4 * (y * nw + x)) px
                  (4 * (y * yRatio / 65536 * W + x * xRatio / 65536)) 4) as [m'|] eqn:Em.
      2:{ rewrite memcpy_Some in Em by lia. discriminate. }
      cbn [bind]. eexists. split; [reflexivity|].
      exists m'. split; [reflexivity|].
      split; [rewrite (memcpy_length _ _ _ _ _ _ Em); exact Lo|].
      intros i c Hi Hc.
      destruct (Z.eq_dec i (y * nw + x)) as [->|Ne].
      * rewrite (memcpy_inside _ _ _ _ _ _ c Em Hc). rewrite D1, D2. reflexivity.
      * rewrite (memcpy_outside _ _ _ _ _ _ (4 * i + c) Em) by lia.
        apply Bo; lia.
Qed.

Lemma small_square_product (a b : Z) :
  0 < a -> 0 < b -> a * a < 2147483648 -> b * b < 2147483648 -> a * b <= INT_MAX.
Proof.
  intros Ha Hb Haa Hbb.
  assert (A : a <= 46340).
  { destruct (Z.le_gt_cases a 46340) as [|Hgt]; [assumption|].
    assert (46341 * 46341 <= a * a) by (apply Z.mul_le_mono_nonneg; lia). lia. }
  assert (B : b <= 46340).
  { destruct (Z.le_gt_cases b 46340) as [|Hgt]; [assumption|].
    assert (46341 * 46341 <= b * b) by (apply Z.mul_le_mono_nonneg; lia). lia. }
  assert (a * b <= 46340 * 46340) by (apply Z.mul_le_mono_nonneg; lia).
  unfold INT_MAX. lia.
Qed.

(** [ImageResizeNN] on an R8G8B8A8 image: the bytes of the result in terms
    of the bytes of the image. *)
Lemma ImageResizeNN_RGBA_bytes (image : Image) (m : buffer) (newWidth newHeight : Z) :
  data image = Some m -> format image = PIXELFORMAT_UNCOMPRESSED_R8G8B8A8 ->
  Image_ok image -> Forall is_byte m ->
  0 < width image < 32768 -> 0 < height image < 32768 ->
  0 < newWidth -> 0 < newHeight ->
  newWidth * newWidth <= 65536 * width image ->
  newHeight * newHeight <= 65536 * height image ->
  exists m' : buffer,
    ImageResizeNN image newWidth newHeight
    = Some (mkImage (Some m') newWidth newHeight (mipmaps image)
              PIXELFORMAT_UNCOMPRESSED_R8G8B8A8)
    /\ Z.of_nat (length m') = 4 * (newWidth * newHeight)
    /\ forall x y c, 0 <= x < newWidth -> 0 <= y < newHeight -> 0 <= c < 4 ->
         byte_at m' (4 * (y * newWidth + x) + c)
         = byte_at m (4 * (nearest_source (height image) newHeight y * width image
                           + nearest_source (width image) newWidth x) + c).
Proof.
  intros Hm Hf Hok Hb HW HH Hnw Hnh Hsw Hsh.
  assert (Hmin : INT_MIN <= 0) by (unfold INT_MIN; lia).
  assert (HM : INT_MAX = 2147483647) by reflexivity.
  destruct (LoadImageColors_RGBA image m Hm Hf Hok Hb ltac:(lia) ltac:(lia))
    as (px & Epx & Lpx & Bpx).
  destruct (Hok m Hm) as [Hlen Hmax]. rewrite Hf in Hlen, Hmax.
  change (GetPixelDataSize 1 1 PIXELFORMAT_UNCOMPRESSED_R8G8B8A8) with 4 in *.
  assert (Hn : newWidth * newHeight <= INT_MAX)
    by (apply small_square_product; lia).
  assert (Hn0 : 0 < newWidth * newHeight) by (apply Z.mul_pos_pos; lia).
  assert (HWH0 : 0 < width image * height image) by (apply Z.mul_pos_pos; lia).
  unfold ImageResizeNN. rewrite Hm. cbn [is_null].
  destruct (Z.eqb_spec (width image) 0); [lia|].
  destruct (Z.eqb_spec (height image) 0); [lia|].
  cbn [orb]. rewrite Epx. cbn [bind].
  destruct (Z.eqb_spec newWidth 0); [lia|].
  destruct (Z.eqb_spec newHeight 0); [lia|].
  cbn [orb].
  rewrite (int_small (newWidth * newHeight)) by lia.
  rewrite (size_t_small (newWidth * newHeight)) by lia.
  rewrite (size_t_small (newWidth * newHeight * 4)) by lia.
  unfold RL_MALLOC.
  destruct (Z.ltb_spec (newWidth * newHeight * 4) 9223372036854775808); [|lia].
  set (out0 := replicate (Z.to_nat (newWidth * newHeight * 4)) Undef).
  assert (Lout : Z.of_nat (length out0) = 4 * (newWidth * newHeight)).
  { subst out0. rewrite length_replicate. lia. }
  rewrite !Z.shiftl_mul_pow2 by lia. change (2 ^ 16) with 65536.
  rewrite (int_small (width image * 65536)) by lia.
  rewrite (int_small (height image * 65536)) by lia.
  rewrite !Z.quot_div_nonneg by lia.
  destruct (resize_ratio_bounds (width image) newWidth ltac:(lia) Hnw Hsw) as (Qw1 & Qw2 & Qw3).
  destruct (resize_ratio_bounds (height image) newHeight ltac:(lia) Hnh Hsh) as (Qh1 & Qh2 & Qh3).
  assert (Qw4 : width image * 65536 / newWidth <= width image * 65536)
    by (etransitivity; [apply (Z.div_le_compat_l _ 1); lia | rewrite Z.div_1_r; lia]).
  assert (Qh4 : height image * 65536 / newHeight <= height image * 65536)
    by (etransitivity; [apply (Z.div_le_compat_l _ 1); lia | rewrite Z.div_1_r; lia]).
  rewrite (int_small (width image * 65536 / newWidth + 1)) by lia.
  rewrite (int_small (height image * 65536 / newHeight + 1)) by lia.
  destruct (ImageResizeNN_loops px out0 (width image) (height image) newWidth newHeight
              (width image * 65536 / newWidth + 1) (height image * 65536 / newHeight + 1))
    as (out & Eout & Lo & Bo); try lia.
  { intros x Hx.
    destruct (nearest_source_range (width image) newWidth x ltac:(lia) Hnw Hsw Hx)
      as [R1 R2]. unfold nearest_source in R2. lia. }
  { intros y Hy.
    destruct (nearest_source_range (height image) newHeight y ltac:(lia) Hnh Hsh Hy)
      as [R1 R2]. unfold nearest_source in R2. lia. }
  cbv zeta in Eout. cbn [bind] in Eout. rewrite Eout. cbn [bind].
  exists out. split.
  - unfold ImageFormat. cbn [data width height format is_null].
    destruct (Z.eqb_spec newWidth 0); [lia|].
    destruct (Z.eqb_spec newHeight 0); [lia|].
    cbn [orb]. rewrite Hf. rewrite Z.eqb_refl. cbn [negb andb]. reflexivity.
  - split; [exact Lo|]. intros x y c Hx Hy Hc.
    rewrite (Bo x y c Hx Hy Hc). fold (nearest_source (width image) newWidth x).
    fold (nearest_source (height image) newHeight y).
    destruct (nearest_source_range (width image) newWidth x ltac:(lia) Hnw Hsw Hx)
      as [_ R2].
    destruct (nearest_source_range (height image) newHeight y ltac:(lia) Hnh Hsh Hy)
      as [_ R3].
    destruct (row_major_bound (width image) (height image) _ _ R2 R3) as [S1 S2].
    apply Bpx. lia.
Qed.



(** [ImageResizeNN] enlarging an R8G8B8A8 image with defined pixels and
    sides below 32768 by whole factors [kx] and [ky], with
    [kx * kx * width <= 65536] and [ky * ky * height <= 65536], repeats every
    pixel [kx] times along a row and [ky] times along a column: pixel
    [(x, y)] of the result is pixel [(x / kx, y / ky)] of the image.  With
    both factors 1, an image whose buffer holds exactly its pixels is
    returned as it is. *)
Theorem ImageResizeNN_whole_factor (image : Image) (m : buffer) (kx ky : Z) :
  data image = Some m -> format image = PIXELFORMAT_UNCOMPRESSED_R8G8B8A8 ->
  Image_ok image -> Forall is_byte m ->
  0 < width image < 32768 -> 0 < height image < 32768 ->
  0 < kx -> 0 < ky ->
  kx * (kx * width image) <= 65536 -> ky * (ky * height image) <= 65536 ->
  (exists m' : buffer,
     ImageResizeNN image (kx * width image) (ky * height image)
     = Some (mkImage (Some m') (kx * width image) (ky * height image) (mipmaps image)
               PIXELFORMAT_UNCOMPRESSED_R8G8B8A8)
     /\ Z.of_nat (length m') = 4 * (kx * width image * (ky * height image))
     /\ forall x y c, 0 <= x < kx * width image -> 0 <= y < ky * height image ->
          0 <= c < 4 ->
          byte_at m' (4 * (y * (kx * width image) + x) + c)
          = byte_at m (4 * (y / ky * width image + x / kx) + c))
  /\ (kx = 1 -> ky = 1 -> Z.of_nat (length m) = 4 * (width image * height image) ->
      ImageResizeNN image (width image) (height image) = Some image).
Proof.
  intros Hm Hf Hok Hb HW HH Hkx Hky Hsx Hsy.
  assert (Hnw : 0 < kx * width image) by (apply Z.mul_pos_pos; lia).
  assert (Hnh : 0 < ky * height image) by (apply Z.mul_pos_pos; lia).
  assert (Hsw : kx * width image * (kx * width image) <= 65536 * width image).
  { replace (kx * width image * (kx * width image))
      with (kx * (kx * width image) * width image) by ring.
    apply Z.mul_le_mono_nonneg_r; lia. }
  assert (Hsh : ky * height image * (ky * height image) <= 65536 * height image).
  { replace (ky * height image * (ky * height image))
      with (ky * (ky * height image) * height image) by ring.
    apply Z.mul_le_mono_nonneg_r; lia. }
  destruct (ImageResizeNN_RGBA_bytes image m (kx * width image) (ky * height image)
              Hm Hf Hok Hb HW HH Hnw Hnh Hsw Hsh) as (m' & E & L & B).
  assert (B' : forall x y c, 0 <= x < kx * width image -> 0 <= y < ky * height image ->
             0 <= c < 4 ->
             byte_at m' (4 * (y * (kx * width image) + x) + c)
             = byte_at m (4 * (y / ky * width image + x / kx) + c)).
  { intros x y c Hx Hy Hc. rewrite (B x y c Hx Hy Hc).
    rewrite (nearest_source_factor (width image) kx x) by lia.
    rewrite (nearest_source_factor (height image) ky y) by lia.
    reflexivity. }
  split.
  - exists m'. split; [exact E|]. split; [exact L|]. exact B'.
  - intros -> -> Lm. rewrite !Z.mul_1_l in *. rewrite E.
    assert (Em : m' = m).
    { apply byte_at_ext. intros k.
      destruct (Z.lt_ge_cases k 0) as [Hneg|Hpos].
      - unfold byte_at. destruct (Z.ltb_spec k 0); [reflexivity | lia].
      - destruct (Z.lt_ge_cases k (4 * (width image * height image))) as [Hin|Hout].
        + pose proof (Z.div_mod k 4 ltac:(lia)) as Dk.
          pose proof (Z.mod_pos_bound k 4 ltac:(lia)) as Mk.
          assert (Hi : 0 <= k / 4 < width image * height image).
          { split; [apply Z.div_pos; lia | apply Z.div_lt_upper_bound; lia]. }
          destruct (row_major_index (width image) (height image) (k / 4)
                      ltac:(lia) Hi) as (Hx & Hy & Ei).
          specialize (B' _ _ (k mod 4) Hx Hy Mk).
          rewrite !Z.div_1_r, Ei, <- Dk in B'. exact B'.
        + rewrite !byte_at_beyond by lia. reflexivity. }
    rewrite Em. destruct image as [d w h mips f]. cbn in *. subst d f. reflexivity.
Qed.

(** The theorem on a 2x1 image doubled along both axes, and resized to its
    own size. *)
Lemma ImageResizeNN_whole_factor_witness :
  let image := mkImage (Some (map Byte (seqZ 0 8))) 2 1 1
                 PIXELFORMAT_UNCOMPRESSED_R8G8B8A8 in
  (exists m' : buffer,
     ImageResizeNN image 4 2
     = Some (mkImage (Some m') 4 2 1 PIXELFORMAT_UNCOMPRESSED_R8G8B8A8)
     /\ byte_at m' (4 * (1 * 4 + 3) + 2) = Some (Byte 6))
  /\ ImageResizeNN image 2 1 = Some image.
Proof.
  intros image.
  assert (Hok : Image_ok image).
  { intros m Hm. injection Hm as <-. vm_compute. split; discriminate. }
  assert (Hb : Forall is_byte (map Byte (seqZ 0 8))).
  { vm_compute. repeat constructor; discriminate. }
  split.
  - destruct (ImageResizeNN_whole_factor image (map Byte (seqZ 0 8)) 2 2)
      as ((m' & E & _ & B) & _); try assumption; try reflexivity;
      try (cbn [width height image]; lia).
    exists m'. split; [exact E|].
    exact (B 3 1 2 ltac:(cbn [width height image]; lia)
             ltac:(cbn [width height image]; lia) ltac:(lia)).
  - pose proof (ImageResizeNN_whole_factor image (map Byte (seqZ 0 8)) 1 1
                  eq_refl eq_refl Hok Hb
                  ltac:(cbn [width image]; lia) ltac:(cbn [height image]; lia)
                  ltac:(lia) ltac:(lia)
                  ltac:(cbn [width image]; lia) ltac:(cbn [height image]; lia))
      as [_ I].
    exact (I eq_refl eq_refl eq_refl).
Defined.

(** ** The pixel codec, format by format *)

Lemma store_load_uchar (m : buffer) (off v : Z) :
  0 <= off < Z.of_nat (length m) ->
  exists m', store_uchar m off v = Some m' /\ length m' = length m
    /\ load_uchar m' off = Some (uchar v)
    /\ forall k, k <> off -> load_uchar m' k = load_uchar m k.
Proof.
  intros Hoff. destruct (store_uchar_spec m off v Hoff) as (m' & E & L & B).
  exists m'. split; [exact E|]. split; [exact L|]. split.
  - rewrite load_uchar_byte_at, B, Z.eqb_refl. reflexivity.
  - intros k Hk. rewrite !load_uchar_byte_at, B.
    destruct (Z.eqb_spec k off); [contradiction | reflexivity].
Qed.

Lemma store_load_ushort (m : buffer) (w : Z) :
  (2 <= length m)%nat -> 0 <= w < 65536 ->
  (do m' <- store_ushort m 0 w; load_ushort m' 0) = Some w.
Proof.
  intros Hm Hw. unfold store_ushort, load_ushort.
  destruct (store_load_uchar m 0 w ltac:(lia)) as (m1 & E1 & L1 & G1 & K1).
  rewrite E1. cbn [bind].
  destruct (store_load_uchar m1 (0 + 1) (Z.shiftr w 8) ltac:(lia)) as (m2 & E2 & L2 & G2 & K2).
  rewrite E2. cbn [bind]. rewrite (K2 0) by lia. rewrite G1, G2. cbn [bind].
  rewrite ushort_bytes by assumption. reflexivity.
Qed.

Lemma quantize_levels (v : Z) :
  is_uchar v ->
  (quantize v 15 = (v * 15 + 127) / 255 /\ 0 <= quantize v 15 < 16)
  /\ (quantize v 31 = (v * 31 + 127) / 255 /\ 0 <= quantize v 31 < 32)
  /\ alpha_bit v = (if 50 <? v then 1 else 0)
  /\ Z.abs (requantized v 15 - v) <= 8 /\ Z.abs (requantized v 31 - v) <= 5.
Proof.
  intros Hv.
  assert (H : ((quantize v 15 =? (v * 15 + 127) / 255) && (0 <=? quantize v 15)
               && (quantize v 15 <? 16)
               && (quantize v 31 =? (v * 31 + 127) / 255) && (0 <=? quantize v 31)
               && (quantize v 31 <? 32)
               && (alpha_bit v =? (if 50 <? v then 1 else 0))
               && (Z.abs (requantized v 15 - v) <=? 8)
               && (Z.abs (requantized v 31 - v) <=? 5)) = true).
  { revert v Hv. apply (all_below_spec 256). vm_compute. reflexivity. }
  repeat (apply andb_true_iff in H as [H ?]).
  repeat match goal with
         | E : (_ =? _) = true |- _ => apply Z.eqb_eq in E
         | E : (_ <=? _) = true |- _ => apply Z.leb_le in E
         | E : (_ <? _) = true |- _ => apply Z.ltb_lt in E
         end.
  repeat split; assumption.
Qed.

(** The fields of a packed 16-bit pixel, as [GetPixelColor] extracts them. *)
Lemma r4g4b4a4_fields (r4 g4 b4 a4 : Z) :
  0 <= r4 < 16 -> 0 <= g4 < 16 -> 0 <= b4 < 16 -> 0 <= a4 < 16 ->
  let p := pack_r4g4b4a4 r4 g4 b4 a4 in
  0 <= p < 65536 /\ Z.shiftr p 12 = r4 /\ Z.land (Z.shiftr p 8) 15 = g4
  /\ Z.land (Z.shiftr p 4) 15 = b4 /\ Z.land p 15 = a4.
Proof.
  intros Hr Hg Hb Ha p.
  set (P := fun w : Z =>
         let r4 := w / 4096 in let g4 := (w / 256) mod 16 in
         let b4 := (w / 16) mod 16 in let a4 := w mod 16 in
         let p := pack_r4g4b4a4 r4 g4 b4 a4 in
         (0 <=? p) && (p <? 65536) && (Z.shiftr p 12 =? r4)
         && (Z.land (Z.shiftr p 8) 15 =? g4) && (Z.land (Z.shiftr p 4) 15 =? b4)
         && (Z.land p 15 =? a4)).
  assert (A : all_below 65536 P = true) by (vm_compute; reflexivity).
  pose proof (all_below_spec 65536 P A (r4 * 4096 + g4 * 256 + b4 * 16 + a4) ltac:(lia)) as H.
  subst P. cbv beta zeta in H.
  set (w := r4 * 4096 + g4 * 256 + b4 * 16 + a4) in *.
  assert (E1 : w / 4096 = r4)
    by (symmetry; apply (Z.div_unique w 4096 r4 (g4 * 256 + b4 * 16 + a4)); subst w; lia).
  assert (E2 : w / 256 = r4 * 16 + g4)
    by (symmetry; apply (Z.div_unique w 256 _ (b4 * 16 + a4)); subst w; lia).
  assert (E3 : w / 16 = r4 * 256 + g4 * 16 + b4)
    by (symmetry; apply (Z.div_unique w 16 _ a4); subst w; lia).
  assert (E4 : w mod 16 = a4)
    by (symmetry; apply (Z.mod_unique w 16 (r4 * 256 + g4 * 16 + b4)); subst w; lia).
  assert (E5 : (r4 * 16 + g4) mod 16 = g4)
    by (symmetry; apply (Z.mod_unique _ 16 r4); lia).
  assert (E6 : (r4 * 256 + g4 * 16 + b4) mod 16 = b4)
    by (symmetry; apply (Z.mod_unique _ 16 (r4 * 16 + g4)); lia).
  rewrite E1, E2, E3, E4, E5, E6 in H.
  fold p in H.
  repeat (apply andb_true_iff in H as [H ?]).
  repeat match goal with
         | E : (_ =? _) = true |- _ => apply Z.eqb_eq in E
         | E : (_ <=? _) = true |- _ => apply Z.leb_le in E
         | E : (_ <? _) = true |- _ => apply Z.ltb_lt in E
         end.
  repeat split; assumption.
Qed.

Lemma r5g5b5a1_fields (r5 g5 b5 a1 : Z) :
  0 <= r5 < 32 -> 0 <= g5 < 32 -> 0 <= b5 < 32 -> 0 <= a1 < 2 ->
  let p := pack_r5g5b5a1 r5 g5 b5 a1 in
  0 <= p < 65536 /\ Z.shiftr p 11 = r5 /\ Z.land (Z.shiftr p 6) 31 = g5
  /\ Z.land p 31 = (2 * b5 + a1) mod 32 /\ Z.land p 1 = a1.
Proof.
  intros Hr Hg Hb Ha p.
  set (P := fun w : Z =>
         let r5 := w / 2048 in let g5 := (w / 64) mod 32 in
         let b5 := (w / 2) mod 32 in let a1 := w mod 2 in
         let p := pack_r5g5b5a1 r5 g5 b5 a1 in
         (0 <=? p) && (p <? 65536) && (Z.shiftr p 11 =? r5)
         && (Z.land (Z.shiftr p 6) 31 =? g5)
         && (Z.land p 31 =? (2 * b5 + a1) mod 32)
         && (Z.land p 1 =? a1)).
  assert (A : all_below 65536 P = true) by (vm_compute; reflexivity).
  pose proof (all_below_spec 65536 P A (r5 * 2048 + g5 * 64 + b5 * 2 + a1) ltac:(lia)) as H.
  subst P. cbv beta zeta in H.
  set (w := r5 * 2048 + g5 * 64 + b5 * 2 + a1) in *.
  assert (E1 : w / 2048 = r5)
    by (symmetry; apply (Z.div_unique w 2048 r5 (g5 * 64 + b5 * 2 + a1)); subst w; lia).
  assert (E2 : w / 64 = r5 * 32 + g5)
    by (symmetry; apply (Z.div_unique w 64 _ (b5 * 2 + a1)); subst w; lia).
  assert (E3 : w / 2 = r5 * 1024 + g5 * 32 + b5)
    by (symmetry; apply (Z.div_unique w 2 _ a1); subst w; lia).
  assert (E4 : w mod 2 = a1)
    by (symmetry; apply (Z.mod_unique w 2 (r5 * 1024 + g5 * 32 + b5)); subst w; lia).
  assert (E5 : (r5 * 32 + g5) mod 32 = g5)
    by (symmetry; apply (Z.mod_unique _ 32 r5); lia).
  assert (E6 : (r5 * 1024 + g5 * 32 + b5) mod 32 = b5)
    by (symmetry; apply (Z.mod_unique _ 32 (r5 * 32 + g5)); lia).
  rewrite E1, E2, E3, E4, E5, E6 in H.
  fold p in H.
  repeat (apply andb_true_iff in H as [H ?]).
  repeat match goal with
         | E : (_ =? _) = true |- _ => apply Z.eqb_eq in E
         | E : (_ <=? _) = true |- _ => apply Z.leb_le in E
         | E : (_ <? _) = true |- _ => apply Z.ltb_lt in E
         end.
  repeat split; assumption.
Qed.

Lemma upscaled_field (v levels : Z) :
  0 <= v < 256 -> 0 < levels ->
  uchar (int (v * 255) ÷ levels) = uchar (v * 255 / levels).
Proof.
  intros Hv Hl. rewrite int_small by (unfold INT_MIN, INT_MAX; lia).
  rewrite Z.quot_div_nonneg by lia. reflexivity.
Qed.

Ltac codec_format f :=
  unfold codec_roundtrip, SetPixelColor, GetPixelColor;
  repeat match goal with
         | |- context [f =? ?g] =>
             let t := eval vm_compute in (f =? g) in change (f =? g) with t
         end;
  cbv iota.

Ltac store_then_load m off v :=
  let m' := fresh "m" in
  let E := fresh "E" in let L := fresh "L" in let G := fresh "G" in let K := fresh "K" in
  destruct (store_load_uchar m off v ltac:(lia)) as (m' & E & L & G & K);
  rewrite E; cbn [bind].

(** Writing a colour with [SetPixelColor] and reading the pixel back with
    [GetPixelColor].  The 8-bit formats return the channels they store
    (grey level for the grey formats, alpha 255 where there is none);
    R4G4B4A4 returns every channel rounded to 16 levels, at most 8 away;
    R5G5B5A1 returns red and green rounded to 32 levels, at most 5 away, and
    alpha 255 or 0 as the alpha is above 50 or not, but its blue is decoded
    from the low five bits of the pixel, which hold four bits of the blue and
    the alpha bit.  For the float formats [SetPixelColor] writes nothing. *)
Theorem SetPixelColor_GetPixelColor (m : buffer) (c : Color) :
  Color_ok c ->
  let gray := gray_of c in
  let a1 := if 50 <? a c then 1 else 0 in
  ((1 <= length m)%nat ->
   codec_roundtrip m c PIXELFORMAT_UNCOMPRESSED_GRAYSCALE
   = Some (mkColor gray gray gray 255))
  /\ ((2 <= length m)%nat ->
      codec_roundtrip m c PIXELFORMAT_UNCOMPRESSED_GRAY_ALPHA
      = Some (mkColor gray gray gray (a c)))
  /\ ((3 <= length m)%nat ->
      codec_roundtrip m c PIXELFORMAT_UNCOMPRESSED_R8G8B8
      = Some (mkColor (r c) (g c) (b c) 255))
  /\ ((4 <= length m)%nat ->
      codec_roundtrip m c PIXELFORMAT_UNCOMPRESSED_R8G8B8A8 = Some c)
  /\ ((2 <= length m)%nat ->
      codec_roundtrip m c PIXELFORMAT_UNCOMPRESSED_R4G4B4A4
      = Some (mkColor (requantized (r c) 15) (requantized (g c) 15)
                (requantized (b c) 15) (requantized (a c) 15))
      /\ forall v, is_uchar v -> Z.abs (requantized v 15 - v) <= 8)
  /\ ((2 <= length m)%nat ->
      codec_roundtrip m c PIXELFORMAT_UNCOMPRESSED_R5G5B5A1
      = Some (mkColor (requantized (r c) 31) (requantized (g c) 31)
                ((2 * ((b c * 31 + 127) / 255) + a1) mod 32 * 255 / 31)
                (255 * a1))
      /\ forall v, is_uchar v -> Z.abs (requantized v 31 - v) <= 5)
  /\ (forall f, f = PIXELFORMAT_UNCOMPRESSED_R32 \/ f = PIXELFORMAT_UNCOMPRESSED_R32G32B32
                \/ f = PIXELFORMAT_UNCOMPRESSED_R32G32B32A32 ->
      SetPixelColor m 0 c f = Some m).
Proof.
  intros (Hr & Hg & Hb & Ha) gray a1.
  assert (Ugray : uchar gray = gray).
  { subst gray. unfold gray_of, F32.to_uchar, uchar. rewrite Z.mod_mod by lia. reflexivity. }
  assert (Ur : uchar (r c) = r c) by (apply Z.mod_small; exact Hr).
  assert (Ug : uchar (g c) = g c) by (apply Z.mod_small; exact Hg).
  assert (Ub : uchar (b c) = b c) by (apply Z.mod_small; exact Hb).
  assert (Ua : uchar (a c) = a c) by (apply Z.mod_small; exact Ha).
  destruct (quantize_levels (r c) Hr) as ((Qr4 & Rr4) & (Qr5 & Rr5) & _ & Er4 & Er5).
  destruct (quantize_levels (g c) Hg) as ((Qg4 & Rg4) & (Qg5 & Rg5) & _ & _ & _).
  destruct (quantize_levels (b c) Hb) as ((Qb4 & Rb4) & (Qb5 & Rb5) & _ & _ & _).
  destruct (quantize_levels (a c) Ha) as ((Qa4 & Ra4) & _ & Aa & _ & _).
  split; [|split; [|split; [|split; [|split; [|split]]]]].
  - intros Hm. codec_format PIXELFORMAT_UNCOMPRESSED_GRAYSCALE.
    fold gray. store_then_load m 0 gray. rewrite G. cbn [bind]. rewrite Ugray. reflexivity.
  - intros Hm. codec_format PIXELFORMAT_UNCOMPRESSED_GRAY_ALPHA.
    fold gray. store_then_load m 0 gray. store_then_load m0 (0 + 1) (a c).
    rewrite (K0 0) by lia. rewrite G, G0. cbn [bind]. rewrite Ugray, Ua. reflexivity.
  - intros Hm. codec_format PIXELFORMAT_UNCOMPRESSED_R8G8B8.
    store_then_load m 0 (r c). store_then_load m0 (0 + 1) (g c).
    store_then_load m1 (0 + 2) (b c).
    rewrite (K1 0), (K0 0), (K1 (0 + 1)) by lia. rewrite G, G0, G1. cbn [bind].
    rewrite Ur, Ug, Ub. reflexivity.
  - intros Hm. codec_format PIXELFORMAT_UNCOMPRESSED_R8G8B8A8.
    store_then_load m 0 (r c). store_then_load m0 (0 + 1) (g c).
    store_then_load m1 (0 + 2) (b c). store_then_load m2 (0 + 3) (a c).
    rewrite (K2 0), (K1 0), (K0 0), (K2 (0 + 1)), (K1 (0 + 1)), (K2 (0 + 2)) by lia.
    rewrite G, G0, G1, G2. cbn [bind]. rewrite Ur, Ug, Ub, Ua. destruct c; reflexivity.
  - intros Hm. split; [|intros v Hv; apply (quantize_levels v Hv)]. codec_format PIXELFORMAT_UNCOMPRESSED_R4G4B4A4.
    destruct (r4g4b4a4_fields _ _ _ _ Rr4 Rg4 Rb4 Ra4) as (Hp & F1 & F2 & F3 & F4).
    cbv zeta in Hp, F1, F2, F3, F4.
    pose proof (store_load_ushort m _ Hm Hp) as SL.
    destruct (store_ushort m 0 _) as [m'|]; [|discriminate]. cbn [bind] in SL |- *.
    rewrite SL. cbn [bind]. rewrite F1, F2, F3, F4.
    rewrite !upscaled_field by lia. rewrite Qr4, Qg4, Qb4, Qa4. unfold requantized.
    assert (U : forall v, is_uchar v ->
              uchar ((v * 15 + 127) / 255 * 255 / 15) = (v * 15 + 127) / 255 * 255 / 15).
    { intros v Hv. apply Z.mod_small. unfold is_uchar in Hv.
      assert (0 <= (v * 15 + 127) / 255 < 16)
        by (split; [apply Z.div_pos; lia | apply Z.div_lt_upper_bound; lia]).
      split; [apply Z.div_pos; lia | apply Z.div_lt_upper_bound; lia]. }
    rewrite !U by assumption. reflexivity.
  - intros Hm. split; [|intros v Hv; apply (quantize_levels v Hv)]. codec_format PIXELFORMAT_UNCOMPRESSED_R5G5B5A1.
    assert (Ra1 : 0 <= alpha_bit (a c) < 2) by (rewrite Aa; destruct (50 <? a c); lia).
    destruct (r5g5b5a1_fields _ _ _ _ Rr5 Rg5 Rb5 Ra1) as (Hp & F1 & F2 & F3 & F4).
    cbv zeta in Hp, F1, F2, F3, F4.
    pose proof (store_load_ushort m _ Hm Hp) as SL.
    destruct (store_ushort m 0 _) as [m'|]; [|discriminate]. cbn [bind] in SL |- *.
    rewrite SL. cbn [bind]. rewrite F1, F2, F3, F4.
    assert (M : 0 <= (2 * quantize (b c) 31 + alpha_bit (a c)) mod 32 < 32)
      by (apply Z.mod_pos_bound; lia).
    rewrite !upscaled_field by lia. rewrite Qr5, Qg5, Qb5 in *. rewrite Aa in *.
    fold a1 in M |- *. unfold requantized.
    assert (U : forall q, 0 <= q < 32 -> uchar (q * 255 / 31) = q * 255 / 31).
    { intros q Hq. apply Z.mod_small.
      split; [apply Z.div_pos; lia | apply Z.div_lt_upper_bound; lia]. }
    rewrite !U by assumption.
    replace (if a1 =? 0 then 0 else 255) with (255 * a1)
      by (subst a1; destruct (50 <? a c); reflexivity).
    reflexivity.
  - intros f [-> | [-> | ->]]; reflexivity.
Qed.

(** The theorem on an opaque mid blue. *)
Lemma SetPixelColor_GetPixelColor_witness :
  codec_roundtrip [Undef; Undef] (mkColor 10 20 128 255) PIXELFORMAT_UNCOMPRESSED_R5G5B5A1
  = Some (mkColor 8 16 8 255)
  /\ codec_roundtrip [Undef; Undef] (mkColor 10 20 128 255) PIXELFORMAT_UNCOMPRESSED_R4G4B4A4
     = Some (mkColor 17 17 136 255).
Proof.
  assert (Hc : Color_ok (mkColor 10 20 128 255)) by (vm_compute; intuition discriminate).
  destruct (SetPixelColor_GetPixelColor [Undef; Undef] (mkColor 10 20 128 255) Hc)
    as (_ & _ & _ & _ & R4 & R5 & _).
  split.
  - exact (proj1 (R5 ltac:(cbn [length]; lia))).
  - exact (proj1 (R4 ltac:(cbn [length]; lia))).
Defined.

(** ** ImageDrawRectangle *)

Lemma ImageDrawRectangleRec_clamp_exact (x y w h : Z) :
  - 2 ^ 22 < x < 2 ^ 22 -> - 2 ^ 22 < y < 2 ^ 22 ->
  - 2 ^ 22 < w < 2 ^ 22 -> - 2 ^ 22 < h < 2 ^ 22 ->
  ImageDrawRectangleRec_clamp (rect x y w h)
  = (let '(sx, cw) := rectangle_span x w in
     let '(sy, ch) := rectangle_span y h in
     mkRectangle (canonical_float sx) (canonical_float sy)
       (canonical_float cw) (canonical_float ch)).
Proof.
  intros Hx Hy Hw Hh.
  assert (P22 : 2 ^ 22 = 4194304) by reflexivity.
  assert (P24 : 2 ^ 24 = 16777216) by reflexivity.
  unfold ImageDrawRectangleRec_clamp, rectangle_span, rect.
  rewrite !of_int_canonical by lia.
  repeat (cbn [rec_x rec_y rec_width rec_height];
          first [ rewrite ltb_canonical by lia
                | rewrite sub_canonical by lia
                | match goal with
                  | |- context [Z.ltb ?a ?b] => destruct (Z.ltb_spec a b)
                  end ]);
    cbn [rec_x rec_y rec_width rec_height]; reflexivity.
Qed.

Lemma rectangle_span_spec (pos len : Z) :
  let '(s, c) := rectangle_span pos len in
  0 <= s /\ 0 <= c
  /\ (0 <= pos -> s = pos /\ c = Z.max 0 len)
  /\ (pos < 0 -> s = 0 /\ c = Z.max 0 (len - pos)).
Proof.
  unfold rectangle_span.
  destruct (Z.ltb_spec pos 0);
    match goal with |- context [Z.ltb ?a ?b] => destruct (Z.ltb_spec a b) end; lia.
Qed.

(** The inner loop of [ImageDrawRectangleRec]: the pixel at [off] is
    repeated over the row; with a width below 2 the loop does nothing. *)
Lemma ImageDrawRectangleRec_row (dst : Image) (m1 : buffer) (off bpp n : Z) :
  0 < bpp -> 0 <= off ->
  off + Z.max 1 n * bpp <= Z.of_nat (length m1) ->
  off + Z.max 1 n * bpp <= INT_MAX ->
  exists m' : buffer,
    for_range 1 n
      (fun x dst =>
         do m <- data dst;
         do m <- memcpy m (off + int (x * bpp)) m off (size_t bpp);
         Some (set_data dst (Some m)))
      (set_data dst (Some m1))
    = Some (set_data dst (Some m'))
    /\ length m' = length m1
    /\ (forall x c, 0 <= x < Z.max 1 n -> 0 <= c < bpp ->
          byte_at m' (off + x * bpp + c) = byte_at m1 (off + c))
    /\ (forall k, k < off \/ off + Z.max 1 n * bpp <= k -> byte_at m' k = byte_at m1 k).
Proof.
  intros Hbpp Hoff Hlen Hmax.
  assert (Hmin : INT_MIN <= 0) by (unfold INT_MIN; lia).
  assert (HM : INT_MAX = 2147483647) by reflexivity.
  assert (Hn1 : bpp <= Z.max 1 n * bpp)
    by (rewrite <- (Z.mul_1_l bpp) at 1; apply Z.mul_le_mono_nonneg_r; lia).
  unfold for_range.
  edestruct (for_loop_inv_Some
               (fun (x : Z) (s : Image) =>
                  exists mx, s = set_data dst (Some mx) /\ length mx = length m1
                    /\ (forall x' c, 0 <= x' < x -> 0 <= c < bpp ->
                          byte_at mx (off + x' * bpp + c) = byte_at m1 (off + c))
                    /\ (forall k, k < off \/ off + x * bpp <= k ->
                          byte_at mx k = byte_at m1 k)))
    as (s' & Es & Is).
  3: { rewrite Es. cbv beta in Is. destruct Is as (mx & -> & Lx & Bx & Kx).
       exists mx. split; [reflexivity|]. split; [exact Lx|].
       assert (Ex : 1 + Z.of_nat (Z.to_nat (n - 1)) = Z.max 1 n) by lia.
       rewrite Ex in Bx, Kx. split; assumption. }
  - exists m1. split; [reflexivity|]. split; [reflexivity|]. split.
    + intros x' c Hx' Hc. replace x' with 0 by lia. rewrite Z.mul_0_l, Z.add_0_r.
      reflexivity.
    + intros k Hk. reflexivity.
  - intros x s Hx (mx & -> & Lx & Bx & Kx).
    assert (Hxn : 1 <= x < n) by lia.
    assert (B1 : (x + 1) * bpp <= Z.max 1 n * bpp)
      by (apply Z.mul_le_mono_nonneg_r; lia).
    assert (B2 : 1 * bpp <= x * bpp) by (apply Z.mul_le_mono_nonneg_r; lia).
    assert (B3 : (x + 1) * bpp = x * bpp + bpp) by ring.
    cbn [data set_data bind].
    rewrite (int_small (x * bpp)) by lia.
    rewrite (size_t_small bpp) by lia.
    destruct (memcpy mx (off + x * bpp) mx off bpp) as [m'|] eqn:Em.
    2:{ rewrite memcpy_Some in Em by lia. discriminate. }
    cbn [bind]. eexists. split; [reflexivity|].
    exists m'. split; [reflexivity|].
    split; [rewrite (memcpy_length _ _ _ _ _ _ Em); exact Lx|].
    split.
    + intros x' c Hx' Hc.
      destruct (Z.eq_dec x' x) as [->|Ne].
      * rewrite (memcpy_inside _ _ _ _ _ _ c Em Hc).
        specialize (Bx 0 c ltac:(lia) Hc). rewrite Z.mul_0_l, Z.add_0_r in Bx. exact Bx.
      * assert (B4 : (x' + 1) * bpp <= x * bpp)
          by (apply Z.mul_le_mono_nonneg_r; lia).
        assert (B5 : 0 <= x' * bpp) by (apply Z.mul_nonneg_nonneg; lia).
        rewrite (memcpy_outside _ _ _ _ _ _ (off + x' * bpp + c) Em) by lia.
        apply Bx; lia.
    + intros k Hk.
      rewrite (memcpy_outside _ _ _ _ _ _ k Em) by lia. apply Kx. lia.
Qed.

Lemma set_data_same (image : Image) (m : buffer) :
  data image = Some m -> set_data image (Some m) = image.
Proof. destruct image. cbn. intros ->. reflexivity. Qed.

Lemma Color_at_bytes (m1 m2 : buffer) (i j : Z) (c : Color) :
  (forall k, 0 <= k < 4 -> byte_at m2 (4 * j + k) = byte_at m1 (4 * i + k)) ->
  Color_at m1 i c -> Color_at m2 j c.
Proof.
  intros H (A0 & A1 & A2 & A3). unfold Color_at.
  pose proof (H 0 ltac:(lia)) as H0. rewrite !Z.add_0_r in H0.
  rewrite H0, (H 1), (H 2), (H 3) by lia. auto.
Qed.

Lemma rows_apart (W sx cw y y' : Z) :
  0 <= sx -> 0 < cw -> sx + cw <= W -> y' < y ->
  4 * (y' * W + sx + cw) <= 4 * (y * W + sx).
Proof.
  intros Hsx Hcw HW Hy.
  assert ((y' + 1) * W <= y * W) by (apply Z.mul_le_mono_nonneg_r; lia).
  lia.
Qed.

(** The rows of [ImageDrawRectangleRec] on an R8G8B8A8 image, for a
    rectangle that lies inside the image. *)
Lemma ImageDrawRectangleRec_rows (dst : Image) (m : buffer) (sx sy cw ch : Z)
    (color : Color) :
  data dst = Some m -> format dst = PIXELFORMAT_UNCOMPRESSED_R8G8B8A8 ->
  Image_ok dst -> Color_ok color ->
  0 <= sx -> 0 <= sy -> 0 <= ch ->
  sx + Z.max 1 cw <= width dst -> sy + ch <= height dst ->
  exists m' : buffer,
    for_range sy (sy + ch)
      (fun y dst =>
         do dst <- ImageDrawPixel dst sx y color;
         let bytesOffset := int (int (int (y * width dst) + sx) * 4) in
         for_range 1 cw
           (fun x dst =>
              do m <- data dst;
              do m <- memcpy m (bytesOffset + int (x * 4)) m bytesOffset (size_t 4);
              Some (set_data dst (Some m)))
           dst)
      dst
    = Some (set_data dst (Some m'))
    /\ length m' = length m
    /\ (forall x y, sx <= x < sx + Z.max 1 cw -> sy <= y < sy + ch ->
          Color_at m' (y * width dst + x) color)
    /\ (forall k, (forall y, sy <= y < sy + ch ->
                     k < 4 * (y * width dst + sx)
                     \/ 4 * (y * width dst + sx + Z.max 1 cw) <= k) ->
          byte_at m' k = byte_at m k).
Proof.
  intros Hm Hf Hok Hc Hsx Hsy Hch HW HH.
  destruct (Hok m Hm) as [Hlen Hmax]. rewrite Hf in Hlen, Hmax.
  change (GetPixelDataSize 1 1 PIXELFORMAT_UNCOMPRESSED_R8G8B8A8) with 4 in *.
  assert (Hmin : INT_MIN <= 0) by (unfold INT_MIN; lia).
  assert (HM : INT_MAX = 2147483647) by reflexivity.
  set (cw' := Z.max 1 cw) in *.
  unfold for_range.
  edestruct (for_loop_inv_Some
               (fun (y : Z) (s : Image) =>
                  exists my, s = set_data dst (Some my) /\ length my = length m
                    /\ (forall x' y', sx <= x' < sx + cw' -> sy <= y' < y ->
                          Color_at my (y' * width dst + x') color)
                    /\ (forall k, (forall y', sy <= y' < y ->
                                     k < 4 * (y' * width dst + sx)
                                     \/ 4 * (y' * width dst + sx + cw') <= k) ->
                          byte_at my k = byte_at m k)))
    as (s' & Es & Is).
  3: { rewrite Es. cbv beta in Is. destruct Is as (my & -> & Ly & Cy & Ky).
       exists my. split; [reflexivity|]. split; [exact Ly|].
       replace (sy + Z.of_nat (Z.to_nat (sy + ch - sy))) with (sy + ch) in Cy, Ky by lia.
       split; assumption. }
  - exists m. split; [symmetry; apply set_data_same; exact Hm|].
    split; [reflexivity|]. split.
    + intros x' y' Hx' Hy'. lia.
    + intros k Hk. reflexivity.
  - intros y s Hy (my & -> & Ly & Cy & Ky).
    assert (Hy' : sy <= y < sy + ch) by lia. clear Hy.
    destruct (row_major_bound (width dst) (height dst) sx y ltac:(lia) ltac:(lia))
      as [B1 B2].
    assert (B3 : y * width dst + sx + cw' <= width dst * height dst).
    { assert ((y + 1) * width dst <= height dst * width dst)
        by (apply Z.mul_le_mono_nonneg_r; lia).
      lia. }
    rewrite (ImageDrawPixel_RGBA (set_data dst (Some my)) my sx y color eq_refl Hf
               ltac:(cbn [width set_data]; lia) ltac:(cbn [height set_data]; lia)
               ltac:(cbn [width height set_data]; lia)).
    cbn [width height set_data].
    destruct (store_Color_at my (y * width dst + sx) color ltac:(lia) ltac:(lia) Hc)
      as (m1 & E1 & L1 & At1 & _ & K1).
    rewrite E1. cbn [bind]. cbv zeta. cbn [width height set_data mipmaps format].
    rewrite (int_small (y * width dst)) by lia.
    rewrite (int_small (y * width dst + sx)) by lia.
    rewrite (int_small ((y * width dst + sx) * 4)) by lia.
    destruct (ImageDrawRectangleRec_row dst m1 ((y * width dst + sx) * 4) 4 cw)
      as (m' & E' & L' & B' & K'); try (fold cw'; lia).
    match goal with
    | |- exists s', ?lhs = Some s' /\ _ =>
        replace lhs with (Some (set_data dst (Some m'))) by (symmetry; exact E')
    end.
    eexists. split; [reflexivity|].
    exists m'. split; [reflexivity|]. split; [congruence|]. fold cw' in B', K'.
    split.
    + intros x' y' Hx' Hyy.
      destruct (Z.eq_dec y' y) as [->|Ne].
      * apply (Color_at_bytes m1 m' (y * width dst + sx)); [|exact At1].
        intros k Hk.
        replace (4 * (y * width dst + x') + k)
          with ((y * width dst + sx) * 4 + (x' - sx) * 4 + k) by ring.
        rewrite (B' (x' - sx) k) by lia. f_equal. ring.
      * assert (Hlt : y' < y) by lia.
        pose proof (rows_apart (width dst) sx cw' y y' Hsx ltac:(lia) HW Hlt) as Ap.
        apply (Color_at_bytes my m' (y' * width dst + x')); [|apply Cy; lia].
        intros k Hk.
        rewrite K' by lia. apply K1. lia.
    + intros k Hk.
      pose proof (Hk y ltac:(lia)) as Hky.
      rewrite K' by lia. rewrite K1 by lia. apply Ky.
      intros y' Hyy. apply Hk. lia.
Qed.

Lemma pixel_outside_row (W sx cw x y y' c : Z) :
  0 <= x < W -> 0 <= sx -> sx + cw <= W -> 0 <= c < 4 ->
  ~ (y' = y /\ sx <= x < sx + cw) ->
  4 * (y * W + x) + c < 4 * (y' * W + sx)
  \/ 4 * (y' * W + sx + cw) <= 4 * (y * W + x) + c.
Proof.
  intros Hx Hsx HW Hc Hn.
  destruct (Z.lt_trichotomy y y') as [Hlt | [-> | Hgt]].
  - assert ((y + 1) * W <= y' * W) by (apply Z.mul_le_mono_nonneg_r; lia). lia.
  - lia.
  - assert ((y' + 1) * W <= y * W) by (apply Z.mul_le_mono_nonneg_r; lia). lia.
Qed.

(** [ImageDrawRectangle] on an R8G8B8A8 image, for a rectangle that after
    the security checks has the spans [(sx, cw)] and [(sy, ch)] and lies
    inside the image, with the block of the result. *)
Lemma ImageDrawRectangle_paints (dst : Image) (m : buffer) (posX posY w h : Z)
    (color : Color) (sx cw sy ch : Z) :
  data dst = Some m -> format dst = PIXELFORMAT_UNCOMPRESSED_R8G8B8A8 ->
  Image_ok dst -> Color_ok color ->
  - 2 ^ 22 < posX < 2 ^ 22 -> - 2 ^ 22 < posY < 2 ^ 22 ->
  - 2 ^ 22 < w < 2 ^ 22 -> - 2 ^ 22 < h < 2 ^ 22 ->
  rectangle_span posX w = (sx, cw) -> rectangle_span posY h = (sy, ch) ->
  sx + Z.max 1 cw <= width dst -> sy + ch <= height dst ->
  exists m' : buffer,
    ImageDrawRectangle dst posX posY w h color = Some (set_data dst (Some m'))
    /\ length m' = length m
    /\ forall x y,
         GetImageColor (set_data dst (Some m')) x y
         = if in_rect sx sy (Z.max 1 cw) ch x y then Some color
           else GetImageColor dst x y.
Proof.
  intros Hm Hf Hok Hc Hx Hy Hw Hh Esx Esy HW HH.
  pose proof (ImageDrawRectangleRec_clamp_exact posX posY w h Hx Hy Hw Hh) as Ec.
  pose proof (rectangle_span_spec posX w) as Sx.
  pose proof (rectangle_span_spec posY h) as Sy.
  rewrite Esx in Ec, Sx. rewrite Esy in Ec, Sy.
  destruct Sx as (Sx0 & Sx1 & Sx2 & Sx3). destruct Sy as (Sy0 & Sy1 & Sy2 & Sy3).
  assert (P22 : 2 ^ 22 = 4194304) by reflexivity.
  assert (P24 : 2 ^ 24 = 16777216) by reflexivity.
  assert (Hmin : INT_MIN <= 0) by (unfold INT_MIN; lia).
  assert (HM : INT_MAX = 2147483647) by reflexivity.
  destruct (Hok m Hm) as [Hlen Hmax]. rewrite Hf in Hlen, Hmax.
  change (GetPixelDataSize 1 1 PIXELFORMAT_UNCOMPRESSED_R8G8B8A8) with 4 in *.
  unfold ImageDrawRectangle, ImageDrawRectangleRec. rewrite Hm. cbn [is_null orb].
  destruct (Z.eqb_spec (width dst) 0) as [|_]; [lia|].
  destruct (Z.eqb_spec (height dst) 0) as [H0|Hn0].
  { cbn [orb]. exists m. rewrite (set_data_same dst m Hm).
    split; [reflexivity|]. split; [reflexivity|].
    intros x y. unfold in_rect.
    destruct (Z.leb_spec sy y); destruct (Z.ltb_spec y (sy + ch)); try lia;
      rewrite ?andb_false_r; reflexivity. }
  cbn [orb]. fold (rect posX posY w h). rewrite Ec. cbv zeta.
  cbn [rec_x rec_y rec_width rec_height].
  rewrite !to_int_canonical by lia.
  rewrite (int_small (sy + ch)) by lia.
  rewrite Hf. change (GetPixelDataSize 1 1 PIXELFORMAT_UNCOMPRESSED_R8G8B8A8) with 4.
  destruct (ImageDrawRectangleRec_rows dst m sx sy cw ch color Hm Hf Hok Hc
              Sx0 Sy0 Sy1 HW HH) as (m' & E & L & C & K).
  cbv zeta in E. rewrite E.
  exists m'. split; [reflexivity|]. split; [exact L|].
  intros x y.
  destruct (in_bounds dst x y) eqn:Hin.
  - apply in_bounds_spec in Hin as [Bx By].
    destruct (in_rect sx sy (Z.max 1 cw) ch x y) eqn:Hr.
    + unfold in_rect in Hr.
      apply andb_prop in Hr as [Hr R4]. apply andb_prop in Hr as [Hr R3].
      apply andb_prop in Hr as [R1 R2].
      apply Z.leb_le in R1, R3. apply Z.ltb_lt in R2, R4.
      apply (GetImageColor_RGBA (set_data dst (Some m')) m' x y color eq_refl Hf);
        cbn [set_data width height]; try lia.
      apply C; lia.
    + rewrite (GetImageColor_RGBA_loads (set_data dst (Some m')) m' x y eq_refl Hf
                 ltac:(cbn [set_data width]; lia) ltac:(cbn [set_data height]; lia)
                 ltac:(cbn [set_data width height]; lia)).
      rewrite (GetImageColor_RGBA_loads dst m x y Hm Hf Bx By ltac:(lia)).
      cbn [set_data width].
      assert (F : forall c, 0 <= c < 4 ->
                byte_at m' (4 * (y * width dst + x) + c)
                = byte_at m (4 * (y * width dst + x) + c)).
      { intros c Hcc. apply K. intros y' Hy'.
        apply pixel_outside_row; try lia.
        intros [-> R]. unfold in_rect in Hr.
        destruct (Z.leb_spec sx x); [|lia].
        destruct (Z.ltb_spec x (sx + Z.max 1 cw)); [|lia].
        destruct (Z.leb_spec sy y); [|lia].
        destruct (Z.ltb_spec y (sy + ch)); [|lia].
        discriminate. }
      rewrite !load_uchar_byte_at.
      pose proof (F 0 ltac:(lia)) as F0. rewrite !Z.add_0_r in F0.
      rewrite F0, (F 1), (F 2), (F 3) by lia. reflexivity.
  - rewrite (GetImageColor_outside dst x y Hin).
    rewrite (GetImageColor_outside (set_data dst (Some m')) x y Hin).
    replace (in_rect sx sy (Z.max 1 cw) ch x y) with false; [reflexivity|].
    symmetry. unfold in_bounds in Hin. unfold in_rect.
    destruct (Z.leb_spec sx x); destruct (Z.ltb_spec x (sx + Z.max 1 cw));
      destruct (Z.leb_spec sy y); destruct (Z.ltb_spec y (sy + ch));
      try reflexivity.
    destruct (Z.leb_spec 0 x); [|lia]. destruct (Z.ltb_spec x (width dst)); [|lia].
    destruct (Z.leb_spec 0 y); [|lia]. destruct (Z.ltb_spec y (height dst)); [|lia].
    discriminate.
Qed.

(** [ImageDrawRectangle] on an R8G8B8A8 image, for a rectangle that after
    the security checks lies inside the image: the checks move a negative
    position to 0 and add its amount to the size, and turn a negative size
    into 0; then every row from [sy] to [sy + ch - 1] is painted from [sx]
    over [cw] pixels, and over one pixel when [cw] is 0.  [GetImageColor]
    reads the colour at every painted position and what it read before at
    every other one. *)
Theorem ImageDrawRectangle_fills (dst : Image) (m : buffer) (posX posY w h : Z)
    (color : Color) :
  data dst = Some m -> format dst = PIXELFORMAT_UNCOMPRESSED_R8G8B8A8 ->
  Image_ok dst -> Color_ok color ->
  - 2 ^ 22 < posX < 2 ^ 22 -> - 2 ^ 22 < posY < 2 ^ 22 ->
  - 2 ^ 22 < w < 2 ^ 22 -> - 2 ^ 22 < h < 2 ^ 22 ->
  let '(sx, cw) := rectangle_span posX w in
  let '(sy, ch) := rectangle_span posY h in
  sx + Z.max 1 cw <= width dst -> sy + ch <= height dst ->
  exists dst' : Image,
    ImageDrawRectangle dst posX posY w h color = Some dst'
    /\ same_shape dst dst'
    /\ forall x y,
         GetImageColor dst' x y
         = if in_rect sx sy (Z.max 1 cw) ch x y then Some color
           else GetImageColor dst x y.
Proof.
  intros Hm Hf Hok Hc Hx Hy Hw Hh.
  destruct (rectangle_span posX w) as [sx cw] eqn:Esx.
  destruct (rectangle_span posY h) as [sy ch] eqn:Esy.
  intros HW HH.
  destruct (ImageDrawRectangle_paints dst m posX posY w h color sx cw sy ch
              Hm Hf Hok Hc Hx Hy Hw Hh Esx Esy HW HH) as (m' & E & L & G).
  exists (set_data dst (Some m')). split; [exact E|]. split; [|exact G].
  apply same_shape_set_data with (m := m); assumption.
Qed.

(** The theorem on a 4x3 image, for a rectangle that starts left of it and
    for one of width 0. *)
Lemma ImageDrawRectangle_fills_witness :
  let red := mkColor 230 41 55 255 in
  let dst := mkImage (Some (replicate 48 (Byte 0))) 4 3 1
               PIXELFORMAT_UNCOMPRESSED_R8G8B8A8 in
  (exists dst', ImageDrawRectangle dst (-1) 1 2 2 red = Some dst'
     /\ GetImageColor dst' 2 2 = Some red /\ GetImageColor dst' 3 2 = Some BLANK)
  /\ (exists dst', ImageDrawRectangle dst 1 0 0 1 red = Some dst'
        /\ GetImageColor dst' 1 0 = Some red).
Proof.
  intros red dst.
  assert (Hok : Image_ok dst).
  { intros m Hm. injection Hm as <-. vm_compute. split; discriminate. }
  assert (Hc : Color_ok red) by (vm_compute; intuition discriminate).
  split.
  - pose proof (ImageDrawRectangle_fills dst (replicate 48 (Byte 0)) (-1) 1 2 2 red
                  eq_refl eq_refl Hok Hc ltac:(lia) ltac:(lia) ltac:(lia) ltac:(lia)) as H.
    change (rectangle_span (-1) 2) with (0, 3) in H.
    change (rectangle_span 1 2) with (1, 2) in H.
    destruct (H ltac:(cbn [width dst]; lia) ltac:(cbn [height dst]; lia))
      as (dst' & E & _ & G).
    exists dst'. split; [exact E|]. rewrite (G 2 2), (G 3 2). split; reflexivity.
  - pose proof (ImageDrawRectangle_fills dst (replicate 48 (Byte 0)) 1 0 0 1 red
                  eq_refl eq_refl Hok Hc ltac:(lia) ltac:(lia) ltac:(lia) ltac:(lia)) as H.
    change (rectangle_span 1 0) with (1, 0) in H.
    change (rectangle_span 0 1) with (0, 1) in H.
    destruct (H ltac:(cbn [width dst]; lia) ltac:(cbn [height dst]; lia))
      as (dst' & E & _ & G).
    exists dst'. split; [exact E|]. rewrite (G 1 0). reflexivity.
Defined.

(** ** GetImageAlphaBorder *)

(** The scan of [GetImageAlphaBorder] over an array whose alpha bytes are
    given by [alpha]: either no pixel is above [t] and the four bounds are
    the initial ones, or the bounds are the least and greatest coordinates of
    the pixels above [t]. *)
Lemma GetImageAlphaBorder_scan (px : buffer) (W H t : Z) (alpha : Z -> Z -> Z) :
  0 < W <= 65536 -> 0 < H <= 65536 -> W * H <= INT_MAX ->
  (forall x y, 0 <= x < W -> 0 <= y < H ->
     load_uchar px (4 * (y * W + x) + 3) = Some (alpha x y)) ->
  exists xMin xMax yMin yMax : Z,
    for_range 0 H
      (fun y s =>
         for_range 0 W
           (fun x '(xMin, xMax, yMin, yMax) =>
              do alpha <- load_uchar px (4 * int (int (y * W) + x) + 3);
              if t <? alpha then
                let xMin := if x <? xMin then x else xMin in
                let xMax := if xMax <? x then x else xMax in
                let yMin := if y <? yMin then y else yMin in
                let yMax := if yMax <? y then y else yMax in
                Some (xMin, xMax, yMin, yMax)
              else Some (xMin, xMax, yMin, yMax))
           s)
      (65536, 0, 65536, 0)
    = Some (xMin, xMax, yMin, yMax)
    /\ (((forall x y, 0 <= x < W -> 0 <= y < H -> alpha x y <= t)
         /\ xMin = 65536 /\ xMax = 0 /\ yMin = 65536 /\ yMax = 0)
        \/ (0 <= xMin <= xMax /\ xMax < W /\ 0 <= yMin <= yMax /\ yMax < H
            /\ (forall x y, 0 <= x < W -> 0 <= y < H -> t < alpha x y ->
                  xMin <= x <= xMax /\ yMin <= y <= yMax)
            /\ (exists y, 0 <= y < H /\ t < alpha xMin y)
            /\ (exists y, 0 <= y < H /\ t < alpha xMax y)
            /\ (exists x, 0 <= x < W /\ t < alpha x yMin)
            /\ (exists x, 0 <= x < W /\ t < alpha x yMax))).
Proof.
  intros HW HH HWH Hload.
  assert (Hmin : INT_MIN <= 0) by (unfold INT_MIN; lia).
  set (I := fun (yy xx : Z) (s : Z * Z * Z * Z) =>
         let '(xMin, xMax, yMin, yMax) := s in
         ((forall x y, 0 <= x < W -> 0 <= y < H -> y < yy \/ (y = yy /\ x < xx) ->
             alpha x y <= t)
          /\ xMin = 65536 /\ xMax = 0 /\ yMin = 65536 /\ yMax = 0)
         \/ (0 <= xMin <= xMax /\ xMax < W /\ 0 <= yMin <= yMax /\ yMax < H
             /\ (forall x y, 0 <= x < W -> 0 <= y < H -> y < yy \/ (y = yy /\ x < xx) ->
                   t < alpha x y -> xMin <= x <= xMax /\ yMin <= y <= yMax)
             /\ (exists y, 0 <= y < H /\ t < alpha xMin y)
             /\ (exists y, 0 <= y < H /\ t < alpha xMax y)
             /\ (exists x, 0 <= x < W /\ t < alpha x yMin)
             /\ (exists x, 0 <= x < W /\ t < alpha x yMax))).
  unfold for_range.
  edestruct (for_loop_inv_Some (fun y s => I y 0 s)) as (s' & Es & Is).
  3: { rewrite Es. cbv beta in Is.
       rewrite Z.sub_0_r, Z2Nat.id, Z.add_0_l in Is by lia.
       destruct s' as [[[xMin xMax] yMin] yMax]. exists xMin, xMax, yMin, yMax.
       split; [reflexivity|]. unfold I in Is.
       destruct Is as [(A & E) | (B1 & B2 & B3 & B4 & A & R)].
       - left. split; [|exact E]. intros x y Hx Hy. apply (A x y Hx Hy). lia.
       - right. repeat (split; [assumption|]). split; [|exact R].
         intros x y Hx Hy. apply (A x y Hx Hy). lia. }
  - unfold I. left. split; [|lia]. intros x y Hx Hy Hd. lia.
  - intros y s Hy Iy. rewrite Z.sub_0_r, Z2Nat.id in Hy by lia.
    edestruct (for_loop_inv_Some (fun x s => I y x s)) as (s' & Es & Is).
    3: { exists s'. split; [exact Es|]. cbv beta in Is.
         rewrite Z.sub_0_r, Z2Nat.id, Z.add_0_l in Is by lia.
         destruct s' as [[[xMin xMax] yMin] yMax]. unfold I in Is |- *.
         destruct Is as [(A & E) | (B1 & B2 & B3 & B4 & A & R)].
         - left. split; [|exact E]. intros x' y' Hx' Hy' Hd. apply (A x' y' Hx' Hy'). lia.
         - right. repeat (split; [assumption|]). split; [|exact R].
           intros x' y' Hx' Hy' Hd. apply (A x' y' Hx' Hy'). lia. }
    + exact Iy.
    + intros x [[[xMin xMax] yMin] yMax] Hx Ix.
      rewrite Z.sub_0_r, Z2Nat.id in Hx by lia.
      destruct (row_major_bound W H x y ltac:(lia) ltac:(lia)) as [B1 B2].
      rewrite (int_small (y * W)) by lia. rewrite (int_small (y * W + x)) by lia.
      rewrite (Hload x y) by lia. cbn [bind].
      destruct (Z.ltb_spec t (alpha x y)) as [Hs | Hs].
      * eexists. split; [reflexivity|]. unfold I in Ix |- *. right.
        destruct Ix as [(A & -> & -> & -> & ->) | (C1 & C2 & C3 & C4 & A & Rx1 & Rx2 & Ry1 & Ry2)].
        -- destruct (Z.ltb_spec x 65536); [|lia]. destruct (Z.ltb_spec y 65536); [|lia].
           assert (Ex : (if 0 <? x then x else 0) = x) by (destruct (Z.ltb_spec 0 x); lia).
           assert (Ey : (if 0 <? y then y else 0) = y) by (destruct (Z.ltb_spec 0 y); lia).
           rewrite Ex, Ey.
           split; [lia|]. split; [lia|]. split; [lia|]. split; [lia|].
           split.
           { intros x' y' Hx' Hy' Hd Hs'.
             assert (Hd' : (y' < y \/ (y' = y /\ x' < x)) \/ (x' = x /\ y' = y)) by lia.
             destruct Hd' as [Hd' | [-> ->]]; [|lia].
             pose proof (A x' y' Hx' Hy' Hd'). lia. }
           split; [exists y; split; [lia | exact Hs]|].
           split; [exists y; split; [lia | exact Hs]|].
           split; exists x; (split; [lia | exact Hs]).
        -- destruct Rx1 as (y1 & Hy1 & S1). destruct Rx2 as (y2 & Hy2 & S2).
           destruct Ry1 as (x1 & Hx1 & S3). destruct Ry2 as (x2 & Hx2 & S4).
           split; [destruct (Z.ltb_spec x xMin); destruct (Z.ltb_spec xMax x); lia|].
           split; [destruct (Z.ltb_spec xMax x); lia|].
           split; [destruct (Z.ltb_spec y yMin); destruct (Z.ltb_spec yMax y); lia|].
           split; [destruct (Z.ltb_spec yMax y); lia|].
           split.
           { intros x' y' Hx' Hy' Hd Hs'.
             assert (Hd' : (y' < y \/ (y' = y /\ x' < x)) \/ (x' = x /\ y' = y)) by lia.
             destruct (Z.ltb_spec x xMin); destruct (Z.ltb_spec xMax x);
               destruct (Z.ltb_spec y yMin); destruct (Z.ltb_spec yMax y);
               (destruct Hd' as [Hd' | [-> ->]];
                [pose proof (A x' y' Hx' Hy' Hd' Hs'); lia | lia]). }
           split; [destruct (Z.ltb_spec x xMin);
                   [exists y; split; [lia | exact Hs] | exists y1; split; assumption]|].
           split; [destruct (Z.ltb_spec xMax x);
                   [exists y; split; [lia | exact Hs] | exists y2; split; assumption]|].
           split; [destruct (Z.ltb_spec y yMin);
                   [exists x; split; [lia | exact Hs] | exists x1; split; assumption]|].
           destruct (Z.ltb_spec yMax y);
             [exists x; split; [lia | exact Hs] | exists x2; split; assumption].
      * eexists. split; [reflexivity|]. unfold I in Ix |- *.
        destruct Ix as [(A & E) | (C1 & C2 & C3 & C4 & A & R)].
        -- left. split; [|exact E]. intros x' y' Hx' Hy' Hd.
           assert (Hd' : (y' < y \/ (y' = y /\ x' < x)) \/ (x' = x /\ y' = y)) by lia.
           destruct Hd' as [Hd' | [-> ->]]; [apply (A _ _ Hx' Hy' Hd') | exact Hs].
        -- right. repeat (split; [assumption|]). split; [|exact R].
           intros x' y' Hx' Hy' Hd Hs'.
           assert (Hd' : (y' < y \/ (y' = y /\ x' < x)) \/ (x' = x /\ y' = y)) by lia.
           destruct Hd' as [Hd' | [-> ->]]; [apply (A _ _ Hx' Hy' Hd' Hs') | lia].
Qed.

Lemma GetImageColor_R32_alpha (image : Image) (x y : Z) (c : Color) :
  format image = PIXELFORMAT_UNCOMPRESSED_R32 ->
  0 <= x < width image -> 0 <= y < height image ->
  GetImageColor image x y = Some c -> a c = 255.
Proof.
  intros Hf Hx Hy. unfold GetImageColor.
  destruct (Z.leb_spec 0 x); [|lia]. destruct (Z.ltb_spec x (width image)); [|lia].
  destruct (Z.leb_spec 0 y); [|lia]. destruct (Z.ltb_spec y (height image)); [|lia].
  cbn [andb]. rewrite Hf. format_tests.
  destruct (data image) as [m|]; [|discriminate]. cbn [bind].
  destruct (load_float m _); [|discriminate]. cbn [bind].
  intros E. injection E as <-. reflexivity.
Qed.

(** The alpha bytes of the array of [LoadImageColors] are the alphas that
    [GetImageColor] reads, for every uncompressed format. *)
Lemma LoadImageColors_alpha (image : Image) (m : buffer) :
  data image = Some m ->
  PIXELFORMAT_UNCOMPRESSED_GRAYSCALE <= format image
    <= PIXELFORMAT_UNCOMPRESSED_R32G32B32A32 ->
  Image_ok image -> Forall is_byte m ->
  0 < width image -> 0 < height image ->
  exists px : buffer,
    LoadImageColors image = Some (Some px)
    /\ forall x y, 0 <= x < width image -> 0 <= y < height image ->
         exists c, GetImageColor image x y = Some c
                   /\ load_uchar px (4 * (y * width image + x) + 3) = Some (a c).
Proof.
  intros Hm Hf Hok Hb HW HH.
  destruct (LoadImageColors_colors image m Hm Hf Hok Hb HW HH) as (px & E & L & C).
  exists px. split; [exact E|]. intros x y Hx Hy.
  destruct (row_major_bound (width image) (height image) x y Hx Hy) as [B1 B2].
  destruct (row_major_split (width image) x y Hx) as [D1 D2].
  destruct (C (y * width image + x) ltac:(lia)) as (c0 & E0 & Ok0 & At0).
  destruct At0 as (_ & _ & _ & A3).
  destruct (Z.eqb_spec (format image) PIXELFORMAT_UNCOMPRESSED_R32) as [Hr|Hr].
  - destruct (GetImageColor_defined image m x y Hm Hf Hok Hb) as (c & Ec & Okc).
    exists c. split; [exact Ec|]. apply load_uchar_Byte. rewrite A3.
    rewrite Z.mod_0_l, Z.div_0_l in E0 by lia.
    rewrite (GetImageColor_R32_alpha image 0 0 c0 Hr ltac:(lia) ltac:(lia) E0).
    rewrite (GetImageColor_R32_alpha image x y c Hr Hx Hy Ec). reflexivity.
  - rewrite D1, D2 in E0. exists c0. split; [exact E0|].
    apply load_uchar_Byte. exact A3.
Qed.

(** [GetImageAlphaBorder] on an image of an uncompressed format, at most
    65536 pixels wide and high, whose buffer holds its pixels as defined
    bytes: when no pixel has an alpha above the threshold
    [(unsigned char)(threshold*255.0f)] the rectangle is the zero rectangle;
    otherwise it is the bounding box of the pixels above the threshold: it
    contains all of them and each of its four sides holds one. *)
Theorem GetImageAlphaBorder_box (image : Image) (m : buffer) (threshold : float) :
  data image = Some m ->
  PIXELFORMAT_UNCOMPRESSED_GRAYSCALE <= format image
    <= PIXELFORMAT_UNCOMPRESSED_R32G32B32A32 ->
  Image_ok image -> Forall is_byte m ->
  0 < width image <= 65536 -> 0 < height image <= 65536 ->
  let t := F32.to_uchar (F32.mul threshold (F32.of_int 255)) in
  ((forall x y, ~ alpha_above image t x y) ->
   GetImageAlphaBorder image threshold = Some (rect 0 0 0 0))
  /\ (forall x0 y0, alpha_above image t x0 y0 ->
      exists xMin xMax yMin yMax : Z,
        GetImageAlphaBorder image threshold
        = Some (rect xMin yMin (xMax + 1 - xMin) (yMax + 1 - yMin))
        /\ (forall x y, alpha_above image t x y ->
              xMin <= x <= xMax /\ yMin <= y <= yMax)
        /\ (exists y, alpha_above image t xMin y)
        /\ (exists y, alpha_above image t xMax y)
        /\ (exists x, alpha_above image t x yMin)
        /\ (exists x, alpha_above image t x yMax)).
Proof.
  intros Hm Hf Hok Hb HW HH t.
  destruct (LoadImageColors_alpha image m Hm Hf Hok Hb ltac:(lia) ltac:(lia))
    as (px & Epx & Apx).
  destruct (Hok m Hm) as [Hlen Hmax].
  pose proof (uncompressed_format_cases _ Hf) as Hpos.
  assert (Hmin : INT_MIN <= 0) by (unfold INT_MIN; lia).
  assert (HM : INT_MAX = 2147483647) by reflexivity.
  assert (HWH : width image * height image <= INT_MAX).
  { assert (0 < width image * height image) by (apply Z.mul_pos_pos; lia).
    assert (width image * height image
            <= width image * height image * GetPixelDataSize 1 1 (format image))
      by (apply Z.le_mul_diag_r; lia).
    lia. }
  set (alpha := fun x y => match GetImageColor image x y with
                           | Some c => a c
                           | None => 0
                           end).
  assert (Hload : forall x y, 0 <= x < width image -> 0 <= y < height image ->
            load_uchar px (4 * (y * width image + x) + 3) = Some (alpha x y)).
  { intros x y Hx Hy. destruct (Apx x y Hx Hy) as (c & Ec & Lc).
    unfold alpha. rewrite Ec. exact Lc. }
  assert (Habove : forall x y, 0 <= x < width image -> 0 <= y < height image ->
            (t < alpha x y <-> alpha_above image t x y)).
  { intros x y Hx Hy. unfold alpha_above, alpha.
    destruct (Apx x y Hx Hy) as (c & Ec & _). rewrite Ec. split.
    - intros Ht. split; [exact Hx|]. split; [exact Hy|]. exists c. split; [reflexivity | exact Ht].
    - intros (_ & _ & c' & Ec' & Ht). injection Ec' as <-. exact Ht. }
  destruct (GetImageAlphaBorder_scan px (width image) (height image) t alpha
              HW HH HWH Hload) as (xMin & xMax & yMin & yMax & Es & R).
  unfold GetImageAlphaBorder. rewrite Epx. cbn [bind]. fold t.
  cbv zeta. cbv zeta in Es. rewrite Es. cbn [bind].
  destruct R as [(A & -> & -> & -> & ->)
                | (C1 & C2 & C3 & C4 & A & (y1 & Hy1 & S1) & (y2 & Hy2 & S2)
                   & (x1 & Hx1 & S3) & (x2 & Hx2 & S4))].
  - cbn [Z.eqb Pos.eqb negb andb]. split; [intros _; reflexivity|].
    intros x0 y0 Hs. exfalso.
    pose proof Hs as (Hx0 & Hy0 & _). apply Habove in Hs; [|lia|lia].
    pose proof (A x0 y0 Hx0 Hy0). lia.
  - destruct (Z.eqb_spec xMin 65536); [lia|]. destruct (Z.eqb_spec xMax 65536); [lia|].
    cbn [negb andb].
    rewrite (int_small (xMax + 1)) by lia. rewrite (int_small (xMax + 1 - xMin)) by lia.
    rewrite (int_small (yMax + 1)) by lia. rewrite (int_small (yMax + 1 - yMin)) by lia.
    split.
    + intros Hn. exfalso. apply (Hn xMin y1). apply Habove; [lia | lia | exact S1].
    + intros x0 y0 _. exists xMin, xMax, yMin, yMax. split; [reflexivity|].
      split.
      { intros x y Hs. pose proof Hs as (Hx & Hy & _).
        apply (A x y Hx Hy). apply Habove; assumption. }
      split; [exists y1; apply Habove; [lia | lia | exact S1]|].
      split; [exists y2; apply Habove; [lia | lia | exact S2]|].
      split; [exists x1; apply Habove; [lia | lia | exact S3]|].
      exists x2; apply Habove; [lia | lia | exact S4].
Qed.

(** The theorem on a 3x2 image with two pixels that are not transparent. *)
Lemma GetImageAlphaBorder_box_witness :
  let image := mkImage (Some (map Byte [0; 0; 0; 0;  1; 1; 1; 9;  0; 0; 0; 0;
                                        0; 0; 0; 0;  0; 0; 0; 0;  2; 2; 2; 200]))
                 3 2 1 PIXELFORMAT_UNCOMPRESSED_R8G8B8A8 in
  exists xMin xMax yMin yMax : Z,
    GetImageAlphaBorder image f_zero
    = Some (rect xMin yMin (xMax + 1 - xMin) (yMax + 1 - yMin))
    /\ xMin <= 2 <= xMax /\ yMin <= 1 <= yMax.
Proof.
  intros image.
  assert (Hok : Image_ok image).
  { intros m Hm. injection Hm as <-. vm_compute. split; discriminate. }
  assert (Hb : Forall is_byte (map Byte [0; 0; 0; 0;  1; 1; 1; 9;  0; 0; 0; 0;
                                         0; 0; 0; 0;  0; 0; 0; 0;  2; 2; 2; 200])).
  { vm_compute. repeat constructor; discriminate. }
  destruct (GetImageAlphaBorder_box image _ f_zero eq_refl
              ltac:(vm_compute; split; discriminate) Hok Hb
              ltac:(cbn [width image]; lia) ltac:(cbn [height image]; lia)) as [_ B].
  assert (S : alpha_above image (F32.to_uchar (F32.mul f_zero (F32.of_int 255))) 2 1).
  { split; [cbn [width image]; lia|]. split; [cbn [height image]; lia|].
    exists (mkColor 2 2 2 200). split; [reflexivity | vm_compute; reflexivity]. }
  destruct (B 2 1 S) as (xMin & xMax & yMin & yMax & E & In & _).
  exists xMin, xMax, yMin, yMax. split; [exact E|]. exact (In 2 1 S).
Defined.

(** ** LoadImagePalette *)

(** A [while_loop] with an invariant and a measure that every iteration
    lowers returns, once the fuel exceeds the measure. *)
Lemma while_loop_inv_Some {St : Type} (Inv : St -> Prop) (measure : St -> Z)
    (cond : St -> bool) (body : St -> option St) (fuel : nat) :
  (forall s, Inv s -> cond s = true ->
     exists s', body s = Some s' /\ Inv s' /\ measure s' < measure s /\ 0 < measure s) ->
  forall s, Inv s -> Z.max 0 (measure s) < Z.of_nat fuel ->
  exists s', while_loop fuel cond body s = Some s' /\ Inv s' /\ cond s' = false.
Proof.
  intros Hstep. induction fuel as [|fuel IH]; intros s Hs Hfuel; [lia|].
  cbn [while_loop]. destruct (cond s) eqn:Hc.
  - destruct (Hstep s Hs Hc) as (s' & -> & Hs' & Hm). cbn [bind].
    apply IH; [exact Hs' | lia].
  - exists s. auto.
Qed.

Lemma load_Color_at (m : buffer) (i : Z) (c : Color) :
  Color_at m i c -> load_Color m i = Some c.
Proof.
  intros (A0 & A1 & A2 & A3). unfold load_Color.
  rewrite (load_uchar_Byte _ _ _ A0), (load_uchar_Byte _ _ _ A1),
          (load_uchar_Byte _ _ _ A2), (load_uchar_Byte _ _ _ A3).
  destruct c; reflexivity.
Qed.

Lemma Color_at_unique (m : buffer) (i : Z) (c1 c2 : Color) :
  Color_at m i c1 -> Color_at m i c2 -> c1 = c2.
Proof.
  intros (A0 & A1 & A2 & A3) (B0 & B1 & B2 & B3).
  destruct c1, c2; cbn in *. congruence.
Qed.

Lemma COLOR_EQUAL_spec (c1 c2 : Color) : COLOR_EQUAL c1 c2 = true <-> c1 = c2.
Proof.
  unfold COLOR_EQUAL. destruct c1 as [r1 g1 b1 a1], c2 as [r2 g2 b2 a2].
  cbn [r g b a]. split.
  - intros H. repeat (apply andb_prop in H as [H ?]).
    repeat match goal with E : (_ =? _) = true |- _ => apply Z.eqb_eq in E end.
    congruence.
  - intros H. injection H as -> -> -> ->. rewrite !Z.eqb_refl. reflexivity.
Qed.

(** The search finds a colour exactly when one of the entries holds it. *)
Lemma LoadImagePalette_search_spec (pal : buffer) (maxPaletteSize : Z) (pixel : Color) :
  (forall j, 0 <= j < maxPaletteSize -> exists c, Color_at pal j c) ->
  exists found : bool,
    LoadImagePalette_search (Some pal) maxPaletteSize pixel = Some found
    /\ (found = true <-> exists j, 0 <= j < maxPaletteSize /\ Color_at pal j pixel).
Proof.
  intros Hall. unfold LoadImagePalette_search, for_range.
  edestruct (for_loop_inv_Some
               (fun (j : Z) (found : bool) =>
                  found = true <-> exists j', 0 <= j' < j /\ Color_at pal j' pixel))
    as (found & E & I).
  3: { exists found. split; [exact E|]. cbv beta in I.
       destruct (Z.le_gt_cases maxPaletteSize 0) as [Hle|Hgt].
       - rewrite I. split; intros (j & Hj & A); exists j; split; try assumption; lia.
       - rewrite Z.sub_0_r, Z2Nat.id, Z.add_0_l in I by lia. exact I. }
  - split; [discriminate|]. intros (j & Hj & _). lia.
  - intros j found Hj I.
    assert (Hj' : 0 <= j < maxPaletteSize) by lia.
    destruct found.
    + eexists. split; [reflexivity|]. split; [|reflexivity]. intros _.
      destruct (proj1 I eq_refl) as (j' & Hjj & A). exists j'. split; [lia | exact A].
    + cbn [bind]. destruct (Hall j Hj') as (c & Ac).
      rewrite (load_Color_at pal j c Ac). cbn [bind].
      eexists. split; [reflexivity|]. split.
      * intros Heq. apply COLOR_EQUAL_spec in Heq. subst c. exists j. split; [lia | exact Ac].
      * intros (j' & Hjj & A).
        destruct (Z.eq_dec j' j) as [->|Ne].
        -- apply COLOR_EQUAL_spec. exact (Color_at_unique pal j pixel c A Ac).
        -- assert (F : false = true) by (apply I; exists j'; split; [lia | exact A]).
           discriminate.
Qed.

(** The main loop of [LoadImagePalette] over an array holding the colours
    [col 0], [col 1], ...: the palette collects, in order and once each,
    the colours with an alpha above 0, until it is full. *)
Lemma LoadImagePalette_loop (fuel : nat) (px pal0 : buffer) (count maxPaletteSize : Z)
    (col : Z -> Color) :
  0 <= count < INT_MAX -> 0 < maxPaletteSize <= INT_MAX ->
  Z.of_nat (length pal0) = 4 * maxPaletteSize ->
  (forall j, 0 <= j < maxPaletteSize -> Color_at pal0 j BLANK) ->
  (forall k, 0 <= k < count -> Color_at px k (col k) /\ Color_ok (col k)) ->
  count < Z.of_nat fuel ->
  exists (i : Z) (pal : buffer) (n : Z),
    while_loop fuel (fun '(i, _, _) => i <? count)
      (fun '(i, palette, palCount) =>
         do alpha <- load_uchar px (4 * i + 3);
         do '(i, palette, palCount) <-
           (if 0 <? alpha then
              do pixel <- load_Color px i;
              do colorInPalette <- LoadImagePalette_search palette maxPaletteSize pixel;
              if negb colorInPalette then
                do m <- palette;
                do m <- store_Color m palCount pixel;
                let palCount := int (palCount + 1) in
                if maxPaletteSize <=? palCount then Some (count, Some m, palCount)
                else Some (i, Some m, palCount)
              else Some (i, palette, palCount)
            else Some (i, palette, palCount));
         Some (int (i + 1), palette, palCount))
      (0, Some pal0, 0)
    = Some (i, Some pal, n)
    /\ Z.of_nat (length pal) = 4 * maxPaletteSize
    /\ 0 <= n <= maxPaletteSize
    /\ (forall j, 0 <= j < n ->
          exists k, 0 <= k < count /\ 0 < a (col k) /\ Color_at pal j (col k))
    /\ (forall j j' c, 0 <= j < n -> 0 <= j' < n ->
          Color_at pal j c -> Color_at pal j' c -> j = j')
    /\ (forall j, n <= j < maxPaletteSize -> Color_at pal j BLANK)
    /\ (n < maxPaletteSize ->
        forall k, 0 <= k < count -> 0 < a (col k) ->
          exists j, 0 <= j < n /\ Color_at pal j (col k)).
Proof.
  intros Hcount Hmax Lpal0 Hblank Hpx Hfuel.
  assert (Hmin : INT_MIN <= 0) by (unfold INT_MIN; lia).
  set (Inv := fun (s : Z * option buffer * Z) =>
         let '(i, palette, n) := s in
         exists pal, palette = Some pal
           /\ Z.of_nat (length pal) = 4 * maxPaletteSize
           /\ 0 <= n <= maxPaletteSize /\ 0 <= i <= count + 1
           /\ (n = maxPaletteSize -> count <= i)
           /\ (forall j, 0 <= j < n ->
                 exists k, 0 <= k < count /\ 0 < a (col k) /\ Color_at pal j (col k))
           /\ (forall j j' c, 0 <= j < n -> 0 <= j' < n ->
                 Color_at pal j c -> Color_at pal j' c -> j = j')
           /\ (forall j, n <= j < maxPaletteSize -> Color_at pal j BLANK)
           /\ (n < maxPaletteSize ->
               forall k, 0 <= k < i -> k < count -> 0 < a (col k) ->
                 exists j, 0 <= j < n /\ Color_at pal j (col k))).
  edestruct (while_loop_inv_Some Inv (fun '(i, _, _) => count - i))
    as (s' & Es & Is & Cs).
  4: { rewrite Es. destruct s' as [[i palette] n].
       destruct Is as (pal & -> & L & Hn & Hi & _ & En & Dn & Bn & Cn).
       apply Z.ltb_ge in Cs.
       exists i, pal, n. split; [reflexivity|].
       repeat (split; [assumption|]).
       intros Hlt k Hk Ha. apply Cn; try assumption; lia. }
  - (* one iteration *)
    intros [[i palette] n] (pal & -> & L & Hn & Hi & Hfull & En & Dn & Bn & Cn) Hc.
    apply Z.ltb_lt in Hc.
    assert (Hn' : n < maxPaletteSize) by lia.
    destruct (Hpx i ltac:(lia)) as [Ai Oki].
    pose proof Ai as (_ & _ & _ & A3).
    rewrite (load_uchar_Byte _ _ _ A3). cbn [bind].
    assert (Hall : forall j, 0 <= j < maxPaletteSize -> exists c, Color_at pal j c).
    { intros j Hj. destruct (Z.lt_ge_cases j n) as [Hlt|Hge].
      - destruct (En j ltac:(lia)) as (k & _ & _ & A). exists (col k). exact A.
      - exists BLANK. apply Bn. lia. }
    destruct (Z.ltb_spec 0 (a (col i))) as [Ha|Ha].
    + rewrite (load_Color_at _ _ _ Ai). cbn [bind].
      destruct (LoadImagePalette_search_spec pal maxPaletteSize (col i) Hall)
        as (found & -> & Hfound).
      cbn [bind].
      assert (Hfound' : found = true <-> exists j, 0 <= j < n /\ Color_at pal j (col i)).
      { rewrite Hfound. split; intros (j & Hj & A); exists j; (split; [|exact A]); [|lia].
        destruct (Z.lt_ge_cases j n) as [Hlt|Hge]; [lia|]. exfalso.
        pose proof (Color_at_unique pal j _ _ A (Bn j ltac:(lia))) as Eq.
        rewrite Eq in Ha. cbn in Ha. lia. }
      destruct found; cbn [negb].
      * (* already in the palette *)
        cbn [bind]. rewrite (int_small (i + 1)) by lia.
        eexists. split; [reflexivity|]. split; [|lia].
        exists pal. split; [reflexivity|]. split; [exact L|].
        split; [lia|]. split; [lia|]. split; [lia|].
        split; [exact En|]. split; [exact Dn|]. split; [exact Bn|].
        intros _ k Hk Hkc Hak.
        destruct (Z.eq_dec k i) as [->|Ne]; [apply Hfound'; reflexivity|].
        apply Cn; try assumption; lia.
      * (* a new colour *)
        cbn [bind].
        destruct (store_Color_at pal n (col i) ltac:(lia) ltac:(lia) Oki)
          as (pal' & -> & L' & At & Keep & _).
        cbn [bind]. cbv zeta. rewrite (int_small (n + 1)) by lia.
        assert (Hnew : forall j, 0 <= j < n -> ~ Color_at pal j (col i)).
        { intros j Hj A. assert (F : false = true) by (apply Hfound'; exists j; auto).
          discriminate. }
        assert (En' : forall j, 0 <= j < n + 1 ->
                  exists k, 0 <= k < count /\ 0 < a (col k) /\ Color_at pal' j (col k)).
        { intros j Hj. destruct (Z.eq_dec j n) as [->|Ne].
          - exists i. split; [lia|]. split; [exact Ha | exact At].
          - destruct (En j ltac:(lia)) as (k & Hk & Hak & A).
            exists k. split; [exact Hk|]. split; [exact Hak|]. apply Keep; assumption. }
        assert (Old : forall j c, 0 <= j < n -> Color_at pal' j c -> Color_at pal j c).
        { intros j c Hj A. destruct (En j Hj) as (k & _ & _ & Ak).
          pose proof (Keep j _ ltac:(lia) Ak) as Ak'.
          rewrite (Color_at_unique pal' j _ _ A Ak'). exact Ak. }
        assert (Dn' : forall j j' c, 0 <= j < n + 1 -> 0 <= j' < n + 1 ->
                  Color_at pal' j c -> Color_at pal' j' c -> j = j').
        { intros j j' c Hj Hj' A A'.
          destruct (Z.eq_dec j n) as [->|Ne]; destruct (Z.eq_dec j' n) as [->|Ne'];
            try reflexivity.
          - exfalso. rewrite (Color_at_unique pal' n _ _ A At) in A'.
            apply (Hnew j' ltac:(lia)). apply Old; [lia | exact A'].
          - exfalso. rewrite (Color_at_unique pal' n _ _ A' At) in A.
            apply (Hnew j ltac:(lia)). apply Old; [lia | exact A].
          - apply (Dn j j' c); try lia; apply Old; try lia; assumption. }
        assert (Bn' : forall j, n + 1 <= j < maxPaletteSize -> Color_at pal' j BLANK).
        { intros j Hj. apply Keep; [lia|]. apply Bn. lia. }
        assert (Cn' : forall k, 0 <= k < i + 1 -> k < count -> 0 < a (col k) ->
                  exists j, 0 <= j < n + 1 /\ Color_at pal' j (col k)).
        { intros k Hk Hkc Hak. destruct (Z.eq_dec k i) as [->|Ne].
          - exists n. split; [lia | exact At].
          - destruct (Cn Hn' k ltac:(lia) Hkc Hak) as (j & Hj & A).
            exists j. split; [lia|]. apply Keep; [lia | exact A]. }
        destruct (Z.leb_spec maxPaletteSize (n + 1)) as [Hfull'|Hroom].
        -- cbn [bind]. rewrite (int_small (count + 1)) by lia.
           eexists. split; [reflexivity|]. split; [|lia].
           exists pal'. split; [reflexivity|]. split; [lia|].
           split; [lia|]. split; [lia|]. split; [lia|].
           split; [exact En'|]. split; [exact Dn'|]. split; [exact Bn'|].
           intros Hlt. lia.
        -- cbn [bind]. rewrite (int_small (i + 1)) by lia.
           eexists. split; [reflexivity|]. split; [|lia].
           exists pal'. split; [reflexivity|]. split; [lia|].
           split; [lia|]. split; [lia|]. split; [lia|].
           split; [exact En'|]. split; [exact Dn'|]. split; [exact Bn'|].
           intros _. exact Cn'.
    + (* a transparent pixel *)
      cbn [bind]. rewrite (int_small (i + 1)) by lia.
      eexists. split; [reflexivity|]. split; [|lia].
      exists pal. split; [reflexivity|]. split; [exact L|].
      split; [lia|]. split; [lia|]. split; [lia|].
      split; [exact En|]. split; [exact Dn|]. split; [exact Bn|].
      intros _ k Hk Hkc Hak.
      destruct (Z.eq_dec k i) as [->|Ne]; [lia|].
      apply Cn; try assumption; lia.
  - (* the initial state *)
    exists pal0. split; [reflexivity|]. split; [exact Lpal0|].
    split; [lia|]. split; [lia|]. split; [lia|].
    split; [intros j Hj; lia|]. split; [intros j j' c Hj; lia|].
    split; [intros j Hj; apply Hblank; lia|].
    intros _ k Hk. lia.
  - cbv beta iota. lia.
Qed.

(** [LoadImagePalette] on an image of an uncompressed format other than R32
    whose buffer holds its pixels as defined bytes, with room for at least
    one colour: the palette has [maxPaletteSize] entries and the count [n]
    is at most [maxPaletteSize]; the first [n] entries are colours of pixels
    of the image with an alpha above 0, no colour is entered twice, and the
    entries after them are [BLANK]; unless the palette is full, every colour
    of the image with an alpha above 0 is in it. *)
Theorem LoadImagePalette_spec (fuel : nat) (image : Image) (m : buffer)
    (maxPaletteSize : Z) :
  data image = Some m ->
  PIXELFORMAT_UNCOMPRESSED_GRAYSCALE <= format image
    <= PIXELFORMAT_UNCOMPRESSED_R32G32B32A32 ->
  format image <> PIXELFORMAT_UNCOMPRESSED_R32 ->
  Image_ok image -> Forall is_byte m ->
  0 < width image -> 0 < height image -> width image * height image < INT_MAX ->
  0 < maxPaletteSize <= INT_MAX ->
  width image * height image < Z.of_nat fuel ->
  exists (pal : buffer) (n : Z),
    LoadImagePalette fuel image maxPaletteSize = Some (Some pal, n)
    /\ Z.of_nat (length pal) = 4 * maxPaletteSize
    /\ 0 <= n <= maxPaletteSize
    /\ (forall j, 0 <= j < n ->
          exists c x y, Color_at pal j c /\ 0 < a c
            /\ in_bounds image x y = true /\ GetImageColor image x y = Some c)
    /\ (forall j j' c, 0 <= j < n -> 0 <= j' < n ->
          Color_at pal j c -> Color_at pal j' c -> j = j')
    /\ (forall j, n <= j < maxPaletteSize -> Color_at pal j BLANK)
    /\ (n < maxPaletteSize ->
        forall x y c, in_bounds image x y = true -> GetImageColor image x y = Some c ->
          0 < a c -> exists j, 0 <= j < n /\ Color_at pal j c).
Proof.
  intros Hm Hf Hr Hok Hb HW HH Hcount Hmax Hfuel.
  assert (Hmin : INT_MIN <= 0) by (unfold INT_MIN; lia).
  assert (HM : INT_MAX = 2147483647) by reflexivity.
  destruct (LoadImageColors_colors image m Hm Hf Hok Hb HW HH) as (px & Epx & Lpx & Cpx).
  apply Z.eqb_neq in Hr. rewrite Hr in Cpx. cbv zeta iota in Cpx.
  assert (Hc0 : 0 < width image * height image) by (apply Z.mul_pos_pos; lia).
  set (count := width image * height image) in *.
  set (col := fun k => match load_Color px k with Some c => c | None => BLANK end).
  assert (Hcol : forall k, 0 <= k < count ->
            Color_at px k (col k) /\ Color_ok (col k)
            /\ GetImageColor image (k mod width image) (k / width image) = Some (col k)).
  { intros k Hk. destruct (Cpx k Hk) as (c & Ec & Okc & At).
    unfold col. rewrite (load_Color_at px k c At). auto. }
  unfold LoadImagePalette. rewrite Epx. cbn [bind].
  rewrite (size_t_small maxPaletteSize) by lia.
  rewrite (size_t_small (maxPaletteSize * 4)) by lia.
  unfold RL_MALLOC.
  destruct (Z.ltb_spec (maxPaletteSize * 4) 9223372036854775808); [|lia].
  destruct (GenImageColor_loop maxPaletteSize BLANK
              (replicate (Z.to_nat (maxPaletteSize * 4)) Undef))
    as (pal0 & E0 & L0 & B0).
  { lia. }
  { rewrite length_replicate. lia. }
  { repeat split; cbn; lia. }
  rewrite E0. cbn [bind]. fold count. rewrite (int_small count) by lia.
  destruct (LoadImagePalette_loop fuel px pal0 count maxPaletteSize col)
    as (i & pal & n & El & L & Hn & En & Dn & Bn & Cn); try assumption; try lia.
  { intros k Hk. destruct (Hcol k Hk) as (A & B & _). auto. }
  cbv zeta in El. cbv zeta. rewrite El. cbn [bind].
  exists pal, n. split; [reflexivity|]. split; [exact L|]. split; [exact Hn|].
  split.
  { intros j Hj. destruct (En j Hj) as (k & Hk & Ha & A).
    destruct (Hcol k Hk) as (_ & _ & G).
    destruct (row_major_index (width image) (height image) k HW Hk) as (Rx & Ry & _).
    exists (col k), (k mod width image), (k / width image).
    split; [exact A|]. split; [exact Ha|]. split; [|exact G].
    apply in_bounds_spec. auto. }
  split; [exact Dn|]. split; [exact Bn|].
  intros Hlt x y c Hin G Ha. apply in_bounds_spec in Hin as [Hx Hy].
  destruct (row_major_bound (width image) (height image) x y Hx Hy) as [B1 B2].
  destruct (row_major_split (width image) x y Hx) as [D1 D2].
  destruct (Hcol (y * width image + x) ltac:(fold count in B2; lia)) as (_ & _ & G').
  rewrite D1, D2, G in G'. injection G' as Ec.
  destruct (Cn Hlt (y * width image + x) ltac:(fold count in B2; lia)) as (j & Hj & A).
  { rewrite <- Ec. exact Ha. }
  exists j. split; [exact Hj|]. rewrite Ec. exact A.
Qed.

(** The theorem on a 3x2 image with three colours that are not
    transparent, for a palette of four entries. *)
Lemma LoadImagePalette_spec_witness :
  let image := mkImage (Some (map Byte [5; 5; 5; 255;  1; 1; 1; 9;  5; 5; 5; 255;
                                        0; 0; 0; 0;  1; 1; 1; 9;  2; 2; 2; 200]))
                 3 2 1 PIXELFORMAT_UNCOMPRESSED_R8G8B8A8 in
  exists (pal : buffer) (n : Z),
    LoadImagePalette 7 image 4 = Some (Some pal, n) /\ 0 <= n <= 4
    /\ (n < 4 -> exists j, 0 <= j < n /\ Color_at pal j (mkColor 2 2 2 200)).
Proof.
  intros image.
  assert (Hok : Image_ok image).
  { intros m Hm. injection Hm as <-. vm_compute. split; discriminate. }
  assert (Hb : Forall is_byte (map Byte [5; 5; 5; 255;  1; 1; 1; 9;  5; 5; 5; 255;
                                         0; 0; 0; 0;  1; 1; 1; 9;  2; 2; 2; 200])).
  { vm_compute. repeat constructor; discriminate. }
  destruct (LoadImagePalette_spec 7 image _ 4 eq_refl
              ltac:(vm_compute; split; discriminate) ltac:(vm_compute; discriminate)
              Hok Hb ltac:(cbn [width image]; lia) ltac:(cbn [height image]; lia)
              ltac:(vm_compute; reflexivity) ltac:(vm_compute; split; [reflexivity | discriminate])
              ltac:(cbn [width height image]; lia))
    as (pal & n & E & _ & Hn & _ & _ & _ & C).
  exists pal, n. split; [exact E|]. split; [exact Hn|].
  intros Hlt. apply (C Hlt 2 1); reflexivity.
Defined.

(** ** GetImageColor and GetPixelColor *)

(** The product of a pixel field and the integer ratio of [GetImageColor],
    computed in binary32 and converted to [unsigned char]. *)
Lemma scaled_field (v ratio : Z) :
  0 <= v < 64 -> 0 <= ratio < 64 -> v * ratio < 256 ->
  F32.to_uchar (F32.mul (F32.of_int v) (F32.of_int ratio)) = v * ratio.
Proof.
  intros Hv Hr Hvr.
  assert (P24 : 2 ^ 24 = 16777216) by reflexivity.
  assert (0 <= v * ratio) by (apply Z.mul_nonneg_nonneg; lia).
  unfold F32.to_uchar. rewrite !of_int_canonical by lia.
  rewrite to_int_mul_canonical by lia.
  apply Z.mod_small. lia.
Qed.

Lemma ushort_fields (p : Z) :
  0 <= p < 65536 ->
  (Z.shiftr p 11 = p / 2048 /\ Z.shiftr p 12 = p / 4096
   /\ Z.shiftr (Z.land p 63488) 11 = p / 2048
   /\ Z.shiftr (Z.land p 61440) 12 = p / 4096)
  /\ (Z.land (Z.shiftr p 5) 63 = (p / 32) mod 64
      /\ Z.shiftr (Z.land p 2016) 5 = (p / 32) mod 64
      /\ Z.land (Z.shiftr p 6) 31 = (p / 64) mod 32
      /\ Z.shiftr (Z.land p 1984) 6 = (p / 64) mod 32
      /\ Z.shiftr (Z.land p 62) 1 = (p / 2) mod 32)
  /\ (Z.land (Z.shiftr p 8) 15 = (p / 256) mod 16
      /\ Z.shiftr (Z.land p 3840) 8 = (p / 256) mod 16
      /\ Z.land (Z.shiftr p 4) 15 = (p / 16) mod 16
      /\ Z.shiftr (Z.land p 240) 4 = (p / 16) mod 16)
  /\ (Z.land p 31 = p mod 32 /\ Z.land p 15 = p mod 16 /\ Z.land p 1 = p mod 2).
Proof.
  intros Hp.
  assert (S : forall k, 0 <= k -> Z.shiftr p k = p / 2 ^ k)
    by (intros k Hk; apply Z.shiftr_div_pow2; exact Hk).
  assert (M : forall a n, 0 <= n -> Z.land a (Z.ones n) = a mod 2 ^ n)
    by (intros a n Hn; apply Z.land_ones; exact Hn).
  assert (T : p / 2048 < 32 /\ p / 4096 < 16 /\ 0 <= p / 2048 /\ 0 <= p / 4096).
  { repeat split; try (apply Z.div_pos; lia); apply Z.div_lt_upper_bound; lia. }
  rewrite !Z.shiftr_land.
  change (Z.shiftr 63488 11) with (Z.ones 5). change (Z.shiftr 61440 12) with (Z.ones 4).
  change (Z.shiftr 2016 5) with (Z.ones 6). change (Z.shiftr 1984 6) with (Z.ones 5).
  change (Z.shiftr 62 1) with (Z.ones 5). change (Z.shiftr 3840 8) with (Z.ones 4).
  change (Z.shiftr 240 4) with (Z.ones 4).
  change 63 with (Z.ones 6). change 31 with (Z.ones 5). change 15 with (Z.ones 4).
  change (Z.land p 1) with (Z.land p (Z.ones 1)).
  rewrite !M by lia. rewrite !S by lia.
  change (2 ^ 11) with 2048. change (2 ^ 12) with 4096. change (2 ^ 5) with 32.
  change (2 ^ 6) with 64. change (2 ^ 1) with 2. change (2 ^ 8) with 256.
  change (2 ^ 4) with 16.
  rewrite (Z.mod_small (p / 2048) 32) by lia.
  rewrite (Z.mod_small (p / 4096) 16) by lia.
  repeat split; reflexivity.
Qed.

Lemma load_ushort_defined (m : buffer) (off : Z) :
  Forall is_byte m -> 0 <= off -> off + 2 <= Z.of_nat (length m) ->
  exists p, load_ushort m off = Some p /\ 0 <= p < 65536.
Proof.
  intros Hb H0 H1. unfold load_ushort.
  destruct (load_uchar_defined m off Hb ltac:(lia)) as (b0 & -> & U0).
  destruct (load_uchar_defined m (off + 1) Hb ltac:(lia)) as (b1 & -> & U1).
  cbn [bind]. eexists. split; [reflexivity|]. unfold is_uchar in *. lia.
Qed.

Lemma upscaled_small (v levels : Z) :
  0 <= v <= levels -> 0 < levels < 256 ->
  uchar (int (v * 255) ÷ levels) = v * 255 / levels.
Proof.
  intros Hv Hl. rewrite int_small by (unfold INT_MIN, INT_MAX; lia).
  rewrite Z.quot_div_nonneg by lia. apply Z.mod_small.
  split; [apply Z.div_pos; lia | apply Z.div_lt_upper_bound; lia].
Qed.

(** [GetImageColor] and [GetPixelColor] on the same pixel of an image whose
    buffer holds its pixels as defined bytes.  They return the same colour
    for GRAYSCALE, GRAY_ALPHA, R8G8B8, R8G8B8A8, R4G4B4A4 and R32G32B32.  For
    R5G6B5 and R5G5B5A1 they decode the pixel differently; for R32
    [GetImageColor] returns green and blue 0 where [GetPixelColor] repeats
    the value; for R32G32B32A32 [GetImageColor] returns the red of
    [GetPixelColor] in all four channels. *)
Theorem GetImageColor_GetPixelColor (image : Image) (m : buffer) (x y : Z) :
  data image = Some m ->
  PIXELFORMAT_UNCOMPRESSED_GRAYSCALE <= format image
    <= PIXELFORMAT_UNCOMPRESSED_R32G32B32A32 ->
  Image_ok image -> Forall is_byte m ->
  0 <= x < width image -> 0 <= y < height image ->
  let f := format image in
  let off := (y * width image + x) * GetPixelDataSize 1 1 f in
  (f = PIXELFORMAT_UNCOMPRESSED_GRAYSCALE \/ f = PIXELFORMAT_UNCOMPRESSED_GRAY_ALPHA
   \/ f = PIXELFORMAT_UNCOMPRESSED_R8G8B8 \/ f = PIXELFORMAT_UNCOMPRESSED_R8G8B8A8
   \/ f = PIXELFORMAT_UNCOMPRESSED_R4G4B4A4 \/ f = PIXELFORMAT_UNCOMPRESSED_R32G32B32 ->
   GetImageColor image x y = GetPixelColor m off f)
  /\ (f = PIXELFORMAT_UNCOMPRESSED_R5G6B5 \/ f = PIXELFORMAT_UNCOMPRESSED_R5G5B5A1 ->
      exists p, load_ushort m off = Some p /\ 0 <= p < 65536
        /\ GetImageColor image x y = Some (GetImageColor_16bit f p)
        /\ GetPixelColor m off f = Some (GetPixelColor_16bit f p))
  /\ (f = PIXELFORMAT_UNCOMPRESSED_R32 ->
      exists v, GetImageColor image x y = Some (mkColor v 0 0 255)
        /\ GetPixelColor m off f = Some (mkColor v v v 255))
  /\ (f = PIXELFORMAT_UNCOMPRESSED_R32G32B32A32 ->
      exists c, GetPixelColor m off f = Some c
        /\ GetImageColor image x y = Some (mkColor (r c) (r c) (r c) (r c))).
Proof.
  intros Hm Hf Hok Hb Hx Hy f off.
  destruct (Hok m Hm) as [Hlen Hmax]. clear Hok.
  assert (Hmin : INT_MIN <= 0) by (unfold INT_MIN; lia).
  assert (HM : INT_MAX = 2147483647) by reflexivity.
  pose proof (uncompressed_format_cases _ Hf) as Hpos.
  destruct (pixel_offset_range (width image) (height image) _ x y Hx Hy Hpos Hmax)
    as (P1 & P2 & P3).
  assert (P4 : y * width image + x + 1
               <= (y * width image + x + 1) * GetPixelDataSize 1 1 (format image))
    by (apply Z.le_mul_diag_r; lia).
  assert (Hidx : int (int (y * width image) + x) = y * width image + x).
  { rewrite (int_small (y * width image)) by lia. apply int_small. lia. }
  unfold GetImageColor, GetPixelColor.
  destruct (Z.leb_spec 0 x); [|lia]. destruct (Z.ltb_spec x (width image)); [|lia].
  destruct (Z.leb_spec 0 y); [|lia]. destruct (Z.ltb_spec y (height image)); [|lia].
  cbn [andb]. rewrite Hidx, Hm. cbn [bind]. subst off f.
  set (i := y * width image + x) in *. clearbody i.
  clear Hidx P1 Hx Hy.
  format_cases Hf; rewrite C in *;
    (set (bpp := GetPixelDataSize 1 1 _) in *; vm_compute in bpp; subst bpp);
    (split; [|split; [|split]]);
    (intros Hc; try (exfalso; vm_compute in Hc; intuition discriminate); clear Hc);
    format_tests; rewrite ?int_small by lia.
  - (* GRAYSCALE *)
    replace (i * 1) with i by ring. reflexivity.
  - (* GRAY_ALPHA *)
    reflexivity.
  - (* R5G6B5 *)
    destruct (load_ushort_defined m (i * 2) Hb ltac:(lia) ltac:(lia)) as (p & Ep & Hp).
    exists p. split; [exact Ep|]. split; [exact Hp|].
    replace (2 * i) with (i * 2) by ring. rewrite Ep. cbn [bind].
    destruct (ushort_fields p Hp) as ((F1 & _ & F2 & _) & (F3 & F4 & _) & _ & (F5 & _)).
    rewrite F1, F2, F3, F4, F5.
    assert (B1 : 0 <= p / 2048 < 32)
      by (split; [apply Z.div_pos; lia | apply Z.div_lt_upper_bound; lia]).
    pose proof (Z.mod_pos_bound (p / 32) 64 ltac:(lia)) as B2.
    pose proof (Z.mod_pos_bound p 32 ltac:(lia)) as B3.
    change (255 ÷ 31) with 8. change (255 ÷ 63) with 4.
    rewrite !scaled_field by lia. rewrite !upscaled_small by lia.
    unfold GetImageColor_16bit, GetPixelColor_16bit. format_tests.
    split; f_equal; f_equal; ring.
  - (* R8G8B8 *)
    reflexivity.
  - (* R5G5B5A1 *)
    destruct (load_ushort_defined m (i * 2) Hb ltac:(lia) ltac:(lia)) as (p & Ep & Hp).
    exists p. split; [exact Ep|]. split; [exact Hp|].
    replace (2 * i) with (i * 2) by ring. rewrite Ep. cbn [bind].
    destruct (ushort_fields p Hp)
      as ((F1 & _ & F2 & _) & (_ & _ & F3 & F4 & F5) & _ & (F6 & _ & F7)).
    rewrite F1, F2, F3, F4, F5, F6, F7.
    assert (B1 : 0 <= p / 2048 < 32)
      by (split; [apply Z.div_pos; lia | apply Z.div_lt_upper_bound; lia]).
    pose proof (Z.mod_pos_bound (p / 64) 32 ltac:(lia)) as B2.
    pose proof (Z.mod_pos_bound (p / 2) 32 ltac:(lia)) as B3.
    pose proof (Z.mod_pos_bound p 32 ltac:(lia)) as B4.
    pose proof (Z.mod_pos_bound p 2 ltac:(lia)) as B5.
    change (255 ÷ 31) with 8.
    rewrite !scaled_field by lia. rewrite !upscaled_small by lia.
    rewrite (int_small (p mod 2 * 255)) by lia.
    rewrite (uchar_small (p mod 2 * 255)) by (unfold is_uchar; lia).
    unfold GetImageColor_16bit, GetPixelColor_16bit. format_tests.
    replace (if p mod 2 =? 0 then 0 else 255) with (255 * (p mod 2))
      by (destruct (Z.eqb_spec (p mod 2) 0); lia).
    split; f_equal; f_equal; ring.
  - (* R4G4B4A4 *)
    destruct (load_ushort_defined m (i * 2) Hb ltac:(lia) ltac:(lia)) as (p & Ep & Hp).
    replace (2 * i) with (i * 2) by ring. rewrite Ep. cbn [bind].
    destruct (ushort_fields p Hp) as ((_ & F1 & _ & F2) & _ & (F3 & F4 & F5 & F6) & (_ & F7 & _)).
    rewrite F1, F2, F3, F4, F5, F6, F7.
    assert (B1 : 0 <= p / 4096 < 16)
      by (split; [apply Z.div_pos; lia | apply Z.div_lt_upper_bound; lia]).
    pose proof (Z.mod_pos_bound (p / 256) 16 ltac:(lia)) as B2.
    pose proof (Z.mod_pos_bound (p / 16) 16 ltac:(lia)) as B3.
    pose proof (Z.mod_pos_bound p 16 ltac:(lia)) as B4.
    change (255 ÷ 15) with 17.
    rewrite !scaled_field by lia. rewrite !upscaled_small by lia.
    assert (E17 : forall v, v * 255 / 15 = v * 17).
    { intros v. replace (v * 255) with (v * 17 * 15) by ring. apply Z.div_mul. lia. }
    rewrite !E17. reflexivity.
  - (* R8G8B8A8 *)
    reflexivity.
  - (* R32 *)
    unfold load_float, load_uint.
    replace (4 * i) with (i * 4) by ring.
    repeat match goal with
      | |- context [load_uchar m ?e] =>
          let v := fresh "v" in let E := fresh "E" in let U := fresh "U" in
          destruct (load_uchar_defined m e Hb ltac:(lia)) as (v & E & U);
          rewrite E; clear E; cbn [bind]
      end.
    eexists. split; reflexivity.
  - (* R32G32B32 *)
    replace (4 * (i * 3)) with (i * 12) by ring.
    replace (4 * (i * 3 + 1)) with (i * 12 + 4) by ring.
    replace (4 * (i * 3 + 2)) with (i * 12 + 8) by ring.
    destruct (load_float m (i * 12)); cbn [bind]; [|reflexivity].
    destruct (load_float m (i * 12 + 4)); cbn [bind]; [|reflexivity].
    destruct (load_float m (i * 12 + 8)); cbn [bind]; reflexivity.
  - (* R32G32B32A32 *)
    unfold load_float, load_uint.
    replace (4 * (i * 4)) with (i * 16) by ring.
    repeat match goal with
      | |- context [load_uchar m ?e] =>
          let v := fresh "v" in let E := fresh "E" in let U := fresh "U" in
          destruct (load_uchar_defined m e Hb ltac:(lia)) as (v & E & U);
          rewrite E; clear E; cbn [bind]
      end.
    eexists. split; reflexivity.
Qed.

(** The theorem on a white R5G6B5 pixel. *)
Lemma GetImageColor_GetPixelColor_witness :
  let image := mkImage (Some [Byte 255; Byte 255]) 1 1 1 PIXELFORMAT_UNCOMPRESSED_R5G6B5 in
  GetImageColor image 0 0 = Some (mkColor 248 252 248 255)
  /\ GetPixelColor [Byte 255; Byte 255] 0 PIXELFORMAT_UNCOMPRESSED_R5G6B5
     = Some (mkColor 255 255 255 255).
Proof.
  intros image.
  assert (Hok : Image_ok image).
  { intros m Hm. injection Hm as <-. vm_compute. split; discriminate. }
  assert (Hb : Forall is_byte [Byte 255; Byte 255]).
  { repeat constructor; vm_compute; discriminate. }
  destruct (GetImageColor_GetPixelColor image _ 0 0 eq_refl
              ltac:(vm_compute; split; discriminate) Hok Hb
              ltac:(cbn [width image]; lia) ltac:(cbn [height image]; lia))
    as (_ & S & _).
  destruct (S ltac:(left; reflexivity)) as (p & Ep & _ & G1 & G2).
  vm_compute in Ep. injection Ep as <-.
  split; [exact G1 | exact G2].
Defined.

(** ** ImageFormat between the 8-bit formats *)

Lemma uint_bytes (v : Z) :
  0 <= v < 4294967296 ->
  uchar v + 256 * uchar (Z.shiftr v 8) + 65536 * uchar (Z.shiftr v 16)
  + 16777216 * uchar (Z.shiftr v 24) = v.
Proof.
  intros Hv. unfold uchar. rewrite !Z.shiftr_div_pow2 by lia.
  change (2 ^ 8) with 256. change (2 ^ 16) with 65536. change (2 ^ 24) with 16777216.
  pose proof (Z.div_mod v 256 ltac:(lia)) as D0.
  assert (D1 : v / 256 = 256 * (v / 65536) + (v / 256) mod 256).
  { replace (v / 65536) with (v / 256 / 256) by (rewrite Z.div_div by lia; reflexivity).
    apply Z.div_mod. lia. }
  assert (D2 : v / 65536 = 256 * (v / 16777216) + (v / 65536) mod 256).
  { replace (v / 16777216) with (v / 65536 / 256) by (rewrite Z.div_div by lia; reflexivity).
    apply Z.div_mod. lia. }
  assert (H3 : 0 <= v / 16777216 < 256)
    by (split; [apply Z.div_pos; lia | apply Z.div_lt_upper_bound; lia]).
  rewrite (Z.mod_small (v / 16777216) 256) by lia.
  lia.
Qed.

Lemma store_load_uint (m : buffer) (off v : Z) :
  0 <= off -> off + 4 <= Z.of_nat (length m) -> 0 <= v < 4294967296 ->
  exists m', store_uint m off v = Some m' /\ length m' = length m
    /\ load_uint m' off = Some v
    /\ forall k, k < off \/ off + 4 <= k -> load_uchar m' k = load_uchar m k.
Proof.
  intros H0 H1 Hv. unfold store_uint, load_uint.
  destruct (store_load_uchar m off v ltac:(lia)) as (m1 & -> & L1 & G1 & K1).
  cbn [bind].
  destruct (store_load_uchar m1 (off + 1) (Z.shiftr v 8) ltac:(lia))
    as (m2 & -> & L2 & G2 & K2). cbn [bind].
  destruct (store_load_uchar m2 (off + 2) (Z.shiftr v 16) ltac:(lia))
    as (m3 & -> & L3 & G3 & K3). cbn [bind].
  destruct (store_load_uchar m3 (off + 3) (Z.shiftr v 24) ltac:(lia))
    as (m4 & -> & L4 & G4 & K4).
  exists m4. split; [reflexivity|]. split; [congruence|]. split.
  - rewrite (K4 off), (K3 off), (K2 off), G1 by lia.
    rewrite (K4 (off + 1)), (K3 (off + 1)), G2 by lia.
    rewrite (K4 (off + 2)), G3 by lia. rewrite G4. cbn [bind].
    rewrite uint_bytes by assumption. reflexivity.
  - intros k Hk. rewrite K4, K3, K2, K1 by lia. reflexivity.
Qed.

Lemma store_load_float (m : buffer) (off : Z) (x : float) :
  0 <= off -> off + 4 <= Z.of_nat (length m) -> representable x ->
  exists m', store_float m off x = Some m' /\ length m' = length m
    /\ load_float m' off = Some x
    /\ forall k, k < off \/ off + 4 <= k -> load_uchar m' k = load_uchar m k.
Proof.
  intros H0 H1 [Hb Hx]. unfold store_float, load_float.
  destruct (store_load_uint m off (F32.to_bits x) H0 H1 Hb) as (m' & E & L & G & K).
  exists m'. split; [exact E|]. split; [exact L|]. split; [|exact K].
  rewrite G. cbn [bind]. rewrite Hx. reflexivity.
Qed.

Lemma load_float_ext (m1 m2 : buffer) (off : Z) :
  (forall k, off <= k < off + 4 -> load_uchar m1 k = load_uchar m2 k) ->
  load_float m1 off = load_float m2 off.
Proof.
  intros H. unfold load_float, load_uint.
  rewrite (H off), (H (off + 1)), (H (off + 2)), (H (off + 3)) by lia. reflexivity.
Qed.

Lemma store_load_Vector4 (m : buffer) (i : Z) (v : Vector4) :
  0 <= i -> 16 * i + 16 <= Z.of_nat (length m) ->
  representable (v_x v) -> representable (v_y v) ->
  representable (v_z v) -> representable (v_w v) ->
  exists m', store_Vector4 m i v = Some m' /\ length m' = length m
    /\ load_Vector4 m' i = Some v
    /\ forall j, j <> i -> load_Vector4 m' j = load_Vector4 m j.
Proof.
  intros H0 H1 Rx Ry Rz Rw. unfold store_Vector4.
  destruct (store_load_float m (16 * i) (v_x v) ltac:(lia) ltac:(lia) Rx)
    as (m1 & -> & L1 & G1 & K1). cbn [bind].
  destruct (store_load_float m1 (16 * i + 4) (v_y v) ltac:(lia) ltac:(lia) Ry)
    as (m2 & -> & L2 & G2 & K2). cbn [bind].
  destruct (store_load_float m2 (16 * i + 8) (v_z v) ltac:(lia) ltac:(lia) Rz)
    as (m3 & -> & L3 & G3 & K3). cbn [bind].
  destruct (store_load_float m3 (16 * i + 12) (v_w v) ltac:(lia) ltac:(lia) Rw)
    as (m4 & -> & L4 & G4 & K4).
  exists m4. split; [reflexivity|]. split; [congruence|]. split.
  - unfold load_Vector4.
    rewrite (load_float_ext m4 m1 (16 * i))
      by (intros k Hk; rewrite K4, K3, K2 by lia; reflexivity).
    rewrite (load_float_ext m4 m2 (16 * i + 4))
      by (intros k Hk; rewrite K4, K3 by lia; reflexivity).
    rewrite (load_float_ext m4 m3 (16 * i + 8))
      by (intros k Hk; rewrite K4 by lia; reflexivity).
    rewrite G1, G2, G3, G4. cbn [bind]. destruct v; reflexivity.
  - intros j Hj. unfold load_Vector4.
    assert (E : forall c, 0 <= c <= 12 ->
              load_float m4 (16 * j + c) = load_float m (16 * j + c)).
    { intros c Hc. apply load_float_ext. intros k Hk.
      rewrite K4, K3, K2, K1 by lia. reflexivity. }
    pose proof (E 0 ltac:(lia)) as E0. rewrite Z.add_0_r in E0.
    rewrite E0, (E 4), (E 8), (E 12) by lia. reflexivity.
Qed.

Lemma normalized_representable (v : Z) : is_uchar v -> representable (normalized v).
Proof.
  intros Hv.
  set (ok := fun x : float =>
         (0 <=? F32.to_bits x) && (F32.to_bits x <? 4294967296)
         && match x, F32.of_bits (F32.to_bits x) with
            | S754_finite s m e, S754_finite s' m' e' =>
                Bool.eqb s s' && (Zpos m =? Zpos m') && (e =? e')
            | S754_zero s, S754_zero s' => Bool.eqb s s'
            | _, _ => false
            end).
  assert (A : all_below 256 (fun v => ok (normalized v)) = true)
    by (vm_compute; reflexivity).
  pose proof (all_below_spec 256 _ A v Hv) as H. cbv beta in H.
  unfold ok in H. clear A ok.
  apply andb_prop in H as [H H3]. apply andb_prop in H as [H1 H2].
  apply Z.leb_le in H1. apply Z.ltb_lt in H2.
  split; [lia|].
  destruct (normalized v) as [s| | |s m e]; try discriminate;
    destruct (F32.of_bits _) as [s'| | |s' m' e']; try discriminate.
  - apply Bool.eqb_prop in H3. congruence.
  - apply andb_prop in H3 as [H3 H6]. apply andb_prop in H3 as [H4 H5].
    apply Bool.eqb_prop in H4. apply Z.eqb_eq in H5, H6. congruence.
Qed.

Lemma normalized_255 : normalized 255 = f_one.
Proof. vm_compute. reflexivity. Qed.

Lemma eight_bit_uncompressed (f : Z) :
  eight_bit f ->
  PIXELFORMAT_UNCOMPRESSED_GRAYSCALE <= f <= PIXELFORMAT_UNCOMPRESSED_R32G32B32A32.
Proof. intros [-> | [-> | [-> | ->]]]; vm_compute; split; discriminate. Qed.

(** One iteration of the loop of [LoadImageDataNormalized] on an 8-bit
    format: the normalized channels of the colour [GetImageColor] reads. *)
Lemma normalized_pixel_GetImageColor (image : Image) (m : buffer) (i : Z) :
  data image = Some m -> eight_bit (format image) ->
  Image_ok image -> 0 < width image -> 0 <= i < width image * height image ->
  let step := LoadImageColors_step (format image) in
  normalized_pixel m (format image) i (step * i)
  = do c <- GetImageColor image (i mod width image) (i / width image);
    Some (Some (normalized_color c), step * (i + 1)).
Proof.
  intros Hm H8 Hok HW Hi step.
  pose proof (eight_bit_uncompressed _ H8) as Hf.
  destruct (row_major_index (width image) (height image) i HW Hi) as (Hx & Hy & Ej).
  destruct (Hok m Hm) as [Hlen Hmax]. clear Hok.
  assert (Hmin : INT_MIN <= 0) by (unfold INT_MIN; lia).
  assert (HM : INT_MAX = 2147483647) by reflexivity.
  pose proof (uncompressed_format_cases _ Hf) as Hpos.
  assert (Hidx : int (int (i / width image * width image) + i mod width image) = i).
  { destruct (pixel_offset_range (width image) (height image) _
                (i mod width image) (i / width image) Hx Hy Hpos Hmax) as (P1 & P2 & P3).
    assert (i + 1 <= (i + 1) * GetPixelDataSize 1 1 (format image))
      by (apply Z.le_mul_diag_r; lia).
    rewrite Ej in P3.
    rewrite (int_small (i / width image * width image)) by lia.
    rewrite Ej. apply int_small. lia. }
  assert (Hbig : (i + 1) * GetPixelDataSize 1 1 (format image) <= INT_MAX).
  { assert ((i + 1) * GetPixelDataSize 1 1 (format image)
            <= width image * height image * GetPixelDataSize 1 1 (format image))
      by (apply Z.mul_le_mono_nonneg_r; lia).
    lia. }
  unfold GetImageColor.
  destruct (Z.leb_spec 0 (i mod width image)); [|lia].
  destruct (Z.ltb_spec (i mod width image) (width image)); [|lia].
  destruct (Z.leb_spec 0 (i / width image)); [|lia].
  destruct (Z.ltb_spec (i / width image) (height image)); [|lia].
  cbn [andb]. rewrite Hidx, Hm. unfold normalized_pixel. subst step.
  clear Hidx Ej Hx Hy Hlen Hmax Hf.
  destruct H8 as [C | [C | [C | C]]]; rewrite C in *; format_tests;
    (set (bpp := GetPixelDataSize 1 1 _) in *; vm_compute in bpp; subst bpp);
    (set (st := LoadImageColors_step _) in *; vm_compute in st; subst st);
    cbn [bind];
    rewrite ?int_small by lia;
    try replace (i * 2) with (2 * i) by ring;
    try replace (i * 3) with (3 * i) by ring;
    try replace (i * 4) with (4 * i) by ring;
    try replace (0 * i) with 0 by ring;
    try replace (0 * (i + 1)) with 0 by ring;
    repeat match goal with
      | |- context [load_uchar m ?e] =>
          destruct (load_uchar m e); cbn [bind]; [|reflexivity]
      end;
    unfold normalized_color; cbn [r g b a]; rewrite ?normalized_255;
    try reflexivity; (f_equal; f_equal; lia).
Qed.

(** [LoadImageDataNormalized] on an image of an 8-bit format: the array
    holds, pixel by pixel, the normalized channels of the colours of the
    image. *)
Lemma LoadImageDataNormalized_8bit (image : Image) (m : buffer) :
  data image = Some m -> eight_bit (format image) ->
  Image_ok image -> Forall is_byte m ->
  0 < width image -> 0 < height image ->
  exists px : buffer,
    LoadImageDataNormalized image = Some (Some px)
    /\ Z.of_nat (length px) = 16 * (width image * height image)
    /\ forall i, 0 <= i < width image * height image ->
         exists c, GetImageColor image (i mod width image) (i / width image) = Some c
                   /\ Color_ok c /\ load_Vector4 px i = Some (normalized_color c).
Proof.
  intros Hm H8 Hok Hb HW HH.
  pose proof (eight_bit_uncompressed _ H8) as Hf.
  destruct (Hok m Hm) as [Hlen Hmax].
  assert (Hmin : INT_MIN <= 0) by (unfold INT_MIN; lia).
  assert (HM : INT_MAX = 2147483647) by reflexivity.
  pose proof (uncompressed_bytes_per_pixel _ Hf) as [Hpos Hunc].
  assert (Hcount : 0 < width image * height image <= INT_MAX).
  { split; [apply Z.mul_pos_pos; lia|].
    assert (width image * height image
            <= width image * height image * GetPixelDataSize 1 1 (format image))
      by (apply Z.le_mul_diag_r; [apply Z.mul_pos_pos|]; lia).
    lia. }
  unfold LoadImageDataNormalized. rewrite Hunc.
  rewrite (int_small (width image * height image)) by lia.
  set (count := width image * height image) in *.
  rewrite (size_t_small count) by lia. rewrite (size_t_small (count * 16)) by lia.
  unfold RL_MALLOC. destruct (Z.ltb_spec (count * 16) 9223372036854775808); [|lia].
  set (px0 := replicate (Z.to_nat (count * 16)) Undef).
  assert (Hpx0 : Z.of_nat (length px0) = 16 * count).
  { subst px0. rewrite length_replicate. lia. }
  set (step := LoadImageColors_step (format image)).
  set (Inv := fun (i : Z) (s : option buffer * Z) =>
         snd s = step * i
         /\ exists px, fst s = Some px /\ Z.of_nat (length px) = 16 * count
            /\ forall i', 0 <= i' < i ->
                 exists c, GetImageColor image (i' mod width image) (i' / width image) = Some c
                           /\ Color_ok c /\ load_Vector4 px i' = Some (normalized_color c)).
  unfold for_range.
  edestruct (for_loop_inv_Some Inv) as (s' & Es & Is).
  3: { rewrite Es. destruct s' as [pixels k]. destruct Is as (_ & px & Ep & Lp & Cp).
       cbn [fst] in Ep. subst pixels. cbn [bind]. exists px.
       split; [reflexivity|]. split; [exact Lp|].
       intros i Hi. apply Cp. lia. }
  - split; [cbn; lia|]. exists px0. split; [reflexivity|]. split; [exact Hpx0|].
    intros i' Hi'. lia.
  - intros i [pixels k] Hi (Ek & px & Ep & Lp & Cp). cbn [fst snd] in Ek, Ep. subst pixels k.
    rewrite Hm. cbn [bind]. unfold step.
    rewrite (normalized_pixel_GetImageColor image m i Hm H8 Hok HW ltac:(fold count; lia)).
    cbv zeta. fold step.
    destruct (GetImageColor_defined image m (i mod width image) (i / width image)
                Hm Hf Hok Hb) as (c & Ec & Okc).
    rewrite Ec. cbn [bind].
    pose proof Okc as (Or & Og & Ob & Oa).
    destruct (store_load_Vector4 px i (normalized_color c) ltac:(lia) ltac:(lia))
      as (px' & Es & Lp' & At & Keep);
      try (cbn [normalized_color v_x v_y v_z v_w]; apply normalized_representable; assumption).
    rewrite Es. cbn [bind]. eexists. split; [reflexivity|].
    unfold Inv. cbn [fst snd].
    split; [reflexivity|]. exists px'. split; [reflexivity|].
    split; [lia|]. intros i' Hi'.
    destruct (Z.eq_dec i' i) as [->|Ne].
    + exists c. split; [exact Ec|]. split; [exact Okc | exact At].
    + destruct (Cp i' ltac:(lia)) as (c' & E' & Ok' & At').
      exists c'. split; [exact E'|]. split; [exact Ok'|]. rewrite Keep by lia. exact At'.
Qed.

Ltac eight_bit_cases H :=
  destruct H as [H | [H | [H | H]]]; rewrite H in *.

Lemma gray_of_uchar (c : Color) : uchar (gray_of c) = gray_of c.
Proof. unfold gray_of, F32.to_uchar, uchar. rewrite Z.mod_mod by lia. reflexivity. Qed.

(** [SetPixelColor] at any offset of a block, for the 8-bit formats. *)
Lemma SetPixelColor_8bit (m : buffer) (off : Z) (c : Color) (f : Z) :
  eight_bit f -> Color_ok c ->
  0 <= off -> off + GetPixelDataSize 1 1 f <= Z.of_nat (length m) ->
  exists m', SetPixelColor m off c f = Some m' /\ length m' = length m
    /\ GetPixelColor m' off f = Some (ImageFormat_color f c)
    /\ forall k, k < off \/ off + GetPixelDataSize 1 1 f <= k ->
         load_uchar m' k = load_uchar m k.
Proof.
  intros H8 (Hr & Hg & Hb & Ha) H0 H1.
  assert (Ur : uchar (r c) = r c) by (apply Z.mod_small; exact Hr).
  assert (Ug : uchar (g c) = g c) by (apply Z.mod_small; exact Hg).
  assert (Ub : uchar (b c) = b c) by (apply Z.mod_small; exact Hb).
  assert (Ua : uchar (a c) = a c) by (apply Z.mod_small; exact Ha).
  pose proof (gray_of_uchar c) as Ugray.
  unfold SetPixelColor, GetPixelColor, ImageFormat_color.
  eight_bit_cases H8;
    (set (bpp := GetPixelDataSize 1 1 _) in *; vm_compute in bpp; subst bpp);
    format_tests.
  - store_then_load m off (gray_of c).
    exists m0. split; [reflexivity|]. split; [exact L|]. split.
    + rewrite G. cbn [bind]. rewrite Ugray. reflexivity.
    + intros k Hk. apply K. lia.
  - store_then_load m off (gray_of c). store_then_load m0 (off + 1) (a c).
    exists m1. split; [reflexivity|]. split; [congruence|]. split.
    + rewrite (K0 off) by lia. rewrite G, G0. cbn [bind]. rewrite Ugray, Ua. reflexivity.
    + intros k Hk. rewrite K0, K by lia. reflexivity.
  - store_then_load m off (r c). store_then_load m0 (off + 1) (g c).
    store_then_load m1 (off + 2) (b c).
    exists m2. split; [reflexivity|]. split; [congruence|]. split.
    + rewrite (K1 off), (K0 off), (K1 (off + 1)) by lia. rewrite G, G0, G1. cbn [bind].
      rewrite Ur, Ug, Ub. reflexivity.
    + intros k Hk. rewrite K1, K0, K by lia. reflexivity.
  - store_then_load m off (r c). store_then_load m0 (off + 1) (g c).
    store_then_load m1 (off + 2) (b c). store_then_load m2 (off + 3) (a c).
    exists m3. split; [reflexivity|]. split; [congruence|]. split.
    + rewrite (K2 off), (K1 off), (K0 off), (K2 (off + 1)), (K1 (off + 1)),
        (K2 (off + 2)) by lia.
      rewrite G, G0, G1, G2. cbn [bind]. rewrite Ur, Ug, Ub, Ua. destruct c; reflexivity.
    + intros k Hk. rewrite K2, K1, K0, K by lia. reflexivity.
Qed.

Lemma GetPixelColor_8bit_ext (m1 m2 : buffer) (off f : Z) :
  eight_bit f ->
  (forall k, off <= k < off + GetPixelDataSize 1 1 f -> load_uchar m1 k = load_uchar m2 k) ->
  GetPixelColor m1 off f = GetPixelColor m2 off f.
Proof.
  intros H8 H. unfold GetPixelColor.
  eight_bit_cases H8;
    (set (bpp := GetPixelDataSize 1 1 _) in *; vm_compute in bpp; subst bpp);
    format_tests.
  - rewrite (H off) by lia. reflexivity.
  - rewrite (H off), (H (off + 1)) by lia. reflexivity.
  - rewrite (H off), (H (off + 1)), (H (off + 2)) by lia. reflexivity.
  - rewrite (H off), (H (off + 1)), (H (off + 2)), (H (off + 3)) by lia. reflexivity.
Qed.

(** The bytes that the loop of [ImageFormat] writes for a normalized pixel
    are those [SetPixelColor] writes for the colour. *)
Lemma ImageFormat_store_8bit (out : buffer) (i : Z) (c : Color) (f : Z) :
  eight_bit f -> Color_ok c -> 0 <= i -> i + GetPixelDataSize 1 1 f - 1 <= INT_MAX ->
  ImageFormat_store f out i (normalized_color c) = SetPixelColor out i c f.
Proof.
  intros H8 (Hr & Hg & Hb & Ha) H0 H1.
  assert (Hmin : INT_MIN <= 0) by (unfold INT_MIN; lia).
  pose proof (normalized_roundtrip (r c) Hr) as Rr.
  pose proof (normalized_roundtrip (g c) Hg) as Rg.
  pose proof (normalized_roundtrip (b c) Hb) as Rb.
  pose proof (normalized_roundtrip (a c) Ha) as Ra.
  unfold ImageFormat_store, SetPixelColor, normalized_color.
  cbn [v_x v_y v_z v_w].
  eight_bit_cases H8;
    (set (bpp := GetPixelDataSize 1 1 _) in *; vm_compute in bpp; subst bpp);
    format_tests; rewrite ?int_small by lia;
    fold (normalized (r c)) in Rr; fold (normalized (g c)) in Rg;
    fold (normalized (b c)) in Rb; fold (normalized (a c)) in Ra;
    rewrite ?Rr, ?Rg, ?Rb, ?Ra; reflexivity.
Qed.

Lemma for_step_whole (n step : Z) : 0 <= n -> 0 < step -> (n * step + step - 1) / step = n.
Proof.
  intros Hn Hs. symmetry. apply (Z.div_unique _ _ _ (step - 1)); lia.
Qed.

(** The conversion loop of [ImageFormat] towards an 8-bit format. *)
Lemma ImageFormat_loop_8bit (px out0 : buffer) (f count : Z) (col : Z -> Color) :
  eight_bit f ->
  let step := ImageFormat_step f in
  0 <= count -> count * step <= INT_MAX ->
  Z.of_nat (length out0) = count * step ->
  (forall k, 0 <= k < count ->
     load_Vector4 px k = Some (normalized_color (col k)) /\ Color_ok (col k)) ->
  exists out : buffer,
    for_step (count * step) step
      (fun i k out =>
         do px <- Some px; do p <- load_Vector4 px k;
         do m <- out; do m <- ImageFormat_store f m i p; Some (Some m))
      (Some out0)
    = Some (Some out)
    /\ Z.of_nat (length out) = count * step
    /\ forall k, 0 <= k < count ->
         GetPixelColor out (k * step) f = Some (ImageFormat_color f (col k)).
Proof.
  intros H8 step Hc Hmax L0 Hpx.
  assert (Hstep : step = GetPixelDataSize 1 1 f /\ 0 < step <= 4).
  { subst step. destruct H8 as [-> | [-> | [-> | ->]]]; vm_compute;
      (split; [reflexivity | split; [reflexivity | discriminate]]). }
  destruct Hstep as [Ebpp Hstep].
  unfold for_step, for_range. rewrite for_step_whole by lia. rewrite Z.sub_0_r.
  edestruct (for_loop_inv_Some
               (fun (k : Z) (s : option buffer) =>
                  exists out, s = Some out /\ Z.of_nat (length out) = count * step
                    /\ forall k', 0 <= k' < k ->
                         GetPixelColor out (k' * step) f
                         = Some (ImageFormat_color f (col k'))))
    as (s' & Es & Is).
  3: { rewrite Es. cbv beta in Is. rewrite Z2Nat.id, Z.add_0_l in Is by lia.
       destruct Is as (out & -> & Lo & Go). exists out. auto. }
  - exists out0. split; [reflexivity|]. split; [exact L0|]. intros k' Hk'. lia.
  - intros k s Hk (out & -> & Lo & Go). rewrite Z2Nat.id in Hk by lia.
    destruct (Hpx k ltac:(lia)) as [Ek Okk]. cbn [bind]. rewrite Ek. cbn [bind].
    assert (B1 : (k + 1) * step <= count * step)
      by (apply Z.mul_le_mono_nonneg_r; lia).
    assert (B2 : 0 <= k * step) by (apply Z.mul_nonneg_nonneg; lia).
    rewrite (ImageFormat_store_8bit out (k * step) (col k) f H8 Okk)
      by (rewrite <- ?Ebpp; lia).
    destruct (SetPixelColor_8bit out (k * step) (col k) f H8 Okk ltac:(lia)
                ltac:(rewrite <- Ebpp; lia)) as (m' & -> & L' & G' & K').
    cbn [bind]. eexists. split; [reflexivity|].
    exists m'. split; [reflexivity|]. split; [lia|].
    intros k' Hk'. destruct (Z.eq_dec k' k) as [->|Ne]; [exact G'|].
    rewrite <- (Go k' ltac:(lia)).
    apply GetPixelColor_8bit_ext; [exact H8|]. intros j Hj. rewrite <- Ebpp in Hj, K'.
    apply K'.
    assert ((k' + 1) * step <= k * step) by (apply Z.mul_le_mono_nonneg_r; lia).
    lia.
Qed.

Lemma GetImageColor_8bit (image : Image) (m : buffer) (x y : Z) :
  data image = Some m -> eight_bit (format image) ->
  width image * height image * GetPixelDataSize 1 1 (format image) <= INT_MAX ->
  0 <= x < width image -> 0 <= y < height image ->
  GetImageColor image x y
  = GetPixelColor m ((y * width image + x) * GetPixelDataSize 1 1 (format image))
      (format image).
Proof.
  intros Hm H8 Hmax Hx Hy.
  pose proof (eight_bit_uncompressed _ H8) as Hf.
  assert (Hmin : INT_MIN <= 0) by (unfold INT_MIN; lia).
  assert (HM : INT_MAX = 2147483647) by reflexivity.
  pose proof (uncompressed_format_cases _ Hf) as Hpos.
  destruct (pixel_offset_range (width image) (height image) _ x y Hx Hy Hpos Hmax)
    as (P1 & P2 & P3).
  assert (P4 : y * width image + x + 1
               <= (y * width image + x + 1) * GetPixelDataSize 1 1 (format image))
    by (apply Z.le_mul_diag_r; lia).
  assert (Hidx : int (int (y * width image) + x) = y * width image + x).
  { rewrite (int_small (y * width image)) by lia. apply int_small. lia. }
  unfold GetImageColor, GetPixelColor.
  destruct (Z.leb_spec 0 x); [|lia]. destruct (Z.ltb_spec x (width image)); [|lia].
  destruct (Z.leb_spec 0 y); [|lia]. destruct (Z.ltb_spec y (height image)); [|lia].
  cbn [andb]. rewrite Hidx, Hm. cbn [bind].
  set (i := y * width image + x) in *. clearbody i. clear Hidx P1 Hx Hy Hf.
  eight_bit_cases H8;
    (set (bpp := GetPixelDataSize 1 1 _) in *; vm_compute in bpp; subst bpp);
    format_tests; rewrite ?int_small by lia.
  - replace (i * 1) with i by ring. reflexivity.
  - reflexivity.
  - reflexivity.
  - reflexivity.
Qed.

(** [ImageFormat] from one 8-bit format to another: the result has the new
    format, the same dimensions and at most one mipmap level, and its pixel
    [(x, y)] holds what the new format keeps of the colour of the pixel
    [(x, y)] of the image: the grey level [gray_of] for the grey formats,
    the three colour channels for R8G8B8, and the alpha where the new format
    has one. *)
Theorem ImageFormat_8bit (image : Image) (m : buffer) (newFormat : Z) :
  data image = Some m ->
  eight_bit (format image) -> eight_bit newFormat -> newFormat <> format image ->
  Image_ok image -> Forall is_byte m ->
  0 < width image -> 0 < height image ->
  width image * height image * 4 <= INT_MAX ->
  exists m' : buffer,
    let image' := mkImage (Some m') (width image) (height image)
                    (if 1 <? mipmaps image then 1 else mipmaps image) newFormat in
    ImageFormat image newFormat = Some image'
    /\ Z.of_nat (length m')
       = width image * height image * GetPixelDataSize 1 1 newFormat
    /\ forall x y, 0 <= x < width image -> 0 <= y < height image ->
         exists c, GetImageColor image x y = Some c
                   /\ GetImageColor image' x y = Some (ImageFormat_color newFormat c).
Proof.
  intros Hm H8 H8' Hne Hok Hb HW HH Hmax.
  assert (Hmin : INT_MIN <= 0) by (unfold INT_MIN; lia).
  assert (HM : INT_MAX = 2147483647) by reflexivity.
  assert (Hc0 : 0 < width image * height image) by (apply Z.mul_pos_pos; lia).
  destruct (LoadImageDataNormalized_8bit image m Hm H8 Hok Hb HW HH)
    as (px & Epx & Lpx & Cpx).
  set (count := width image * height image) in *.
  set (step := ImageFormat_step newFormat).
  assert (Hstep : step = GetPixelDataSize 1 1 newFormat /\ 0 < step <= 4
                  /\ ImageFormat_sizeof newFormat = 1
                  /\ (newFormat =? 0) = false
                  /\ (newFormat <? PIXELFORMAT_COMPRESSED_DXT1_RGB) = true
                  /\ (PIXELFORMAT_UNCOMPRESSED_GRAYSCALE <=? newFormat) = true
                  /\ (newFormat <=? PIXELFORMAT_UNCOMPRESSED_R32G32B32A32) = true).
  { subst step. destruct H8' as [-> | [-> | [-> | ->]]]; vm_compute;
      repeat split; try reflexivity; discriminate. }
  destruct Hstep as (Ebpp & Hstep & Esz & En0 & Enc & Eg & El).
  assert (Hfc : (format image <? PIXELFORMAT_COMPRESSED_DXT1_RGB) = true).
  { destruct H8 as [-> | [-> | [-> | ->]]]; reflexivity. }
  assert (Hcs : count * step <= INT_MAX).
  { assert (count * step <= count * 4) by (apply Z.mul_le_mono_nonneg_l; lia). lia. }
  assert (Hcs0 : 0 <= count * step) by (apply Z.mul_nonneg_nonneg; lia).
  set (col := fun k => match GetImageColor image (k mod width image) (k / width image) with
                       | Some c => c
                       | None => BLANK
                       end).
  assert (Hcol : forall k, 0 <= k < count ->
            load_Vector4 px k = Some (normalized_color (col k)) /\ Color_ok (col k)).
  { intros k Hk. destruct (Cpx k Hk) as (c & Ec & Okc & Lc).
    unfold col. rewrite Ec. auto. }
  destruct (ImageFormat_loop_8bit px (replicate (Z.to_nat (count * step)) Undef)
              newFormat count col H8' ltac:(lia) Hcs
              ltac:(rewrite length_replicate; fold step; lia) Hcol)
    as (out & Eout & Lout & Gout).
  fold step in Eout, Lout, Gout.
  exists out. cbv zeta.
  split; [|split].
  - unfold ImageFormat. rewrite Hm. cbn [is_null].
    destruct (Z.eqb_spec (width image) 0); [lia|].
    destruct (Z.eqb_spec (height image) 0); [lia|].
    cbn [orb]. rewrite En0.
    destruct (Z.eqb_spec (format image) newFormat) as [Heq|_]; [congruence|].
    cbn [negb andb]. rewrite Hfc, Enc. cbn [andb]. rewrite Epx. cbn [bind].
    rewrite Eg, El. cbn [andb]. fold count. fold step.
    rewrite (int_small count) by lia. rewrite (int_small (count * step)) by lia.
    rewrite Esz. rewrite (size_t_small (count * step)) by lia.
    rewrite (size_t_small (count * step * 1)) by lia.
    unfold RL_MALLOC.
    destruct (Z.ltb_spec (count * step * 1) 9223372036854775808); [|lia].
    replace (count * step * 1) with (count * step) by ring.
    cbn [bind] in Eout. rewrite Eout. cbn [bind]. reflexivity.
  - rewrite Lout, Ebpp. reflexivity.
  - intros x y Hx Hy.
    destruct (row_major_bound (width image) (height image) x y Hx Hy) as [B1 B2].
    destruct (row_major_split (width image) x y Hx) as [D1 D2].
    destruct (Cpx (y * width image + x) ltac:(fold count in B2; lia)) as (c & Ec & _ & _).
    rewrite D1, D2 in Ec. exists c. split; [exact Ec|].
    rewrite (GetImageColor_8bit
               (mkImage (Some out) (width image) (height image)
                  (if 1 <? mipmaps image then 1 else mipmaps image) newFormat)
               out x y eq_refl H8'
               ltac:(cbn [width height format]; rewrite <- Ebpp; fold count; lia) Hx Hy).
    cbn [width height format]. rewrite <- Ebpp.
    rewrite (Gout (y * width image + x)) by (fold count in B2; lia).
    unfold col. rewrite D1, D2, Ec. reflexivity.
Qed.

(** The theorem on a 2x1 R8G8B8A8 image turned into R8G8B8 and into
    GRAY_ALPHA. *)
Lemma ImageFormat_8bit_witness :
  let image := mkImage (Some (map Byte [10; 20; 30; 40;  200; 100; 50; 255])) 2 1 1
                 PIXELFORMAT_UNCOMPRESSED_R8G8B8A8 in
  (exists image', ImageFormat image PIXELFORMAT_UNCOMPRESSED_R8G8B8 = Some image'
     /\ GetImageColor image' 0 0 = Some (mkColor 10 20 30 255))
  /\ (exists image', ImageFormat image PIXELFORMAT_UNCOMPRESSED_GRAY_ALPHA = Some image'
        /\ GetImageColor image' 1 0 = Some (mkColor 124 124 124 255)).
Proof.
  intros image.
  assert (Hok : Image_ok image).
  { intros m Hm. injection Hm as <-. vm_compute. split; discriminate. }
  assert (Hb : Forall is_byte (map Byte [10; 20; 30; 40;  200; 100; 50; 255])).
  { vm_compute. repeat constructor; discriminate. }
  assert (H8 : eight_bit (format image)) by (right; right; right; reflexivity).
  split.
  - destruct (ImageFormat_8bit image _ PIXELFORMAT_UNCOMPRESSED_R8G8B8 eq_refl H8
                ltac:(right; right; left; reflexivity) ltac:(vm_compute; discriminate)
                Hok Hb ltac:(cbn [width image]; lia) ltac:(cbn [height image]; lia)
                ltac:(vm_compute; discriminate)) as (m' & E & _ & G).
    eexists. split; [exact E|].
    destruct (G 0 0 ltac:(cbn [width image]; lia) ltac:(cbn [height image]; lia))
      as (c & Ec & Gc).
    vm_compute in Ec. injection Ec as <-. exact Gc.
  - destruct (ImageFormat_8bit image _ PIXELFORMAT_UNCOMPRESSED_GRAY_ALPHA eq_refl H8
                ltac:(right; left; reflexivity) ltac:(vm_compute; discriminate)
                Hok Hb ltac:(cbn [width image]; lia) ltac:(cbn [height image]; lia)
                ltac:(vm_compute; discriminate)) as (m' & E & _ & G).
    eexists. split; [exact E|].
    destruct (G 1 0 ltac:(cbn [width image]; lia) ltac:(cbn [height image]; lia))
      as (c & Ec & Gc).
    vm_compute in Ec. injection Ec as <-. rewrite Gc. vm_compute. reflexivity.
Defined.

(** ** ImageDrawLine along an axis *)

(** The loop of [ImageDrawLine] when the decision parameter is negative and
    the step [A] is 0: the second coordinate never moves, and the pixels
    from [lo] to [hi - 1] along the first one are painted. *)
Lemma ImageDrawLine_loop_straight (dst : Image) (m : buffer) (reversedXY : bool)
    (lo hi v P B stepV : Z) (color : Color) :
  data dst = Some m -> format dst = PIXELFORMAT_UNCOMPRESSED_R8G8B8A8 ->
  Image_ok dst -> Color_ok color ->
  (lo < hi -> INT_MIN <= P < 0) -> lo <= hi ->
  (forall u, lo <= u < hi ->
     if reversedXY then 0 <= u < width dst /\ 0 <= v < height dst
     else 0 <= v < width dst /\ 0 <= u < height dst) ->
  exists m' : buffer,
    for_range lo hi
      (fun u '(dst, v, P) =>
         let '(v, P) :=
           if 0 <=? P then (int (v + stepV), int (P + B)) else (v, int (P + 0)) in
         do dst <- (if reversedXY then ImageDrawPixel dst u v color
                    else ImageDrawPixel dst v u color);
         Some (dst, v, P))
      (dst, v, P)
    = Some (set_data dst (Some m'), v, P)
    /\ length m' = length m
    /\ forall x y,
         GetImageColor (set_data dst (Some m')) x y
         = if (if reversedXY then (lo <=? x) && (x <? hi) && (y =? v)
               else (lo <=? y) && (y <? hi) && (x =? v))
           then Some color else GetImageColor dst x y.
Proof.
  intros Hm Hf Hok Hc HP' Hlh Hin.
  unfold for_range.
  edestruct (for_loop_inv_Some
               (fun (u : Z) (s : Image * Z * Z) =>
                  exists mu, s = (set_data dst (Some mu), v, P) /\ length mu = length m
                    /\ forall x y,
                         GetImageColor (set_data dst (Some mu)) x y
                         = if (if reversedXY then (lo <=? x) && (x <? u) && (y =? v)
                               else (lo <=? y) && (y <? u) && (x =? v))
                           then Some color else GetImageColor dst x y))
    as (s' & Es & Is).
  3: { rewrite Es. cbv beta in Is.
       replace (lo + Z.of_nat (Z.to_nat (hi - lo))) with hi in Is by lia.
       destruct Is as (mu & -> & Lu & Gu). exists mu. auto. }
  - exists m. split; [rewrite (set_data_same dst m Hm); reflexivity|].
    split; [reflexivity|]. intros x y. rewrite (set_data_same dst m Hm).
    destruct reversedXY.
    + destruct (Z.leb_spec lo x); destruct (Z.ltb_spec x lo); try lia; reflexivity.
    + destruct (Z.leb_spec lo y); destruct (Z.ltb_spec y lo); try lia; reflexivity.
  - intros u s Hu (mu & -> & Lu & Gu).
    assert (Hu' : lo <= u < hi) by lia. specialize (Hin u Hu').
    pose proof (HP' ltac:(lia)) as HP.
    assert (HM : P <= INT_MAX) by (unfold INT_MAX; lia).
    destruct (Z.leb_spec 0 P) as [|_]; [lia|].
    rewrite Z.add_0_r, (int_small P) by lia.
    assert (Hok' : Image_ok (set_data dst (Some mu))).
    { apply (Image_ok_same_shape dst); [|exact Hok].
      apply same_shape_set_data with (m := m); assumption. }
    destruct reversedXY.
    + destruct (ImageDrawPixel_paints (set_data dst (Some mu)) mu u v color eq_refl Hf Hok'
                  ltac:(cbn [set_data width]; lia) ltac:(cbn [set_data height]; lia) Hc)
        as (m' & E & L & G).
      cbn [set_data width height mipmaps format] in E, G. rewrite E. cbn [bind].
      eexists. split; [reflexivity|]. exists m'. split; [reflexivity|].
      split; [congruence|]. intros x y. rewrite G, Gu.
      destruct (Z.eqb_spec x u); destruct (Z.eqb_spec y v);
        destruct (Z.leb_spec lo x); destruct (Z.ltb_spec x u);
        destruct (Z.ltb_spec x (u + 1)); cbn [andb]; try lia; reflexivity.
    + destruct (ImageDrawPixel_paints (set_data dst (Some mu)) mu v u color eq_refl Hf Hok'
                  ltac:(cbn [set_data width]; lia) ltac:(cbn [set_data height]; lia) Hc)
        as (m' & E & L & G).
      cbn [set_data width height mipmaps format] in E, G. rewrite E. cbn [bind].
      eexists. split; [reflexivity|]. exists m'. split; [reflexivity|].
      split; [congruence|]. intros x y. rewrite G, Gu.
      destruct (Z.eqb_spec x v); destruct (Z.eqb_spec y u);
        destruct (Z.leb_spec lo y); destruct (Z.ltb_spec y u);
        destruct (Z.ltb_spec y (u + 1)); cbn [andb]; try lia; reflexivity.
Qed.

Lemma abs_int (d : Z) :
  INT_MIN < d <= INT_MAX -> (if d <? 0 then int (- d) else d) = Z.abs d.
Proof.
  intros Hd. destruct (Z.ltb_spec d 0); [|lia].
  rewrite int_small by (unfold INT_MIN, INT_MAX in *; lia). lia.
Qed.

Ltac decide_test :=
  match goal with
  | |- context [?a <=? ?b] => destruct (Z.leb_spec a b)
  | |- context [?a <? ?b] => destruct (Z.ltb_spec a b)
  | |- context [?a =? ?b] => destruct (Z.eqb_spec a b)
  end.

Ltac decide_tests := repeat decide_test; cbn [andb]; try lia; try reflexivity.

(** [ImageDrawLine] between two pixels of an R8G8B8A8 image that share a row
    or a column paints exactly the pixels between them, both ends included:
    [GetImageColor] reads the colour there and what it read before
    everywhere else. *)
Theorem ImageDrawLine_straight (dst : Image) (m : buffer) (x0 y0 x1 y1 : Z)
    (color : Color) :
  data dst = Some m -> format dst = PIXELFORMAT_UNCOMPRESSED_R8G8B8A8 ->
  Image_ok dst -> Color_ok color ->
  0 <= x0 < width dst -> 0 <= y0 < height dst ->
  0 <= x1 < width dst -> 0 <= y1 < height dst ->
  x0 = x1 \/ y0 = y1 ->
  exists dst' : Image,
    ImageDrawLine dst x0 y0 x1 y1 color = Some dst'
    /\ same_shape dst dst'
    /\ forall x y,
         GetImageColor dst' x y
         = if (Z.min x0 x1 <=? x) && (x <=? Z.max x0 x1)
              && (Z.min y0 y1 <=? y) && (y <=? Z.max y0 y1)
           then Some color else GetImageColor dst x y.
Proof.
  intros Hm Hf Hok Hc Hx0 Hy0 Hx1 Hy1 Hs.
  destruct (Hok m Hm) as [Hlen Hmax]. rewrite Hf in Hlen, Hmax.
  change (GetPixelDataSize 1 1 PIXELFORMAT_UNCOMPRESSED_R8G8B8A8) with 4 in *.
  assert (Hmin : INT_MIN = -2147483648) by reflexivity.
  assert (HM : INT_MAX = 2147483647) by reflexivity.
  assert (HWH : 0 < width dst * height dst) by (apply Z.mul_pos_pos; lia).
  assert (HW : width dst < INT_MAX).
  { assert (width dst * 1 <= width dst * height dst)
      by (apply Z.mul_le_mono_nonneg_l; lia). lia. }
  assert (HH : height dst < INT_MAX).
  { assert (1 * height dst <= width dst * height dst)
      by (apply Z.mul_le_mono_nonneg_r; lia). lia. }
  assert (Shape : forall m1, length m1 = length m ->
            same_shape dst (set_data dst (Some m1))
            /\ Image_ok (set_data dst (Some m1))).
  { intros m1 L1.
    assert (S1 : same_shape dst (set_data dst (Some m1)))
      by (apply same_shape_set_data with (m := m); assumption).
    split; [exact S1|]. apply (Image_ok_same_shape dst); assumption. }
  unfold ImageDrawLine.
  rewrite (int_small (x1 - x0)) by lia. rewrite (int_small (y1 - y0)) by lia.
  rewrite !abs_int by lia.
  destruct (Z.eq_dec x0 x1) as [Ex|Nx].
  - (* a column, or a single pixel *)
    subst x1. rewrite Z.sub_diag. change (Z.abs 0) with 0.
    destruct (Z.ltb_spec (Z.abs (y1 - y0)) 0) as [|_]; [lia|].
    change (int (2 * 0)) with 0. change (int (- 0)) with 0.
    rewrite (int_small (0 - Z.abs (y1 - y0))) by lia.
    destruct (Z.ltb_spec 0 (y1 - y0)) as [Hd|Hd]; cbv beta iota zeta.
    + destruct (ImageDrawPixel_paints dst m x0 y0 color Hm Hf Hok Hx0 Hy0 Hc)
        as (m1 & E1 & L1 & G1).
      rewrite E1. cbn [bind]. rewrite (int_small (y0 + 1)) by lia.
      destruct (Shape m1 L1) as [S1 Ok1].
      destruct (ImageDrawLine_loop_straight (set_data dst (Some m1)) m1 false
                  (y0 + 1) (y1 + 1) x0 (0 - Z.abs (y1 - y0))
                  (int (0 - int (2 * Z.abs (y1 - y0)))) 1 color eq_refl Hf Ok1 Hc)
        as (m' & E' & L' & G'); [lia | lia | intros u Hu; cbn [set_data width height]; lia |].
      cbn [set_data width height mipmaps format] in E', G'.
      match goal with
      | |- context [for_range ?a ?b ?f ?s] =>
          replace (for_range a b f s) with (Some (set_data dst (Some m'), x0,
                                                  0 - Z.abs (y1 - y0)))
            by (symmetry; exact E')
      end.
      cbn [bind]. eexists. split; [reflexivity|].
      split; [apply same_shape_set_data with (m := m); congruence|].
      intros x y. rewrite G', G1. decide_tests.
    + destruct (ImageDrawPixel_paints dst m x0 y1 color Hm Hf Hok Hx0 Hy1 Hc)
        as (m1 & E1 & L1 & G1).
      rewrite E1. cbn [bind]. rewrite (int_small (y1 + 1)) by lia.
      destruct (Shape m1 L1) as [S1 Ok1].
      destruct (ImageDrawLine_loop_straight (set_data dst (Some m1)) m1 false
                  (y1 + 1) (y0 + 1) x0 (0 - Z.abs (y1 - y0))
                  (int (0 - int (2 * Z.abs (y1 - y0)))) 1 color eq_refl Hf Ok1 Hc)
        as (m' & E' & L' & G'); [lia | lia | intros u Hu; cbn [set_data width height]; lia |].
      cbn [set_data width height mipmaps format] in E', G'.
      match goal with
      | |- context [for_range ?a ?b ?f ?s] =>
          replace (for_range a b f s) with (Some (set_data dst (Some m'), x0,
                                                  0 - Z.abs (y1 - y0)))
            by (symmetry; exact E')
      end.
      cbn [bind]. eexists. split; [reflexivity|].
      split; [apply same_shape_set_data with (m := m); congruence|].
      intros x y. rewrite G', G1. decide_tests.
  - (* a row *)
    assert (Ey : y1 = y0) by lia. subst y1. rewrite Z.sub_diag. change (Z.abs 0) with 0.
    destruct (Z.ltb_spec 0 (Z.abs (x1 - x0))) as [_|]; [|lia].
    change (int (2 * 0)) with 0. change (int (- 0)) with 0.
    rewrite (int_small (0 - Z.abs (x1 - x0))) by lia.
    destruct (Z.ltb_spec 0 (x1 - x0)) as [Hd|Hd]; cbv beta iota zeta.
    + destruct (ImageDrawPixel_paints dst m x0 y0 color Hm Hf Hok Hx0 Hy0 Hc)
        as (m1 & E1 & L1 & G1).
      rewrite E1. cbn [bind]. rewrite (int_small (x0 + 1)) by lia.
      destruct (Shape m1 L1) as [S1 Ok1].
      destruct (ImageDrawLine_loop_straight (set_data dst (Some m1)) m1 true
                  (x0 + 1) (x1 + 1) y0 (0 - Z.abs (x1 - x0))
                  (int (0 - int (2 * Z.abs (x1 - x0)))) 1 color eq_refl Hf Ok1 Hc)
        as (m' & E' & L' & G'); [lia | lia | intros u Hu; cbn [set_data width height]; lia |].
      cbn [set_data width height mipmaps format] in E', G'.
      match goal with
      | |- context [for_range ?a ?b ?f ?s] =>
          replace (for_range a b f s) with (Some (set_data dst (Some m'), y0,
                                                  0 - Z.abs (x1 - x0)))
            by (symmetry; exact E')
      end.
      cbn [bind]. eexists. split; [reflexivity|].
      split; [apply same_shape_set_data with (m := m); congruence|].
      intros x y. rewrite G', G1. decide_tests.
    + destruct (ImageDrawPixel_paints dst m x1 y0 color Hm Hf Hok Hx1 Hy0 Hc)
        as (m1 & E1 & L1 & G1).
      rewrite E1. cbn [bind]. rewrite (int_small (x1 + 1)) by lia.
      destruct (Shape m1 L1) as [S1 Ok1].
      destruct (ImageDrawLine_loop_straight (set_data dst (Some m1)) m1 true
                  (x1 + 1) (x0 + 1) y0 (0 - Z.abs (x1 - x0))
                  (int (0 - int (2 * Z.abs (x1 - x0)))) 1 color eq_refl Hf Ok1 Hc)
        as (m' & E' & L' & G'); [lia | lia | intros u Hu; cbn [set_data width height]; lia |].
      cbn [set_data width height mipmaps format] in E', G'.
      match goal with
      | |- context [for_range ?a ?b ?f ?s] =>
          replace (for_range a b f s) with (Some (set_data dst (Some m'), y0,
                                                  0 - Z.abs (x1 - x0)))
            by (symmetry; exact E')
      end.
      cbn [bind]. eexists. split; [reflexivity|].
      split; [apply same_shape_set_data with (m := m); congruence|].
      intros x y. rewrite G', G1. decide_tests.
Qed.

(** The theorem on a 4x3 image, for a row drawn from right to left. *)
Lemma ImageDrawLine_straight_witness :
  let red := mkColor 230 41 55 255 in
  let dst := mkImage (Some (replicate 48 (Byte 0))) 4 3 1
               PIXELFORMAT_UNCOMPRESSED_R8G8B8A8 in
  exists dst', ImageDrawLine dst 3 1 1 1 red = Some dst'
    /\ GetImageColor dst' 2 1 = Some red /\ GetImageColor dst' 0 1 = Some BLANK.
Proof.
  intros red dst.
  assert (Hok : Image_ok dst).
  { intros m Hm. injection Hm as <-. vm_compute. split; discriminate. }
  assert (Hc : Color_ok red) by (vm_compute; intuition discriminate).
  destruct (ImageDrawLine_straight dst (replicate 48 (Byte 0)) 3 1 1 1 red
              eq_refl eq_refl Hok Hc
              ltac:(cbn [width dst]; lia) ltac:(cbn [height dst]; lia)
              ltac:(cbn [width dst]; lia) ltac:(cbn [height dst]; lia)
              ltac:(right; reflexivity)) as (dst' & E & _ & G).
  exists dst'. split; [exact E|]. rewrite (G 2 1), (G 0 1). split; reflexivity.
Defined.

(** ** ImageDrawRectangleLines *)

Lemma rectangle_span_inside (pos len : Z) :
  0 <= pos -> rectangle_span pos len = (pos, Z.max 0 len).
Proof.
  intros Hp. unfold rectangle_span.
  destruct (Z.ltb_spec pos 0); [lia|].
  destruct (Z.ltb_spec len 0); f_equal; lia.
Qed.

(** The four rectangles of [ImageDrawRectangleLines] cover the rectangle
    without its inner part. *)
Lemma border_rectangles (x y w h t px py : Z) :
  1 <= t -> t <= w -> t <= h ->
  in_rect x y (Z.max 1 (Z.max 0 w)) (Z.max 0 t) px py
  || in_rect x (y + t) (Z.max 1 (Z.max 0 t)) (Z.max 0 (h - t * 2)) px py
  || in_rect (x + w - t) (y + t) (Z.max 1 (Z.max 0 t)) (Z.max 0 (h - t * 2)) px py
  || in_rect x (y + h - t) (Z.max 1 (Z.max 0 w)) (Z.max 0 t) px py
  = in_rect x y w h px py
    && negb (in_rect (x + t) (y + t) (w - 2 * t) (h - 2 * t) px py).
Proof.
  intros Ht Hw Hh.
  apply eq_true_iff_eq. unfold in_rect.
  rewrite ?orb_true_iff, ?andb_true_iff, ?negb_true_iff, ?andb_false_iff,
    ?Z.leb_le, ?Z.ltb_lt, ?Z.leb_gt, ?Z.ltb_ge.
  lia.
Qed.

(** [ImageDrawRectangleLines] on an R8G8B8A8 image, for a rectangle with
    integer coordinates that lies inside the image and a thickness from 1 to
    its width and its height: exactly the pixels of the rectangle that are
    not in the inner rectangle, [thick] pixels away from each side, are
    painted. *)
Theorem ImageDrawRectangleLines_border (dst : Image) (m : buffer) (x y w h thick : Z)
    (color : Color) :
  data dst = Some m -> format dst = PIXELFORMAT_UNCOMPRESSED_R8G8B8A8 ->
  Image_ok dst -> Color_ok color ->
  0 <= x < 2 ^ 20 -> 0 <= y < 2 ^ 20 -> w < 2 ^ 20 -> h < 2 ^ 20 ->
  1 <= thick -> thick <= w -> thick <= h ->
  x + w <= width dst -> y + h <= height dst ->
  exists dst' : Image,
    ImageDrawRectangleLines dst (rect x y w h) thick color = Some dst'
    /\ same_shape dst dst'
    /\ forall px py,
         GetImageColor dst' px py
         = if in_rect x y w h px py
              && negb (in_rect (x + thick) (y + thick) (w - 2 * thick) (h - 2 * thick)
                         px py)
           then Some color else GetImageColor dst px py.
Proof.
  intros Hm Hf Hok Hc Hx Hy Hw Hh Ht Htw Hth HW HH.
  assert (P20 : 2 ^ 20 = 1048576) by reflexivity.
  assert (P22 : 2 ^ 22 = 4194304) by reflexivity.
  assert (P24 : 2 ^ 24 = 16777216) by reflexivity.
  assert (Hmin : INT_MIN = -2147483648) by reflexivity.
  assert (HM : INT_MAX = 2147483647) by reflexivity.
  assert (Step : forall (m1 : buffer) (posX posY w1 h1 : Z),
            length m1 = length m ->
            0 <= posX < 2 ^ 22 -> 0 <= posY < 2 ^ 22 ->
            - 2 ^ 22 < w1 < 2 ^ 22 -> - 2 ^ 22 < h1 < 2 ^ 22 ->
            posX + Z.max 1 (Z.max 0 w1) <= width dst ->
            posY + Z.max 0 h1 <= height dst ->
            exists m2, ImageDrawRectangle (set_data dst (Some m1)) posX posY w1 h1 color
                       = Some (set_data dst (Some m2))
              /\ length m2 = length m
              /\ forall px py,
                   GetImageColor (set_data dst (Some m2)) px py
                   = if in_rect posX posY (Z.max 1 (Z.max 0 w1)) (Z.max 0 h1) px py
                     then Some color
                     else GetImageColor (set_data dst (Some m1)) px py).
  { intros m1 posX posY w1 h1 L1 Hpx Hpy Hw1 Hh1 Bx By.
    assert (S1 : same_shape dst (set_data dst (Some m1)))
      by (apply same_shape_set_data with (m := m); assumption).
    pose proof (Image_ok_same_shape dst _ S1 Hok) as Ok1.
    destruct (ImageDrawRectangle_paints (set_data dst (Some m1)) m1 posX posY w1 h1 color
                posX (Z.max 0 w1) posY (Z.max 0 h1) eq_refl Hf Ok1 Hc
                ltac:(lia) ltac:(lia) Hw1 Hh1
                (rectangle_span_inside posX w1 ltac:(lia))
                (rectangle_span_inside posY h1 ltac:(lia))
                ltac:(cbn [set_data width]; lia) ltac:(cbn [set_data height]; lia))
      as (m2 & E & L & G).
    cbn [set_data width height mipmaps format] in E, G.
    exists m2. split; [exact E|]. split; [congruence | exact G]. }
  unfold ImageDrawRectangleLines, rect. cbn [rec_x rec_y rec_width rec_height].
  rewrite (int_small (thick * 2)) by lia.
  rewrite !of_int_canonical by lia.
  rewrite !add_canonical by lia. rewrite !sub_canonical by lia.
  rewrite !to_int_canonical by lia. cbv zeta.
  replace (ImageDrawRectangle dst x y w thick color)
    with (ImageDrawRectangle (set_data dst (Some m)) x y w thick color)
    by (rewrite (set_data_same dst m Hm); reflexivity).
  destruct (Step m x y w thick eq_refl) as (m1 & E1 & L1 & G1); try lia.
  rewrite E1. cbn [bind].
  destruct (Step m1 x (y + thick) thick (h - thick * 2) L1) as (m2 & E2 & L2 & G2); try lia.
  rewrite E2. cbn [bind].
  destruct (Step m2 (x + w - thick) (y + thick) thick (h - thick * 2) L2)
    as (m3 & E3 & L3 & G3); try lia.
  rewrite E3. cbn [bind].
  destruct (Step m3 x (y + h - thick) w thick L3) as (m4 & E4 & L4 & G4); try lia.
  rewrite E4.
  exists (set_data dst (Some m4)). split; [reflexivity|].
  split; [apply same_shape_set_data with (m := m); assumption|].
  intros px py. rewrite <- (border_rectangles x y w h thick px py Ht Htw Hth).
  rewrite G4, G3, G2, G1. rewrite (set_data_same dst m Hm).
  destruct (in_rect x y _ _ px py); destruct (in_rect x (y + thick) _ _ px py);
    destruct (in_rect (x + w - thick) _ _ _ px py);
    destruct (in_rect x (y + h - thick) _ _ px py); reflexivity.
Qed.

(** The theorem on a 6x5 image, for an outline of thickness 1. *)
Lemma ImageDrawRectangleLines_border_witness :
  let red := mkColor 230 41 55 255 in
  let dst := mkImage (Some (replicate 120 (Byte 0))) 6 5 1
               PIXELFORMAT_UNCOMPRESSED_R8G8B8A8 in
  exists dst', ImageDrawRectangleLines dst (rect 1 0 4 5) 1 red = Some dst'
    /\ GetImageColor dst' 4 2 = Some red /\ GetImageColor dst' 3 2 = Some BLANK.
Proof.
  intros red dst.
  assert (Hok : Image_ok dst).
  { intros m Hm. injection Hm as <-. vm_compute. split; discriminate. }
  assert (Hc : Color_ok red) by (vm_compute; intuition discriminate).
  destruct (ImageDrawRectangleLines_border dst (replicate 120 (Byte 0)) 1 0 4 5 1 red
              eq_refl eq_refl Hok Hc ltac:(lia) ltac:(lia) ltac:(lia) ltac:(lia)
              ltac:(lia) ltac:(lia) ltac:(lia)
              ltac:(cbn [width dst]; lia) ltac:(cbn [height dst]; lia))
    as (dst' & E & _ & G).
  exists dst'. split; [exact E|]. rewrite (G 4 2), (G 3 2). split; reflexivity.
Defined.

(** ** Circles *)

Section Drawing.

Variables (dst : Image) (m : buffer) (color : Color) (box : Z -> Z -> bool).
Hypothesis Hm : data dst = Some m.
Hypothesis Hf : format dst = PIXELFORMAT_UNCOMPRESSED_R8G8B8A8.
Hypothesis Hok : Image_ok dst.
Hypothesis Hc : Color_ok color.

Lemma drawing_start : drawing dst m color box (fun _ _ => False) dst.
Proof.
  exists m. split; [symmetry; apply set_data_same; exact Hm|].
  split; [reflexivity|]. split.
  - intros x y. right. reflexivity.
  - intros x y [].
Qed.

Lemma drawing_weaken (marked marked' : Z -> Z -> Prop) (cur : Image) :
  (forall x y, marked' x y -> marked x y) ->
  drawing dst m color box marked cur -> drawing dst m color box marked' cur.
Proof.
  intros Hsub (mc & E & L & P & M). exists mc. repeat split; auto.
Qed.

Lemma drawing_same_shape (marked : Z -> Z -> Prop) (cur : Image) :
  drawing dst m color box marked cur -> same_shape dst cur.
Proof.
  intros (mc & -> & L & _). apply same_shape_set_data with (m := m); assumption.
Qed.

(** A call that paints the pixels of [S], all of them in [box]. *)
Lemma drawing_step (marked : Z -> Z -> Prop) (S : Z -> Z -> bool) (mc m' : buffer) :
  drawing dst m color box marked (set_data dst (Some mc)) ->
  length m' = length mc ->
  (forall x y, GetImageColor (set_data dst (Some m')) x y
               = if S x y then Some color
                 else GetImageColor (set_data dst (Some mc)) x y) ->
  (forall x y, S x y = true -> box x y = true) ->
  drawing dst m color box (fun x y => marked x y \/ S x y = true)
    (set_data dst (Some m')).
Proof.
  intros (mc' & E & L & P & M) L' G Hbox.
  assert (mc = mc') as <- by (unfold set_data in E; congruence).
  exists m'. split; [reflexivity|]. split; [congruence|]. split.
  - intros x y. rewrite G. destruct (S x y) eqn:Es.
    + left. split; [apply Hbox; exact Es | reflexivity].
    + apply P.
  - intros x y [Hmk | Hs]; rewrite G.
    + destruct (S x y); [reflexivity | apply M; exact Hmk].
    + rewrite Hs. reflexivity.
Qed.

(** [ImageDrawPixel] at any position, inside the image or not. *)
Lemma drawing_pixel (marked : Z -> Z -> Prop) (cur : Image) (px py : Z) :
  drawing dst m color box marked cur ->
  box px py = true ->
  exists next : Image,
    ImageDrawPixel cur px py color = Some next
    /\ drawing dst m color box
         (fun x y => marked x y \/ (x = px /\ y = py /\ in_bounds dst x y = true)) next.
Proof.
  intros D Hbox. pose proof D as (mc & -> & L & P & M).
  assert (S1 : same_shape dst (set_data dst (Some mc)))
    by (apply same_shape_set_data with (m := m); assumption).
  pose proof (Image_ok_same_shape dst _ S1 Hok) as Ok1.
  destruct (in_bounds dst px py) eqn:Hin.
  - apply in_bounds_spec in Hin as [Hx Hy].
    destruct (ImageDrawPixel_paints (set_data dst (Some mc)) mc px py color eq_refl Hf Ok1
                ltac:(cbn [set_data width]; lia) ltac:(cbn [set_data height]; lia) Hc)
      as (m' & E & L' & G).
    cbn [set_data width height mipmaps format] in E, G.
    exists (set_data dst (Some m')). split; [exact E|].
    apply (drawing_weaken (fun x y => marked x y \/ (x =? px) && (y =? py) = true)).
    + intros x y [H | (-> & -> & _)]; [left; exact H | right].
      rewrite !Z.eqb_refl. reflexivity.
    + apply (drawing_step marked _ mc m' D L' G).
      intros x y Hs. apply andb_prop in Hs as [H1 H2].
      apply Z.eqb_eq in H1, H2. subst. exact Hbox.
  - exists (set_data dst (Some mc)). split.
    + apply ImageDrawPixel_outside. right. cbn [set_data width height].
      unfold in_bounds in Hin.
      destruct (Z.leb_spec 0 px); [|lia]. destruct (Z.ltb_spec px (width dst)); [|lia].
      destruct (Z.leb_spec 0 py); [|lia]. destruct (Z.ltb_spec py (height dst)); [|lia].
      discriminate.
    + exists mc. split; [reflexivity|]. split; [exact L|]. split; [exact P|].
      intros x y [H | (-> & -> & Hb)]; [apply M; exact H | congruence].
Qed.

End Drawing.
(** The decision parameter as a function of the position: the loops keep
    [decesionParameter = 2x^2 + 8x + 2y^2 - 6y + 3 + 4r - 2r^2], which bounds
    the distance of the drawn points to the circle. *)
Lemma circle_step_parameter (r x y dp : Z) :
  0 <= r <= 2 ^ 28 -> 0 <= x <= y -> y <= r ->
  dp = 2 * (x * x) + 8 * x + 2 * (y * y) - 6 * y + 3 + 4 * r - 2 * (r * r) ->
  - 4 * (y - x) + 3 <= dp ->
  dp <= 4 * x + 6 + (if y - x <=? 1 then 14 else 0) ->
  exists x' y' dp',
    circle_step x y dp = (x', y', dp')
    /\ x' = x + 1 /\ (y' = y \/ (y' = y - 1 /\ 0 < dp)) /\ 0 <= y' + 1
    /\ dp' = 2 * (x' * x') + 8 * x' + 2 * (y' * y') - 6 * y' + 3 + 4 * r - 2 * (r * r)
    /\ - 4 * (y' - x') + 3 <= dp'
    /\ (x' <= y' -> dp' <= 4 * x' + 6 + (if y' - x' <=? 1 then 14 else 0)).
Proof.
  intros Hr Hx Hy E Lo Hi.
  assert (I : INT_MIN = -2147483648 /\ INT_MAX = 2147483647) by (split; reflexivity).
  assert (P : 2 ^ 28 = 268435456) by reflexivity.
  assert (Hi' : dp <= 4 * x + 20) by (destruct (y - x <=? 1); lia).
  unfold circle_step. rewrite (int_small (x + 1)) by lia.
  destruct (Z.ltb_spec 0 dp) as [Hd | Hd].
  - rewrite (int_small (y - 1)) by lia.
    rewrite (int_small (x + 1 - (y - 1))) by lia.
    rewrite (int_small (4 * _)) by lia.
    rewrite (int_small (dp + _)) by lia.
    rewrite (int_small (_ + 10)) by lia.
    eexists _, _, _. split; [reflexivity|].
    split; [reflexivity|]. split; [right; split; [reflexivity | exact Hd]|].
    split; [lia|]. split; [lia|]. split; [lia|].
    intros Hxy. destruct (Z.leb_spec (y - x) 1); [lia|].
    destruct (Z.leb_spec (y - 1 - (x + 1)) 1); lia.
  - rewrite (int_small (4 * _)) by lia.
    rewrite (int_small (dp + _)) by lia.
    rewrite (int_small (_ + 6)) by lia.
    eexists _, _, _. split; [reflexivity|].
    split; [reflexivity|]. split; [left; reflexivity|].
    split; [lia|]. split; [lia|]. split; [lia|].
    intros Hxy. destruct (Z.leb_spec (y - (x + 1)) 1); lia.
Qed.

(** The points at [x] and [y] from the centre are in the ring. *)
Lemma near_circle_point (cx cy r x y dp px py : Z) :
  0 <= r -> 0 <= x <= y -> y <= r ->
  dp = 2 * (x * x) + 8 * x + 2 * (y * y) - 6 * y + 3 + 4 * r - 2 * (r * r) ->
  - 4 * (y - x) + 3 <= dp ->
  dp <= 4 * x + 6 + (if y - x <=? 1 then 14 else 0) ->
  (px - cx = x \/ px - cx = - x) /\ (py - cy = y \/ py - cy = - y)
  \/ (px - cx = y \/ px - cx = - y) /\ (py - cy = x \/ py - cy = - x) ->
  near_circle cx cy r px py = true.
Proof.
  intros Hr Hx Hy E Lo Hi H.
  assert (Hi' : dp <= 4 * x + 20) by (destruct (y - x <=? 1); lia).
  assert (Es : (px - cx) * (px - cx) + (py - cy) * (py - cy) = x * x + y * y).
  { destruct H as [[[-> | ->] [-> | ->]] | [[-> | ->] [-> | ->]]]; lia. }
  unfold near_circle, circle_error. rewrite Es.
  apply andb_true_intro. rewrite !Z.leb_le. lia.
Qed.
Section CircleLines.

Variables (dst : Image) (m : buffer) (color : Color) (centerX centerY radius : Z).
Hypothesis Hm : data dst = Some m.
Hypothesis Hf : format dst = PIXELFORMAT_UNCOMPRESSED_R8G8B8A8.
Hypothesis Hok : Image_ok dst.
Hypothesis Hc : Color_ok color.
Hypothesis HcX : - 2 ^ 30 <= centerX <= 2 ^ 30.
Hypothesis HcY : - 2 ^ 30 <= centerY <= 2 ^ 30.
Hypothesis Hr : 0 <= radius <= 2 ^ 20.

Lemma ImageDrawCircleLines_loop_ring (fuel : nat) :
  Z.max 0 (radius + 1) < Z.of_nat fuel ->
  exists s',
    while_loop fuel (fun '(_, x, y, _) => x <=? y)
      (fun '(dst, x, y, decesionParameter) =>
         do dst <- ImageDrawPixel dst (int (centerX + x)) (int (centerY + y)) color;
         do dst <- ImageDrawPixel dst (int (centerX - x)) (int (centerY + y)) color;
         do dst <- ImageDrawPixel dst (int (centerX + x)) (int (centerY - y)) color;
         do dst <- ImageDrawPixel dst (int (centerX - x)) (int (centerY - y)) color;
         do dst <- ImageDrawPixel dst (int (centerX + y)) (int (centerY + x)) color;
         do dst <- ImageDrawPixel dst (int (centerX - y)) (int (centerY + x)) color;
         do dst <- ImageDrawPixel dst (int (centerX + y)) (int (centerY - x)) color;
         do dst <- ImageDrawPixel dst (int (centerX - y)) (int (centerY - x)) color;
         let '(x, y, decesionParameter) := circle_step x y decesionParameter in
         Some (dst, x, y, decesionParameter))
      (dst, 0, radius, int (3 - int (2 * radius))) = Some s'
    /\ circle_invariant dst m color (near_circle centerX centerY radius)
       (outline_drawn dst centerX centerY radius) radius s'
    /\ let '(_, x, y, _) := s' in 1 <= x.
Proof.
  intros Hfuel.
  assert (I : INT_MIN = -2147483648 /\ INT_MAX = 2147483647) by (split; reflexivity).
  assert (P20 : 2 ^ 20 = 1048576) by reflexivity.
  assert (P30 : 2 ^ 30 = 1073741824) by reflexivity.
  match goal with
  | |- exists s', while_loop _ ?c ?b ?s0 = _ /\ _ =>
      destruct (while_loop_inv_Some (fun s => circle_invariant dst m color (near_circle centerX centerY radius)
       (outline_drawn dst centerX centerY radius) radius s /\ let '(_, x, y, _) := s in
                                                 (x = 0 -> 0 <= y))
                  (fun '(_, x, y, _) => y - x + 1) c b fuel) with (s := s0)
        as (s' & E & [Is _] & Hcond)
  end.
  - intros [[[cur x] y] dp] [(D & Hx & Hy & Hy1 & H0 & Edp & Lo & Hi) _] Hxy.
    apply Z.leb_le in Hxy. specialize (Hi Hxy).
    assert (In : forall px py,
               (px - centerX = x \/ px - centerX = - x)
               /\ (py - centerY = y \/ py - centerY = - y)
               \/ (px - centerX = y \/ px - centerX = - y)
                  /\ (py - centerY = x \/ py - centerY = - x) ->
               near_circle centerX centerY radius px py = true).
    { intros px py. apply (near_circle_point centerX centerY radius x y dp); lia. }
    rewrite !(int_small (centerX + _)), !(int_small (centerX - _)),
      !(int_small (centerY + _)), !(int_small (centerY - _)) by lia.
    destruct (drawing_pixel dst m color _ Hm Hf Hok Hc _ _ (centerX + x) (centerY + y) D)
      as (d1 & -> & D1); [apply In; lia|]. cbn [bind].
    destruct (drawing_pixel dst m color _ Hm Hf Hok Hc _ _ (centerX - x) (centerY + y) D1)
      as (d2 & -> & D2); [apply In; lia|]. cbn [bind].
    destruct (drawing_pixel dst m color _ Hm Hf Hok Hc _ _ (centerX + x) (centerY - y) D2)
      as (d3 & -> & D3); [apply In; lia|]. cbn [bind].
    destruct (drawing_pixel dst m color _ Hm Hf Hok Hc _ _ (centerX - x) (centerY - y) D3)
      as (d4 & -> & D4); [apply In; lia|]. cbn [bind].
    destruct (drawing_pixel dst m color _ Hm Hf Hok Hc _ _ (centerX + y) (centerY + x) D4)
      as (d5 & -> & D5); [apply In; lia|]. cbn [bind].
    destruct (drawing_pixel dst m color _ Hm Hf Hok Hc _ _ (centerX - y) (centerY + x) D5)
      as (d6 & -> & D6); [apply In; lia|]. cbn [bind].
    destruct (drawing_pixel dst m color _ Hm Hf Hok Hc _ _ (centerX + y) (centerY - x) D6)
      as (d7 & -> & D7); [apply In; lia|]. cbn [bind].
    destruct (drawing_pixel dst m color _ Hm Hf Hok Hc _ _ (centerX - y) (centerY - x) D7)
      as (d8 & -> & D8); [apply In; lia|]. cbn [bind].
    destruct (circle_step_parameter radius x y dp ltac:(lia) ltac:(lia) Hy Edp Lo Hi)
      as (x' & y' & dp' & -> & Ex & Ey & Hy1' & Edp' & Lo' & Hi').
    eexists. split; [reflexivity|]. split; [|lia].
    split; [|lia]. unfold circle_invariant.
    split; [|repeat split; try assumption; lia].
    revert D8. apply drawing_weaken. intros px py (_ & Hin & Hex).
    unfold outline_drawn, circle_extreme in *.
    destruct (Z.eq_dec x 0) as [-> | Hx0].
    + specialize (H0 eq_refl). subst y.
      destruct Hex as [[-> [-> | ->]] | [-> [-> | ->]]].
      * do 7 left. right. repeat split; try lia. exact Hin.
      * do 5 left. right. repeat split; try lia. exact Hin.
      * do 3 left. right. repeat split; try lia. exact Hin.
      * do 2 left. right. repeat split; try lia. exact Hin.
    + do 8 left. split; [lia|]. split; [exact Hin | exact Hex].
  - split; [|intros _; lia]. unfold circle_invariant.
    rewrite (int_small (2 * radius)) by lia. rewrite (int_small (3 - _)) by lia.
    split.
    + apply (drawing_weaken dst m color _ (fun _ _ => False)).
      * intros px py (H1 & _). lia.
      * apply drawing_start; assumption.
    + repeat split; try lia. intros _. destruct (radius - 0 <=? 1); lia.
  - lia.
  - exists s'. split; [exact E|]. split; [exact Is|].
    destruct s' as [[[cur x] y] dp]. apply Z.leb_gt in Hcond.
    destruct Is as (_ & Hx & Hy & Hy1 & H0 & _).
    destruct (Z.eq_dec x 0) as [-> | ]; [specialize (H0 eq_refl)|]; lia.
Qed.

End CircleLines.

(** [ImageDrawCircleLines] on an R8G8B8A8 image, for a radius from 0 to
    2^20 and a centre anywhere up to 2^30 from the origin, inside the image
    or not: the call returns once the fuel exceeds the radius plus one, the
    image keeps its shape, every pixel either is as before or has the colour
    and lies in the ring [r^2 - 3r <= dx^2 + dy^2 <= r^2 + r + 8] around the
    centre, and the four points of the circle on the axes through the centre
    have the colour where they fall inside the image. *)
Theorem ImageDrawCircleLines_ring (dst : Image) (m : buffer)
    (centerX centerY radius : Z) (color : Color) (fuel : nat) :
  data dst = Some m -> format dst = PIXELFORMAT_UNCOMPRESSED_R8G8B8A8 ->
  Image_ok dst -> Color_ok color ->
  - 2 ^ 30 <= centerX <= 2 ^ 30 -> - 2 ^ 30 <= centerY <= 2 ^ 30 ->
  0 <= radius <= 2 ^ 20 -> Z.max 0 (radius + 1) < Z.of_nat fuel ->
  exists dst' : Image,
    ImageDrawCircleLines fuel dst centerX centerY radius color = Some dst'
    /\ same_shape dst dst'
    /\ (forall x y,
          GetImageColor dst' x y = GetImageColor dst x y
          \/ (near_circle centerX centerY radius x y = true
              /\ GetImageColor dst' x y = Some color))
    /\ (forall x y,
          in_bounds dst x y = true -> circle_extreme centerX centerY radius x y ->
          GetImageColor dst' x y = Some color).
Proof.
  intros Hm Hf Hok Hc HcX HcY Hr Hfuel.
  destruct (ImageDrawCircleLines_loop_ring dst m color centerX centerY radius
              Hm Hf Hok Hc HcX HcY Hr fuel Hfuel) as ([[[d x] y] dp] & E & Is & Hx).
  destruct Is as (D & _).
  exists d. unfold ImageDrawCircleLines. rewrite E. cbn [bind].
  split; [reflexivity|].
  split; [apply (drawing_same_shape dst m color _ Hm _ _ D)|].
  destruct D as (mc & _ & _ & P & M). split.
  - intros px py. destruct (P px py) as [H | H]; [right; exact H | left; exact H].
  - intros px py Hin Hex. apply M. repeat split; assumption.
Qed.

Lemma ImageDrawCircleLines_ring_witness :
  let dst := mkImage (Some (replicate 80 (Byte 0))) 5 4 1
               PIXELFORMAT_UNCOMPRESSED_R8G8B8A8 in
  let color := mkColor 9 8 7 255 in
  exists dst' : Image,
    ImageDrawCircleLines 4 dst 2 2 2 color = Some dst'
    /\ GetImageColor dst' 4 2 = Some color
    /\ (GetImageColor dst' 2 2 = GetImageColor dst 2 2
        \/ (near_circle 2 2 2 2 2 = true /\ GetImageColor dst' 2 2 = Some color)).
Proof.
  intros dst color.
  assert (Hok : Image_ok dst).
  { intros m Hm. injection Hm as <-. vm_compute. split; discriminate. }
  assert (Hc : Color_ok color) by (vm_compute; intuition discriminate).
  destruct (ImageDrawCircleLines_ring dst (replicate 80 (Byte 0)) 2 2 2 color 4
              eq_refl eq_refl Hok Hc ltac:(lia) ltac:(lia) ltac:(lia) ltac:(lia))
    as (dst' & E & _ & P & M).
  exists dst'. split; [exact E|]. split.
  - apply M; [reflexivity|]. right. split; [reflexivity | left; reflexivity].
  - apply P.
Defined.
Section Rectangles.

Variables (dst : Image) (m : buffer) (color : Color) (box : Z -> Z -> bool).
Hypothesis Hm : data dst = Some m.
Hypothesis Hf : format dst = PIXELFORMAT_UNCOMPRESSED_R8G8B8A8.
Hypothesis Hok : Image_ok dst.
Hypothesis Hc : Color_ok color.

(** [ImageDrawRectangle] with a rectangle inside the image. *)
Lemma drawing_rectangle (marked : Z -> Z -> Prop) (cur : Image) (posX posY w h : Z) :
  drawing dst m color box marked cur ->
  0 <= posX < 2 ^ 22 -> 0 <= posY < 2 ^ 22 -> 0 <= w < 2 ^ 22 -> 0 <= h < 2 ^ 22 ->
  posX + Z.max 1 w <= width dst -> posY + h <= height dst ->
  (forall x y, in_rect posX posY (Z.max 1 w) h x y = true -> box x y = true) ->
  exists next : Image,
    ImageDrawRectangle cur posX posY w h color = Some next
    /\ drawing dst m color box
         (fun x y => marked x y \/ in_rect posX posY (Z.max 1 w) h x y = true) next.
Proof.
  intros D Hx Hy Hw Hh HW HH Hbox. pose proof D as (mc & -> & L & P & M).
  assert (S1 : same_shape dst (set_data dst (Some mc)))
    by (apply same_shape_set_data with (m := m); assumption).
  pose proof (Image_ok_same_shape dst _ S1 Hok) as Ok1.
  destruct (ImageDrawRectangle_paints (set_data dst (Some mc)) mc posX posY w h color
              posX (Z.max 0 w) posY (Z.max 0 h) eq_refl Hf Ok1 Hc
              ltac:(lia) ltac:(lia) ltac:(lia) ltac:(lia)
              (rectangle_span_inside posX w ltac:(lia))
              (rectangle_span_inside posY h ltac:(lia))
              ltac:(cbn [set_data width]; lia) ltac:(cbn [set_data height]; lia))
    as (m' & E & L' & G).
  cbn [set_data width height mipmaps format] in E, G.
  replace (Z.max 1 (Z.max 0 w)) with (Z.max 1 w) in G by lia.
  replace (Z.max 0 h) with h in G by lia.
  exists (set_data dst (Some m')). split; [exact E|].
  apply (drawing_step dst m color box marked _ mc m' D L' G Hbox).
Qed.

End Rectangles.

(** A row of half-width [a] at the height [b] over the centre stays in the
    disc. *)
Lemma in_disc_row (cx cy r x y dp a b px py sy : Z) :
  0 <= r -> 0 <= x <= y -> y <= r ->
  dp = 2 * (x * x) + 8 * x + 2 * (y * y) - 6 * y + 3 + 4 * r - 2 * (r * r) ->
  dp <= 4 * x + 6 + (if y - x <=? 1 then 14 else 0) ->
  (a = x /\ b = y) \/ (a = y /\ b = x) ->
  sy = cy + b \/ sy = cy - b ->
  in_rect (cx - a) sy (Z.max 1 (a * 2)) 1 px py = true ->
  in_disc cx cy r px py = true.
Proof.
  intros Hr Hx Hy E Hi Hab Hsy Hin.
  assert (Hi' : dp <= 4 * x + 20) by (destruct (y - x <=? 1); lia).
  unfold in_rect in Hin. rewrite !andb_true_iff, !Z.leb_le, !Z.ltb_lt in Hin.
  assert (Ea : a * a + b * b = x * x + y * y)
    by (destruct Hab as [[-> ->] | [-> ->]]; lia).
  assert (Ha : 0 <= a <= r) by (destruct Hab as [[-> ->] | [-> ->]]; lia).
  assert (Hdx : - a <= px - cx <= a) by lia.
  assert (Hsq : (px - cx) * (px - cx) <= a * a) by nia.
  assert (Hdy : (py - cy) * (py - cy) = b * b).
  { assert (py = sy) as -> by lia. destruct Hsy as [-> | ->]; lia. }
  unfold in_disc, circle_error.
  apply andb_true_intro. rewrite Z.leb_le, Z.ltb_lt. lia.
Qed.

(** A pixel inside the circle at the height [x] is in the row of
    half-width [y]. *)
Lemma inside_circle_wide (cx cy r x y dp px py : Z) :
  0 <= r -> 0 <= x <= y -> y <= r ->
  dp = 2 * (x * x) + 8 * x + 2 * (y * y) - 6 * y + 3 + 4 * r - 2 * (r * r) ->
  - 4 * (y - x) + 3 <= dp ->
  inside_circle cx cy r px py = true -> Z.abs (py - cy) = x ->
  in_rect (cx - y) py (Z.max 1 (y * 2)) 1 px py = true.
Proof.
  intros Hr Hx Hy E Lo Hin Hb.
  unfold inside_circle in Hin. apply Z.leb_le in Hin.
  assert (Hsq : (py - cy) * (py - cy) = x * x) by nia.
  set (w := Z.abs (px - cx) + 1) in *.
  assert (Hw : 1 <= w) by (unfold w; lia).
  assert (Ha : w <= y).
  { destruct (Z_le_gt_dec w y) as [|Hgt]; [assumption|].
    assert ((y + 1) * (y + 1) <= w * w) by nia. lia. }
  unfold w in Ha.
  unfold in_rect. rewrite !andb_true_iff, !Z.leb_le, !Z.ltb_lt. lia.
Qed.

(** A pixel inside the circle at the height [y], when the decision
    parameter is positive, is in the row of half-width [x]. *)
Lemma inside_circle_narrow (cx cy r x y dp px py : Z) :
  0 <= r -> 0 <= x <= y -> y <= r ->
  dp = 2 * (x * x) + 8 * x + 2 * (y * y) - 6 * y + 3 + 4 * r - 2 * (r * r) ->
  0 < dp ->
  inside_circle cx cy r px py = true -> Z.abs (py - cy) = y ->
  in_rect (cx - x) py (Z.max 1 (x * 2)) 1 px py = true.
Proof.
  intros Hr Hx Hy E Hd Hin Hb.
  unfold inside_circle in Hin. apply Z.leb_le in Hin.
  assert (Hsq : (py - cy) * (py - cy) = y * y) by nia.
  set (w := Z.abs (px - cx) + 1) in *.
  assert (Hw : 1 <= w) by (unfold w; lia).
  assert (Ha : w <= x).
  { destruct (Z_le_gt_dec w x) as [|Hgt]; [assumption|].
    assert ((x + 1) * (x + 1) <= w * w) by nia.
    assert (1 <= w * w) by nia.
    assert (r = 0) by lia. assert (y = 0) by lia. subst r y. lia. }
  unfold w in Ha.
  unfold in_rect. rewrite !andb_true_iff, !Z.leb_le, !Z.ltb_lt. lia.
Qed.
Section Circle.

Variables (dst : Image) (m : buffer) (color : Color) (centerX centerY radius : Z).
Hypothesis Hm : data dst = Some m.
Hypothesis Hf : format dst = PIXELFORMAT_UNCOMPRESSED_R8G8B8A8.
Hypothesis Hok : Image_ok dst.
Hypothesis Hc : Color_ok color.
Hypothesis Hr : 0 <= radius.
Hypothesis HX : 0 <= centerX - radius /\ centerX + radius < width dst.
Hypothesis HY : 0 <= centerY - radius /\ centerY + radius < height dst.
Hypothesis HW : width dst <= 2 ^ 21.
Hypothesis HH : height dst <= 2 ^ 21.

Lemma ImageDrawCircle_loop_disc (fuel : nat) :
  Z.max 0 (radius + 1) < Z.of_nat fuel ->
  exists s',
    while_loop fuel (fun '(_, x, y, _) => x <=? y)
      (fun '(dst, x, y, decesionParameter) =>
         do dst <- ImageDrawRectangle dst (int (centerX - x)) (int (centerY + y))
                     (int (x * 2)) 1 color;
         do dst <- ImageDrawRectangle dst (int (centerX - x)) (int (centerY - y))
                     (int (x * 2)) 1 color;
         do dst <- ImageDrawRectangle dst (int (centerX - y)) (int (centerY + x))
                     (int (y * 2)) 1 color;
         do dst <- ImageDrawRectangle dst (int (centerX - y)) (int (centerY - x))
                     (int (y * 2)) 1 color;
         let '(x, y, decesionParameter) := circle_step x y decesionParameter in
         Some (dst, x, y, decesionParameter))
      (dst, 0, radius, int (3 - int (2 * radius))) = Some s'
    /\ circle_invariant dst m color (in_disc centerX centerY radius)
       (disc_filled centerX centerY radius) radius s'
    /\ let '(_, x, y, _) := s' in 1 <= x /\ y < x.
Proof.
  intros Hfuel.
  assert (I : INT_MIN = -2147483648 /\ INT_MAX = 2147483647) by (split; reflexivity).
  assert (P21 : 2 ^ 21 = 2097152) by reflexivity.
  assert (P22 : 2 ^ 22 = 4194304) by reflexivity.
  assert (P28 : 2 ^ 28 = 268435456) by reflexivity.
  match goal with
  | |- exists s', while_loop _ ?c ?b ?s0 = _ /\ _ =>
      destruct (while_loop_inv_Some (fun s => circle_invariant dst m color (in_disc centerX centerY radius)
       (disc_filled centerX centerY radius) radius s /\ let '(_, x, y, _) := s in
                                                 (x = 0 -> 0 <= y))
                  (fun '(_, x, y, _) => y - x + 1) c b fuel) with (s := s0)
        as (s' & E & [Is _] & Hcond)
  end.
  - intros [[[cur x] y] dp] [(D & Hx & Hy & Hy1 & H0 & Edp & Lo & Hi) _] Hxy.
    apply Z.leb_le in Hxy. specialize (Hi Hxy).
    assert (In : forall a b sy px py,
               (a = x /\ b = y) \/ (a = y /\ b = x) ->
               sy = centerY + b \/ sy = centerY - b ->
               in_rect (centerX - a) sy (Z.max 1 (a * 2)) 1 px py = true ->
               in_disc centerX centerY radius px py = true).
    { intros a b sy px py. apply (in_disc_row centerX centerY radius x y dp); lia. }
    rewrite !(int_small (centerX - _)), !(int_small (centerY + _)),
      !(int_small (centerY - _)), !(int_small (_ * 2)) by lia.
    destruct (drawing_rectangle dst m color _ Hm Hf Hok Hc _ _
                (centerX - x) (centerY + y) (x * 2) 1 D)
      as (d1 & -> & D1); try lia.
    { intros px py. apply (In x y); [left|left]; auto. }
    cbn [bind].
    destruct (drawing_rectangle dst m color _ Hm Hf Hok Hc _ _
                (centerX - x) (centerY - y) (x * 2) 1 D1)
      as (d2 & -> & D2); try lia.
    { intros px py. apply (In x y); [left|right]; auto. }
    cbn [bind].
    destruct (drawing_rectangle dst m color _ Hm Hf Hok Hc _ _
                (centerX - y) (centerY + x) (y * 2) 1 D2)
      as (d3 & -> & D3); try lia.
    { intros px py. apply (In y x); [right|left]; auto. }
    cbn [bind].
    destruct (drawing_rectangle dst m color _ Hm Hf Hok Hc _ _
                (centerX - y) (centerY - x) (y * 2) 1 D3)
      as (d4 & -> & D4); try lia.
    { intros px py. apply (In y x); [right|right]; auto. }
    cbn [bind].
    destruct (circle_step_parameter radius x y dp ltac:(lia) ltac:(lia) Hy Edp Lo Hi)
      as (x' & y' & dp' & -> & Ex & Ey & Hy1' & Edp' & Lo' & Hi').
    eexists. split; [reflexivity|]. split; [|lia].
    split; [|lia]. unfold circle_invariant.
    split; [|repeat split; try assumption; lia].
    revert D4. apply drawing_weaken. intros px py Hmk.
    unfold disc_filled in *.
    destruct Hmk as [[Hin Hrow] | (_ & -> & Hpx)].
    + destruct (Z.eq_dec (Z.abs (py - centerY)) x) as [Eb | Nb].
      * pose proof (inside_circle_wide centerX centerY radius x y dp px py
                      Hr ltac:(lia) Hy Edp Lo Hin Eb) as R.
        destruct (Z.abs_spec (py - centerY)) as [[_ Ea] | [_ Ea]].
        -- left. right. replace (centerY + x) with py by lia. exact R.
        -- right. replace (centerY - x) with py by lia. exact R.
      * destruct (Z.eq_dec (Z.abs (py - centerY)) y) as [Eb | Nb'].
        -- assert (Hd : 0 < dp) by lia.
           pose proof (inside_circle_narrow centerX centerY radius x y dp px py
                         Hr ltac:(lia) Hy Edp Hd Hin Eb) as R.
           destruct (Z.abs_spec (py - centerY)) as [[_ Ea] | [_ Ea]].
           ++ do 3 left. right. replace (centerY + y) with py by lia. exact R.
           ++ do 2 left. right. replace (centerY - y) with py by lia. exact R.
        -- do 4 left. left. split; [exact Hin | lia].
    + destruct (Z.eq_dec x 0) as [-> | Hx0].
      * specialize (H0 eq_refl). subst y.
        left. right. unfold in_rect.
        rewrite !andb_true_iff, !Z.leb_le, !Z.ltb_lt. lia.
      * do 4 left. right. lia.
  - split; [|intros _; lia]. unfold circle_invariant.
    rewrite (int_small (2 * radius)) by lia. rewrite (int_small (3 - _)) by lia.
    split.
    + apply (drawing_weaken dst m color _ (fun _ _ => False)).
      * intros px py [[Hin [H | H]] | (H1 & _)]; try lia.
        unfold inside_circle in Hin. apply Z.leb_le in Hin.
        assert ((radius + 1) * (radius + 1) <= (py - centerY) * (py - centerY)) by nia.
        nia.
      * apply drawing_start; assumption.
    + repeat split; try lia. intros _. destruct (radius - 0 <=? 1); lia.
  - lia.
  - exists s'. split; [exact E|]. split; [exact Is|].
    destruct s' as [[[cur x] y] dp]. apply Z.leb_gt in Hcond.
    destruct Is as (_ & Hx & Hy & Hy1 & H0 & _).
    destruct (Z.eq_dec x 0) as [-> | ]; [specialize (H0 eq_refl)|]; lia.
Qed.

End Circle.

(** [ImageDrawCircle] on an R8G8B8A8 image of at most 2^21 by 2^21 pixels,
    for a circle whose bounding square is inside the image: the call returns
    once the fuel exceeds the radius plus one and the image keeps its shape.
    Every pixel either is as before or has the colour and lies in the disc
    [dx^2 + dy^2 <= r^2 + r + 8], left of the column [centerX + max 1 r].
    Every pixel with [(|dx| + 1)^2 + dy^2 <= r^2 - 3r] has the colour, and so
    has the row through the centre from [centerX - r] to
    [centerX + max 1 r - 1]: the pixel at [centerX + r] of that row, which
    the outline paints, is left out. *)
Theorem ImageDrawCircle_disc (dst : Image) (m : buffer)
    (centerX centerY radius : Z) (color : Color) (fuel : nat) :
  data dst = Some m -> format dst = PIXELFORMAT_UNCOMPRESSED_R8G8B8A8 ->
  Image_ok dst -> Color_ok color -> 0 <= radius ->
  0 <= centerX - radius -> centerX + radius < width dst ->
  0 <= centerY - radius -> centerY + radius < height dst ->
  width dst <= 2 ^ 21 -> height dst <= 2 ^ 21 ->
  Z.max 0 (radius + 1) < Z.of_nat fuel ->
  exists dst' : Image,
    ImageDrawCircle fuel dst centerX centerY radius color = Some dst'
    /\ same_shape dst dst'
    /\ (forall x y,
          GetImageColor dst' x y = GetImageColor dst x y
          \/ (in_disc centerX centerY radius x y = true
              /\ GetImageColor dst' x y = Some color))
    /\ (forall x y,
          inside_circle centerX centerY radius x y = true ->
          GetImageColor dst' x y = Some color)
    /\ (forall x,
          centerX - radius <= x < centerX + Z.max 1 radius ->
          GetImageColor dst' x centerY = Some color).
Proof.
  intros Hm Hf Hok Hc Hr HX0 HX1 HY0 HY1 HW HH Hfuel.
  destruct (ImageDrawCircle_loop_disc dst m color centerX centerY radius
              Hm Hf Hok Hc Hr (conj HX0 HX1) (conj HY0 HY1) HW HH fuel Hfuel)
    as ([[[d x] y] dp] & E & Is & Hx & Hxy).
  destruct Is as (D & _).
  exists d. unfold ImageDrawCircle. rewrite E. cbn [bind].
  split; [reflexivity|].
  split; [apply (drawing_same_shape dst m color _ Hm _ _ D)|].
  destruct D as (mc & _ & _ & P & M). split; [|split].
  - intros px py. destruct (P px py) as [H | H]; [right; exact H | left; exact H].
  - intros px py Hin. apply M. left. split; [exact Hin|]. lia.
  - intros px Hpx. apply M. right. split; [exact Hx|]. split; [reflexivity | exact Hpx].
Qed.

Lemma ImageDrawCircle_disc_witness :
  let dst := mkImage (Some (replicate 676 (Byte 0))) 13 13 1
               PIXELFORMAT_UNCOMPRESSED_R8G8B8A8 in
  let color := mkColor 9 8 7 255 in
  exists dst' : Image,
    ImageDrawCircle 8 dst 6 6 6 color = Some dst'
    /\ GetImageColor dst' 3 7 = Some color
    /\ GetImageColor dst' 0 6 = Some color
    /\ (GetImageColor dst' 12 6 = GetImageColor dst 12 6
        \/ (in_disc 6 6 6 12 6 = true /\ GetImageColor dst' 12 6 = Some color)).
Proof.
  intros dst color.
  assert (Hok : Image_ok dst).
  { intros m Hm. injection Hm as <-. vm_compute. split; discriminate. }
  assert (Hc : Color_ok color) by (vm_compute; intuition discriminate).
  destruct (ImageDrawCircle_disc dst (replicate 676 (Byte 0)) 6 6 6 color 8
              eq_refl eq_refl Hok Hc ltac:(lia) ltac:(lia) ltac:(cbn [width dst]; lia)
              ltac:(lia) ltac:(cbn [height dst]; lia)
              ltac:(cbn [width dst]; lia) ltac:(cbn [height dst]; lia) ltac:(lia))
    as (dst' & E & _ & P & F & R).
  exists dst'. split; [exact E|]. split; [|split].
  - apply F. reflexivity.
  - apply R. lia.
  - apply P.
Defined.

(** ** Lines *)

Lemma line_minor_unique (dU dV k q r : Z) :
  2 * k * dV + dU = 2 * dU * q + r -> 0 <= r < 2 * dU -> line_minor dU dV k = q.
Proof.
  intros E Hr. unfold line_minor. symmetry.
  apply (Z.div_unique_pos _ _ q r); [exact Hr | exact E].
Qed.

Lemma line_minor_0 (dU dV : Z) : 0 <= dU -> line_minor dU dV 0 = 0.
Proof.
  intros H. unfold line_minor.
  destruct (Z.eq_dec dU 0) as [-> | ]; [reflexivity|].
  apply Z.div_small. lia.
Qed.

Lemma line_minor_end (dU dV : Z) : 0 < dU -> line_minor dU dV dU = dV.
Proof.
  intros H. apply (line_minor_unique dU dV dU dV dU); lia.
Qed.

Section Line.

Variables (dst : Image) (m : buffer) (color : Color).
Hypothesis Hm : data dst = Some m.
Hypothesis Hf : format dst = PIXELFORMAT_UNCOMPRESSED_R8G8B8A8.
Hypothesis Hok : Image_ok dst.
Hypothesis Hc : Color_ok color.

(** The loop of [ImageDrawLine]: the decision parameter is the remainder of
    the rounded division, so that the second coordinate follows
    [line_minor]. *)
Lemma ImageDrawLine_loop_path (reversedXY : bool) (startU startV dU dV stepV : Z)
    (cur : Image) :
  0 <= dV <= dU -> dU <= 2 ^ 29 ->
  - 2 ^ 28 <= startU <= 2 ^ 28 -> - 2 ^ 28 <= startV <= 2 ^ 28 ->
  stepV = 1 \/ stepV = -1 ->
  drawing dst m color (on_path reversedXY startU startV dU dV stepV)
    (fun x y => on_path reversedXY startU startV dU dV stepV x y = true
                /\ in_bounds dst x y = true
                /\ (if reversedXY then x else y) < startU + 1) cur ->
  exists s',
    for_range (startU + 1) (startU + dU + 1)
      (fun u '(dst, v, P) =>
         let '(v, P) :=
           if 0 <=? P then (int (v + stepV), int (P + (2 * dV - 2 * dU)))
           else (v, int (P + 2 * dV)) in
         do dst <- (if reversedXY then ImageDrawPixel dst u v color
                    else ImageDrawPixel dst v u color);
         Some (dst, v, P))
      (cur, startV, 2 * dV - dU) = Some s'
    /\ drawing dst m color (on_path reversedXY startU startV dU dV stepV)
         (fun x y => on_path reversedXY startU startV dU dV stepV x y = true
                     /\ in_bounds dst x y = true) (fst (fst s')).
Proof.
  intros HdV HdU HsU HsV Hstep D.
  assert (I : INT_MIN = -2147483648 /\ INT_MAX = 2147483647) by (split; reflexivity).
  assert (P28 : 2 ^ 28 = 268435456) by reflexivity.
  assert (P29 : 2 ^ 29 = 536870912) by reflexivity.
  set (box := on_path reversedXY startU startV dU dV stepV) in *.
  unfold for_range.
  edestruct (for_loop_inv_Some
               (fun (u : Z) (s : Image * Z * Z) =>
                  let '(c, v, P) := s in
                  drawing dst m color box
                    (fun x y => box x y = true /\ in_bounds dst x y = true
                                /\ (if reversedXY then x else y) < u) c
                  /\ (0 < dU ->
                      exists q r,
                        2 * (u - 1 - startU) * dV + dU = 2 * dU * q + r
                        /\ 0 <= r < 2 * dU /\ 0 <= q <= u - 1 - startU
                        /\ v = startV + stepV * q /\ P = r + 2 * dV - 2 * dU)))
    as (s' & Es & Is).
  3: { exists s'. split; [exact Es|]. cbv beta in Is.
       replace (startU + 1 + Z.of_nat (Z.to_nat (startU + dU + 1 - (startU + 1))))
         with (startU + dU + 1) in Is by lia. destruct s' as [[c v] P]. cbn [fst].
       destruct Is as [Dc _]. revert Dc. apply drawing_weaken.
       intros x y (Hb & Hin). split; [exact Hb|]. split; [exact Hin|].
       unfold box, on_path in Hb.
       destruct reversedXY; apply andb_prop in Hb as [Hb _];
         apply andb_prop in Hb as [_ Hb]; apply Z.leb_le in Hb; lia. }
  - split; [exact D|]. intros HdU0. exists 0, dU. lia.
  - intros u [[c v] P] Hu [Dc Hq].
    assert (HdU0 : 0 < dU) by lia.
    destruct (Hq HdU0) as (q & r & Eq & Hr & Hq0 & Ev & EP). clear Hq.
    assert (Step : exists q' r',
               (if 0 <=? P then (int (v + stepV), int (P + (2 * dV - 2 * dU)))
                else (v, int (P + 2 * dV)))
               = (startV + stepV * q', r' + 2 * dV - 2 * dU)
               /\ 2 * (u - startU) * dV + dU = 2 * dU * q' + r'
               /\ 0 <= r' < 2 * dU /\ 0 <= q' <= u - startU).
    { destruct (Z.leb_spec 0 P).
      - exists (q + 1), (r + 2 * dV - 2 * dU).
        rewrite (int_small (v + stepV)) by (destruct Hstep; subst; lia).
        rewrite (int_small (P + _)) by lia.
        split; [f_equal; subst; lia|]. lia.
      - exists q, (r + 2 * dV).
        rewrite (int_small (P + _)) by lia.
        split; [f_equal; subst; lia|]. lia. }
    destruct Step as (q' & r' & -> & Eq' & Hr' & Hq').
    pose proof (line_minor_unique dU dV (u - startU) q' r' Eq' Hr') as Eline.
    assert (Hbox : box (if reversedXY then u else startV + stepV * q')
                       (if reversedXY then startV + stepV * q' else u) = true).
    { unfold box, on_path. destruct reversedXY; rewrite Eline;
        rewrite !andb_true_iff, !Z.leb_le, Z.eqb_eq; lia. }
    assert (Next : exists next,
               (if reversedXY then ImageDrawPixel c u (startV + stepV * q') color
                else ImageDrawPixel c (startV + stepV * q') u color) = Some next
               /\ drawing dst m color box
                    (fun x y => box x y = true /\ in_bounds dst x y = true
                                /\ (if reversedXY then x else y) < u + 1) next).
    { destruct reversedXY.
      - destruct (drawing_pixel dst m color box Hm Hf Hok Hc _ c u
                    (startV + stepV * q') Dc Hbox) as (next & E & Dn).
        exists next. split; [exact E|]. revert Dn. apply drawing_weaken.
        intros x y (Hb & Hin & Hlt).
        destruct (Z_lt_ge_dec x u); [left; auto|]. right.
        assert (x = u) as -> by lia. split; [reflexivity|]. split; [|exact Hin].
        unfold box, on_path in Hb. rewrite Eline in Hb.
        rewrite !andb_true_iff, Z.eqb_eq in Hb. lia.
      - destruct (drawing_pixel dst m color box Hm Hf Hok Hc _ c
                    (startV + stepV * q') u Dc Hbox) as (next & E & Dn).
        exists next. split; [exact E|]. revert Dn. apply drawing_weaken.
        intros x y (Hb & Hin & Hlt).
        destruct (Z_lt_ge_dec y u); [left; auto|]. right.
        assert (y = u) as -> by lia. split; [|split; [reflexivity | exact Hin]].
        unfold box, on_path in Hb. rewrite Eline in Hb.
        rewrite !andb_true_iff, Z.eqb_eq in Hb. lia. }
    destruct Next as (next & -> & Dn). cbn [bind].
    eexists. split; [reflexivity|]. split; [exact Dn|].
    intros _. exists q', r'.
    replace (u + 1 - 1 - startU) with (u - startU) by lia. auto.
Qed.

(** The first pixel and the loop. *)
Lemma ImageDrawLine_path (reversedXY : bool) (startU startV dU dV stepV : Z) :
  0 <= dV <= dU -> dU <= 2 ^ 29 ->
  - 2 ^ 28 <= startU <= 2 ^ 28 -> - 2 ^ 28 <= startV <= 2 ^ 28 ->
  stepV = 1 \/ stepV = -1 ->
  exists dst' : Image,
    (do dst0 <- (if reversedXY then ImageDrawPixel dst startU startV color
                 else ImageDrawPixel dst startV startU color);
     do '(dst1, _, _) <-
       for_range (int (startU + 1)) (startU + dU + 1)
         (fun u '(dst, v, P) =>
            let '(v, P) :=
              if 0 <=? P then (int (v + stepV), int (P + (2 * dV - 2 * dU)))
              else (v, int (P + 2 * dV)) in
            do dst <- (if reversedXY then ImageDrawPixel dst u v color
                       else ImageDrawPixel dst v u color);
            Some (dst, v, P))
         (dst0, startV, 2 * dV - dU);
     Some dst1) = Some dst'
    /\ same_shape dst dst'
    /\ forall x y,
         GetImageColor dst' x y
         = if on_path reversedXY startU startV dU dV stepV x y && in_bounds dst x y
           then Some color else GetImageColor dst x y.
Proof.
  intros HdV HdU HsU HsV Hstep.
  assert (I : INT_MIN = -2147483648 /\ INT_MAX = 2147483647) by (split; reflexivity).
  assert (P28 : 2 ^ 28 = 268435456) by reflexivity.
  set (box := on_path reversedXY startU startV dU dV stepV).
  assert (Hbox : box (if reversedXY then startU else startV)
                     (if reversedXY then startV else startU) = true).
  { unfold box, on_path. destruct reversedXY;
      rewrite Z.sub_diag, line_minor_0 by lia;
      rewrite !andb_true_iff, !Z.leb_le, Z.eqb_eq; lia. }
  assert (First : exists d0,
             (if reversedXY then ImageDrawPixel dst startU startV color
              else ImageDrawPixel dst startV startU color) = Some d0
             /\ drawing dst m color box
                  (fun x y => box x y = true /\ in_bounds dst x y = true
                              /\ (if reversedXY then x else y) < startU + 1) d0).
  { pose proof (drawing_start dst m color box Hm) as D0.
    destruct reversedXY.
    - destruct (drawing_pixel dst m color box Hm Hf Hok Hc _ dst startU startV D0 Hbox)
        as (d0 & E & D). exists d0. split; [exact E|].
      revert D. apply drawing_weaken. intros x y (Hb & Hin & Hlt). right.
      unfold box, on_path in Hb. rewrite !andb_true_iff, !Z.leb_le, Z.eqb_eq in Hb.
      assert (x = startU) as -> by lia.
      rewrite Z.sub_diag, line_minor_0 in Hb by lia.
      split; [reflexivity|]. split; [lia | exact Hin].
    - destruct (drawing_pixel dst m color box Hm Hf Hok Hc _ dst startV startU D0 Hbox)
        as (d0 & E & D). exists d0. split; [exact E|].
      revert D. apply drawing_weaken. intros x y (Hb & Hin & Hlt). right.
      unfold box, on_path in Hb. rewrite !andb_true_iff, !Z.leb_le, Z.eqb_eq in Hb.
      assert (y = startU) as -> by lia.
      rewrite Z.sub_diag, line_minor_0 in Hb by lia.
      split; [lia|]. split; [reflexivity | exact Hin]. }
  destruct First as (d0 & -> & D0). cbn [bind].
  rewrite (int_small (startU + 1)) by lia.
  destruct (ImageDrawLine_loop_path reversedXY startU startV dU dV stepV d0
              HdV HdU HsU HsV Hstep D0) as ([[d1 v] P] & -> & D1).
  cbn [bind fst] in *. exists d1. split; [reflexivity|].
  split; [apply (drawing_same_shape dst m color _ Hm _ _ D1)|].
  destruct D1 as (mc & -> & _ & Pn & M). intros x y.
  destruct (box x y) eqn:Eb; cbn [andb].
  - destruct (in_bounds dst x y) eqn:Ein.
    + apply M. auto.
    + rewrite (GetImageColor_outside dst x y Ein).
      apply GetImageColor_outside. exact Ein.
  - destruct (Pn x y) as [[Hb _] | G]; [unfold box in Eb; congruence | exact G].
Qed.

End Line.

(** [ImageDrawLine] on an R8G8B8A8 image, for any two end points within
    2^28 of the origin, inside the image or not: the call returns, the image
    keeps its shape, and the pixels painted are exactly the pixels of
    [line_pixel] that fall inside the image.  The path runs along the axis of
    the larger extent from the end with the smaller coordinate, one pixel per
    step, displaced on the other axis by [k * dV / dU] rounded to the
    nearest integer.  Both end points are on it, and the two directions of a
    line paint the same pixels. *)
Theorem ImageDrawLine_pixels (dst : Image) (m : buffer) (x0 y0 x1 y1 : Z)
    (color : Color) :
  data dst = Some m -> format dst = PIXELFORMAT_UNCOMPRESSED_R8G8B8A8 ->
  Image_ok dst -> Color_ok color ->
  - 2 ^ 28 <= x0 <= 2 ^ 28 -> - 2 ^ 28 <= y0 <= 2 ^ 28 ->
  - 2 ^ 28 <= x1 <= 2 ^ 28 -> - 2 ^ 28 <= y1 <= 2 ^ 28 ->
  (exists dst' : Image,
     ImageDrawLine dst x0 y0 x1 y1 color = Some dst'
     /\ same_shape dst dst'
     /\ forall x y,
          GetImageColor dst' x y
          = if line_pixel x0 y0 x1 y1 x y && in_bounds dst x y
            then Some color else GetImageColor dst x y)
  /\ line_pixel x0 y0 x1 y1 x0 y0 = true
  /\ line_pixel x0 y0 x1 y1 x1 y1 = true
  /\ forall x y, line_pixel x1 y1 x0 y0 x y = line_pixel x0 y0 x1 y1 x y.
Proof.
  intros Hm Hf Hok Hc Hx0 Hy0 Hx1 Hy1.
  assert (I : INT_MIN = -2147483648 /\ INT_MAX = 2147483647) by (split; reflexivity).
  assert (P28 : 2 ^ 28 = 268435456) by reflexivity.
  assert (P29 : 2 ^ 29 = 536870912) by reflexivity.
  assert (Ends : forall (rev : bool) (sU sV eV dU dV : Z),
             0 <= dU -> dV = Z.abs (eV - sV) -> (dU = 0 -> dV = 0) ->
             let stepV := if eV <? sV then -1 else 1 in
             (if rev then on_path rev sU sV dU dV stepV sU sV
              else on_path rev sU sV dU dV stepV sV sU) = true
             /\ (if rev then on_path rev sU sV dU dV stepV (sU + dU) eV
                 else on_path rev sU sV dU dV stepV eV (sU + dU)) = true).
  { intros rev sU sV eV dU dV HdU EdV H0 stepV. unfold on_path.
    assert (E1 : sV = sV + stepV * line_minor dU dV (sU - sU))
      by (rewrite Z.sub_diag, line_minor_0 by lia; lia).
    assert (E2 : eV = sV + stepV * line_minor dU dV (sU + dU - sU)).
    { replace (sU + dU - sU) with dU by lia.
      destruct (Z.eq_dec dU 0) as [-> | Hn].
      - rewrite line_minor_0 by lia. specialize (H0 eq_refl). lia.
      - rewrite line_minor_end by lia. unfold stepV.
        destruct (Z.ltb_spec eV sV); lia. }
    destruct rev; rewrite !andb_true_iff, !Z.leb_le, !Z.eqb_eq; lia. }
  split; [|split; [|split]].
  - unfold ImageDrawLine, line_pixel.
    rewrite (int_small (x1 - x0)) by lia. rewrite (int_small (y1 - y0)) by lia.
    rewrite !abs_int by lia.
    set (dx := Z.abs (x1 - x0)). set (dy := Z.abs (y1 - y0)).
    rewrite (int_small (2 * dy)), (int_small (2 * dx)) by lia.
    rewrite (int_small (2 * dy - 2 * dx)), (int_small (2 * dx - 2 * dy)) by lia.
    rewrite (int_small (2 * dy - dx)), (int_small (2 * dx - dy)) by lia.
    rewrite (int_small (- (x1 - x0))), (int_small (- (y1 - y0))) by lia.
    destruct (Z.ltb_spec dy dx) as [Hrev | Hrev].
    + destruct (Z.ltb_spec 0 (x1 - x0)) as [Hdir | Hdir];
        destruct (Z.ltb_spec x0 x1); try lia; cbv zeta.
      * replace (y1 - y0 <? 0) with (y1 <? y0)
          by (destruct (Z.ltb_spec y1 y0); destruct (Z.ltb_spec (y1 - y0) 0); lia).
        destruct (ImageDrawLine_path dst m color Hm Hf Hok Hc true x0 y0 dx dy
                    (if y1 <? y0 then -1 else 1))
          as (dst' & E & S & G); try lia; [destruct (y1 <? y0); auto|].
        exists dst'. split; [|split; [exact S | exact G]].
        destruct (ImageDrawPixel dst x0 y0 color) as [d0|]; [|discriminate E].
        cbn [bind] in E |- *.
        replace (x1 + 1) with (x0 + dx + 1) by lia. exact E.
      * replace (- (y1 - y0) <? 0) with (y0 <? y1)
          by (destruct (Z.ltb_spec y0 y1); destruct (Z.ltb_spec (- (y1 - y0)) 0); lia).
        destruct (ImageDrawLine_path dst m color Hm Hf Hok Hc true x1 y1 dx dy
                    (if y0 <? y1 then -1 else 1))
          as (dst' & E & S & G); try lia; [destruct (y0 <? y1); auto|].
        exists dst'. split; [|split; [exact S | exact G]].
        destruct (ImageDrawPixel dst x1 y1 color) as [d0|]; [|discriminate E].
        cbn [bind] in E |- *.
        replace (x0 + 1) with (x1 + dx + 1) by lia. exact E.
    + destruct (Z.ltb_spec 0 (y1 - y0)) as [Hdir | Hdir];
        destruct (Z.ltb_spec y0 y1); try lia; cbv zeta.
      * replace (x1 - x0 <? 0) with (x1 <? x0)
          by (destruct (Z.ltb_spec x1 x0); destruct (Z.ltb_spec (x1 - x0) 0); lia).
        destruct (ImageDrawLine_path dst m color Hm Hf Hok Hc false y0 x0 dy dx
                    (if x1 <? x0 then -1 else 1))
          as (dst' & E & S & G); try lia; [destruct (x1 <? x0); auto|].
        exists dst'. split; [|split; [exact S | exact G]].
        destruct (ImageDrawPixel dst x0 y0 color) as [d0|]; [|discriminate E].
        cbn [bind] in E |- *.
        replace (y1 + 1) with (y0 + dy + 1) by lia. exact E.
      * replace (- (x1 - x0) <? 0) with (x0 <? x1)
          by (destruct (Z.ltb_spec x0 x1); destruct (Z.ltb_spec (- (x1 - x0)) 0); lia).
        destruct (ImageDrawLine_path dst m color Hm Hf Hok Hc false y1 x1 dy dx
                    (if x0 <? x1 then -1 else 1))
          as (dst' & E & S & G); try lia; [destruct (x0 <? x1); auto|].
        exists dst'. split; [|split; [exact S | exact G]].
        destruct (ImageDrawPixel dst x1 y1 color) as [d0|]; [|discriminate E].
        cbn [bind] in E |- *.
        replace (y0 + 1) with (y1 + dy + 1) by lia. exact E.
  - unfold line_pixel.
    destruct (Z.ltb_spec (Z.abs (y1 - y0)) (Z.abs (x1 - x0)));
      [destruct (Z.ltb_spec x0 x1) | destruct (Z.ltb_spec y0 y1)].
    + apply (Ends true x0 y0 y1); lia.
    + destruct (Ends true x1 y1 y0 (Z.abs (x1 - x0)) (Z.abs (y1 - y0)))
        as [_ E2]; try lia.
      replace (x1 + Z.abs (x1 - x0)) with x0 in E2 by lia. exact E2.
    + apply (Ends false y0 x0 x1); lia.
    + destruct (Ends false y1 x1 x0 (Z.abs (y1 - y0)) (Z.abs (x1 - x0)))
        as [_ E2]; try lia.
      replace (y1 + Z.abs (y1 - y0)) with y0 in E2 by lia. exact E2.
  - unfold line_pixel.
    destruct (Z.ltb_spec (Z.abs (y1 - y0)) (Z.abs (x1 - x0)));
      [destruct (Z.ltb_spec x0 x1) | destruct (Z.ltb_spec y0 y1)].
    + destruct (Ends true x0 y0 y1 (Z.abs (x1 - x0)) (Z.abs (y1 - y0)))
        as [_ E2]; try lia.
      replace (x0 + Z.abs (x1 - x0)) with x1 in E2 by lia. exact E2.
    + apply (Ends true x1 y1 y0); lia.
    + destruct (Ends false y0 x0 x1 (Z.abs (y1 - y0)) (Z.abs (x1 - x0)))
        as [_ E2]; try lia.
      replace (y0 + Z.abs (y1 - y0)) with y1 in E2 by lia. exact E2.
    + apply (Ends false y1 x1 x0); lia.
  - intros x y. unfold line_pixel.
    replace (Z.abs (x0 - x1)) with (Z.abs (x1 - x0)) by lia.
    replace (Z.abs (y0 - y1)) with (Z.abs (y1 - y0)) by lia.
    destruct (Z.ltb_spec (Z.abs (y1 - y0)) (Z.abs (x1 - x0))).
    + destruct (Z.ltb_spec x0 x1); destruct (Z.ltb_spec x1 x0); try lia; reflexivity.
    + destruct (Z.ltb_spec y0 y1); destruct (Z.ltb_spec y1 y0); try lia; try reflexivity.
      assert (y0 = y1) by lia. assert (x0 = x1) by lia. subst. reflexivity.
Qed.

Lemma ImageDrawLine_pixels_witness :
  let dst := mkImage (Some (replicate 48 (Byte 0))) 4 3 1
               PIXELFORMAT_UNCOMPRESSED_R8G8B8A8 in
  let color := mkColor 9 8 7 255 in
  exists dst' : Image,
    ImageDrawLine dst 0 0 3 2 color = Some dst'
    /\ GetImageColor dst' 1 1 = Some color
    /\ GetImageColor dst' 2 1 = Some color
    /\ GetImageColor dst' 2 2 = Some BLANK.
Proof.
  intros dst color.
  assert (Hok : Image_ok dst).
  { intros m Hm. injection Hm as <-. vm_compute. split; discriminate. }
  assert (Hc : Color_ok color) by (vm_compute; intuition discriminate).
  destruct (ImageDrawLine_pixels dst (replicate 48 (Byte 0)) 0 0 3 2 color
              eq_refl eq_refl Hok Hc ltac:(lia) ltac:(lia) ltac:(lia) ltac:(lia))
    as ((dst' & E & _ & G) & _).
  exists dst'. split; [exact E|].
  rewrite (G 1 1), (G 2 1), (G 2 2). repeat split; reflexivity.
Defined.

(** ** ImageFormat towards the 16-bit formats *)

Lemma quantize_63 (v : Z) :
  is_uchar v -> quantize v 63 = level v 63 /\ 0 <= quantize v 63 < 64.
Proof.
  intros Hv.
  assert (H : ((quantize v 63 =? level v 63) && (0 <=? quantize v 63)
               && (quantize v 63 <? 64)) = true).
  { revert v Hv. apply (all_below_spec 256). vm_compute. reflexivity. }
  repeat (apply andb_true_iff in H as [H ?]).
  apply Z.eqb_eq in H. apply Z.leb_le in H1. apply Z.ltb_lt in H0. auto.
Qed.

Lemma r5g6b5_packed (r5 g6 b5 : Z) :
  0 <= r5 < 32 -> 0 <= g6 < 64 -> 0 <= b5 < 32 ->
  let p := pack_r5g6b5 r5 g6 b5 in
  0 <= p < 65536 /\ p / 2048 = r5 /\ (p / 32) mod 64 = g6 /\ p mod 32 = b5.
Proof.
  intros Hr Hg Hb p.
  set (w := r5 * 2048 + g6 * 32 + b5).
  assert (Hw : 0 <= w < 65536) by (subst w; lia).
  assert (E1 : w / 2048 = r5)
    by (symmetry; apply (Z.div_unique w 2048 r5 (g6 * 32 + b5)); subst w; lia).
  assert (E2 : w / 32 = r5 * 64 + g6)
    by (symmetry; apply (Z.div_unique w 32 _ b5); subst w; lia).
  assert (E3 : w mod 32 = b5)
    by (symmetry; apply (Z.mod_unique w 32 (r5 * 64 + g6)); subst w; lia).
  assert (E4 : (r5 * 64 + g6) mod 64 = g6)
    by (symmetry; apply (Z.mod_unique _ 64 r5); lia).
  destruct (r5g6b5_fields w Hw) as (_ & _ & _ & Ep).
  rewrite E1, E2, E3, E4 in Ep. fold p in Ep. rewrite Ep.
  rewrite E1, E2, E3, E4. auto.
Qed.

Lemma r5g5b5a1_packed (r5 g5 b5 a1 : Z) :
  0 <= r5 < 32 -> 0 <= g5 < 32 -> 0 <= b5 < 32 -> 0 <= a1 < 2 ->
  let p := pack_r5g5b5a1 r5 g5 b5 a1 in
  0 <= p < 65536 /\ p / 2048 = r5 /\ (p / 64) mod 32 = g5
  /\ (p / 2) mod 32 = b5 /\ p mod 2 = a1.
Proof.
  intros Hr Hg Hb Ha p.
  set (P := fun w : Z =>
         pack_r5g5b5a1 (w / 2048) ((w / 64) mod 32) ((w / 2) mod 32) (w mod 2) =? w).
  assert (A : all_below 65536 P = true) by (vm_compute; reflexivity).
  set (w := r5 * 2048 + g5 * 64 + b5 * 2 + a1).
  assert (Hw : 0 <= w < 65536) by (subst w; lia).
  pose proof (all_below_spec 65536 P A w Hw) as H.
  subst P. cbv beta in H. apply Z.eqb_eq in H.
  assert (E1 : w / 2048 = r5)
    by (symmetry; apply (Z.div_unique w 2048 r5 (g5 * 64 + b5 * 2 + a1)); subst w; lia).
  assert (E2 : w / 64 = r5 * 32 + g5)
    by (symmetry; apply (Z.div_unique w 64 _ (b5 * 2 + a1)); subst w; lia).
  assert (E3 : w / 2 = r5 * 1024 + g5 * 32 + b5)
    by (symmetry; apply (Z.div_unique w 2 _ a1); subst w; lia).
  assert (E4 : w mod 2 = a1)
    by (symmetry; apply (Z.mod_unique w 2 (r5 * 1024 + g5 * 32 + b5)); subst w; lia).
  assert (E5 : (r5 * 32 + g5) mod 32 = g5)
    by (symmetry; apply (Z.mod_unique _ 32 r5); lia).
  assert (E6 : (r5 * 1024 + g5 * 32 + b5) mod 32 = b5)
    by (symmetry; apply (Z.mod_unique _ 32 (r5 * 32 + g5)); lia).
  rewrite E1, E2, E3, E4, E5, E6 in H. fold p in H. rewrite H.
  rewrite E1, E2, E3, E4, E5, E6. auto.
Qed.

Lemma store_load_ushort_at (m : buffer) (off w : Z) :
  0 <= off -> off + 2 <= Z.of_nat (length m) -> 0 <= w < 65536 ->
  exists m', store_ushort m off w = Some m' /\ length m' = length m
    /\ load_ushort m' off = Some w
    /\ forall k, k < off \/ off + 2 <= k -> load_uchar m' k = load_uchar m k.
Proof.
  intros H0 H1 Hw. unfold store_ushort, load_ushort.
  destruct (store_load_uchar m off w ltac:(lia)) as (m1 & E1 & L1 & G1 & K1).
  rewrite E1. cbn [bind].
  destruct (store_load_uchar m1 (off + 1) (Z.shiftr w 8) ltac:(lia))
    as (m2 & E2 & L2 & G2 & K2).
  rewrite E2. exists m2. split; [reflexivity|]. split; [congruence|]. split.
  - rewrite (K2 off) by lia. rewrite G1, G2. cbn [bind].
    rewrite ushort_bytes by assumption. reflexivity.
  - intros k Hk. rewrite K2, K1 by lia. reflexivity.
Qed.

Ltac sixteen_bit_cases H :=
  destruct H as [H | [H | H]]; rewrite H in *.

(** The word stored for a colour has its fields at the levels of the
    channels. *)
Lemma ImageFormat_word_fields (f : Z) (c : Color) :
  sixteen_bit f -> Color_ok c ->
  let p := ImageFormat_word f c in
  0 <= p < 65536
  /\ (if f =? PIXELFORMAT_UNCOMPRESSED_R5G6B5
      then p / 2048 = level (r c) 31 /\ (p / 32) mod 64 = level (g c) 63
           /\ p mod 32 = level (b c) 31
      else if f =? PIXELFORMAT_UNCOMPRESSED_R5G5B5A1
      then p / 2048 = level (r c) 31 /\ (p / 64) mod 32 = level (g c) 31
           /\ (p / 2) mod 32 = level (b c) 31
           /\ p mod 2 = (if 50 <? a c then 1 else 0)
      else p / 4096 = level (r c) 15 /\ (p / 256) mod 16 = level (g c) 15
           /\ (p / 16) mod 16 = level (b c) 15 /\ p mod 16 = level (a c) 15).
Proof.
  intros H16 (Hr & Hg & Hb & Ha) p. subst p. unfold ImageFormat_word.
  destruct (quantize_levels (r c) Hr) as ((Qr15 & Rr15) & (Qr31 & Rr31) & _).
  destruct (quantize_levels (g c) Hg) as ((Qg15 & Rg15) & (Qg31 & Rg31) & _).
  destruct (quantize_levels (b c) Hb) as ((Qb15 & Rb15) & (Qb31 & Rb31) & _).
  destruct (quantize_levels (a c) Ha) as ((Qa15 & Ra15) & _ & Qa1 & _).
  destruct (quantize_63 (g c) Hg) as (Qg63 & Rg63).
  fold (level (r c) 15) in Qr15. fold (level (g c) 15) in Qg15.
  fold (level (b c) 15) in Qb15. fold (level (a c) 15) in Qa15.
  fold (level (r c) 31) in Qr31. fold (level (g c) 31) in Qg31.
  fold (level (b c) 31) in Qb31.
  rewrite Qr15 in Rr15. rewrite Qg15 in Rg15. rewrite Qb15 in Rb15. rewrite Qa15 in Ra15.
  rewrite Qr31 in Rr31. rewrite Qg31 in Rg31. rewrite Qb31 in Rb31. rewrite Qg63 in Rg63.
  rewrite Qr15, Qg15, Qb15, Qa15, Qr31, Qg31, Qb31, Qg63, Qa1.
  sixteen_bit_cases H16; format_tests.
  - destruct (r5g6b5_packed _ _ _ Rr31 Rg63 Rb31) as (Hp & F1 & F2 & F3). auto.
  - assert (Ra1 : 0 <= (if 50 <? a c then 1 else 0) < 2) by (destruct (50 <? a c); lia).
    destruct (r5g5b5a1_packed _ _ _ _ Rr31 Rg31 Rb31 Ra1) as (Hp & F1 & F2 & F3 & F4).
    auto.
  - destruct (r4g4b4a4_fields _ _ _ _ Rr15 Rg15 Rb15 Ra15) as (Hp & F1 & F2 & F3 & F4).
    destruct (ushort_fields _ Hp)
      as ((_ & U1 & _ & _) & _ & (U2 & _ & U3 & _) & (_ & U4 & _)).
    set (p := pack_r4g4b4a4 _ _ _ _) in *.
    rewrite <- U1, F1, <- U2, F2, <- U3, F3, <- U4, F4. auto.
Qed.

Lemma ImageFormat_store_16bit (out : buffer) (i : Z) (c : Color) (f : Z) :
  sixteen_bit f ->
  ImageFormat_store f out i (normalized_color c)
  = store_ushort out (2 * i) (ImageFormat_word f c).
Proof.
  intros H16. unfold ImageFormat_store, ImageFormat_word, normalized_color.
  cbn [v_x v_y v_z v_w].
  sixteen_bit_cases H16; format_tests; reflexivity.
Qed.

Lemma load_ushort_ext (m1 m2 : buffer) (off : Z) :
  (forall k, off <= k < off + 2 -> load_uchar m1 k = load_uchar m2 k) ->
  load_ushort m1 off = load_ushort m2 off.
Proof.
  intros H. unfold load_ushort. rewrite (H off), (H (off + 1)) by lia. reflexivity.
Qed.

(** The conversion loop of [ImageFormat] towards a 16-bit format. *)
Lemma ImageFormat_loop_16bit (px out0 : buffer) (f count : Z) (col : Z -> Color) :
  sixteen_bit f -> 0 <= count ->
  Z.of_nat (length out0) = count * 2 ->
  (forall k, 0 <= k < count ->
     load_Vector4 px k = Some (normalized_color (col k)) /\ Color_ok (col k)) ->
  exists out : buffer,
    for_step count 1
      (fun i k out =>
         do px <- Some px; do p <- load_Vector4 px k;
         do m <- out; do m <- ImageFormat_store f m i p; Some (Some m))
      (Some out0)
    = Some (Some out)
    /\ Z.of_nat (length out) = count * 2
    /\ forall k, 0 <= k < count ->
         load_ushort out (2 * k) = Some (ImageFormat_word f (col k)).
Proof.
  intros H16 Hc L0 Hpx.
  unfold for_step, for_range.
  replace ((count + 1 - 1) / 1) with count by (rewrite Z.div_1_r; lia).
  rewrite Z.sub_0_r.
  edestruct (for_loop_inv_Some
               (fun (k : Z) (s : option buffer) =>
                  exists out, s = Some out /\ Z.of_nat (length out) = count * 2
                    /\ forall k', 0 <= k' < k ->
                         load_ushort out (2 * k') = Some (ImageFormat_word f (col k'))))
    as (s' & Es & Is).
  3: { rewrite Es. cbv beta in Is. rewrite Z2Nat.id, Z.add_0_l in Is by lia.
       destruct Is as (out & -> & Lo & Go). exists out. auto. }
  - exists out0. split; [reflexivity|]. split; [exact L0|]. intros k' Hk'. lia.
  - intros k s Hk (out & -> & Lo & Go). rewrite Z2Nat.id in Hk by lia.
    destruct (Hpx k ltac:(lia)) as [Ek Okk]. cbn [bind]. rewrite Ek. cbn [bind].
    rewrite (ImageFormat_store_16bit out (k * 1) (col k) f H16).
    replace (2 * (k * 1)) with (2 * k) by ring.
    destruct (ImageFormat_word_fields f (col k) H16 Okk) as [Hp _].
    destruct (store_load_ushort_at out (2 * k) _ ltac:(lia) ltac:(lia) Hp)
      as (m' & -> & L' & G' & K').
    cbn [bind]. eexists. split; [reflexivity|].
    exists m'. split; [reflexivity|]. split; [lia|].
    intros k' Hk'. destruct (Z.eq_dec k' k) as [->|Ne]; [exact G'|].
    rewrite <- (Go k' ltac:(lia)).
    apply load_ushort_ext. intros j Hj. apply K'. lia.
Qed.

Lemma level_range (v n : Z) : is_uchar v -> 0 < n -> 0 <= level v n <= n.
Proof.
  unfold is_uchar, level. intros Hv Hn. split.
  - apply Z.div_pos; lia.
  - assert (v * n <= 255 * n) by (apply Z.mul_le_mono_nonneg_r; lia).
    assert ((v * n + 127) / 255 < n + 1) by (apply Z.div_lt_upper_bound; lia).
    lia.
Qed.

Lemma scaled_level (v n ratio : Z) :
  is_uchar v -> 0 < n < 64 -> 0 <= ratio < 64 -> n * ratio < 256 ->
  F32.to_uchar (F32.mul (F32.of_int (level v n)) (F32.of_int ratio)) = ratio * level v n.
Proof.
  intros Hv Hn Hr Hnr. pose proof (level_range v n Hv ltac:(lia)) as Hl.
  rewrite scaled_field; [ring | lia | lia |].
  assert (level v n * ratio <= n * ratio) by (apply Z.mul_le_mono_nonneg_r; lia). lia.
Qed.

(** [GetImageColor] on an image of a 16-bit format, from the word of the
    pixel. *)
Lemma GetImageColor_word (image : Image) (m : buffer) (x y : Z) (c : Color) :
  data image = Some m -> sixteen_bit (format image) -> Color_ok c ->
  width image * height image * 2 <= INT_MAX ->
  0 <= x < width image -> 0 <= y < height image ->
  load_ushort m (2 * (y * width image + x)) = Some (ImageFormat_word (format image) c) ->
  GetImageColor image x y = Some (ImageFormat_color16 (format image) c).
Proof.
  intros Hm H16 Hc Hmax Hx Hy Hload.
  assert (Hmin : INT_MIN <= 0) by (unfold INT_MIN; lia).
  assert (HM : INT_MAX = 2147483647) by reflexivity.
  destruct (row_major_bound (width image) (height image) x y Hx Hy) as [B1 B2].
  assert (B3 : 0 <= y * width image <= y * width image + x) by lia.
  assert (Hidx : int (int (y * width image) + x) = y * width image + x).
  { rewrite (int_small (y * width image)) by lia. apply int_small. lia. }
  destruct (ImageFormat_word_fields (format image) c H16 Hc) as [Hp F].
  set (p := ImageFormat_word (format image) c) in *.
  destruct (ushort_fields p Hp)
    as ((_ & _ & U1 & U2) & (_ & U3 & _ & U4 & U5) & (_ & U6 & _ & U7) & (U8 & U9 & U10)).
  destruct (quantize_levels (r c) (proj1 Hc)) as ((_ & Rr15) & (_ & Rr31) & _).
  unfold GetImageColor, ImageFormat_color16.
  destruct (Z.leb_spec 0 x); [|lia]. destruct (Z.ltb_spec x (width image)); [|lia].
  destruct (Z.leb_spec 0 y); [|lia]. destruct (Z.ltb_spec y (height image)); [|lia].
  cbn [andb]. rewrite Hidx, Hm. cbn [bind].
  change (255 ÷ 31) with 8. change (255 ÷ 63) with 4. change (255 ÷ 15) with 17.
  clearbody p.
  sixteen_bit_cases H16; format_tests; rewrite Hload; cbn [bind].
  - destruct F as (F1 & F2 & F3).
    rewrite U1, U3, U8, F1, F2, F3.
    rewrite !scaled_level by (try apply Hc; lia). reflexivity.
  - destruct F as (F1 & F2 & F3 & F4).
    rewrite U1, U4, U5, U10, F1, F2, F3, F4.
    rewrite !scaled_level by (try apply Hc; lia).
    destruct (50 <? a c); reflexivity.
  - destruct F as (F1 & F2 & F3 & F4).
    rewrite U2, U6, U7, U9, F1, F2, F3, F4.
    rewrite !scaled_level by (try apply Hc; lia). reflexivity.
Qed.

(** [ImageFormat] from an 8-bit format to a 16-bit one, on a well-formed
    image with defined pixels: the result has the new format, the same
    dimensions, at most one mipmap level and two bytes per pixel, and
    [GetImageColor] reads from it, for the colour [c] read before, the
    channels at the levels of the format: [(c * n + 127) / 255] on the scale
    of [n] = 31, 63 or 15 levels, multiplied by 8, 4 or 17; the alpha is 255
    for R5G6B5, and 255 or 0 for R5G5B5A1 as the alpha was above 50 or not.
    So no pixel of an R5G6B5 or R5G5B5A1 result reads above 248 (252 for the
    green of R5G6B5). *)
Theorem ImageFormat_16bit (image : Image) (m : buffer) (newFormat : Z) :
  data image = Some m ->
  eight_bit (format image) -> sixteen_bit newFormat ->
  Image_ok image -> Forall is_byte m ->
  0 < width image -> 0 < height image ->
  width image * height image * 4 <= INT_MAX ->
  exists m' : buffer,
    let image' := mkImage (Some m') (width image) (height image)
                    (if 1 <? mipmaps image then 1 else mipmaps image) newFormat in
    ImageFormat image newFormat = Some image'
    /\ Z.of_nat (length m') = width image * height image * 2
    /\ forall x y, 0 <= x < width image -> 0 <= y < height image ->
         exists c, GetImageColor image x y = Some c
                   /\ GetImageColor image' x y = Some (ImageFormat_color16 newFormat c).
Proof.
  intros Hm H8 H16 Hok Hb HW HH Hmax.
  assert (Hmin : INT_MIN <= 0) by (unfold INT_MIN; lia).
  assert (HM : INT_MAX = 2147483647) by reflexivity.
  assert (Hc0 : 0 < width image * height image) by (apply Z.mul_pos_pos; lia).
  destruct (LoadImageDataNormalized_8bit image m Hm H8 Hok Hb HW HH)
    as (px & Epx & Lpx & Cpx).
  set (count := width image * height image) in *.
  assert (Hstep : ImageFormat_step newFormat = 1
                  /\ ImageFormat_sizeof newFormat = 2
                  /\ (newFormat =? 0) = false
                  /\ (newFormat <? PIXELFORMAT_COMPRESSED_DXT1_RGB) = true
                  /\ (PIXELFORMAT_UNCOMPRESSED_GRAYSCALE <=? newFormat) = true
                  /\ (newFormat <=? PIXELFORMAT_UNCOMPRESSED_R32G32B32A32) = true).
  { destruct H16 as [-> | [-> | ->]]; vm_compute; repeat split; reflexivity. }
  destruct Hstep as (Estep & Esz & En0 & Enc & Eg & El).
  assert (Hne : format image <> newFormat).
  { destruct H8 as [-> | [-> | [-> | ->]]]; destruct H16 as [-> | [-> | ->]];
      discriminate. }
  assert (Hfc : (format image <? PIXELFORMAT_COMPRESSED_DXT1_RGB) = true).
  { destruct H8 as [-> | [-> | [-> | ->]]]; reflexivity. }
  set (col := fun k => match GetImageColor image (k mod width image) (k / width image) with
                       | Some c => c
                       | None => BLANK
                       end).
  assert (Hcol : forall k, 0 <= k < count ->
            load_Vector4 px k = Some (normalized_color (col k)) /\ Color_ok (col k)).
  { intros k Hk. destruct (Cpx k Hk) as (c & Ec & Okc & Lc).
    unfold col. rewrite Ec. auto. }
  destruct (ImageFormat_loop_16bit px (replicate (Z.to_nat (count * 2)) Undef)
              newFormat count col H16 ltac:(lia)
              ltac:(rewrite length_replicate; lia) Hcol)
    as (out & Eout & Lout & Gout).
  exists out. cbv zeta.
  split; [|split].
  - unfold ImageFormat. rewrite Hm. cbn [is_null].
    destruct (Z.eqb_spec (width image) 0); [lia|].
    destruct (Z.eqb_spec (height image) 0); [lia|].
    cbn [orb]. rewrite En0.
    destruct (Z.eqb_spec (format image) newFormat) as [Heq|_]; [congruence|].
    cbn [negb andb]. rewrite Hfc, Enc. cbn [andb]. rewrite Epx. cbn [bind].
    rewrite Eg, El. cbn [andb]. fold count. rewrite Estep, Esz.
    rewrite (int_small count) by lia. rewrite Z.mul_1_r. rewrite (int_small count) by lia.
    rewrite (size_t_small count) by lia.
    rewrite (size_t_small (count * 2)) by lia.
    unfold RL_MALLOC.
    destruct (Z.ltb_spec (count * 2) 9223372036854775808); [|lia].
    cbn [bind] in Eout. rewrite Eout. cbn [bind]. reflexivity.
  - exact Lout.
  - intros x y Hx Hy.
    destruct (row_major_bound (width image) (height image) x y Hx Hy) as [B1 B2].
    destruct (row_major_split (width image) x y Hx) as [D1 D2].
    destruct (Cpx (y * width image + x) ltac:(fold count in B2; lia)) as (c & Ec & Okc & _).
    rewrite D1, D2 in Ec. exists c. split; [exact Ec|].
    apply (GetImageColor_word
             (mkImage (Some out) (width image) (height image)
                (if 1 <? mipmaps image then 1 else mipmaps image) newFormat)
             out x y c eq_refl H16 Okc); cbn [width height format]; try lia.
    rewrite (Gout (y * width image + x)) by (fold count in B2; lia).
    unfold col. rewrite D1, D2, Ec. reflexivity.
Qed.

(** The theorem on a 2x1 R8G8B8A8 image with a white and a dim pixel,
    turned into R5G6B5 and into R4G4B4A4. *)
Lemma ImageFormat_16bit_witness :
  let image := mkImage (Some (map Byte [255; 255; 255; 255;  10; 20; 30; 40])) 2 1 1
                 PIXELFORMAT_UNCOMPRESSED_R8G8B8A8 in
  (exists image', ImageFormat image PIXELFORMAT_UNCOMPRESSED_R5G6B5 = Some image'
     /\ GetImageColor image' 0 0 = Some (mkColor 248 252 248 255)
     /\ GetImageColor image' 1 0 = Some (mkColor 8 20 32 255))
  /\ (exists image', ImageFormat image PIXELFORMAT_UNCOMPRESSED_R4G4B4A4 = Some image'
     /\ GetImageColor image' 0 0 = Some (mkColor 255 255 255 255)
     /\ GetImageColor image' 1 0 = Some (mkColor 17 17 34 34)).
Proof.
  intros image.
  assert (Hok : Image_ok image).
  { intros m Hm. injection Hm as <-. vm_compute. split; discriminate. }
  assert (Hb : Forall is_byte (map Byte [255; 255; 255; 255;  10; 20; 30; 40])).
  { vm_compute. repeat constructor; discriminate. }
  assert (H8 : eight_bit (format image)) by (do 3 right; reflexivity).
  split.
  - destruct (ImageFormat_16bit image _ PIXELFORMAT_UNCOMPRESSED_R5G6B5 eq_refl H8
                ltac:(left; reflexivity) Hok Hb ltac:(cbn; lia) ltac:(cbn; lia)
                ltac:(vm_compute; discriminate)) as (m' & E & _ & P).
    eexists. split; [exact E|].
    destruct (P 0 0 ltac:(cbn; lia) ltac:(cbn; lia)) as (c0 & E0 & ->).
    destruct (P 1 0 ltac:(cbn; lia) ltac:(cbn; lia)) as (c1 & E1 & ->).
    vm_compute in E0, E1. injection E0 as <-. injection E1 as <-.
    split; reflexivity.
  - destruct (ImageFormat_16bit image _ PIXELFORMAT_UNCOMPRESSED_R4G4B4A4 eq_refl H8
                ltac:(right; right; reflexivity) Hok Hb ltac:(cbn; lia) ltac:(cbn; lia)
                ltac:(vm_compute; discriminate)) as (m' & E & _ & P).
    eexists. split; [exact E|].
    destruct (P 0 0 ltac:(cbn; lia) ltac:(cbn; lia)) as (c0 & E0 & ->).
    destruct (P 1 0 ltac:(cbn; lia) ltac:(cbn; lia)) as (c1 & E1 & ->).
    vm_compute in E0, E1. injection E0 as <-. injection E1 as <-.
    split; reflexivity.
Defined.
